(** * Link resolution and resilient download: a shallow embedding

    Two scripts are modelled: [dimakids/dimakids-downloader.py] (module
    [Dimakids]) and [stardima/stardima-extract.py] (module [Stardima]).

    Conventions of the embedding:
    - a Python [str] is a [string], the bytes of its UTF-8 encoding;
      character classes and case mapping are given on ASCII, bytes above
      127 are ordinary characters, and a statement that depends on a class
      or on the case says which characters it is about;
    - a decoded JSON document or any other dynamically typed Python value is
      a [value];
    - a Python [dict] is an association list in insertion order ([dict]);
      the file system is a finite map from paths to contents;
    - effects (network, file system, the media downloader, sleeping) are
      threaded through a state-and-exception monad [M] over a [World] that
      records every effect in a trace; the replies of the outside world are
      an oracle indexed by the length of that trace;
    - console output is no effect of the model and is taken to go through;
      the one print whose text carries the user's own input, the warning of
      [parse_episode_selection], is modelled with the markup check of the
      console;
    - library functions that the scripts only call ([urljoin], base64,
      [unquote], the HTML parser, [int] on a text with characters outside
      ASCII, the markup of the console) are the fields of a [PyLib]. *)

From Stdlib Require Import ZArith Ascii String DecimalString DecimalPos Lia.
From stdpp Require Import base strings list gmap sorting.

Local Open Scope string_scope.
Local Open Scope list_scope.
Local Open Scope Z_scope.

(** ** Python string primitives *)
Module Py.

Definition code (c : ascii) : nat := nat_of_ascii c.

(** A text is the sequence of the bytes of its UTF-8 encoding, so that a
    character of ASCII is one byte below 128 and any other character is a
    run of bytes from 128 up. The classes below are the ASCII part of
    Python's classes; on a text of ASCII characters they are Python's
    classes, and on another text a statement that depends on a class says
    which characters it is about. *)
Definition is_ascii (c : ascii) : bool := (code c <? 128)%nat.

Fixpoint ascii_text (s : string) : bool :=
  match s with
  | EmptyString => true
  | String c s' => is_ascii c && ascii_text s'
  end.

(** [str.isspace] on ASCII: tab, LF, VT, FF, CR, FS, GS, RS, US, space. *)
Definition is_space (c : ascii) : bool :=
  (((9 <=? code c) && (code c <=? 13)) || ((28 <=? code c) && (code c <=? 32)))%nat.

Definition is_digit (c : ascii) : bool :=
  ((48 <=? code c) && (code c <=? 57))%nat.

Definition is_alpha (c : ascii) : bool :=
  (((65 <=? code c) && (code c <=? 90)) || ((97 <=? code c) && (code c <=? 122)))%nat.

(** [\w] on ASCII. *)
Definition is_word (c : ascii) : bool :=
  is_alpha c || is_digit c || Ascii.eqb c "_".

Definition digit_val (c : ascii) : Z := Z.of_nat (code c - 48).

Definition lower_char (c : ascii) : ascii :=
  if ((65 <=? code c) && (code c <=? 90))%nat then ascii_of_nat (code c + 32) else c.

(** [s.lower()] *)
Fixpoint lower (s : string) : string :=
  match s with
  | EmptyString => EmptyString
  | String c s' => String (lower_char c) (lower s')
  end.

(** [s.startswith(p)] *)
Fixpoint startswith (p s : string) : bool :=
  match p, s with
  | EmptyString, _ => true
  | String a p', String b s' => Ascii.eqb a b && startswith p' s'
  | String _ _, EmptyString => false
  end.

(** [sub in s] *)
Fixpoint contains (sub s : string) : bool :=
  startswith sub s ||
  match s with
  | EmptyString => false
  | String _ s' => contains sub s'
  end.

(** [s.split(sep)] for a non-empty [sep]: [skip] counts the characters of a
    separator occurrence still to be passed over. *)
Fixpoint split_go (sep : string) (skip : nat) (s : string) : list string :=
  match s with
  | EmptyString => [EmptyString]
  | String c s' =>
      match skip with
      | S k => split_go sep k s'
      | O =>
          if startswith sep s
          then EmptyString :: split_go sep (String.length sep - 1) s'
          else match split_go sep 0 s' with
               | h :: t => String c h :: t
               | [] => [String c EmptyString]
               end
      end
  end.

Definition split (sep s : string) : list string := split_go sep 0 s.

(** [sep.join(parts)] *)
Fixpoint join (sep : string) (parts : list string) : string :=
  match parts with
  | [] => EmptyString
  | [p] => p
  | p :: rest => p +:+ sep +:+ join sep rest
  end.

(** [s.replace(old, new)] for a non-empty [old] *)
Definition replace (old new s : string) : string := join new (split old s).

Fixpoint lstrip (s : string) : string :=
  match s with
  | EmptyString => EmptyString
  | String c s' => if is_space c then lstrip s' else s
  end.

Fixpoint rstrip (s : string) : string :=
  match s with
  | EmptyString => EmptyString
  | String c s' =>
      match rstrip s' with
      | EmptyString => if is_space c then EmptyString else String c EmptyString
      | r => String c r
      end
  end.

(** [s.strip()] *)
Definition strip (s : string) : string := rstrip (lstrip s).

(** [str(n)] for an [int] *)
Definition str_Z (z : Z) : string := NilZero.string_of_int (Z.to_int z).

(** Decimal digits of an [int] literal: underscores are allowed singly
    between two digits. [seen] tells whether the previous character was a
    digit. *)
Fixpoint int_digits (acc : Z) (seen : bool) (s : string) : option Z :=
  match s with
  | EmptyString => if seen then Some acc else None
  | String c s' =>
      if is_digit c then int_digits (10 * acc + digit_val c) true s'
      else if Ascii.eqb c "_" && seen then int_digits acc false s'
      else None
  end.

(** The number that a decimal numeral denotes, blanks around it and a sign
    in front allowed. This is the arithmetic of [int], without its limit on
    the number of digits and with the blanks of [str.strip]; [int] itself is
    [int_ascii] below for a text of ASCII characters. *)
Definition py_int (s : string) : option Z :=
  match strip s with
  | String "+" r => int_digits 0 false r
  | String "-" r => Z.opp <$> int_digits 0 false r
  | t => int_digits 0 false t
  end.

(** The blanks that [int] passes over around a numeral of ASCII characters:
    tab, LF, VT, FF, CR and space. *)
Definition is_int_space (c : ascii) : bool :=
  (((9 <=? code c) && (code c <=? 13)) || (code c =? 32))%nat.

Fixpoint lstrip_by (p : ascii → bool) (s : string) : string :=
  match s with
  | EmptyString => EmptyString
  | String c s' => if p c then lstrip_by p s' else s
  end.

Fixpoint rstrip_by (p : ascii → bool) (s : string) : string :=
  match s with
  | EmptyString => EmptyString
  | String c s' =>
      match rstrip_by p s' with
      | EmptyString => if p c then EmptyString else String c EmptyString
      | r => String c r
      end
  end.

(** [sys.get_int_max_str_digits()], which the scripts leave at its default *)
Definition max_str_digits : nat := 4300.

Fixpoint count_digits (s : string) : nat :=
  match s with
  | EmptyString => O
  | String c s' => if is_digit c then S (count_digits s') else count_digits s'
  end.

(** [int(s)] for a text [s] of ASCII characters; [None] stands for
    [ValueError], which is raised for a text that is not a numeral and for
    a numeral of more than [max_str_digits] digits. *)
Definition int_ascii (s : string) : option Z :=
  let t := rstrip_by is_int_space (lstrip_by is_int_space s) in
  let '(negative, numeral) :=
    match t with
    | String "+" r => (false, r)
    | String "-" r => (true, r)
    | _ => (false, t)
    end in
  match int_digits 0 false numeral with
  | Some n =>
      if (max_str_digits <? count_digits numeral)%nat then None
      else Some (if negative then - n else n)
  | None => None
  end.

(** [range(a, b)] *)
Definition py_range (a b : Z) : list Z := seqZ a (b - a).

(** [sorted] on integers *)
Definition sorted (l : list Z) : list Z := merge_sort Z.le l.

(** [s[n:]] *)
Fixpoint drop_chars (n : nat) (s : string) : string :=
  match n, s with
  | O, _ => s
  | S n', String _ s' => drop_chars n' s'
  | S _, EmptyString => EmptyString
  end.

(** [s[:n]] *)
Fixpoint take_chars (n : nat) (s : string) : string :=
  match n, s with
  | S n', String c s' => String c (take_chars n' s')
  | _, _ => EmptyString
  end.

(** [format(n, "0{w}d")] for a non-negative [n]: zero padding on the left. *)
Definition zero_pad (width : nat) (n : Z) : string :=
  let d := str_Z n in
  string_of_list_ascii (List.repeat "0"%char (width - String.length d)) +:+ d.

(** ** Dynamically typed values: decoded JSON and what the code makes of it *)

#[warnings="-register-all"]
Inductive value : Type :=
| VNone
| VBool (b : bool)
| VInt (z : Z)
| VStr (s : string)
| VList (l : list value)
| VDict (d : list (string * value)).

(** Truth value of [if v] *)
Definition truthy (v : value) : bool :=
  match v with
  | VNone => false
  | VBool b => b
  | VInt z => negb (z =? 0)
  | VStr s => negb (String.eqb s EmptyString)
  | VList l => match l with [] => false | _ => true end
  | VDict d => match d with [] => false | _ => true end
  end.

(** ** Dictionaries in insertion order *)

Section Dict.
Context {K V : Type} (eqb : K → K → bool).

Definition dict : Type := list (K * V).

(** [d.get(k)] *)
Fixpoint dict_get (d : dict) (k : K) : option V :=
  match d with
  | [] => None
  | (k', v) :: rest => if eqb k' k then Some v else dict_get rest k
  end.

(** [d[k] = v]: an existing key keeps its place, a new one goes last. *)
Fixpoint dict_set (d : dict) (k : K) (v : V) : dict :=
  match d with
  | [] => [(k, v)]
  | (k', v') :: rest =>
      if eqb k' k then (k', v) :: rest else (k', v') :: dict_set rest k v
  end.

(** [dict(pairs)] and dictionary comprehensions: later pairs win. *)
Definition dict_of (pairs : list (K * V)) : dict :=
  foldl (λ d kv, dict_set d kv.1 kv.2) [] pairs.

Definition keys (d : dict) : list K := d.*1.

End Dict.

(** [v.get(k)] on a decoded JSON object; [None] when [v] is not an object
    (Python raises [AttributeError]) . *)
Definition obj_get (v : value) (k : string) : option (option value) :=
  match v with
  | VDict d => Some (dict_get String.eqb d k)
  | _ => None
  end.

(** ** Regular expressions: the fragment of [re] that the scripts use,
    matched by backtracking like [re] does *)

Inductive re : Type :=
| Lit (s : string)              (* literal text *)
| Cls (p : ascii → bool)        (* one character of a class *)
| Seq (a b : re)
| Alt (a b : re)                (* [a|b] *)
| Star (greedy : bool) (a : re) (* [a*] and [a*?] *)
| Grp (n : nat) (a : re)        (* capturing group number [n] *)
| Eos.                          (* [$] *)

Definition Plus (a : re) : re := Seq a (Star true a).
Definition Opt (a : re) : re := Alt a (Lit EmptyString).
Definition seqs (rs : list re) : re := foldr Seq (Lit EmptyString) rs.

Definition any_char : ascii → bool := λ _, true.
Definition not_newline (c : ascii) : bool := negb (Ascii.eqb c "010").
Definition one_of (cs : string) (c : ascii) : bool :=
  existsb (Ascii.eqb c) (list_ascii_of_string cs).
Definition none_of (cs : string) (c : ascii) : bool := negb (one_of cs c).

Definition captures : Type := list (nat * string).

(** [m.group(n)]; an unset group reads as [None]. *)
Definition group (n : nat) (caps : captures) : option string :=
  dict_get Nat.eqb caps n.

(** [rmatch r s caps k]: match [r] at the start of [s], then hand the rest of
    the input and the groups to the continuation [k]; the first success in
    backtracking order wins. An iteration of a star has to consume input. *)
Fixpoint rmatch {R : Type} (r : re) (s : string) (caps : captures)
    (k : string → captures → option R) {struct r} : option R :=
  match r with
  | Lit l => if startswith l s then k (drop_chars (String.length l) s) caps else None
  | Cls p =>
      match s with
      | String c s' => if p c then k s' caps else None
      | EmptyString => None
      end
  | Seq a b => rmatch a s caps (λ s' caps', rmatch b s' caps' k)
  | Alt a b =>
      match rmatch a s caps k with
      | Some x => Some x
      | None => rmatch b s caps k
      end
  | Star greedy a =>
      (fix loop (fuel : nat) (s : string) (caps : captures) {struct fuel} : option R :=
         match fuel with
         | O => k s caps
         | S fuel' =>
             let more :=
               rmatch a s caps
                 (λ s' caps', if (String.length s' <? String.length s)%nat
                              then loop fuel' s' caps' else None) in
             if greedy
             then match more with Some x => Some x | None => k s caps end
             else match k s caps with Some x => Some x | None => more end
         end) (String.length s) s caps
  | Grp n a =>
      rmatch a s caps
        (λ s' caps',
           k s' (dict_set Nat.eqb caps' n
                   (take_chars (String.length s - String.length s') s)))
  | Eos =>
      if String.eqb s EmptyString || String.eqb s (String "010" EmptyString)
      then k s caps else None
  end.

(** [re.match(r, s)]: the groups and the unmatched rest *)
Definition re_match (r : re) (s : string) : option (captures * string) :=
  rmatch r s [] (λ s' caps, Some (caps, s')).

(** [re.search(r, s)]: the leftmost match *)
Fixpoint re_search (r : re) (s : string) : option (captures * string) :=
  match re_match r s with
  | Some m => Some m
  | None =>
      match s with
      | EmptyString => None
      | String _ s' => re_search r s'
      end
  end.

(** Group 1 of [re.search(r, s)] *)
Definition search_group1 (r : re) (s : string) : option string :=
  match re_search r s with
  | Some (caps, _) => group 1 caps
  | None => None
  end.

(** What a match hands to its continuation: a rest of the input, and
    groups that were set before or hold a piece of the input. *)
Definition handed {R : Type} (s : string) (caps : captures)
    (k : string → captures → option R) (x : R) : Prop :=
  ∃ s' caps',
    k s' caps' = Some x ∧
    (∃ pre, s = pre +:+ s') ∧
    ∀ n g, group n caps' = Some g → group n caps = Some g ∨ contains g s = true.

(** [re.findall(r, s)] for a pattern with one group whose matches are not
    empty: the group of each successive match, left to right. *)
Fixpoint findall_go (fuel : nat) (r : re) (s : string) : list string :=
  match fuel with
  | O => []
  | S fuel' =>
      match re_search r s with
      | Some (caps, rest) =>
          match group 1 caps with
          | Some g =>
              if (String.length rest <? String.length s)%nat
              then g :: findall_go fuel' r rest else [g]
          | None => []
          end
      | None => []
      end
  end.

Definition findall (r : re) (s : string) : list string :=
  findall_go (String.length s) r s.

Definition dquote : string := String "034" EmptyString.
Definition squote : string := String "039" EmptyString.
Definition newline : string := String "010" EmptyString.

(** [s.endswith(p)] *)
Definition endswith (p s : string) : bool :=
  String.eqb (drop_chars (String.length s - String.length p) s) p.

(** [os.path.join(a, b)] on POSIX *)
Definition path_join (a b : string) : string :=
  if startswith "/" b then b
  else if String.eqb a EmptyString || endswith "/" a then a +:+ b
  else a +:+ "/" +:+ b.

(** [s.rstrip(c)] for one character [c] *)
Fixpoint rstrip_char (c : ascii) (s : string) : string :=
  match s with
  | EmptyString => EmptyString
  | String x s' =>
      match rstrip_char c s' with
      | EmptyString => if Ascii.eqb x c then EmptyString else String x EmptyString
      | r => String x r
      end
  end.

(** [x in l] for a list of strings *)
Definition mem (x : string) (l : list string) : bool := existsb (String.eqb x) l.

(** [re.sub('[cs]', new, s)] for a class of single characters *)
Fixpoint sub_chars (cs new s : string) : string :=
  match s with
  | EmptyString => EmptyString
  | String c s' =>
      (if one_of cs c then new else String c EmptyString) +:+ sub_chars cs new s'
  end.

(** [for x in v]: the items a decoded JSON value yields when iterated;
    [None] when it is not iterable. *)
Definition iter_value (v : value) : option (list value) :=
  match v with
  | VList l => Some l
  | VDict d => Some (VStr <$> d.*1)
  | VStr s => Some ((λ c, VStr (String c EmptyString)) <$> list_ascii_of_string s)
  | _ => None
  end.

(** Dictionary keys: hashable values, compared the way Python compares
    them ([True == 1], [False == 0]). *)
Definition hashable (v : value) : bool :=
  match v with
  | VList _ | VDict _ => false
  | _ => true
  end.

Definition key_eqb (a b : value) : bool :=
  match a, b with
  | VNone, VNone => true
  | VStr x, VStr y => String.eqb x y
  | VInt x, VInt y => x =? y
  | VBool x, VBool y => Bool.eqb x y
  | VBool x, VInt y | VInt y, VBool x => (if x then 1 else 0) =? y
  | _, _ => false
  end.

(** [a or b] *)
Definition py_or (a b : value) : value := if truthy a then a else b.

(** [d.get(k)] on a dictionary of values: a missing key reads as [None]. *)
Definition get_or_none (d : list (string * value)) (k : string) : value :=
  default VNone (dict_get String.eqb d k).

(** [enumerate(l, start)] *)
Fixpoint enumerate_from {A : Type} (start : Z) (l : list A) : list (Z * A) :=
  match l with
  | [] => []
  | x :: rest => (start, x) :: enumerate_from (start + 1) rest
  end.

(** [list.sort(key=key)]: a stable sort, here by insertion. *)
Section StableSort.
Context {A : Type} (key : A → Z).

Fixpoint insert_by (x : A) (l : list A) : list A :=
  match l with
  | [] => [x]
  | y :: l' => if key x <=? key y then x :: y :: l' else y :: insert_by x l'
  end.

Definition sort_by (l : list A) : list A := foldr insert_by [] l.

(** The elements of [l] whose key is [r], in the order of [l] *)
Definition bucket (l : list A) (r : Z) : list A := List.filter (λ y, key y =? r) l.

End StableSort.

(** Every character of [s] is in the class [p]. *)
Definition all_chars (p : ascii → bool) (s : string) : bool :=
  forallb p (list_ascii_of_string s).

(** The first character of [s], if any, is not in the class [p]. *)
Definition stops (p : ascii → bool) (s : string) : bool :=
  match s with
  | EmptyString => true
  | String c _ => negb (p c)
  end.

(** The first character of [s], if any, is a character of ASCII that is not
    in the class [p]: a run of the class ends there also when the class is
    read on Unicode. *)
Definition stops_ascii (p : ascii → bool) (s : string) : bool :=
  match s with
  | EmptyString => true
  | String c _ => is_ascii c && negb (p c)
  end.

(** What a pattern matches: [matches r m rest caps caps'] when [r] matches
    the text [m] in front of [rest] and turns the groups [caps] into
    [caps']. *)
Inductive matches : re → string → string → captures → captures → Prop :=
| matches_lit l rest caps :
    matches (Lit l) l rest caps caps
| matches_cls (p : ascii → bool) c rest caps :
    p c = true → matches (Cls p) (String c EmptyString) rest caps caps
| matches_seq a b m1 m2 rest caps caps1 caps2 :
    matches a m1 (m2 +:+ rest) caps caps1 →
    matches b m2 rest caps1 caps2 →
    matches (Seq a b) (m1 +:+ m2) rest caps caps2
| matches_alt_l a b m rest caps caps' :
    matches a m rest caps caps' → matches (Alt a b) m rest caps caps'
| matches_alt_r a b m rest caps caps' :
    matches b m rest caps caps' → matches (Alt a b) m rest caps caps'
| matches_star_nil greedy a rest caps :
    matches (Star greedy a) EmptyString rest caps caps
| matches_star_cons greedy a m1 m2 rest caps caps1 caps2 :
    matches a m1 (m2 +:+ rest) caps caps1 →
    matches (Star greedy a) m2 rest caps1 caps2 →
    matches (Star greedy a) (m1 +:+ m2) rest caps caps2
| matches_grp n a m rest caps caps1 :
    matches a m rest caps caps1 →
    matches (Grp n a) m rest caps (dict_set Nat.eqb caps1 n m)
| matches_eos rest caps :
    rest = EmptyString ∨ rest = String "010" EmptyString →
    matches Eos EmptyString rest caps caps.

(** [s.find(sub)]: the index of the first occurrence, [None] for [-1] *)
Fixpoint find (sub s : string) : option nat :=
  if startswith sub s then Some 0%nat
  else match s with
       | EmptyString => None
       | String _ s' => S <$> find sub s'
       end.

(** [re.sub(r, repl, s)] for a replacement text without group references:
    the matches are replaced from left to right; an empty match is replaced
    too and the character after it is kept. *)
Fixpoint re_sub_go (fuel : nat) (r : re) (repl s : string) : string :=
  match fuel with
  | O => s
  | S fuel' =>
      match re_match r s with
      | Some (_, rest) =>
          if (String.length rest <? String.length s)%nat
          then repl +:+ re_sub_go fuel' r repl rest
          else match s with
               | EmptyString => repl
               | String c s' => repl +:+ String c (re_sub_go fuel' r repl s')
               end
      | None =>
          match s with
          | EmptyString => EmptyString
          | String c s' => String c (re_sub_go fuel' r repl s')
          end
      end
  end.

Definition re_sub (r : re) (repl s : string) : string :=
  re_sub_go (S (String.length s)) r repl s.

Definition is_upper (c : ascii) : bool :=
  ((65 <=? code c) && (code c <=? 90))%nat.

Definition upper_char (c : ascii) : ascii :=
  if ((97 <=? code c) && (code c <=? 122))%nat then ascii_of_nat (code c - 32) else c.

(** [s.capitalize()] on ASCII *)
Definition capitalize (s : string) : string :=
  match s with
  | EmptyString => EmptyString
  | String c s' => String (upper_char c) (lower s')
  end.

(** [format(s, str(width))]: a text is padded with spaces on the right. *)
Definition ljust (width : nat) (s : string) : string :=
  s +:+ string_of_list_ascii (List.repeat " "%char (width - String.length s)).

(** Vocabulary for padded numbers and joined paths: [k] zeros, and the
    separator that [os.path.join] puts after the folder [a]. *)
Definition zeros (k : nat) : string := string_of_list_ascii (List.repeat "0"%char k).

Definition separator (a : string) : string :=
  if String.eqb a "" || endswith "/" a then "" else "/".

End Py.

(** ** The outside world and the monad of effects *)
Module Eff.
Import Py.

(** A call of [requests]: timeouts are not part of the model. *)
Inductive Request : Type :=
| GET (url : string) (params : list (string * value)) (headers : list (string * string))
| POST (url : string) (headers : list (string * string))
       (body : list (string * value)) (as_json : bool).

(** What [requests] hands back: [text] and [content] are not told apart;
    [json_body] is the value of [resp.json()], [None] when that call
    raises. *)
Record Response : Type := {
  status_code : Z;
  text : string;
  json_body : option value
}.

(** A call of [yt_dlp.YoutubeDL(opts).download([url])] with the options that
    vary from call to call. *)
Record YdlRequest : Type := {
  ydl_url : string;
  ydl_referer : string;
  ydl_origin : string;
  ydl_outtmpl : string
}.

(** An effect that was performed, with what the outside world answered. *)
Inductive Event : Type :=
| EHttp (rq : Request) (reply : option Response)
| EYdl (rq : YdlRequest) (ok : bool)
| EOpen (path : string)
| EWrite (path data : string)
| EMove (src dst : string)
| ERemove (path : string)
| EMakedirs (path : string)
| ESleep (seconds : Z).

Inductive exn : Type :=
| ConnectionError
| HTTPError (status : Z)
| JSONDecodeError
| ValueError (msg : string)
| TypeError
| AttributeError
| KeyError
| IndexError
| DownloadError
| MarkupError
| FileNotFoundError
| FileExistsError
| NotADirectoryError.

(** [net] and [ydl] are the replies of the outside world, indexed by the
    number of effects performed so far; a request without a reply raises.
    [fs] maps the path of each existing file to its contents. *)
Record World : Type := {
  net : nat → Request → option Response;
  ydl : nat → YdlRequest → bool;
  fs : gmap string string;
  trace : list Event
}.

Inductive res (A : Type) : Type :=
| Ok (a : A)
| Raise (e : exn).
Arguments Ok {A} a.
Arguments Raise {A} e.

Definition M (A : Type) : Type := World → res A * World.

Definition ret {A} (a : A) : M A := λ w, (Ok a, w).

Definition bind {A B} (c : M A) (k : A → M B) : M B :=
  λ w, match c w with
       | (Ok a, w') => k a w'
       | (Raise e, w') => (Raise e, w')
       end.

Definition raise {A} (e : exn) : M A := λ w, (Raise e, w).

(** [try: c  except Exception as e: handler e] *)
Definition try_except {A} (c : M A) (handler : exn → M A) : M A :=
  λ w, match c w with
       | (Ok a, w') => (Ok a, w')
       | (Raise e, w') => handler e w'
       end.

Notation "'let*' x ':=' c 'in' k" := (bind c (λ x, k))
  (at level 10, x name, c at level 100, k at level 200, only parsing).
Notation "c '>>' k" := (bind c (λ _, k))
  (at level 100, k at level 200, right associativity, only parsing).

Definition set_fs (f : gmap string string) (w : World) : World :=
  {| net := net w; ydl := ydl w; fs := f; trace := trace w |}.

Definition log (e : Event) (w : World) : World :=
  {| net := net w; ydl := ydl w; fs := fs w; trace := trace w ++ [e] |}.

(** [requests.get], [requests.post], [session.get] *)
Definition request (rq : Request) : M Response :=
  λ w, let reply := net w (length (trace w)) rq in
       match reply with
       | Some resp => (Ok resp, log (EHttp rq reply) w)
       | None => (Raise ConnectionError, log (EHttp rq reply) w)
       end.

(** [response.raise_for_status()] raises on a status from 400 to 599. *)
Definition status_ok (r : Response) : bool :=
  negb ((400 <=? status_code r) && (status_code r <? 600)).

Definition raise_for_status (r : Response) : M unit :=
  if status_ok r then ret tt else raise (HTTPError (status_code r)).

(** [response.json()] *)
Definition json (r : Response) : M value :=
  match json_body r with
  | Some v => ret v
  | None => raise JSONDecodeError
  end.

(** [YoutubeDL(opts).download([url])]: raises unless the download succeeds. *)
Definition ydl_download (rq : YdlRequest) : M unit :=
  λ w, let ok := ydl w (length (trace w)) rq in
       if ok then (Ok tt, log (EYdl rq ok) w)
       else (Raise DownloadError, log (EYdl rq ok) w).

(** [open(path, 'wb')]: the file is created or emptied. *)
Definition open_wb (path : string) : M unit :=
  λ w, (Ok tt, log (EOpen path) (set_fs (<[path := EmptyString]> (fs w)) w)).

(** [f.write(data)] on the file opened at [path] *)
Definition write (path data : string) : M unit :=
  λ w, (Ok tt, log (EWrite path data)
                 (set_fs (<[path := default EmptyString (fs w !! path) +:+ data]> (fs w)) w)).

(** [os.path.exists(path)] *)
Definition exists_ (path : string) : M bool :=
  λ w, (Ok (bool_decide (is_Some (fs w !! path))), w).

(** [os.remove(path)] *)
Definition remove (path : string) : M unit :=
  λ w, (Ok tt, log (ERemove path) (set_fs (delete path (fs w)) w)).

(** [shutil.move(src, dst)] between two file paths *)
Definition move (src dst : string) : M unit :=
  λ w, match fs w !! src with
       | Some data =>
           (Ok tt, log (EMove src dst) (set_fs (<[dst := data]> (delete src (fs w))) w))
       | None => (Raise FileNotFoundError, w)
       end.

(** The folders above [path]: what comes before each [/] of it that is
    not its first character. *)
Fixpoint parents_go (before s : string) : list string :=
  match s with
  | EmptyString => []
  | String c s' =>
      let rest := parents_go (before +:+ String c EmptyString) s' in
      if Ascii.eqb c "/" && negb (String.eqb before EmptyString)
      then before :: rest else rest
  end.

Definition parents (path : string) : list string := parents_go EmptyString path.

(** Why [os.makedirs(path, exist_ok=True)] raises, as far as the path and
    the files tell: for an empty path, for a path with a NUL character, when
    a file sits where a folder above [path] should be, and when a file sits
    at [path] itself. *)
Definition makedirs_error (path : string) (files : gmap string string) : option exn :=
  if String.eqb path EmptyString then Some FileNotFoundError
  else if contains (String "000" EmptyString) path
  then Some (ValueError "embedded null byte")
  else if existsb (λ p, bool_decide (is_Some (files !! p))) (parents path)
  then Some NotADirectoryError
  else if bool_decide (is_Some (files !! path)) then Some FileExistsError
  else None.

(** [os.makedirs(path, exist_ok=True)] *)
Definition makedirs (path : string) : M unit :=
  λ w, match makedirs_error path (fs w) with
       | Some e => (Raise e, w)
       | None => (Ok tt, log (EMakedirs path) w)
       end.


(** The library functions that the scripts call and this development does
    not define. *)
Record PyLib : Type := {
  (** what [urllib.parse.urljoin(base, url)] returns, when it returns *)
  urljoin : string → string → string;
  (** [base64.b64decode(s).decode('utf-8')]; [None] when either raises *)
  b64decode_utf8 : string → option string;
  (** [urllib.parse.unquote(s)] *)
  unquote : string → string;
  (** [[script.string for script in BeautifulSoup(html, 'html.parser').find_all('script')]] *)
  soup_scripts : string → list (option string);
  (** [str(v)] for a list or a dictionary *)
  repr_container : value → string;
  (** [int(s)] for a text [s] that has a character outside ASCII; [None]
      when it raises [ValueError] *)
  int_wide : string → option Z;
  (** whether [rich] accepts [s] as console markup: [console.print(s)]
      raises [MarkupError] when it does not *)
  markup_ok : string → bool;
  (** the message of the [ValueError] that [urllib.parse.urljoin(base, url)]
      raises, [None] when it returns *)
  urljoin_error : string → string → option string
}.

(** [int(s)]; [None] stands for [ValueError]. *)
Definition int_str (lib : PyLib) (s : string) : option Z :=
  if ascii_text s then int_ascii s else int_wide lib s.

(** [str(v)], as used by f-strings *)
Definition py_str (lib : PyLib) (v : value) : string :=
  match v with
  | VNone => "None"
  | VBool true => "True"
  | VBool false => "False"
  | VInt z => str_Z z
  | VStr s => s
  | _ => repr_container lib v
  end.

(** [wp c Q w]: running [c] from [w] ends in a result and a world that
    satisfy [Q]. Every computation of [M] terminates, so this is total
    correctness. *)
Definition wp {A} (c : M A) (Q : res A → World → Prop) (w : World) : Prop :=
  Q (c w).1 (c w).2.

(** [v.get(k)] and [v.get(k, dflt)] on a decoded JSON value *)
Definition get_default (v : value) (k : string) (dflt : value) : M value :=
  match obj_get v k with
  | Some (Some x) => ret x
  | Some None => ret dflt
  | None => raise AttributeError
  end.

(** [v[k]] for a string key *)
Definition get_item (v : value) (k : string) : M value :=
  match v with
  | VDict d =>
      match dict_get String.eqb d k with
      | Some x => ret x
      | None => raise KeyError
      end
  | _ => raise TypeError
  end.

(** [v[0]] *)
Definition get_first (v : value) : M value :=
  match v with
  | VList (x :: _) => ret x
  | VList [] => raise IndexError
  | VStr (String c _) => ret (VStr (String c EmptyString))
  | VStr EmptyString => raise IndexError
  | VDict _ => raise KeyError
  | _ => raise TypeError
  end.

(** A value used where the code needs a [str] *)
Definition as_str (v : value) : M string :=
  match v with
  | VStr s => ret s
  | _ => raise TypeError
  end.

(** [for x in xs: s = f s x] *)
Fixpoint for_each {S X : Type} (f : S → X → M S) (s : S) (xs : list X) : M S :=
  match xs with
  | [] => ret s
  | x :: rest => let* s' := f s x in for_each f s' rest
  end.

(** Several events at once, and the replies that the oracle gives to a run
    of requests made one after the other from time [t]. *)
Definition logs (evs : list Event) (w : World) : World :=
  {| net := net w; ydl := ydl w; fs := fs w; trace := trace w ++ evs |}.

Fixpoint replies_from (oracle : nat → Request → option Response) (t : nat)
    (rqs : list Request) : list (option Response) :=
  match rqs with
  | [] => []
  | rq :: rest => oracle t rq :: replies_from oracle (S t) rest
  end.

Definition http_events (rqs : list Request) (replies : list (option Response)) : list Event :=
  zip_with EHttp rqs replies.

End Eff.

(** ** dimakids-downloader.py *)
Module Dimakids.
Import Py Eff.

Definition session_headers : list (string * string) :=
  [("User-Agent", "Mozilla/5.0 (Windows NT 10.0; Win64; x64) AppleWebKit/537.36 (KHTML, like Gecko) Chrome/91.0.4472.124 Safari/537.36")].

(** [session.get(url, headers=headers)] *)
Definition session_get (url : string) (headers : list (string * string)) : M Response :=
  request (GET url [] (session_headers ++ headers)).

(** *** [get_soup]

    A soup is the text of the page it was parsed from; [None] is Python's
    [None]. *)
Definition get_soup (url : string) : M (option string) :=
  try_except
    (let* response := session_get url [] in
     raise_for_status response >>
     ret (Some (text response)))
    (λ _, ret None).

(** *** [get_m3u8_link_from_js] *)

(** [const\s+\w+\s*=\s*(\{[\s\S]*?\});] *)
Definition object_re : re :=
  seqs [Lit "const"; Plus (Cls is_space); Plus (Cls is_word); Star true (Cls is_space);
        Lit "="; Star true (Cls is_space);
        Grp 1 (seqs [Lit "{"; Star false (Cls any_char); Lit "}"]);
        Lit ";"].

(** [name:\s*Q([^Q]+)Q], where Q is the double quote *)
Definition field_re (name : string) : re :=
  seqs [Lit (name +:+ ":"); Star true (Cls is_space); Lit dquote;
        Grp 1 (Plus (Cls (none_of dquote))); Lit dquote].

(** The body of the [if match:] for one script that carries the marker *)
Definition link_of_script (script_content : string) : option string :=
  match search_group1 object_re script_content with
  | Some js_object_str =>
      match search_group1 (field_re "jC1kO") js_object_str,
            search_group1 (field_re "hF3nV") js_object_str,
            search_group1 (field_re "iA5pX") js_object_str,
            search_group1 (field_re "tN4qY") js_object_str with
      | Some protocol, Some domain, Some path, Some params =>
          Some (protocol +:+ "://" +:+ domain +:+ "/" +:+ path +:+ "?" +:+ params)
      | _, _, _, _ => None
      end
  | None => None
  end.

(** The [for script in scripts] loop: the first script that carries the
    marker and yields a link decides. *)
Fixpoint link_of_scripts (scripts : list (option string)) : option string :=
  match scripts with
  | [] => None
  | script :: rest =>
      match script with
      | Some script_string =>
          if contains "stream.foupix.com" script_string then
            match link_of_script script_string with
            | Some link => Some link
            | None => link_of_scripts rest
            end
          else link_of_scripts rest
      | None => link_of_scripts rest
      end
  end.

Definition get_m3u8_link_from_js (lib : PyLib) (soup : option string) : M (option string) :=
  try_except
    (match soup with
     | None => ret None
     | Some page => ret (link_of_scripts (soup_scripts lib page))
     end)
    (λ _, ret None).

(** *** [download_with_custom_progress] *)

(** [[urljoin(url, line.strip()) for line in lines if line and not line.startswith('#')]] *)
Definition segment_urls_of (lib : PyLib) (url playlist : string) : list string :=
  (λ line, urljoin lib url (strip line)) <$>
  List.filter (λ line, negb (String.eqb line EmptyString) && negb (startswith "#" line))
              (split newline playlist).

(** The message of the [ValueError] with which the comprehension above
    ends when a call of [urljoin] in it raises: that of the first such
    call. *)
Fixpoint first_error (lib : PyLib) (url : string) (lines : list string) : option string :=
  match lines with
  | [] => None
  | line :: rest =>
      match urljoin_error lib url (strip line) with
      | Some msg => Some msg
      | None => first_error lib url rest
      end
  end.

Definition segment_urls_error (lib : PyLib) (url playlist : string) : option string :=
  first_error lib url
    (List.filter (λ line, negb (String.eqb line EmptyString) && negb (startswith "#" line))
                 (split newline playlist)).

(** The [except Exception as e] block; [temp_filepath] is [None] until the
    assignment in the [try] body has run. *)
Definition cleanup_and_reraise {A} (filepath : string) (temp_filepath : option string)
    (e : exn) : M A :=
  let* final_exists := exists_ filepath in
  (if final_exists then remove filepath else ret tt) >>
  match temp_filepath with
  | Some tmp =>
      let* tmp_exists := exists_ tmp in
      (if tmp_exists then remove tmp else ret tt) >> raise e
  | None => raise e
  end.

(** The [for i, segment_url in enumerate(segment_urls)] loop; the progress
    line it prints is not modelled. *)
Fixpoint fetch_segments (headers : list (string * string)) (temp_filepath : string)
    (segment_urls : list string) : M unit :=
  match segment_urls with
  | [] => ret tt
  | segment_url :: rest =>
      let* segment_response := session_get segment_url headers in
      raise_for_status segment_response >>
      write temp_filepath (text segment_response) >>
      fetch_segments headers temp_filepath rest
  end.

(** The [try] body is cut where [temp_filepath] is assigned, so that the
    handler sees the value the variable has when the exception is raised. *)
Definition download_with_custom_progress (lib : PyLib)
    (url filepath filename_for_display referer_url : string) : M bool :=
  let headers := [("Referer", referer_url)] in
  let* segment_urls :=
    try_except
      (let* playlist_response := session_get url headers in
       raise_for_status playlist_response >>
       match segment_urls_error lib url (text playlist_response) with
       | Some msg => raise (ValueError msg)
       | None =>
           let segment_urls := segment_urls_of lib url (text playlist_response) in
           match segment_urls with
           | [] => raise (ValueError "No video segments found in the M3U8 playlist.")
           | _ => ret segment_urls
           end
       end)
      (cleanup_and_reraise filepath None) in
  let temp_filepath := filepath +:+ ".tmp" in
  try_except
    (open_wb temp_filepath >>
     fetch_segments headers temp_filepath segment_urls >>
     move temp_filepath filepath >>
     ret true)
    (cleanup_and_reraise filepath (Some temp_filepath)).

(** *** The download loop of [process_page] *)

(** What the loop reads from the enclosing function. *)
Record Page : Type := {
  safe_folder_name : string;
  is_movie : bool;
  episode_count : Z   (* [len(episodes_list)] *)
}.

Record Item : Type := {
  num : Z;
  link : string;
  page_link : string
}.


(** [len(str(len(episodes_list))) if len(episodes_list) > 9 else 2] *)
Definition zfill_width (pg : Page) : nat :=
  if 9 <? episode_count pg then String.length (str_Z (episode_count pg)) else 2%nat.

Definition filename_of (pg : Page) (item : Item) : string :=
  if is_movie pg then safe_folder_name pg +:+ ".mp4"
  else zero_pad (zfill_width pg) (num item) +:+ ".mp4".

Definition filepath_of (pg : Page) (item : Item) : string :=
  path_join (safe_folder_name pg) (filename_of pg item).





(** *** [parse_episode_selection] *)

(** [if 1 <= i <= total_episodes: selected_episodes.add(i)] *)
Definition add_in_range (total : Z) (sel : gset Z) (i : Z) : gset Z :=
  if (1 <=? i) && (i <=? total) then {[ i ]} ∪ sel else sel.

(** The body of the [try] for one comma-separated part; [None] stands for
    the [ValueError] raised by [int] or by unpacking anything but two
    values. *)
Definition select_part (lib : PyLib) (total : Z) (part : string) (sel : gset Z)
  : option (gset Z) :=
  if contains "-" part then
    match int_str lib <$> split "-" part with
    | [Some start; Some end_] =>
        Some (foldl (add_in_range total) sel (py_range start (end_ + 1)))
    | _ => None
    end
  else
    match int_str lib part with
    | Some num => Some (add_in_range total sel num)
    | None => None
    end.

(** The text that the handler gives to [console.print] *)
Definition warning (part : string) : string :=
  "[yellow]Warning: Skipping invalid input '" +:+ part +:+ "'[/yellow]".

(** One iteration of the [for] loop: the state is the set selected so far
    and the parts for which a warning was printed so far. The handler
    prints through the console, which reads its argument as markup and
    raises when the part spoils it. *)
Definition select_step (lib : PyLib) (total : Z) (st : gset Z * list string) (part : string)
  : res (gset Z * list string) :=
  match select_part lib total part st.1 with
  | Some sel' => Ok (sel', st.2)
  | None =>
      if markup_ok lib (warning part) then Ok (st.1, st.2 ++ [part])
      else Raise MarkupError
  end.

(** [for part in ...]: an exception ends the loop. *)
Fixpoint select_loop (lib : PyLib) (total : Z) (st : gset Z * list string)
    (parts : list string) : res (gset Z * list string) :=
  match parts with
  | [] => Ok st
  | part :: rest =>
      match select_step lib total st part with
      | Ok st' => select_loop lib total st' rest
      | Raise e => Raise e
      end
  end.

(** The result is the returned list together with the parts for which a
    warning was printed, in order, or the exception that the function
    raises. *)
Definition parse_episode_selection (lib : PyLib) (user_input : string) (total_episodes : Z)
  : res (list Z * list string) :=
  if String.eqb (lower user_input) "all" then Ok (py_range 1 (total_episodes + 1), [])
  else
    match select_loop lib total_episodes (∅, []) (split "," (replace " " "" user_input)) with
    | Ok st => Ok (sorted (elements st.1), st.2)
    | Raise e => Raise e
    end.

(** Vocabulary for the selection grammar: a part is malformed when the
    [try] body raises on it, and otherwise names the integers below. *)
Definition malformed (lib : PyLib) (part : string) : bool :=
  if contains "-" part then
    match int_str lib <$> split "-" part with
    | [Some _; Some _] => false
    | _ => true
    end
  else
    match int_str lib part with
    | Some _ => false
    | None => true
    end.

Definition part_denotes (lib : PyLib) (part : string) (x : Z) : Prop :=
  if contains "-" part then
    ∃ a b, int_str lib <$> split "-" part = [Some a; Some b] ∧ a ≤ x ≤ b
  else int_str lib part = Some x.

(** Vocabulary for the decoder: the marker, the names of the four fields
    and the URL that their values make. *)
Definition marker : string := "stream.foupix.com".

Definition field_names : list string := ["jC1kO"; "hF3nV"; "iA5pX"; "tN4qY"].

Definition stream_url (protocol domain path params : string) : string :=
  protocol +:+ "://" +:+ domain +:+ "/" +:+ path +:+ "?" +:+ params.

(** The shape of a script, told on its text. [obj] is the object literal
    of [script] when the first [const] of the script is followed by
    blanks, a name of letters, digits and underscores, [=] between
    optional blanks and then [obj], which runs from a brace to the first
    [};] after it. *)
Definition object_of (script obj : string) : Prop :=
  ∃ pre ws1 ident ws2 ws3 body post,
    script = pre +:+ "const" +:+ ws1 +:+ ident +:+ ws2 +:+ "=" +:+ ws3
             +:+ "{" +:+ body +:+ "};" +:+ post ∧
    obj = "{" +:+ body +:+ "}" ∧
    find "const" script = Some (String.length pre) ∧
    ws1 ≠ "" ∧ all_chars is_space ws1 = true ∧
    ident ≠ "" ∧ all_chars is_word ident = true ∧
    all_chars is_space ws2 = true ∧ all_chars is_space ws3 = true ∧
    find "};" (body +:+ "};" +:+ post) = Some (String.length body).

(** [val] is the value of the field [name] in [obj] when the first
    [name:] of [obj] is followed by optional blanks and by [val] between
    double quotes. *)
Definition field_of (obj name val : string) : Prop :=
  ∃ pre ws post,
    obj = pre +:+ name +:+ ":" +:+ ws +:+ dquote +:+ val +:+ dquote +:+ post ∧
    find (name +:+ ":") obj = Some (String.length pre) ∧
    all_chars is_space ws = true ∧
    val ≠ "" ∧ all_chars (none_of dquote) val = true.

(** A blank of ASCII, or a byte of a character outside ASCII, where the
    other blanks of Unicode are. *)
Definition blank_or_wide (c : ascii) : bool := is_space c || negb (is_ascii c).

(** [val] stands in [obj] after [name:] and a run of such characters,
    between double quotes. *)
Definition quoted_after (obj name val : string) : Prop :=
  ∃ ws, all_chars blank_or_wide ws = true ∧
        contains (name +:+ ":" +:+ ws +:+ dquote +:+ val +:+ dquote) obj = true ∧
        val ≠ "" ∧ all_chars (none_of dquote) val = true.

(** Vocabulary for the segmented-stream transport. *)
Definition temp_path (filepath : string) : string := filepath +:+ ".tmp".

Definition referer_headers (referer_url : string) : list (string * string) :=
  session_headers ++ [("Referer", referer_url)].

(** The effects of fetching and writing the segments [fetched], in order. *)
Definition segment_events (referer_url tmp : string) (fetched : list (string * Response))
  : list Event :=
  flat_map (λ ur, [EHttp (GET ur.1 [] (referer_headers referer_url)) (Some ur.2);
                   EWrite tmp (text ur.2)]) fetched.

(** The replies to the requests for the segments [segs] when the first is
    made at time [t]: each fetch is followed by one write. *)
Fixpoint segment_replies (oracle : nat → Request → option Response)
    (referer_url : string) (t : nat) (segs : list string) : list (option Response) :=
  match segs with
  | [] => []
  | u :: rest =>
      oracle t (GET u [] (referer_headers referer_url))
      :: segment_replies oracle referer_url (S (S t)) rest
  end.

Definition segment_data (resps : list Response) : string :=
  foldr (λ r acc, text r +:+ acc) EmptyString resps.

Definition is_move (ev : Event) : bool :=
  match ev with EMove _ _ => true | _ => false end.

(** [ev] creates or writes the file at [path]. *)
Definition touches (path : string) (ev : Event) : bool :=
  match ev with
  | EOpen p => String.eqb p path
  | EWrite p _ => String.eqb p path
  | EMove _ dst => String.eqb dst path
  | _ => false
  end.

(** What the [except] block does to the file system [f] and the events it
    adds. *)
Definition cleanup_events (filepath : string) (temp_filepath : option string) (f : gmap string string) : list Event :=
  (if bool_decide (is_Some (f !! filepath)) then [ERemove filepath] else []) ++
  match temp_filepath with
  | Some tmp => if bool_decide (is_Some (delete filepath f !! tmp)) then [ERemove tmp] else []
  | None => []
  end.

Definition cleaned (filepath : string) (temp_filepath : option string) (f : gmap string string) : gmap string string :=
  match temp_filepath with
  | Some tmp => delete tmp (delete filepath f)
  | None => delete filepath f
  end.

(** What a run of [fetch_segments] from [w] ends in, when the file at [tmp]
    holds [acc] at the start. *)
Definition segments_post (referer tmp : string) (segs : list string) (w : World) (acc : string)
    (r : res unit) (w' : World) : Prop :=
  net w' = net w ∧ ydl w' = ydl w ∧
  match r with
  | Ok _ =>
      ∃ resps, length resps = length segs ∧
        Forall (λ r, status_ok r = true) resps ∧
        trace w' = trace w ++ segment_events referer tmp (zip segs resps) ∧
        fs w' = <[tmp := acc +:+ segment_data resps]> (fs w)
  | Raise e =>
      ∃ evs acc',
        trace w' = trace w ++ evs ∧
        Forall (λ ev, is_move ev = false) evs ∧
        fs w' = <[tmp := acc']> (fs w)
  end.

(** What a run of [download_with_custom_progress] from [w] ends in. *)
Definition download_post (lib : PyLib) (url filepath referer : string) (w : World)
    (r : res bool) (w' : World) : Prop :=
  let tmp := temp_path filepath in
  let rq := GET url [] (referer_headers referer) in
  ∃ evs, trace w' = trace w ++ evs ∧ net w' = net w ∧ ydl w' = ydl w ∧
  match r with
  | Ok b =>
      b = true ∧
      ∃ playlist resps,
        net w (length (trace w)) rq = Some playlist ∧
        status_ok playlist = true ∧
        segment_urls_of lib url (text playlist) ≠ [] ∧
        length resps = length (segment_urls_of lib url (text playlist)) ∧
        Forall (λ r, status_ok r = true) resps ∧
        evs = EHttp rq (Some playlist) :: EOpen tmp ::
              segment_events referer tmp (zip (segment_urls_of lib url (text playlist)) resps)
              ++ [EMove tmp filepath] ∧
        fs w' = <[filepath := segment_data resps]> (delete tmp (fs w))
  | Raise e =>
      Forall (λ ev, is_move ev = false) evs ∧
      (is_Some (fs w !! filepath) → ERemove filepath ∈ evs) ∧
      ((fs w' = delete filepath (fs w) ∧ Forall (λ ev, touches tmp ev = false) evs) ∨
       (fs w' = delete tmp (delete filepath (fs w)) ∧ EOpen tmp ∈ evs))
  end.


Definition resolved_link (lib : PyLib) (reply : option Response) : option string :=
  match reply with
  | Some r =>
      if status_ok r then
        match link_of_scripts (soup_scripts lib (text r)) with
        | Some url => if String.eqb url EmptyString then None else Some url
        | None => None
        end
      else None
  | None => None
  end.


(** *** The rest of [process_page] *)

(** [re.sub(r'[\\/*?:Q<>|]', '', title)], Q the double quote *)
Definition safe_folder_name_of (title : string) : string :=
  sub_chars ("\/*?:" +:+ dquote +:+ "<>|") EmptyString title.

(** [next((ep for ep in episodes_list if ep['num'] == num), None)] on the
    list of the pairs of an episode number and its link *)
Definition find_episode (episodes_list : list (Z * string)) (num : Z)
  : option (Z * string) :=
  List.find (λ ep, ep.1 =? num) episodes_list.

(** The body of [for i, num in enumerate(selected_numbers)]; [soup] is the
    page that was scraped, which a movie is resolved from. *)
Definition resolve_number (lib : PyLib) (movie : bool) (soup : option string)
    (episodes_list : list (Z * string)) (final_download_list : list Item) (num : Z)
  : M (list Item) :=
  match find_episode episodes_list num with
  | Some ep_data =>
      let* episode_soup := if movie then ret soup else get_soup ep_data.2 in
      let* direct_link := get_m3u8_link_from_js lib episode_soup in
      match direct_link with
      | Some url =>
          if String.eqb url EmptyString then ret final_download_list
          else ret (final_download_list ++
                    [{| num := num; link := url; page_link := ep_data.2 |}])
      | None => ret final_download_list
      end
  | None => ret final_download_list
  end.

Definition resolve_selected (lib : PyLib) (movie : bool) (soup : option string)
    (episodes_list : list (Z * string)) (selected_numbers : list Z) : M (list Item) :=
  for_each (resolve_number lib movie soup episodes_list) [] selected_numbers.

(** Vocabulary for the resolution of the selected numbers: the episodes
    that the selected numbers name, the request for the page of one, the
    link that a soup yields, and the item that a page gives. *)
Definition looked_up (episodes_list : list (Z * string)) (selected_numbers : list Z)
  : list (Z * string) :=
  omap (find_episode episodes_list) selected_numbers.

Definition episode_page (ep_data : Z * string) : Request :=
  GET ep_data.2 [] session_headers.

Definition link_of_soup (lib : PyLib) (soup : option string) : option string :=
  match soup with
  | Some page =>
      match link_of_scripts (soup_scripts lib page) with
      | Some url => if String.eqb url EmptyString then None else Some url
      | None => None
      end
  | None => None
  end.

Definition item_of (ep_data : Z * string) (url : string) : Item :=
  {| num := ep_data.1; link := url; page_link := ep_data.2 |}.

(** Vocabulary for the failures of an attempt: the exception that a reply
    leads to at [raise_for_status], the exception that the reply to the
    request for the playlist leads to, and the removals of the [except]
    block. [None] is a reply that can be used. *)
Definition reply_error (reply : option Response) : option exn :=
  match reply with
  | None => Some ConnectionError
  | Some r => if status_ok r then None else Some (HTTPError (status_code r))
  end.

Definition playlist_error (lib : PyLib) (url : string) (reply : option Response)
  : option exn :=
  match reply with
  | None => Some ConnectionError
  | Some playlist =>
      if status_ok playlist then
        match segment_urls_of lib url (text playlist) with
        | [] => Some (ValueError "No video segments found in the M3U8 playlist.")
        | _ => None
        end
      else Some (HTTPError (status_code playlist))
  end.

Definition removal (filepath : string) (w : World) : list Event :=
  if bool_decide (is_Some (fs w !! filepath)) then [ERemove filepath] else [].

(** A line of a playlist that names a segment: [if line and not
    line.startswith('#')] *)
Definition segment_line (line : string) : bool :=
  negb (String.eqb line EmptyString) && negb (startswith "#" line).

End Dimakids.

(** ** stardima-extract.py *)
Module Stardima.
Import Py Eff.

Definition BASE_URL : string := "https://watch.stardima.com/watch".
Definition AJAX_URL : string := BASE_URL +:+ "/wp-admin/admin-ajax.php".
Definition API_URL : string := BASE_URL +:+ "/wp-json/wp/v2".

Definition SERVER_NAMES_STANDARD : list string :=
  ["vudeo"; "uqload"; "mailru"; "goodstream"; "vk"].
Definition SERVER_NAMES_HYPERWATCHING : list string :=
  ["uqload"; "streamhg"; "darkibox"; "goodstream"; "other"].

Definition quotes : string := dquote +:+ squote.

(** *** [search_episodes] *)

(** The dictionary [episodes]: episode id to slug. *)
Definition Episodes : Type := list (value * value).

(** [episodes[k] = v] *)
Definition store (episodes : Episodes) (k v : value) : M Episodes :=
  if hashable k then ret (dict_set key_eqb episodes k v) else raise TypeError.

Definition search_terms (slug : string) : list string :=
  [slug; replace "-" " " slug] ++
  (if contains "witch" (lower slug)
   then ["w-i-t-c-h"; "w.i.t.c.h"; "الفتيات الخارقات"] else []).

(** The condition under which a search hit is kept *)
Definition belongs (slug ep_slug_lower : string) : bool :=
  contains slug ep_slug_lower || startswith slug ep_slug_lower ||
  (String.eqb slug "witch" && contains "w-i-t-c-h" ep_slug_lower).

(** The body of [for ep in data] *)
Definition search_entry (lib : PyLib) (slug : string) (episodes : Episodes) (ep : value)
  : M Episodes :=
  let* raw := get_default ep "slug" (VStr EmptyString) in
  let* raw_slug := as_str raw in
  let ep_slug := unquote lib raw_slug in
  let ep_slug_lower := lower ep_slug in
  if belongs slug ep_slug_lower then
    let* id := get_item ep "id" in
    store episodes id (VStr ep_slug)
  else ret episodes.

(** [for ep in data] under the [try] of its search term: an exception ends
    the loop, and what was stored before it stays in the dictionary. *)
Fixpoint search_entries (lib : PyLib) (slug : string) (episodes : Episodes)
    (items : list value) : M Episodes :=
  match items with
  | [] => ret episodes
  | ep :: rest =>
      let* stored :=
        try_except (let* episodes' := search_entry lib slug episodes ep in
                    ret (Some episodes'))
                   (λ _, ret None) in
      match stored with
      | Some episodes' => search_entries lib slug episodes' rest
      | None => ret episodes
      end
  end.

(** The body of [for term in search_terms] *)
Definition search_term (lib : PyLib) (slug : string) (episodes : Episodes) (term : string)
  : M Episodes :=
  let* data :=
    try_except
      (let* resp := request (GET (API_URL +:+ "/episodes")
                               [("search", VStr term); ("per_page", VInt 100)] []) in
       let* data := json resp in
       ret (iter_value data))
      (λ _, ret None) in
  match data with
  | Some items => search_entries lib slug episodes items
  | None => ret episodes
  end.

Definition probe_request (slug : string) (season ep_num : Z) : Request :=
  GET (API_URL +:+ "/episodes")
      [("slug", VStr (slug +:+ "-" +:+ str_Z season +:+ "x" +:+ str_Z ep_num))] [].

(** One probe: the [try] statement in the body of [for ep_num in
    range(1, 100)]. The result is the dictionary, the miss counter and
    whether [break] is executed. *)
Definition probe (slug : string) (season ep_num : Z) (episodes : Episodes)
    (consecutive_misses : Z) : M (Episodes * Z * bool) :=
  try_except
    (let* resp := request (probe_request slug season ep_num) in
     let* data := json resp in
     if truthy data then
       let* first := get_first data in
       let* ep_slug := get_item first "slug" in
       let* id := get_item first "id" in
       let* episodes' := store episodes id ep_slug in
       ret (episodes', 0, false)
     else
       ret (episodes, consecutive_misses + 1, 3 <=? consecutive_misses + 1))
    (λ _, ret (episodes, consecutive_misses + 1, 3 <=? consecutive_misses + 1)).

(** [for ep_num in ep_nums] *)
Fixpoint probe_season (slug : string) (season : Z) (ep_nums : list Z)
    (episodes : Episodes) (consecutive_misses : Z) : M Episodes :=
  match ep_nums with
  | [] => ret episodes
  | ep_num :: rest =>
      let* r := probe slug season ep_num episodes consecutive_misses in
      if r.2 then ret r.1.1
      else probe_season slug season rest r.1.1 r.1.2
  end.

(** Strategy 2: [for season in range(1, 6)] *)
Definition probe_seasons (slug : string) (episodes : Episodes) : M Episodes :=
  for_each (λ episodes season, probe_season slug season (py_range 1 100) episodes 0)
           episodes (py_range 1 6).

Definition search_episodes (lib : PyLib) (slug : string) : M Episodes :=
  let* episodes := for_each (search_term lib slug) [] (search_terms slug) in
  probe_seasons slug episodes.

(** *** [parse_episode_key] *)

(** [(\d+)x(\d+)] *)
Definition sxe_re : re :=
  seqs [Grp 1 (Plus (Cls is_digit)); Lit "x"; Grp 2 (Plus (Cls is_digit))].

(** [(\d+)$] *)
Definition trailing_number_re : re := seqs [Grp 1 (Plus (Cls is_digit)); Eos].

Definition parse_episode_key (lib : PyLib) (ep_id : value) (slug : string) : string :=
  match re_search sxe_re slug with
  | Some (caps, _) =>
      "S" +:+ default EmptyString (group 1 caps) +:+ "E" +:+ default EmptyString (group 2 caps)
  | None =>
      if contains "الحلق" slug || contains "%d8%a7%d9%84%d8%ad%d9%84%d9%82" (lower slug)
      then match search_group1 trailing_number_re slug with
           | Some n => "S1E" +:+ n
           | None => "S1E1"
           end
      else "E" +:+ py_str lib ep_id
  end.

(** *** [resolve_hyperwatching] *)

Definition wrapper_marker : string := "hyperwatching.com/iframe/".

(** [csrf:\s*[QA]([^QA]+)[QA]], where Q and A are the double and the single
    quote *)
Definition csrf_re : re :=
  seqs [Lit "csrf:"; Star true (Cls is_space); Cls (one_of quotes);
        Grp 1 (Plus (Cls (none_of quotes))); Cls (one_of quotes)].

(** [servers:\s*\[(.*?)\]] with [re.DOTALL] *)
Definition servers_re : re :=
  seqs [Lit "servers:"; Star true (Cls is_space); Lit "[";
        Grp 1 (Star false (Cls any_char)); Lit "]"].

(** [id:\s*[QA](\d+)[QA]] *)
Definition server_id_re : re :=
  seqs [Lit "id:"; Star true (Cls is_space); Cls (one_of quotes);
        Grp 1 (Plus (Cls is_digit)); Cls (one_of quotes)].

(** [name:\s*[QA]([^QA]+)[QA]] *)
Definition server_name_re : re :=
  seqs [Lit "name:"; Star true (Cls is_space); Cls (one_of quotes);
        Grp 1 (Plus (Cls (none_of quotes))); Cls (one_of quotes)].

(** [{"hyperwatching": iframe_url}] *)
Definition fallback (iframe_url : string) : list (string * value) :=
  [("hyperwatching", VStr iframe_url)].

Definition link_request (api_url iframe_url csrf_token sid : string) : Request :=
  POST api_url
       [("Referer", iframe_url); ("X-Requested-With", "XMLHttpRequest");
        ("Accept", "application/json"); ("Content-Type", "application/json");
        ("X-CSRF-TOKEN", csrf_token)]
       [("server_link_id", VStr sid)] true.

(** The body of [for sid, sname in zip(server_ids, server_names)] *)
Definition resolve_server (api_url iframe_url csrf_token : string)
    (results : list (string * value)) (server : string * string)
  : M (list (string * value)) :=
  try_except
    (let* link_resp := request (link_request api_url iframe_url csrf_token server.1) in
     let* link_data := json link_resp in
     let* success := get_default link_data "success" VNone in
     if truthy success then
       let* watch_url := get_default link_data "watch_url" VNone in
       if truthy watch_url
       then ret (dict_set String.eqb results (lower server.2) watch_url)
       else ret results
     else ret results)
    (λ _, ret results).

(** [iframe_url.split("/iframe/")[-1].split("/")[0].split("?")[0]] *)
Definition video_id_of (iframe_url : string) : string :=
  let after := List.last (split "/iframe/" iframe_url) EmptyString in
  let seg := hd EmptyString (split "/" after) in
  hd EmptyString (split "?" seg).

Definition resolve_hyperwatching (iframe_url : string) : M (list (string * value)) :=
  try_except
    (let video_id := video_id_of iframe_url in
     let* resp := request (GET iframe_url [] []) in
     let html_content := text resp in
     let csrf_token := default EmptyString (search_group1 csrf_re html_content) in
     match search_group1 servers_re html_content with
     | None => ret (fallback iframe_url)
     | Some servers_text =>
         let server_ids := findall server_id_re servers_text in
         let server_names := findall server_name_re servers_text in
         let api_url := "https://hyperwatching.com/api/videos/" +:+ video_id +:+ "/link" in
         let* results :=
           for_each (resolve_server api_url iframe_url csrf_token) []
                    (zip server_ids server_names) in
         match results with
         | [] => ret (fallback iframe_url)
         | _ => ret results
         end
     end)
    (λ _, ret (fallback iframe_url)).

(** *** [get_video_urls] *)

Definition ajax_request (ep_id : value) (server_num : Z) : Request :=
  POST AJAX_URL []
       [("action", VStr "doo_player_ajax"); ("post", ep_id);
        ("nume", VInt server_num); ("type", VStr "tv")] false.

(** [decoded.split("url=")[-1]] when the marker occurs, else [decoded] *)
Definition actual_url_of (decoded : string) : string :=
  if contains "url=" decoded then List.last (split "url=" decoded) EmptyString
  else decoded.

(** The [try] statement for one server slot. The state is the list
    [servers] and the variable [hyperwatching_url]. *)
Definition slot (lib : PyLib) (ep_id : value)
    (st : list value * option string) (server_num : Z) : M (list value * option string) :=
  try_except
    (let* resp := request (ajax_request ep_id server_num) in
     let* data := json resp in
     let* embed_b64 := get_default data "embed_url" (VStr EmptyString) in
     if truthy embed_b64 then
       let* encoded := as_str embed_b64 in
       match b64decode_utf8 lib encoded with
       | Some decoded =>
           let actual_url := actual_url_of decoded in
           if contains wrapper_marker actual_url
           then ret (st.1 ++ [VNone], Some actual_url)
           else ret (st.1 ++ [VStr actual_url], st.2)
       | None => raise (ValueError "base64")
       end
     else ret (st.1 ++ [VNone], st.2))
    (λ _, ret (st.1 ++ [VNone], st.2)).

(** [all(s is None for s in servers)] *)
Definition all_none (servers : list value) : bool :=
  forallb (λ s, match s with VNone => true | _ => false end) servers.

(** The list built from the unwrapper's result *)
Definition remap (resolved : list (string * value)) : list value :=
  [get_or_none resolved "uqload";
   py_or (get_or_none resolved "earnvids") (get_or_none resolved "streamhg");
   get_or_none resolved "darkibox";
   get_or_none resolved "goodstream";
   get_or_none resolved "hyperwatching"].

Definition get_video_urls (lib : PyLib) (ep_id : value) : M (list value * bool) :=
  let* st := for_each (slot lib ep_id) ([], None) (py_range 1 6) in
  match st.2 with
  | Some hyperwatching_url =>
      if negb (String.eqb hyperwatching_url EmptyString) && all_none st.1 then
        let* resolved := resolve_hyperwatching hyperwatching_url in
        ret (remap resolved, true)
      else ret (st.1, false)
  | None => ret (st.1, false)
  end.

(** *** [fetch_episode] and [fetch_new_episode] *)

(** The dictionary that describes a resolved episode; [raw_url] is [None]
    when the key is not set, and else the value of [watch_url] as it was
    decoded. *)
Record Episode : Type := {
  episode : string;
  post_id : value;
  slug : string;
  servers : list (string * value);
  is_hyperwatching : bool;
  raw_url : option value
}.

Definition fetch_episode (lib : PyLib) (ep_id : value) (slug : string) : M Episode :=
  let ep_key := parse_episode_key lib ep_id slug in
  let* r := get_video_urls lib ep_id in
  let server_names :=
    if r.2 then SERVER_NAMES_HYPERWATCHING else SERVER_NAMES_STANDARD in
  ret {| episode := ep_key; post_id := ep_id; slug := slug;
         servers := dict_of String.eqb (zip server_names r.1);
         is_hyperwatching := r.2; raw_url := None |}.

Definition episode_request (lib : PyLib) (ep_id : value) : Request :=
  GET ("https://www.stardima.com/series/episode/" +:+ py_str lib ep_id) []
      [("X-Requested-With", "XMLHttpRequest")].

(** ["hyperwatching.com/iframe/" in v]: a piece of a text, an element of a
    list, a key of a dictionary; [None] when the test raises, as it does
    for any other value. *)
Definition marker_test (v : value) : option bool :=
  match v with
  | VStr s => Some (contains wrapper_marker s)
  | VList l =>
      Some (existsb (λ x, match x with
                          | VStr s => String.eqb s wrapper_marker
                          | _ => false
                          end) l)
  | VDict d => Some (existsb (λ kv, String.eqb kv.1 wrapper_marker) d)
  | _ => None
  end.

Definition marker_in (v : value) : M bool :=
  match marker_test v with
  | Some b => ret b
  | None => raise TypeError
  end.

(** [resolve_hyperwatching(v)] for any value: on a value that is not a
    text the first statement of the [try], [iframe_url.split], raises, and
    the handler returns the fallback. *)
Definition resolve_hyperwatching_value (v : value) : M (list (string * value)) :=
  match v with
  | VStr iframe_url => resolve_hyperwatching iframe_url
  | _ => ret [("hyperwatching", v)]
  end.

(** [None] is Python's [None]. *)
Definition fetch_new_episode (lib : PyLib) (show_id : string) (ep_id : value)
  : M (option Episode) :=
  try_except
    (let* resp := request (episode_request lib ep_id) in
     if status_code resp =? 200 then
       let* data := json resp in
       let* ep_data := get_default data "episode" data in
       let* watch := get_default ep_data "watch_url" (VStr EmptyString) in
       let* season_dflt := get_default ep_data "season" (VInt 1) in
       let* season := get_default ep_data "season_number" season_dflt in
       let* number_dflt := get_default ep_data "number" (VInt 1) in
       let* number := get_default ep_data "episode_number" number_dflt in
       let label := "S" +:+ py_str lib season +:+ "E" +:+ py_str lib number in
       let slug := show_id +:+ "-" +:+ py_str lib season +:+ "x" +:+ py_str lib number in
       let* wrapped := marker_in watch in
       if wrapped then
         let* resolved := resolve_hyperwatching_value watch in
         ret (Some {| episode := label; post_id := ep_id; slug := slug;
                      servers := resolved; is_hyperwatching := true;
                      raw_url := Some watch |})
       else if truthy watch then
         ret (Some {| episode := label; post_id := ep_id; slug := slug;
                      servers := [("direct", watch)];
                      is_hyperwatching := false; raw_url := Some watch |})
       else ret None
     else ret None)
    (λ _, ret None).

(** *** [unwrap_video_url] and [download_episode] *)

(** [[?&]id=([^&]+)] *)
Definition id_param_re : re :=
  seqs [Cls (one_of "?&"); Lit "id="; Grp 1 (Plus (Cls (none_of "&")))].

Definition unwrap_video_url (lib : PyLib) (url : string) : string :=
  if contains "strema.top/embed" url && contains "id=" url then
    match search_group1 id_param_re url with
    | Some encoded => unquote lib encoded
    | None => url
    end
  else url.

(** [(https?://[^/]+)] *)
Definition origin_re : re :=
  Grp 1 (seqs [Lit "http"; Opt (Lit "s"); Lit "://"; Plus (Cls (none_of "/"))]).

(** [{s.lower(): i for i, s in enumerate(preferred_servers)}] *)
Definition pref_order (preferred_servers : list string) : list (string * Z) :=
  dict_of String.eqb ((λ ix, (lower ix.2, ix.1)) <$> enumerate_from 0 preferred_servers).

(** The sort key [lambda x: pref_order.get(x[0].lower(), 999)] *)
Definition preference (order : list (string * Z)) (nu : string * value) : Z :=
  default 999 (dict_get String.eqb order (lower nu.1)).

(** The list [valid_urls] in the order in which the servers are tried *)
Definition candidates (servers : list (string * value))
    (preferred_servers skip_servers : option (list string)) : list (string * value) :=
  let valid_urls := List.filter (λ nu, truthy nu.2) servers in
  let valid_urls :=
    match skip_servers with
    | Some ((_ :: _) as skip) =>
        let skip_set := lower <$> skip in
        List.filter (λ nu, negb (mem (lower nu.1) skip_set)) valid_urls
    | _ => valid_urls
    end in
  match preferred_servers with
  | Some ((_ :: _) as preferred) =>
      sort_by (preference (pref_order preferred)) valid_urls
  | _ => valid_urls
  end.

Definition ydl_request (lib : PyLib) (output_template url : string) : YdlRequest :=
  let actual_url := unwrap_video_url lib url in
  let referer :=
    match re_match origin_re actual_url with
    | Some (caps, _) => default EmptyString (group 1 caps) +:+ "/"
    | None => EmptyString
    end in
  {| ydl_url := actual_url; ydl_referer := referer;
     ydl_origin := rstrip_char "/" referer; ydl_outtmpl := output_template |}.

(** [for server_name, url in valid_urls]: [true] as soon as one download
    goes through. *)
Fixpoint try_servers (lib : PyLib) (output_template : string)
    (valid_urls : list (string * value)) : M bool :=
  match valid_urls with
  | [] => ret false
  | (server_name, url) :: rest =>
      let* url_str := as_str url in
      let* ok := try_except (ydl_download (ydl_request lib output_template url_str) >> ret true)
                            (λ _, ret false) in
      if ok then ret true else try_servers lib output_template rest
  end.

(** [re.sub(r'[<>:Q/\\|?*]', '_', show_title)], Q the double quote *)
Definition safe_title (show_title : string) : string :=
  sub_chars ("<>:" +:+ dquote +:+ "/\|?*") "_" show_title.

Definition output_path (output_dir show_title : string) : string :=
  path_join output_dir (safe_title show_title).

Definition output_template (output_dir show_title ep_name : string) : string :=
  path_join (output_path output_dir show_title) (ep_name +:+ ".%(ext)s").

Definition download_episode (lib : PyLib) (episode_data : Episode)
    (show_title output_dir : string)
    (preferred_servers skip_servers : option (list string)) : M bool :=
  let ep_name := episode episode_data in
  let valid_urls := candidates (servers episode_data) preferred_servers skip_servers in
  match valid_urls with
  | [] => ret false
  | _ =>
      makedirs (output_path output_dir show_title) >>
      try_servers lib (output_template output_dir show_title ep_name) valid_urls
  end.

(** Vocabulary for the order of the candidates.  The entries of the
    preference list without those that a later entry repeats, letter case
    aside. *)
Fixpoint keep_last (preferred : list string) : list string :=
  match preferred with
  | [] => []
  | p :: rest =>
      if mem (lower p) (lower <$> rest) then keep_last rest else p :: keep_last rest
  end.

(** The server [nu] is named by the entry [p], or by some entry of the list. *)
Definition named (p : string) (nu : string * value) : bool :=
  String.eqb (lower nu.1) (lower p).

Definition preferred_by (preferred : list string) (nu : string * value) : bool :=
  mem (lower nu.1) (lower <$> preferred).

(** The servers that the list names, entry by entry, then the others; the
    servers of one entry, and the others, in the order they come in. *)
Definition preferred_first (preferred : list string) (valid_urls : list (string * value))
  : list (string * value) :=
  flat_map (λ p, List.filter (named p) valid_urls) (keep_last preferred) ++
  List.filter (λ nu, negb (preferred_by preferred nu)) valid_urls.

(** The servers that have a URL and that the skip list does not name *)
Definition remaining (skip : list string) (servers : list (string * value))
  : list (string * value) :=
  List.filter (λ nu, negb (mem (lower nu.1) (lower <$> skip)))
    (List.filter (λ nu, truthy nu.2) servers).

(** What a slot of [servers] holds after [fetch_episode]: a URL or [None] *)
Definition url_or_none (v : value) : bool :=
  match v with
  | VStr _ | VNone => true
  | _ => false
  end.

Definition url_text (v : value) : string :=
  match v with
  | VStr s => s
  | _ => EmptyString
  end.

(** The download from the server [nu] was attempted and went through, or not. *)
Definition attempt (lib : PyLib) (output_template : string) (ok : bool)
    (nu : string * value) : Event :=
  EYdl (ydl_request lib output_template (url_text nu.2)) ok.

(** The value of the last pair with the key [k], and the rank that
    [pref_order] gives to a lower-cased name, 999 when it has none. *)
Fixpoint last_value {V : Type} (pairs : list (string * V)) (k : string) : option V :=
  match pairs with
  | [] => None
  | (k', v) :: rest =>
      match last_value rest k with
      | Some v' => Some v'
      | None => if String.eqb k' k then Some v else None
      end
  end.

Definition rank_pairs (start : Z) (preferred : list string) : list (string * Z) :=
  (λ ix, (lower ix.2, ix.1)) <$> enumerate_from start preferred.

Definition rank (start : Z) (preferred : list string) (n : string) : Z :=
  default 999 (last_value (rank_pairs start preferred) n).

(** Vocabulary for the unwrapper: the URL that a reply of the link endpoint
    carries when the request succeeded and returned one. *)
Definition link_of_reply (reply : option Response) : option value :=
  match reply with
  | Some r =>
      match json_body r with
      | Some (VDict d) =>
          if truthy (get_or_none d "success") && truthy (get_or_none d "watch_url")
          then Some (get_or_none d "watch_url") else None
      | _ => None
      end
  | None => None
  end.

Definition add_link (results : list (string * value)) (server : string * string)
    (reply : option Response) : list (string * value) :=
  match link_of_reply reply with
  | Some watch_url => dict_set String.eqb results (lower server.2) watch_url
  | None => results
  end.

Definition api_url_of (iframe_url : string) : string :=
  "https://hyperwatching.com/api/videos/" +:+ video_id_of iframe_url +:+ "/link".

(** The servers listed by the wrapper page and the requests made for them *)
Definition servers_of (servers_text : string) : list (string * string) :=
  zip (findall server_id_re servers_text) (findall server_name_re servers_text).

Definition link_requests (iframe_url html_content servers_text : string) : list Request :=
  (λ srv, link_request (api_url_of iframe_url) iframe_url
            (default EmptyString (search_group1 csrf_re html_content)) srv.1)
  <$> servers_of servers_text.

(** The pairs of the servers whose request succeeded and returned a URL *)
Definition resolved_pairs (servers : list (string * string))
    (replies : list (option Response)) : list (string * value) :=
  omap (λ sr, (λ u, (lower sr.1.2, u)) <$> link_of_reply sr.2) (zip servers replies).

Definition listed_servers (page : option Response) : list (string * string) :=
  match page with
  | Some p =>
      match search_group1 servers_re (text p) with
      | Some servers_text => servers_of servers_text
      | None => []
      end
  | None => []
  end.

Definition csrf_of (page : option Response) : string :=
  match page with
  | Some p => default EmptyString (search_group1 csrf_re (text p))
  | None => EmptyString
  end.

(** Vocabulary for the server slots: the URL that the reply for a slot
    decodes to, the entry the slot gets in the first pass, and the wrapper
    URL it sets aside. *)
Definition embed_of (lib : PyLib) (reply : option Response) : option string :=
  match reply with
  | Some r =>
      match json_body r with
      | Some (VDict d) =>
          match default (VStr EmptyString) (dict_get String.eqb d "embed_url") with
          | VStr embed_b64 =>
              if String.eqb embed_b64 EmptyString then None
              else b64decode_utf8 lib embed_b64
          | _ => None
          end
      | _ => None
      end
  | None => None
  end.

Definition decoded_of (lib : PyLib) (reply : option Response) : option string :=
  actual_url_of <$> embed_of lib reply.

Definition slot_entry (lib : PyLib) (reply : option Response) : value :=
  match decoded_of lib reply with
  | Some actual_url => if contains wrapper_marker actual_url then VNone else VStr actual_url
  | None => VNone
  end.

Definition slot_wrapper (lib : PyLib) (reply : option Response) : option string :=
  match decoded_of lib reply with
  | Some actual_url => if contains wrapper_marker actual_url then Some actual_url else None
  | None => None
  end.

Definition slot_step (lib : PyLib) (st : list value * option string)
    (reply : option Response) : list value * option string :=
  (st.1 ++ [slot_entry lib reply],
   match slot_wrapper lib reply with Some u => Some u | None => st.2 end).

Definition wrapper_seen (lib : PyLib) (replies : list (option Response)) : option string :=
  last (omap (slot_wrapper lib) replies).



(** Vocabulary for the probes: the entry that the reply to a probe adds to
    the dictionary; every other reply is a miss. *)
Definition probe_hit (reply : option Response) : option (value * value) :=
  match reply with
  | Some r =>
      match json_body r with
      | Some (VList (VDict d :: rest)) =>
          match dict_get String.eqb d "slug", dict_get String.eqb d "id" with
          | Some ep_slug, Some id => if hashable id then Some (id, ep_slug) else None
          | _, _ => None
          end
      | _ => None
      end
  | None => None
  end.

Definition is_miss (reply : option Response) : bool :=
  match probe_hit reply with Some _ => false | None => true end.

Definition add_hit (episodes : Episodes) (reply : option Response) : Episodes :=
  match probe_hit reply with
  | Some (id, ep_slug) => dict_set key_eqb episodes id ep_slug
  | None => episodes
  end.

(** The miss counter after the probes with miss flags [flags], from [m] *)
Definition miss_count (m : Z) (flags : list bool) : Z :=
  foldl (λ c miss, if miss : bool then c + 1 else 0) m flags.

(** Probing went on as long as, and stopped as soon as, the last three
    probes were misses: [flags] tells for each probe made whether it was a
    miss, [bound] is the number of episode numbers to try. *)
Definition stops_after_three_misses (bound : nat) (flags : list bool) : Prop :=
  (length flags ≤ bound)%nat ∧
  (∀ i, flags !! i = Some true → flags !! (i + 1)%nat = Some true →
        flags !! (i + 2)%nat = Some true → (i + 3)%nat = length flags) ∧
  ((length flags < bound)%nat → ∃ before, flags = before ++ [true; true; true]).

(** The probes of one season, in order, with their replies *)
Definition season_events (slug : string) (season : Z) (replies : list (option Response))
  : list Event :=
  http_events (probe_request slug season <$> seqZ 1 (Z.of_nat (length replies))) replies.

(** *** [extract_slug] *)

(** [www\.stardima\.com/tvshow/([^/]+)(?:/play/(\d+))?] *)
Definition new_url_re : re :=
  seqs [Lit "www.stardima.com/tvshow/"; Grp 1 (Plus (Cls (none_of "/")));
        Opt (seqs [Lit "/play/"; Grp 2 (Plus (Cls is_digit))])].

(** [/tvshows/([^/#?]+)] *)
Definition tvshows_re : re :=
  seqs [Lit "/tvshows/"; Grp 1 (Plus (Cls (none_of "/#?")))].

(** [/episodes/([^/#?]+)] *)
Definition episodes_re : re :=
  seqs [Lit "/episodes/"; Grp 1 (Plus (Cls (none_of "/#?")))].

(** [-\d+x\d+$] *)
Definition sxe_suffix_re : re :=
  seqs [Lit "-"; Plus (Cls is_digit); Lit "x"; Plus (Cls is_digit); Eos].

(** The result is the tuple of the slug, the kind of URL and the episode
    id, each of them a text or [None]. *)
Definition extract_slug (url : string) : option string * option string * option string :=
  match re_search new_url_re url with
  | Some (caps, _) => (group 1 caps, Some "new_stardima", group 2 caps)
  | None =>
      match re_search tvshows_re url with
      | Some (caps, _) => (group 1 caps, Some "tvshow", None)
      | None =>
          match re_search episodes_re url with
          | Some (caps, _) =>
              let episode_slug := default EmptyString (group 1 caps) in
              let show_slug := re_sub sxe_suffix_re EmptyString episode_slug in
              (Some show_slug, Some "episode", None)
          | None => (None, None, None)
          end
      end
  end.

(** *** [main]: the sort key and the table *)

(** [S(\d+)E(\d+)] *)
Definition key_re : re :=
  seqs [Lit "S"; Grp 1 (Plus (Cls is_digit)); Lit "E"; Grp 2 (Plus (Cls is_digit))].

(** [sort_key]: a pair of integers for an episode named [S..E..], else the
    pair of 999 and the post id. The groups of [key_re] are ASCII digits;
    [None] stands for the [ValueError] that [int] raises for a group of
    more than [max_str_digits] digits. *)
Definition sort_key (x : Episode) : option (Z * value) :=
  match re_match key_re (episode x) with
  | Some (caps, _) =>
      match int_ascii (default EmptyString (group 1 caps)),
            int_ascii (default EmptyString (group 2 caps)) with
      | Some season, Some number => Some (season, VInt number)
      | _, _ => None
      end
  | None => Some (999, post_id x)
  end.

(** The lines that the table prints for the servers of one episode:
    [for i, name in enumerate(server_names)] with the test [if url]. *)
Definition table_line (lib : PyLib) (ep : Episode) (iname : Z * string) : list string :=
  let url := get_or_none (servers ep) iname.2 in
  if truthy url
  then ["  [" +:+ str_Z (iname.1 + 1) +:+ "] " +:+ ljust 12 (capitalize iname.2)
        +:+ " " +:+ py_str lib url]
  else [].

Definition table_lines (lib : PyLib) (ep : Episode) : list string :=
  let server_names :=
    if is_hyperwatching ep then SERVER_NAMES_HYPERWATCHING else SERVER_NAMES_STANDARD in
  flat_map (table_line lib ep) (enumerate_from 0 server_names).

(** Vocabulary for the episode keys: a digit, the letter [x] and a digit
    stand in a row somewhere in [s], or after the digits that [s] starts
    with. *)
Definition x_digit (t : string) : bool :=
  match t with
  | String b (String c _) => Ascii.eqb b "x" && is_digit c
  | _ => false
  end.

Fixpoint has_sxe (s : string) : bool :=
  match s with
  | String a t => (is_digit a && x_digit t) || has_sxe t
  | EmptyString => false
  end.

Fixpoint starts_sxe (s : string) : bool :=
  match s with
  | String a t => is_digit a && (starts_sxe t || x_digit t)
  | EmptyString => false
  end.

(** Vocabulary for the full-text searches of strategy 1 *)
Definition search_request (term : string) : Request :=
  GET (API_URL +:+ "/episodes") [("search", VStr term); ("per_page", VInt 100)] [].

(** A request of strategy 2 *)
Definition is_probe (slug : string) (ev : Event) : Prop :=
  ∃ season ep_num reply, ev = EHttp (probe_request slug season ep_num) reply.

(** [s] has an upper-case letter. *)
Definition has_upper (s : string) : bool :=
  existsb is_upper (list_ascii_of_string s).

(** *** [main]: the CSV output *)

(** [f"{servers.get(name, '')}"] *)
Definition csv_cell (lib : PyLib) (servers : list (string * value)) (name : string)
  : string :=
  py_str lib (default (VStr EmptyString) (dict_get String.eqb servers name)).

Definition csv_row_hyperwatching (lib : PyLib) (ep : Episode) : string :=
  episode ep +:+ "," +:+ py_str lib (post_id ep) +:+ "," +:+
  csv_cell lib (servers ep) "uqload" +:+ "," +:+
  csv_cell lib (servers ep) "streamhg" +:+ "," +:+
  csv_cell lib (servers ep) "darkibox" +:+ "," +:+
  csv_cell lib (servers ep) "goodstream" +:+ "," +:+
  csv_cell lib (servers ep) "other".

Definition csv_row_standard (lib : PyLib) (ep : Episode) : string :=
  episode ep +:+ "," +:+ py_str lib (post_id ep) +:+ "," +:+
  csv_cell lib (servers ep) "vudeo" +:+ "," +:+
  csv_cell lib (servers ep) "uqload" +:+ "," +:+
  csv_cell lib (servers ep) "mailru" +:+ "," +:+
  csv_cell lib (servers ep) "goodstream" +:+ "," +:+
  csv_cell lib (servers ep) "vk".

(** The lines that the CSV output prints: the first episode decides on the
    header and on the names that every row is read by. *)
Definition csv_lines (lib : PyLib) (results : list Episode) : list string :=
  match results with
  | first :: _ =>
      if is_hyperwatching first
      then "Episode,PostID,Uqload,Streamhg,Darkibox,Goodstream,Other"
           :: (csv_row_hyperwatching lib <$> results)
      else "Episode,PostID,Vudeo,Uqload,MailRu,Goodstream,VK"
           :: (csv_row_standard lib <$> results)
  | [] => ["Episode,PostID,Vudeo,Uqload,MailRu,Goodstream,VK"]
  end.

(** What a cell shows for a slot: the URL, or the text [None]. *)
Definition shown (v : value) : string :=
  match v with
  | VStr url => url
  | _ => "None"
  end.

(** Vocabulary for strategy 1. The hits of the reply to a search are the
    items of its JSON value, and the hits of the searches for [terms], the
    first made at time [t], are those of all their replies. *)
Definition hits_of (reply : option Response) : list value :=
  match reply with
  | Some resp =>
      match json_body resp with
      | Some data => default [] (iter_value data)
      | None => []
      end
  | None => []
  end.

Definition search_hits (oracle : nat → Request → option Response) (t : nat)
    (terms : list string) : list value :=
  concat (hits_of <$> replies_from oracle t (search_request <$> terms)).

(** The entry [kv] of the dictionary was stored for [hit]: its value is the
    unquoted slug of the hit, its key equals the id of the hit, and the
    slug, when it is a text of ASCII characters, contains the show slug once
    lower-cased, or [w-i-t-c-h] when the show slug is [witch]. *)
Definition stored_hit (lib : PyLib) (slug : string) (hit : value) (kv : value * value) : Prop :=
  ∃ d raw id,
    hit = VDict d ∧
    default (VStr EmptyString) (dict_get String.eqb d "slug") = VStr raw ∧
    dict_get String.eqb d "id" = Some id ∧
    key_eqb kv.1 id = true ∧
    kv.2 = VStr (unquote lib raw) ∧
    (ascii_text (unquote lib raw) = true →
     contains slug (lower (unquote lib raw)) = true ∨
     (slug = "witch" ∧ contains "w-i-t-c-h" (lower (unquote lib raw)) = true)).

(** Every entry was stored for a hit that satisfies [P]. *)
Definition stored_for (lib : PyLib) (slug : string) (P : value → Prop)
    (episodes : Episodes) : Prop :=
  Forall (λ kv, ∃ hit, P hit ∧ stored_hit lib slug hit kv) episodes.

(** [id] is a key of the dictionary. *)
Definition has_key (episodes : Episodes) (id : value) : Prop :=
  ∃ kv, kv ∈ episodes ∧ key_eqb kv.1 id = true.

(** *** [get_show_info] *)

(** The dictionary that describes a show; [show_id] is [None] for a show
    that is known from an episode only. *)
Record Show : Type := {
  show_id : value;
  show_title : value;
  show_slug : string
}.

(** [html.unescape(v)], which starts with the test ['&' not in v]: a text
    is unescaped by the library function [unescape]; a list or a
    dictionary without the entry ['&'] is returned as it is, and one with
    it makes the substitution raise; on any other value the test
    raises. *)
Definition html_unescape (unescape : string → string) (v : value) : M value :=
  match v with
  | VStr s => ret (VStr (unescape s))
  | VList l => if existsb (key_eqb (VStr "&")) l then raise TypeError else ret v
  | VDict d => if existsb (String.eqb "&") d.*1 then raise TypeError else ret v
  | _ => raise TypeError
  end.

(** [:\s*\d+[x×]\d+.*$] *)
Definition episode_suffix_re : re :=
  seqs [Lit ":"; Star true (Cls is_space); Plus (Cls is_digit);
        Alt (Lit "x") (Lit "×"); Plus (Cls is_digit);
        Star true (Cls not_newline); Eos].

(** [re.sub(r, '', v)] on a value *)
Definition sub_suffix (v : value) : M value :=
  match v with
  | VStr s => ret (VStr (re_sub episode_suffix_re EmptyString s))
  | _ => raise TypeError
  end.

Definition tvshows_request (slug : string) : Request :=
  GET (API_URL +:+ "/tvshows") [("slug", VStr slug)] [].

Definition first_episode_request (slug : string) : Request :=
  GET (API_URL +:+ "/episodes") [("slug", VStr (slug +:+ "-1x1"))] [].

(** [data[0]["title"]["rendered"]] *)
Definition rendered_title (data : value) : M value :=
  let* first := get_first data in
  let* title := get_item first "title" in
  get_item title "rendered".

(** The body of the first [if data:] *)
Definition found_show (unescape : string → string) (slug : string) (data : value)
  : M (option Show) :=
  let* first := get_first data in
  let* id := get_item first "id" in
  let* rendered := rendered_title data in
  let* title := html_unescape unescape rendered in
  ret (Some {| show_id := id; show_title := title; show_slug := slug |}).

(** The body of the second [if data:] *)
Definition synthetic_show (unescape : string → string) (slug : string) (data : value)
  : M (option Show) :=
  let* rendered := rendered_title data in
  let* ep_title := html_unescape unescape rendered in
  let* show_title := sub_suffix ep_title in
  ret (Some {| show_id := VNone; show_title := show_title; show_slug := slug |}).

(** No call of this function is guarded: what a request, [json] or a
    subscript raises leaves the function. *)
Definition get_show_info (unescape : string → string) (slug url_type : string)
  : M (option Show) :=
  let* resp := request (tvshows_request slug) in
  let* data := json resp in
  if truthy data then found_show unescape slug data
  else if String.eqb url_type "episode" then
    let* resp := request (first_episode_request slug) in
    let* data := json resp in
    if truthy data then synthetic_show unescape slug data
    else ret None
  else ret None.

(** Vocabulary for the runs of [get_show_info]: what a reply decodes to. *)
Definition decoded (reply : option Response) : option value :=
  match reply with
  | Some resp => json_body resp
  | None => None
  end.

(** *** [get_new_stardima_seasons] and [get_new_stardima_episodes] *)

Definition show_page_request (show_id : string) : Request :=
  GET ("https://www.stardima.com/tvshow/" +:+ show_id) [] [].

(** [data-season-id=["\'](\d+)["\']] *)
Definition season_attr_re : re :=
  seqs [Lit "data-season-id="; Cls (one_of quotes); Grp 1 (Plus (Cls is_digit));
        Cls (one_of quotes)].

(** [/series/season/(\d+)] *)
Definition season_path_re : re :=
  seqs [Lit "/series/season/"; Grp 1 (Plus (Cls is_digit))].

(** [seasonId["\']?\s*:\s*["\']?(\d+)] *)
Definition season_key_re : re :=
  seqs [Lit "seasonId"; Opt (Cls (one_of quotes)); Star true (Cls is_space); Lit ":";
        Star true (Cls is_space); Opt (Cls (one_of quotes)); Grp 1 (Plus (Cls is_digit))].

(** [list(set(l))] keeps one of each element of [l], in an order that the
    language does not fix: [set_order] stands for it. [page_html] is
    [None] when the argument is left out. *)
Definition get_new_stardima_seasons (set_order : list string → list string)
    (show_id : string) (page_html : option string) : M (list string) :=
  try_except
    (let* page_html :=
       match page_html with
       | Some html =>
           if negb (String.eqb html EmptyString) then ret html
           else let* resp := request (show_page_request show_id) in ret (text resp)
       | None => let* resp := request (show_page_request show_id) in ret (text resp)
       end in
     let season_matches :=
       findall season_attr_re page_html ++ findall season_path_re page_html
       ++ findall season_key_re page_html in
     ret (set_order season_matches))
    (λ _, ret []).

(** An entry of the list [episodes] *)
Record NewEpisode : Type := {
  ne_id : value;
  ne_season : value;
  ne_number : value;
  ne_title : value;
  ne_watch_url : value
}.

Definition season_request (season_id : string) : Request :=
  GET ("https://www.stardima.com/series/season/" +:+ season_id) []
      [("X-Requested-With", "XMLHttpRequest")].

(** The dictionary that the body of [for ep in ep_list] appends *)
Definition new_episode_entry (ep : value) : M NewEpisode :=
  let* id := get_default ep "id" VNone in
  let* season_dflt := get_default ep "season" (VInt 1) in
  let* season := get_default ep "season_number" season_dflt in
  let* number_dflt := get_default ep "number" (VInt 1) in
  let* number := get_default ep "episode_number" number_dflt in
  let* title := get_default ep "title" (VStr EmptyString) in
  let* watch_url := get_default ep "watch_url" (VStr EmptyString) in
  ret {| ne_id := id; ne_season := season; ne_number := number; ne_title := title;
         ne_watch_url := watch_url |}.

(** [for ep in ep_list] under the [try] of its season: an exception ends
    the loop, and what was appended before it stays in the list. *)
Fixpoint season_entries (episodes : list NewEpisode) (items : list value)
  : M (list NewEpisode) :=
  match items with
  | [] => ret episodes
  | ep :: rest =>
      let* added :=
        try_except (let* entry := new_episode_entry ep in ret (Some entry))
                   (λ _, ret None) in
      match added with
      | Some entry => season_entries (episodes ++ [entry]) rest
      | None => ret episodes
      end
  end.

(** The body of [for season_id in season_ids] *)
Definition season_step (episodes : list NewEpisode) (season_id : string)
  : M (list NewEpisode) :=
  let* ep_list :=
    try_except
      (let* resp := request (season_request season_id) in
       if status_code resp =? 200 then
         let* data := json resp in
         let* ep_list := get_default data "episodes" (VList []) in
         ret (iter_value ep_list)
       else ret (Some []))
      (λ _, ret None) in
  match ep_list with
  | Some items => season_entries episodes items
  | None => ret episodes
  end.

(** [season_ids] is [None] when the argument is left out. The request for
    the page of the show is not guarded. *)
Definition get_new_stardima_episodes (set_order : list string → list string)
    (show_id : string) (season_ids : option (list string)) : M (list NewEpisode) :=
  let* season_ids :=
    match season_ids with
    | Some ((_ :: _) as ids) => ret ids
    | _ =>
        let* resp := request (show_page_request show_id) in
        get_new_stardima_seasons set_order show_id (Some (text resp))
    end in
  for_each season_step [] season_ids.

(** Vocabulary for the seasons: the entry that an item of a season gives,
    the entries up to the first item that is no object, and what the reply
    to the request for a season adds to the list. *)
Definition entry_of (ep : value) : option NewEpisode :=
  match ep with
  | VDict d =>
      Some {| ne_id := get_or_none d "id";
              ne_season := default (default (VInt 1) (dict_get String.eqb d "season"))
                                   (dict_get String.eqb d "season_number");
              ne_number := default (default (VInt 1) (dict_get String.eqb d "number"))
                                   (dict_get String.eqb d "episode_number");
              ne_title := default (VStr EmptyString) (dict_get String.eqb d "title");
              ne_watch_url := default (VStr EmptyString)
                                      (dict_get String.eqb d "watch_url") |}
  | _ => None
  end.

Fixpoint entries_of (items : list value) : list NewEpisode :=
  match items with
  | [] => []
  | ep :: rest =>
      match entry_of ep with
      | Some entry => entry :: entries_of rest
      | None => []
      end
  end.

Definition season_of (reply : option Response) : list NewEpisode :=
  match reply with
  | Some resp =>
      if status_code resp =? 200 then
        match json_body resp with
        | Some (VDict d) =>
            match iter_value (default (VList []) (dict_get String.eqb d "episodes")) with
            | Some items => entries_of items
            | None => []
            end
        | _ => []
        end
      else []
  | None => []
  end.

End Stardima.

(** ** Sample inputs *)
Module Demo.
Import Py Eff.

Definition lib : PyLib := {|
  urljoin := λ base url, if contains "://" url then url else base +:+ "/" +:+ url;
  b64decode_utf8 := λ s, if startswith "b64:" s then Some (drop_chars 4 s) else None;
  unquote := λ s, s;
  soup_scripts := λ html, [None; Some html];
  repr_container := λ _, "[...]";
  int_wide := λ _, None;
  markup_ok := λ s, (length (split "[/" s) <=? 2)%nat;
  urljoin_error := λ base url, if startswith "//[" url then Some "Invalid IPv6 URL" else None
|}.

(** A world without network in which the files [files] exist. *)
Definition offline (files : gmap string string) : World :=
  {| net := λ _ _, None; ydl := λ _ _, false; fs := files; trace := [] |}.

Definition reply (body : string) : option Response :=
  Some {| status_code := 200; text := body; json_body := None |}.

Definition reply_json (v : value) : option Response :=
  Some {| status_code := 200; text := EmptyString; json_body := Some v |}.

(** An episode page whose script carries the four fields. *)
Definition quoted (s : string) : string := dquote +:+ s +:+ dquote.

Definition page_html : string :=
  "const cfg = { jC1kO: " +:+ quoted "https" +:+ ", hF3nV: " +:+ quoted "stream.foupix.com"
  +:+ ", iA5pX: " +:+ quoted "hls/ep1.m3u8" +:+ ", tN4qY: " +:+ quoted "t=1" +:+ " };".

Definition stream : string := "https://stream.foupix.com/hls/ep1.m3u8?t=1".

Definition pg : Dimakids.Page :=
  {| Dimakids.safe_folder_name := "Show"; Dimakids.is_movie := false;
     Dimakids.episode_count := 12 |}.

Definition item : Dimakids.Item :=
  {| Dimakids.num := 1; Dimakids.link := "http://cdn/old.m3u8";
     Dimakids.page_link := "http://dk/ep1" |}.

(** The link found at first has expired; the second segment cannot be
    fetched before ten effects have taken place. *)
Definition flaky : World :=
  {| net := λ t rq,
       match rq with
       | GET url _ _ =>
           if String.eqb url "http://dk/ep1" then reply page_html
           else if String.eqb url stream
                then reply ("#EXTM3U" +:+ newline +:+ "http://cdn/s1.ts" +:+ newline
                            +:+ "http://cdn/s2.ts" +:+ newline)
           else if String.eqb url "http://cdn/s1.ts" then reply "AAAA"
           else if String.eqb url "http://cdn/s2.ts"
                then if (t <? 10)%nat then None else reply "BBBB"
           else None
       | POST _ _ _ _ => None
       end;
     ydl := λ _ _, false;
     fs := ∅;
     trace := [] |}.

(** The same servers when every segment can be fetched at once. *)
Definition steady : World :=
  {| net := λ _ rq, net flaky 10%nat rq; ydl := λ _ _, false; fs := ∅; trace := [] |}.


(** Slot 1 holds a direct URL behind a redirect, slot 2 a wrapper URL, the
    other slots give no reply. *)
Definition mixed : World :=
  {| net := λ _ rq,
       match rq with
       | POST _ _ [_; _; (_, VInt 1); _] _ =>
           reply_json (VDict [("embed_url",
                               VStr "b64:https://strema.top/go?url=https://vudeo.net/e1")])
       | POST _ _ [_; _; (_, VInt 2); _] _ =>
           reply_json (VDict [("embed_url", VStr "b64:https://hyperwatching.com/iframe/abc")])
       | _ => None
       end;
     ydl := λ _ _, false;
     fs := ∅;
     trace := [] |}.

(** The new site's episode endpoint answers with a plain media URL. *)
Definition new_site : World :=
  {| net := λ _ rq,
       match rq with
       | GET _ _ _ =>
           reply_json (VDict [("episode",
                               VDict [("watch_url", VStr "https://cdn.example/v.mp4");
                                      ("season_number", VInt 1);
                                      ("episode_number", VInt 2)])])
       | _ => None
       end;
     ydl := λ _ _, false;
     fs := ∅;
     trace := [] |}.

(** A show whose first season has exactly the episodes 1 to 12. *)
Definition season12_slug (e : Z) : string := "show-1x" +:+ str_Z e.

Definition season12 : World :=
  {| net := λ _ rq,
       match rq with
       | GET _ [(_, VStr s)] _ =>
           if mem s (season12_slug <$> seqZ 1 12)
           then reply_json (VList [VDict [("id", VStr s); ("slug", VStr s)]])
           else reply_json (VList [])
       | _ => None
       end;
     ydl := λ _ _, false;
     fs := ∅;
     trace := [] |}.

(** An episode with four servers, and a world in which only the downloads
    from uqload go through. *)
Definition ep1 : Stardima.Episode :=
  {| Stardima.episode := "show-1x1"; Stardima.post_id := VInt 7;
     Stardima.slug := "show-1x1";
     Stardima.servers := [("vudeo", VStr "https://vudeo.net/e1");
                          ("uqload", VStr "https://uqload.io/e1");
                          ("mailru", VNone);
                          ("goodstream", VStr "https://goodstream.one/e1");
                          ("vk", VStr "https://vk.com/e1")];
     Stardima.is_hyperwatching := false; Stardima.raw_url := None |}.

Definition picky : World :=
  {| net := λ _ _, None;
     ydl := λ _ rq, contains "uqload" (ydl_url rq);
     fs := ∅;
     trace := [] |}.

(** A preference list of a thousand names that ends in [vk] *)
Definition thousand : list string := (str_Z <$> seqZ 0 999) ++ ["vk"].

(** Every slot that answers holds a wrapper URL; the wrapper lists two
    servers, and both resolve. *)
Definition wrapped : World :=
  {| net := λ _ rq,
       match rq with
       | POST _ _ [_; _; (_, VInt 1); _] _ =>
           reply_json (VDict [("embed_url", VStr "b64:https://hyperwatching.com/iframe/abc")])
       | GET _ _ _ =>
           reply "csrf: 'tok', servers: [{id: '1', name: 'EarnVids'}, {id: '2', name: 'LuluStream'}]"
       | POST _ _ [(_, VStr "1")] _ =>
           reply_json (VDict [("success", VBool true);
                              ("watch_url", VStr "https://earnvids.example/v1")])
       | POST _ _ [(_, VStr "2")] _ =>
           reply_json (VDict [("success", VBool true);
                              ("watch_url", VStr "https://lulustream.example/v2")])
       | _ => None
       end;
     ydl := λ _ _, false;
     fs := ∅;
     trace := [] |}.

End Demo.

(** * Properties *)

(** ** The monad of effects *)
Module EffFacts.
Import Py Eff.

Lemma bind_ok {A B} (c : M A) (k : A → M B) w a w' :
  c w = (Ok a, w') → bind c k w = k a w'.
Proof. unfold bind. by intros ->. Qed.

Lemma bind_raise {A B} (c : M A) (k : A → M B) w e w' :
  c w = (Raise e, w') → bind c k w = (Raise e, w').
Proof. unfold bind. by intros ->. Qed.

Lemma try_except_ok {A} (c : M A) h w a w' :
  c w = (Ok a, w') → try_except c h w = (Ok a, w').
Proof. unfold try_except. by intros ->. Qed.

Lemma try_except_raise {A} (c : M A) h w e w' :
  c w = (Raise e, w') → try_except c h w = h e w'.
Proof. unfold try_except. by intros ->. Qed.

Lemma trace_log ev w : trace (log ev w) = trace w ++ [ev].
Proof. done. Qed.

Lemma fs_log ev w : fs (log ev w) = fs w.
Proof. done. Qed.

Lemma string_app_cons c (a b : string) : String c a +:+ b = String c (a +:+ b).
Proof. reflexivity. Qed.

Lemma string_app_assoc (a b c : string) : (a +:+ b) +:+ c = a +:+ (b +:+ c).
Proof. induction a as [|x a IH]; [done|]. by rewrite !string_app_cons, IH. Qed.

Lemma string_app_empty_r (a : string) : a +:+ "" = a.
Proof. induction a as [|x a IH]; [done|]. by rewrite string_app_cons, IH. Qed.


Lemma string_app_length (a b : string) :
  String.length (a +:+ b) = (String.length a + String.length b)%nat.
Proof. induction a as [|c a IH]; [done|]. rewrite string_app_cons. simpl. by rewrite IH. Qed.

Lemma string_app_ne_self (a b : string) : b ≠ EmptyString → a +:+ b ≠ a.
Proof.
  intros Hb E. apply (f_equal String.length) in E.
  rewrite string_app_length in E. destruct b; [done|]. simpl in E. lia.
Qed.

Lemma wp_ret {A} (a : A) Q w : Q (Ok a) w → wp (ret a) Q w.
Proof. done. Qed.

Lemma wp_raise {A} e (Q : res A → World → Prop) w : Q (Raise e) w → wp (raise e) Q w.
Proof. done. Qed.

Lemma wp_bind {A B} (c : M A) (k : A → M B) Q w :
  wp c (λ r w', match r with Ok a => wp (k a) Q w' | Raise e => Q (Raise e) w' end) w →
  wp (bind c k) Q w.
Proof. unfold wp, bind. by destruct (c w) as [[a|e] w']. Qed.

Lemma wp_try_except {A} (c : M A) h Q w :
  wp c (λ r w', match r with Ok a => Q (Ok a) w' | Raise e => wp (h e) Q w' end) w →
  wp (try_except c h) Q w.
Proof. unfold wp, try_except. by destruct (c w) as [[a|e] w']. Qed.

Lemma wp_mono {A} (c : M A) (Q Q' : res A → World → Prop) w :
  wp c Q w → (∀ r w', Q r w' → Q' r w') → wp c Q' w.
Proof. unfold wp. auto. Qed.

Lemma wp_request rq (Q : res Response → World → Prop) w :
  (∀ reply, reply = net w (length (trace w)) rq →
     Q (match reply with Some r => Ok r | None => Raise ConnectionError end)
       (log (EHttp rq reply) w)) →
  wp (request rq) Q w.
Proof.
  intros H. unfold wp, request. specialize (H _ eq_refl).
  by destruct (net w (length (trace w)) rq).
Qed.

Lemma wp_raise_for_status r (Q : res unit → World → Prop) w :
  (if status_ok r then Q (Ok tt) w else Q (Raise (HTTPError (status_code r))) w) →
  wp (raise_for_status r) Q w.
Proof.
  unfold wp, raise_for_status. by destruct (status_ok r).
Qed.


Lemma logs_nil w : logs [] w = w.
Proof. destruct w. unfold logs. simpl. by rewrite app_nil_r. Qed.

Lemma log_logs ev w : log ev w = logs [ev] w.
Proof. done. Qed.

Lemma logs_logs e1 e2 w : logs e2 (logs e1 w) = logs (e1 ++ e2) w.
Proof. unfold logs. simpl. by rewrite app_assoc. Qed.

Lemma replies_from_length oracle t rqs : length (replies_from oracle t rqs) = length rqs.
Proof. revert t. induction rqs as [|rq rqs IH]; intros t; simpl; [done|]. by rewrite IH. Qed.

Lemma for_each_requests {St X : Type} (f : St → X → M St) (rq : X → Request)
    (step : St → X → option Response → St) :
  (∀ s x w, f s x w = (Ok (step s x (net w (length (trace w)) (rq x))),
                       log (EHttp (rq x) (net w (length (trace w)) (rq x))) w)) →
  ∀ xs s w,
    let replies := replies_from (net w) (length (trace w)) (rq <$> xs) in
    for_each f s xs w =
    (Ok (foldl (λ s xr, step s xr.1 xr.2) s (zip xs replies)),
     logs (http_events (rq <$> xs) replies) w).
Proof.
  intros Hf xs. induction xs as [|x xs IH]; intros s w; cbn zeta.
  - simpl. by rewrite logs_nil.
  - cbn [for_each]. unfold bind. rewrite Hf. rewrite IH. cbn zeta.
    rewrite log_logs, logs_logs. cbn [trace logs fmap list_fmap replies_from zip zip_with foldl net].
    rewrite length_app. simpl. replace (length (trace w) + 1)%nat with (S (length (trace w))) by lia.
    done.
Qed.

Lemma dict_set_ne_nil {K V} (eqb : K → K → bool) (d : list (K * V)) k v :
  dict_set eqb d k v ≠ [].
Proof. destruct d as [|[k' v'] d]; simpl; [done|]. by destruct (eqb k' k). Qed.

Lemma foldl_dict_set_ne_nil {K V} (eqb : K → K → bool) (pairs : list (K * V)) : ∀ d,
  d ≠ [] ∨ pairs ≠ [] →
  foldl (λ d kv, dict_set eqb d kv.1 kv.2) d pairs ≠ [].
Proof.
  induction pairs as [|[k v] pairs IH]; intros d H; simpl.
  - by destruct H.
  - apply IH. left. apply dict_set_ne_nil.
Qed.

Lemma elem_of_dict_set (d : list (string * value)) k v k' v' :
  (k', v') ∈ dict_set String.eqb d k v → (k', v') ∈ d ∨ (k', v') = (k, v).
Proof.
  induction d as [|[k0 v0] d IH]; simpl.
  - intros ?%list_elem_of_singleton. by right.
  - destruct (String.eqb k0 k) eqn:E.
    + apply String.eqb_eq in E as ->.
      intros [->|?]%elem_of_cons; [by right|]. left. by right.
    + intros [->|H]%elem_of_cons; [left; by left|].
      destruct (IH H) as [?|?]; [left; by right|by right].
Qed.

Lemma elem_of_foldl_dict_set (pairs : list (string * value)) : ∀ d k v,
  (k, v) ∈ foldl (λ d kv, dict_set String.eqb d kv.1 kv.2) d pairs →
  (k, v) ∈ d ∨ (k, v) ∈ pairs.
Proof.
  induction pairs as [|[k0 v0] pairs IH]; intros d k v; simpl; [by left|].
  intros [[?| ->]%elem_of_dict_set|?]%IH.
  - by left.
  - right. by left.
  - right. by right.
Qed.

Lemma replies_from_app oracle t a b :
  replies_from oracle t (a ++ b)
  = replies_from oracle t a ++ replies_from oracle (t + length a) b.
Proof.
  revert t. induction a as [|x a IH]; intros t; simpl.
  - by rewrite Nat.add_0_r.
  - rewrite IH. do 3 f_equal. lia.
Qed.


End EffFacts.

(** ** Facts about strings and the matcher *)
Module PyFacts.
Import Py Eff EffFacts.

Lemma startswith_spec p s : startswith p s = true ↔ ∃ post, s = p +:+ post.
Proof.
  revert s. induction p as [|a p IH]; intros s.
  - split; [|done]. intros _. by exists s.
  - destruct s as [|b s]; simpl.
    + split; [done|]. by intros (post & [=]).
    + rewrite andb_true_iff, IH, Ascii.eqb_eq. split.
      * intros (-> & post & ->). by exists post.
      * intros (post & E). rewrite string_app_cons in E. injection E as -> ->. eauto.
Qed.

Lemma contains_spec a s : contains a s = true ↔ ∃ pre post, s = pre +:+ (a +:+ post).
Proof.
  induction s as [|c s IH].
  - simpl. rewrite orb_false_r, startswith_spec. split.
    + intros (post & E). by exists "", post.
    + intros (pre & post & E). destruct pre; [by exists post|]. done.
  - cbn [contains]. rewrite orb_true_iff, startswith_spec, IH. split.
    + intros [(post & E)|(pre & post & E)].
      * by exists "", post.
      * exists (String c pre), post. by rewrite E.
    + intros (pre & post & E). destruct pre as [|c' pre].
      * left. by exists post.
      * right. rewrite string_app_cons in E. injection E as -> ->. eauto.
Qed.

Lemma take_drop_chars n s : take_chars n s +:+ drop_chars n s = s.
Proof.
  revert s. induction n as [|n IH]; intros [|c s]; simpl; try done.
  by rewrite string_app_cons, IH.
Qed.

Lemma contains_take_chars n s : contains (take_chars n s) s = true.
Proof.
  apply contains_spec. exists "", (drop_chars n s). by rewrite take_drop_chars.
Qed.

Lemma contains_suffix g pre s : contains g s = true → contains g (pre +:+ s) = true.
Proof.
  rewrite !contains_spec. intros (pre' & post & ->).
  exists (pre +:+ pre'), post. by rewrite string_app_assoc.
Qed.

Lemma contains_trans a b c :
  contains a b = true → contains b c = true → contains a c = true.
Proof.
  rewrite !contains_spec. intros (p1 & q1 & ->) (p2 & q2 & ->).
  exists (p2 +:+ p1), (q1 +:+ q2). by rewrite !string_app_assoc.
Qed.

Lemma group_dict_set caps n v m :
  group m (dict_set Nat.eqb caps n v) = if Nat.eqb n m then Some v else group m caps.
Proof.
  unfold group. induction caps as [|[k0 v0] caps IH]; simpl; [done|].
  destruct (Nat.eqb_spec k0 n) as [->|Hne]; simpl.
  - by destruct (Nat.eqb n m).
  - rewrite IH. destruct (Nat.eqb_spec k0 m) as [->|]; [|done].
    by destruct (Nat.eqb_spec n m).
Qed.

Lemma handed_here {R} s caps (k : string → captures → option R) x :
  k s caps = Some x → handed s caps k x.
Proof. intros Hk. exists s, caps. split; [done|]. split; [by exists ""|auto]. Qed.

Lemma handed_step {R} pre s caps0 caps (k : string → captures → option R) x :
  handed s caps k x →
  (∀ n g, group n caps = Some g → group n caps0 = Some g ∨ contains g (pre +:+ s) = true) →
  handed (pre +:+ s) caps0 k x.
Proof.
  intros (s' & caps' & Hk & (pre' & ->) & Hg) Hcaps.
  exists s', caps'. split; [done|]. split.
  - exists (pre +:+ pre'). by rewrite string_app_assoc.
  - intros n g Hn. destruct (Hg n g Hn) as [H|H]; [by apply Hcaps|].
    right. by apply contains_suffix.
Qed.

Lemma rmatch_handed {R} (r : re) : ∀ s caps (k : string → captures → option R) x,
  rmatch r s caps k = Some x → handed s caps k x.
Proof.
  induction r as [l|p|a IHa b IHb|a IHa b IHb|greedy a IHa|n a IHa|]; intros s caps k x; simpl.
  - destruct (startswith l s) eqn:Hl; [|done]. intros Hk.
    rewrite <- (take_drop_chars (String.length l) s).
    apply (handed_step _ _ caps caps); [by apply handed_here|auto].
  - destruct s as [|c s]; [done|]. destruct (p c); [|done]. intros Hk.
    change (String c s) with (String c "" +:+ s).
    apply (handed_step _ _ caps caps); [by apply handed_here|auto].
  - intros H. apply IHa in H as (s1 & caps1 & H & (pre & ->) & Hg).
    apply IHb in H. apply (handed_step _ _ caps caps1); [done|].
    intros n g Hn. by apply Hg in Hn.
  - destruct (rmatch a s caps k) eqn:Ha.
    + intros [= ->]. by apply IHa.
    + apply IHb.
  - generalize (String.length s) at 1. intros fuel. revert s caps.
    induction fuel as [|fuel IH]; intros s caps; [apply handed_here|].
    set (more := rmatch a s caps _).
    assert (more = Some x → handed s caps k x) as Hmore.
    { intros H. apply IHa in H as (s1 & caps1 & H & (pre & ->) & Hg).
      destruct (_ <? _)%nat; [|done]. apply IH in H.
      apply (handed_step _ _ caps caps1); [done|]. intros n g Hn. by apply Hg in Hn. }
    destruct greedy.
    + destruct more; [intros [= ->]; auto|apply handed_here].
    + destruct (k s caps) eqn:Hk; [intros [= ->]; by apply handed_here|done].
  - intros H. apply IHa in H as (s1 & caps1 & H & (pre & ->) & Hg).
    exists s1, (dict_set Nat.eqb caps1 n
                  (take_chars (String.length (pre +:+ s1) - String.length s1) (pre +:+ s1))).
    split; [done|]. split; [by exists pre|].
    intros m g. rewrite group_dict_set. destruct (Nat.eqb n m).
    + intros [= <-]. right. apply contains_take_chars.
    + apply Hg.
  - destruct (_ || _); [apply handed_here|done].
Qed.

Lemma re_search_suffix r s m :
  re_search r s = Some m → ∃ pre t, s = pre +:+ t ∧ re_match r t = Some m.
Proof.
  induction s as [|c s IH]; simpl.
  - destruct (re_match r "") eqn:E; [|done]. intros [= ->]. by exists "", "".
  - destruct (re_match r (String c s)) eqn:E.
    + intros [= ->]. by exists "", (String c s).
    + intros (pre & t & -> & Hm)%IH. by exists (String c pre), t.
Qed.

(** A group of a match found by [re.search] holds a piece of the text. *)
Lemma search_group1_contains r s g :
  search_group1 r s = Some g → contains g s = true.
Proof.
  unfold search_group1. destruct (re_search r s) as [[caps rest]|] eqn:E; [|done].
  apply re_search_suffix in E as (pre & t & -> & Hm). intros Hg.
  apply rmatch_handed in Hm as (s' & caps' & [= <- <-] & _ & Hcaps).
  destruct (Hcaps 1%nat g Hg) as [?|?]; [done|]. by apply contains_suffix.
Qed.

(** A match of a pattern that starts with literal text starts with it. *)
Lemma search_literal l r s m :
  re_search (Seq (Lit l) r) s = Some m → contains l s = true.
Proof.
  intros (pre & t & -> & Hm)%re_search_suffix. apply contains_suffix.
  unfold re_match in Hm. simpl in Hm.
  destruct (startswith l t) eqn:Hl; [|done].
  apply startswith_spec in Hl as (post & ->). apply contains_spec. by exists "", post.
Qed.





End PyFacts.

(** ** More on the string primitives, the numerals and the matcher *)
Module PyTheory.
Import Py Eff EffFacts PyFacts.

Lemma string_app_nil_l (s : string) : "" +:+ s = s.
Proof. reflexivity. Qed.

Lemma string_app_inv_head (a b c : string) : a +:+ b = a +:+ c → b = c.
Proof.
  induction a as [|x a IH]; [done|]. rewrite !string_app_cons. intros [= E]. auto.
Qed.

Lemma take_chars_app (m s : string) :
  take_chars (String.length (m +:+ s) - String.length s) (m +:+ s) = m.
Proof.
  rewrite string_app_length.
  replace (String.length m + String.length s - String.length s)%nat
    with (String.length m) by lia.
  induction m as [|c m IH]; [by destruct s|].
  rewrite string_app_cons. simpl. by rewrite IH.
Qed.

Lemma drop_chars_app (m s : string) : drop_chars (String.length m) (m +:+ s) = s.
Proof. induction m as [|c m IH]; [done|]. by rewrite string_app_cons. Qed.

Lemma startswith_app (l s : string) : startswith l (l +:+ s) = true.
Proof. apply startswith_spec. by exists s. Qed.

(** Soundness of the matcher: a successful match consumed a text that the
    pattern matches. *)
Lemma rmatch_sound {R} (r : re) : ∀ s caps (k : string → captures → option R) x,
  rmatch r s caps k = Some x →
  ∃ m s' caps', s = m +:+ s' ∧ matches r m s' caps caps' ∧ k s' caps' = Some x.
Proof.
  induction r as [l|p|a IHa b IHb|a IHa b IHb|greedy a IHa|n a IHa|]; intros s caps k x; simpl.
  - destruct (startswith l s) eqn:Hl; [|done]. intros Hk.
    apply startswith_spec in Hl as (post & ->). rewrite drop_chars_app in Hk.
    exists l, post, caps. split; [done|]. split; [constructor|done].
  - destruct s as [|c s]; [done|]. destruct (p c) eqn:Hp; [|done]. intros Hk.
    exists (String c ""), s, caps. split; [done|]. split; [by constructor|done].
  - intros H. apply IHa in H as (m1 & s1 & caps1 & -> & Ha & H).
    apply IHb in H as (m2 & s2 & caps2 & -> & Hb & H).
    exists (m1 +:+ m2), s2, caps2. split; [by rewrite string_app_assoc|].
    split; [by econstructor|done].
  - destruct (rmatch a s caps k) eqn:Ha.
    + intros [= ->]. apply IHa in Ha as (m & s' & caps' & -> & Hm & Hk).
      exists m, s', caps'. split; [done|]. split; [by constructor|done].
    + intros (m & s' & caps' & -> & Hm & Hk)%IHb.
      exists m, s', caps'. split; [done|]. split; [by apply matches_alt_r|done].
  - generalize (String.length s) at 1. intros fuel. revert s caps.
    assert (∀ s caps, k s caps = Some x →
            ∃ m s' caps', s = m +:+ s' ∧ matches (Star greedy a) m s' caps caps' ∧
                          k s' caps' = Some x) as Hnil.
    { intros s caps Hk. exists "", s, caps. split; [done|]. split; [constructor|done]. }
    induction fuel as [|fuel IH]; intros s caps; [apply Hnil|].
    set (more := rmatch a s caps _).
    assert (more = Some x →
            ∃ m s' caps', s = m +:+ s' ∧ matches (Star greedy a) m s' caps caps' ∧
                          k s' caps' = Some x) as Hmore.
    { intros H. apply IHa in H as (m1 & s1 & caps1 & -> & Ha & H).
      destruct (_ <? _)%nat; [|done].
      apply IH in H as (m2 & s2 & caps2 & -> & Hb & H).
      exists (m1 +:+ m2), s2, caps2. split; [by rewrite string_app_assoc|].
      split; [by econstructor|done]. }
    destruct greedy.
    + destruct more; [intros [= ->]; auto|apply Hnil].
    + destruct (k s caps) eqn:Hk; [intros [= ->]; by apply Hnil|done].
  - intros H. apply IHa in H as (m & s' & caps' & -> & Ha & H).
    rewrite take_chars_app in H.
    exists m, s', (dict_set Nat.eqb caps' n m). split; [done|].
    split; [by constructor|done].
  - destruct (_ || _) eqn:E; [|done]. intros Hk.
    exists "", s, caps. split; [done|]. split; [|done]. constructor.
    apply orb_true_iff in E as [E|E]; apply String.eqb_eq in E; auto.
Qed.

Lemma re_match_sound r s caps rest :
  re_match r s = Some (caps, rest) →
  ∃ m, s = m +:+ rest ∧ matches r m rest [] caps.
Proof.
  intros (m & s' & caps' & -> & Hm & [= <- <-])%rmatch_sound. eauto.
Qed.

Lemma re_search_sound r s caps rest :
  re_search r s = Some (caps, rest) →
  ∃ pre m, s = pre +:+ m +:+ rest ∧ matches r m rest [] caps.
Proof.
  intros (pre & t & -> & (m & -> & Hm)%re_match_sound)%re_search_suffix. eauto.
Qed.

(** *** What the patterns built from character classes match *)

Lemma all_chars_cons p c s : all_chars p (String c s) = p c && all_chars p s.
Proof. reflexivity. Qed.

Lemma all_chars_app p a b : all_chars p (a +:+ b) = all_chars p a && all_chars p b.
Proof.
  induction a as [|c a IH]; [done|].
  by rewrite string_app_cons, !all_chars_cons, IH, andb_assoc.
Qed.

Lemma matches_lit_inv l m rest caps caps' :
  matches (Lit l) m rest caps caps' → m = l ∧ caps' = caps.
Proof. by inversion 1. Qed.

Lemma matches_cls_inv p m rest caps caps' :
  matches (Cls p) m rest caps caps' →
  ∃ c, m = String c "" ∧ p c = true ∧ caps' = caps.
Proof. inversion 1; subst. eauto. Qed.

Lemma matches_seq_inv a b m rest caps caps' :
  matches (Seq a b) m rest caps caps' →
  ∃ m1 m2 caps1, m = m1 +:+ m2 ∧ matches a m1 (m2 +:+ rest) caps caps1 ∧
                 matches b m2 rest caps1 caps'.
Proof. inversion 1; subst. eauto 6. Qed.

Lemma matches_grp_inv n a m rest caps caps' :
  matches (Grp n a) m rest caps caps' →
  ∃ caps1, matches a m rest caps caps1 ∧ caps' = dict_set Nat.eqb caps1 n m.
Proof. inversion 1; subst. eauto. Qed.

Lemma matches_alt_inv a b m rest caps caps' :
  matches (Alt a b) m rest caps caps' →
  matches a m rest caps caps' ∨ matches b m rest caps caps'.
Proof. inversion 1; subst; auto. Qed.

Lemma matches_eos_inv m rest caps caps' :
  matches Eos m rest caps caps' →
  m = "" ∧ caps' = caps ∧ (rest = "" ∨ rest = String "010" "").
Proof. inversion 1; subst. auto. Qed.

Lemma matches_star_cls_inv greedy p m rest caps caps' :
  matches (Star greedy (Cls p)) m rest caps caps' →
  all_chars p m = true ∧ caps' = caps.
Proof.
  remember (Star greedy (Cls p)) as r eqn:Hr. intros H. revert Hr.
  induction H; try discriminate; intros [= -> ->]; [done|].
  apply matches_cls_inv in H as (c & -> & Hc & ->).
  destruct (IHmatches2 eq_refl) as [Hall ->]. split; [|done].
  rewrite string_app_cons, all_chars_cons, Hc. exact Hall.
Qed.

Lemma matches_plus_cls_inv p m rest caps caps' :
  matches (Plus (Cls p)) m rest caps caps' →
  m ≠ "" ∧ all_chars p m = true ∧ caps' = caps.
Proof.
  intros (m1 & m2 & caps1 & -> & (c & -> & Hc & ->)%matches_cls_inv & H)%matches_seq_inv.
  apply matches_star_cls_inv in H as [Hall ->].
  rewrite string_app_cons, all_chars_cons, Hc. done.
Qed.

(** *** What the matcher returns on texts of a known shape *)

Lemma rmatch_lit {R} l s caps (k : string → captures → option R) :
  rmatch (Lit l) (l +:+ s) caps k = k s caps.
Proof. simpl. by rewrite startswith_app, drop_chars_app. Qed.

Lemma rmatch_seq {R} a b s caps (k : string → captures → option R) :
  rmatch (Seq a b) s caps k = rmatch a s caps (λ s' caps', rmatch b s' caps' k).
Proof. reflexivity. Qed.

Lemma rmatch_cls {R} (p : ascii → bool) c s caps (k : string → captures → option R) :
  p c = true → rmatch (Cls p) (String c s) caps k = k s caps.
Proof. simpl. by intros ->. Qed.

Lemma rmatch_cls_stops {R} (p : ascii → bool) s caps (k : string → captures → option R) :
  stops p s = true → rmatch (Cls p) s caps k = None.
Proof. destruct s as [|c s]; [done|]. simpl. by destruct (p c). Qed.

(** A greedy run over a class takes every character of the class that
    is there, when what follows can be matched from that point. *)
Lemma rmatch_star_cls {R} (p : ascii → bool) ds rest caps
    (k : string → captures → option R) x :
  all_chars p ds = true → stops p rest = true → k rest caps = Some x →
  rmatch (Star true (Cls p)) (ds +:+ rest) caps k = Some x.
Proof.
  intros Hds Hrest Hk. cbn [rmatch].
  match goal with
  | |- ?loop _ _ _ = _ =>
      assert (∀ ds fuel, all_chars p ds = true → (String.length ds ≤ fuel)%nat →
                         loop fuel (ds +:+ rest) caps = Some x) as Hloop
  end.
  { clear ds Hds. induction ds as [|c ds IH]; intros fuel Hds Hfuel.
    - destruct fuel as [|fuel]; [done|]. rewrite string_app_nil_l.
      destruct rest as [|c rest]; [done|]. simpl in Hrest |- *.
      by destruct (p c).
    - destruct fuel as [|fuel]; [simpl in Hfuel; lia|].
      rewrite all_chars_cons in Hds. apply andb_true_iff in Hds as [Hc Hds].
      rewrite string_app_cons. cbn [rmatch]. rewrite Hc.
      assert ((String.length (ds +:+ rest) <? String.length (String c (ds +:+ rest)))%nat
              = true) as -> by (apply Nat.ltb_lt; simpl; lia).
      rewrite IH; [done..|]. simpl in Hfuel. lia. }
  apply Hloop; [done|]. rewrite string_app_length. lia.
Qed.

Lemma rmatch_plus_cls {R} (p : ascii → bool) ds rest caps
    (k : string → captures → option R) x :
  ds ≠ "" → all_chars p ds = true → stops p rest = true → k rest caps = Some x →
  rmatch (Plus (Cls p)) (ds +:+ rest) caps k = Some x.
Proof.
  intros Hne Hds Hrest Hk. destruct ds as [|c ds]; [done|].
  rewrite all_chars_cons in Hds. apply andb_true_iff in Hds as [Hc Hds].
  unfold Plus. rewrite rmatch_seq, string_app_cons, rmatch_cls by done.
  by apply rmatch_star_cls.
Qed.

Lemma rmatch_grp_plus_cls {R} n (p : ascii → bool) ds rest caps
    (k : string → captures → option R) x :
  ds ≠ "" → all_chars p ds = true → stops p rest = true →
  k rest (dict_set Nat.eqb caps n ds) = Some x →
  rmatch (Grp n (Plus (Cls p))) (ds +:+ rest) caps k = Some x.
Proof.
  intros Hne Hds Hrest Hk. cbn [rmatch]. fold (Plus (Cls p)).
  apply rmatch_plus_cls; [done..|]. by rewrite take_chars_app.
Qed.

(** The search goes on when the text read so far cannot start a match. *)
Lemma re_search_skip r c s :
  re_match r (String c s) = None → re_search r (String c s) = re_search r s.
Proof. simpl. by intros ->. Qed.

(** *** Decimal numerals: [int(str(n))] *)

Lemma int_digits_acc (d : Decimal.uint) : ∀ a : positive,
  int_digits (Z.pos a) true (NilEmpty.string_of_uint d)
  = Some (Z.pos (Pos.of_uint_acc d a)).
Proof.
  induction d; intros a; [done|..];
    cbn [NilEmpty.string_of_uint int_digits Pos.of_uint_acc];
    (replace (is_digit _) with true by reflexivity); cbn match; rewrite <- IHd; f_equal.
  all: unfold digit_val; simpl; lia.
Qed.

Lemma int_digits_uint (d : Decimal.uint) : ∀ seen,
  d ≠ Decimal.Nil →
  int_digits 0 seen (NilEmpty.string_of_uint d) = Some (Z.of_N (Pos.of_uint d)).
Proof.
  induction d; intros seen Hne; [done|..]; cbn [NilEmpty.string_of_uint int_digits];
    (replace (is_digit _) with true by reflexivity); cbn match.
  - change (10 * 0 + digit_val "0") with 0.
    destruct d; [done|..]; by apply IHd.
  - change (10 * 0 + digit_val "1") with (Z.pos 1). by rewrite int_digits_acc.
  - change (10 * 0 + digit_val "2") with (Z.pos 2). by rewrite int_digits_acc.
  - change (10 * 0 + digit_val "3") with (Z.pos 3). by rewrite int_digits_acc.
  - change (10 * 0 + digit_val "4") with (Z.pos 4). by rewrite int_digits_acc.
  - change (10 * 0 + digit_val "5") with (Z.pos 5). by rewrite int_digits_acc.
  - change (10 * 0 + digit_val "6") with (Z.pos 6). by rewrite int_digits_acc.
  - change (10 * 0 + digit_val "7") with (Z.pos 7). by rewrite int_digits_acc.
  - change (10 * 0 + digit_val "8") with (Z.pos 8). by rewrite int_digits_acc.
  - change (10 * 0 + digit_val "9") with (Z.pos 9). by rewrite int_digits_acc.
Qed.

Lemma all_chars_uint (d : Decimal.uint) :
  all_chars is_digit (NilEmpty.string_of_uint d) = true.
Proof. induction d; [done|..]; cbn [NilEmpty.string_of_uint]; by rewrite all_chars_cons, IHd. Qed.

Lemma string_of_uint_ne (d : Decimal.uint) :
  d ≠ Decimal.Nil → NilEmpty.string_of_uint d ≠ "".
Proof. by destruct d. Qed.

Lemma to_uint_ne (p : positive) : Pos.to_uint p ≠ Decimal.Nil.
Proof.
  intros E. pose proof (DecimalPos.Unsigned.of_to p) as H. rewrite E in H. done.
Qed.

(** [str(n)] for a natural number [n]: a non-empty text of digits *)
Lemma str_Z_digits n :
  0 ≤ n → str_Z n ≠ "" ∧ all_chars is_digit (str_Z n) = true.
Proof.
  intros Hn. unfold str_Z. destruct n as [|p|p]; [done| |lia].
  cbn [Z.to_int NilZero.string_of_int]. unfold NilZero.string_of_uint.
  pose proof (to_uint_ne p) as Hne.
  destruct (Pos.to_uint p) eqn:E; try done; rewrite <- E;
    (split; [apply string_of_uint_ne; congruence|apply all_chars_uint]).
Qed.

Lemma digit_not_space c : is_digit c = true → is_space c = false.
Proof.
  unfold is_digit, is_space. intros [H1 H2]%andb_true_iff.
  apply Nat.leb_le in H1, H2. apply orb_false_iff.
  split; apply andb_false_iff; right; apply Nat.leb_gt; lia.
Qed.

Lemma lstrip_digits s : all_chars is_digit s = true → lstrip s = s.
Proof.
  destruct s as [|c s]; [done|]. rewrite all_chars_cons. intros [Hc _]%andb_true_iff.
  simpl. by rewrite digit_not_space.
Qed.

Lemma rstrip_digits s : all_chars is_digit s = true → rstrip s = s.
Proof.
  induction s as [|c s IH]; [done|]. rewrite all_chars_cons.
  intros [Hc Hs]%andb_true_iff. simpl. rewrite IH by done.
  destruct s; [by rewrite digit_not_space|done].
Qed.

Lemma strip_digits s : all_chars is_digit s = true → strip s = s.
Proof. intros H. unfold strip. by rewrite lstrip_digits, rstrip_digits. Qed.

(** A text of digits denotes a natural number. *)
Lemma py_int_digits s :
  s ≠ "" → all_chars is_digit s = true → py_int s = int_digits 0 false s.
Proof.
  intros Hne Hs. unfold py_int. rewrite strip_digits by done.
  destruct s as [|c s]; [done|]. rewrite all_chars_cons in Hs.
  apply andb_true_iff in Hs as [Hc _].
  destruct (Ascii.eqb_spec c "+") as [->|H1]; [done|].
  destruct (Ascii.eqb_spec c "-") as [->|H2]; [done|].
  destruct c as [[] [] [] [] [] [] [] []]; done.
Qed.

(** The digits of [str(n)] denote [n]. *)
Lemma py_int_str_Z n : 0 ≤ n → py_int (str_Z n) = Some n.
Proof.
  intros Hn. destruct (str_Z_digits n Hn) as [Hne Hd].
  rewrite py_int_digits by done. unfold str_Z.
  destruct n as [|p|p]; [done| |lia].
  cbn [Z.to_int NilZero.string_of_int]. unfold NilZero.string_of_uint.
  pose proof (to_uint_ne p) as Hp.
  assert (int_digits 0 false (NilEmpty.string_of_uint (Pos.to_uint p)) = Some (Z.pos p)) as H.
  { rewrite int_digits_uint by done. by rewrite DecimalPos.Unsigned.of_to. }
  by destruct (Pos.to_uint p).
Qed.

(** *** Searching for a pattern that starts with literal text *)

Lemma re_search_here r s m : re_match r s = Some m → re_search r s = Some m.
Proof. intros H. destruct s; simpl; by rewrite H. Qed.

Lemma re_match_lit_fails l r s :
  startswith l s = false → re_match (Seq (Lit l) r) s = None.
Proof. unfold re_match. simpl. by intros ->. Qed.

Lemma re_search_find_None l r s :
  find l s = None → re_search (Seq (Lit l) r) s = None.
Proof.
  induction s as [|c s IH]; simpl.
  - destruct (startswith l "") eqn:E; [done|]. intros _. by rewrite re_match_lit_fails.
  - destruct (startswith l (String c s)) eqn:E; [done|].
    rewrite re_match_lit_fails by done.
    destruct (find l s); [done|]. auto.
Qed.

Lemma re_search_find_Some l r s n :
  find l s = Some n →
  re_search (Seq (Lit l) r) s = re_search (Seq (Lit l) r) (drop_chars n s).
Proof.
  revert n. induction s as [|c s IH]; intros n; simpl.
  - destruct (startswith l ""); [by intros [= <-]|done].
  - destruct (startswith l (String c s)) eqn:E; [by intros [= <-]|].
    rewrite re_match_lit_fails by done.
    destruct (find l s) as [n'|]; [|done]. intros [= <-]. by apply IH.
Qed.

Lemma find_None_contains sub s : find sub s = None ↔ contains sub s = false.
Proof.
  induction s as [|c s IH]; simpl.
  - destruct (startswith sub ""); [split; done|done].
  - destruct (startswith sub (String c s)); [split; done|]. simpl.
    rewrite <- IH. destruct (find sub s); split; done.
Qed.

(** The match of [lit(cls+)] at a text that starts with [lit] and a run of
    the class. *)
Lemma re_match_lit_run lit (p : ascii → bool) run rest :
  run ≠ "" → all_chars p run = true → stops p rest = true →
  re_match (seqs [Lit lit; Grp 1 (Plus (Cls p))]) (lit +:+ run +:+ rest)
  = Some ([(1%nat, run)], rest).
Proof.
  intros Hne Hrun Hrest. unfold re_match, seqs. cbn [foldr].
  rewrite rmatch_seq, rmatch_lit, rmatch_seq.
  by apply rmatch_grp_plus_cls.
Qed.

Lemma all_chars_impl (p q : ascii → bool) s :
  (∀ c, p c = true → q c = true) → all_chars p s = true → all_chars q s = true.
Proof.
  intros Hpq. induction s as [|c s IH]; [done|]. rewrite !all_chars_cons.
  intros [Hc Hs]%andb_true_iff. by rewrite Hpq, IH.
Qed.

Lemma digit_none_of cs c :
  all_chars (λ x, negb (is_digit x)) cs = true → is_digit c = true → none_of cs c = true.
Proof.
  intros Hcs Hc. unfold none_of, one_of. apply negb_true_iff.
  unfold all_chars in Hcs. induction (list_ascii_of_string cs) as [|x l IH]; [done|].
  simpl in Hcs |- *. apply andb_true_iff in Hcs as [Hx Hl].
  rewrite IH by done. rewrite orb_false_r.
  destruct (Ascii.eqb_spec c x) as [->|]; [|done]. by rewrite Hc in Hx.
Qed.

Ltac inv_matches :=
  repeat match goal with
  | H : matches (Plus (Cls _)) _ _ _ _ |- _ =>
      apply matches_plus_cls_inv in H as (? & ? & ?)
  | H : matches (Star _ (Cls _)) _ _ _ _ |- _ =>
      apply matches_star_cls_inv in H as (? & ?)
  | H : matches (Opt _) _ _ _ _ |- _ =>
      apply matches_alt_inv in H as [H|H]
  | H : matches (Seq _ _) _ _ _ _ |- _ =>
      apply matches_seq_inv in H as (? & ? & ? & ? & ? & H)
  | H : matches (Grp _ _) _ _ _ _ |- _ =>
      apply matches_grp_inv in H as (? & H & ?)
  | H : matches (Lit _) _ _ _ _ |- _ =>
      apply matches_lit_inv in H as (? & ?)
  | H : matches (Cls _) _ _ _ _ |- _ =>
      apply matches_cls_inv in H as (? & ? & ? & ?)
  | H : matches Eos _ _ _ _ |- _ =>
      apply matches_eos_inv in H as (? & ? & ?)
  end.

Lemma int_digits_total s : ∀ acc seen,
  s ≠ "" → all_chars is_digit s = true → ∃ n, int_digits acc seen s = Some n.
Proof.
  induction s as [|c s IH]; [done|]. intros acc seen _ Hs.
  rewrite all_chars_cons in Hs. apply andb_true_iff in Hs as [Hc Hs].
  cbn [int_digits]. rewrite Hc. destruct s as [|c' s]; [by eexists|]. by apply IH.
Qed.

Lemma py_int_total s :
  s ≠ "" → all_chars is_digit s = true → ∃ n, py_int s = Some n.
Proof. intros Hne Hs. rewrite py_int_digits by done. by apply int_digits_total. Qed.

(** Deleting the matches of a pattern leaves characters of the text. *)
Lemma re_sub_go_chars p r fuel : ∀ s,
  all_chars p s = true → all_chars p (re_sub_go fuel r "" s) = true.
Proof.
  induction fuel as [|fuel IH]; intros s Hs; [done|]. cbn [re_sub_go].
  destruct (re_match r s) as [[caps rest]|] eqn:E.
  - apply re_match_sound in E as (m & -> & _).
    rewrite all_chars_app in Hs. apply andb_true_iff in Hs as [Hm Hrest].
    destruct (_ <? _)%nat.
    + rewrite string_app_nil_l. by apply IH.
    + destruct (m +:+ rest) as [|c s'] eqn:Es; [done|].
      rewrite string_app_nil_l, all_chars_cons.
      assert (all_chars p (String c s') = true) as Hcs
        by (rewrite <- Es, all_chars_app; by rewrite Hm, Hrest).
      rewrite all_chars_cons in Hcs. apply andb_true_iff in Hcs as [-> Hs'].
      by apply IH.
  - destruct s as [|c s']; [done|]. rewrite all_chars_cons in Hs |- *.
    apply andb_true_iff in Hs as [-> Hs']. by apply IH.
Qed.

Lemma re_sub_chars p r s :
  all_chars p s = true → all_chars p (re_sub r "" s) = true.
Proof. apply re_sub_go_chars. Qed.

(** *** [unwrap_video_url] and the headers of a download *)

Lemma re_search_cls_skip (p : ascii → bool) r pre s :
  all_chars (λ c, negb (p c)) pre = true →
  re_search (Seq (Cls p) r) (pre +:+ s) = re_search (Seq (Cls p) r) s.
Proof.
  induction pre as [|c pre IH]; [done|]. rewrite all_chars_cons.
  intros [Hc Hpre]%andb_true_iff. rewrite string_app_cons, re_search_skip; [by apply IH|].
  unfold re_match. simpl. apply negb_true_iff in Hc. by rewrite Hc.
Qed.

Lemma rstrip_char_app c a b :
  rstrip_char c b ≠ "" → rstrip_char c (a +:+ b) = a +:+ rstrip_char c b.
Proof.
  intros Hb. induction a as [|x a IH]; [done|].
  rewrite !string_app_cons. cbn [rstrip_char]. rewrite IH.
  destruct (a +:+ rstrip_char c b) eqn:E; [|done].
  destruct a; [|done]. rewrite string_app_nil_l in E. done.
Qed.

Lemma rstrip_char_run c host :
  host ≠ "" → all_chars (λ x, negb (Ascii.eqb x c)) host = true →
  rstrip_char c (host +:+ String c "") = host.
Proof.
  induction host as [|x host IH]; [done|]. intros _. rewrite all_chars_cons.
  intros [Hx Hhost]%andb_true_iff. rewrite string_app_cons. cbn [rstrip_char].
  destruct host as [|y host].
  - rewrite string_app_nil_l. cbn [rstrip_char]. rewrite Ascii.eqb_refl.
    apply negb_true_iff in Hx. by rewrite Hx.
  - by rewrite IH.
Qed.

(** *** File names *)

Lemma sub_chars_length cs (x : ascii) s :
  String.length (sub_chars cs (String x "") s) = String.length s.
Proof.
  induction s as [|c s IH]; [done|]. cbn [sub_chars].
  destruct (one_of cs c); rewrite string_app_cons, string_app_nil_l; simpl; by rewrite IH.
Qed.

Lemma sub_chars_clean cs new s :
  all_chars (none_of cs) new = true → all_chars (none_of cs) (sub_chars cs new s) = true.
Proof.
  intros Hnew. induction s as [|c s IH]; [done|]. cbn [sub_chars].
  rewrite all_chars_app, IH, andb_true_r.
  destruct (one_of cs c) eqn:E; [done|]. rewrite all_chars_cons. unfold none_of. by rewrite E.
Qed.

Lemma sub_chars_id cs new s : all_chars (none_of cs) s = true → sub_chars cs new s = s.
Proof.
  induction s as [|c s IH]; [done|]. rewrite all_chars_cons.
  intros [Hc Hs]%andb_true_iff. cbn [sub_chars]. unfold none_of in Hc.
  apply negb_true_iff in Hc. by rewrite Hc, IH.
Qed.

Lemma path_join_relative a b :
  startswith "/" b = false → startswith a (path_join a b) = true.
Proof.
  intros Hb. unfold path_join. rewrite Hb.
  destruct (_ || _); apply startswith_app.
Qed.

Lemma not_absolute cs s :
  one_of cs "/" = true → all_chars (none_of cs) s = true → startswith "/" s = false.
Proof.
  intros Hcs. destruct s as [|c s]; [done|]. rewrite all_chars_cons.
  intros [Hc _]%andb_true_iff. cbn [startswith].
  destruct (Ascii.eqb_spec "/" c) as [<-|]; [|reflexivity].
  unfold none_of in Hc. rewrite Hcs in Hc. discriminate Hc.
Qed.

(** *** The names of the files *)

Lemma zeros_S k : zeros (S k) = String "0" (zeros k).
Proof. done. Qed.

Lemma all_chars_zeros k : all_chars is_digit (zeros k) = true.
Proof. induction k as [|k IH]; [done|]. by rewrite zeros_S, all_chars_cons, IH. Qed.

Lemma int_digits_zeros k d : ∀ seen,
  d ≠ "" → all_chars is_digit d = true →
  int_digits 0 seen (zeros k +:+ d) = int_digits 0 false d.
Proof.
  induction k as [|k IH]; intros seen Hne Hd.
  - change (zeros 0) with "". rewrite string_app_nil_l.
    destruct d as [|c d]; [done|]. rewrite all_chars_cons in Hd.
    apply andb_true_iff in Hd as [Hc _]. cbn [int_digits]. by rewrite Hc.
  - rewrite zeros_S, string_app_cons. cbn [int_digits].
    change (is_digit "0") with true. cbn match.
    change (10 * 0 + digit_val "0") with 0. by apply IH.
Qed.

Lemma zero_pad_digits width n :
  0 ≤ n → zero_pad width n ≠ "" ∧ all_chars is_digit (zero_pad width n) = true.
Proof.
  intros Hn. destruct (str_Z_digits n Hn) as [Hne Hd]. unfold zero_pad. cbn zeta.
  fold (zeros (width - String.length (str_Z n))). split.
  - intros E. apply (f_equal String.length) in E. rewrite string_app_length in E.
    destruct (str_Z n); [done|]. simpl in E. lia.
  - by rewrite all_chars_app, all_chars_zeros, Hd.
Qed.

(** The padded number reads back as the number. *)
Lemma py_int_zero_pad width n : 0 ≤ n → py_int (zero_pad width n) = Some n.
Proof.
  intros Hn. destruct (zero_pad_digits width n Hn) as [Hne Hd].
  rewrite py_int_digits by done. destruct (str_Z_digits n Hn) as [Hne' Hd'].
  unfold zero_pad. cbn zeta. fold (zeros (width - String.length (str_Z n))).
  rewrite int_digits_zeros by done. rewrite <- py_int_digits by done.
  by apply py_int_str_Z.
Qed.

Lemma zero_pad_length width n : (width ≤ String.length (zero_pad width n))%nat.
Proof.
  unfold zero_pad. cbn zeta. rewrite string_app_length.
  assert (∀ k, String.length (string_of_list_ascii (List.repeat "0"%char k)) = k) as ->.
  { induction k as [|k IH]; [done|]. simpl. by rewrite IH. }
  lia.
Qed.

Lemma string_app_inv_tail (a b t : string) : a +:+ t = b +:+ t → a = b.
Proof.
  revert b. induction a as [|x a IH]; intros [|y b] E.
  - done.
  - exfalso. apply (f_equal String.length) in E.
    rewrite string_app_nil_l, string_app_cons in E. simpl in E.
    rewrite string_app_length in E. lia.
  - exfalso. apply (f_equal String.length) in E.
    rewrite string_app_nil_l, string_app_cons in E. simpl in E.
    rewrite string_app_length in E. lia.
  - rewrite !string_app_cons in E. injection E as -> E. f_equal. by apply IH.
Qed.

Lemma digits_not_absolute d t :
  d ≠ "" → all_chars is_digit d = true → startswith "/" (d +:+ t) = false.
Proof.
  destruct d as [|c d]; [done|]. intros _. rewrite all_chars_cons.
  intros [Hc _]%andb_true_iff. rewrite string_app_cons. cbn [startswith].
  destruct (Ascii.eqb_spec "/" c) as [<-|]; [|reflexivity].
  vm_compute in Hc. discriminate Hc.
Qed.

(** A relative name is put behind the folder and the separator that the
    folder asks for. *)
Lemma path_join_relative_eq a b :
  startswith "/" b = false → path_join a b = a +:+ separator a +:+ b.
Proof.
  intros Hb. unfold path_join, separator. rewrite Hb.
  destruct (_ || _); [by rewrite string_app_nil_l|done].
Qed.

(** *** The folder *)

Lemma all_chars_drop p k : ∀ s, all_chars p s = true → all_chars p (drop_chars k s) = true.
Proof.
  induction k as [|k IH]; intros [|c s]; try done.
  rewrite all_chars_cons. intros [_ Hs]%andb_true_iff. by apply IH.
Qed.

Lemma not_endswith_slash cs s :
  one_of cs "/" = true → all_chars (none_of cs) s = true → endswith "/" s = false.
Proof.
  intros Hcs Hs. unfold endswith.
  destruct (String.eqb_spec (drop_chars (String.length s - String.length "/") s) "/")
    as [E|]; [|done].
  apply (all_chars_drop _ (String.length s - String.length "/")) in Hs.
  rewrite E, all_chars_cons in Hs. unfold none_of in Hs at 1. rewrite Hcs in Hs.
  discriminate Hs.
Qed.

Lemma sub_chars_shorter cs s :
  (String.length (sub_chars cs "" s) ≤ String.length s)%nat.
Proof.
  induction s as [|c s IH]; [done|]. cbn [sub_chars].
  destruct (one_of cs c).
  - rewrite string_app_nil_l. simpl. lia.
  - rewrite string_app_cons, string_app_nil_l. simpl. lia.
Qed.

Lemma sub_chars_all cs s : all_chars (one_of cs) s = true → sub_chars cs "" s = "".
Proof.
  induction s as [|c s IH]; [done|]. rewrite all_chars_cons.
  intros [Hc Hs]%andb_true_iff. cbn [sub_chars]. by rewrite Hc, string_app_nil_l, IH.
Qed.

Lemma zero_pad_not_absolute width n t : startswith "/" (zero_pad width n +:+ t) = false.
Proof.
  unfold zero_pad. cbn zeta. fold (zeros (width - String.length (str_Z n))).
  destruct (width - String.length (str_Z n))%nat as [|k].
  - change (zeros 0) with "". rewrite string_app_nil_l. unfold str_Z.
    destruct (Z.to_int n) as [d|d]; cbn [NilZero.string_of_int].
    + unfold NilZero.string_of_uint. destruct d; reflexivity.
    + reflexivity.
  - rewrite zeros_S, !string_app_cons. reflexivity.
Qed.

(** *** The lines of a playlist *)

Lemma split_line line : ∀ rest,
  contains newline line = false →
  split newline (line +:+ newline +:+ rest) = line :: split newline rest.
Proof.
  unfold split. induction line as [|c line IH]; intros rest Hline.
  - rewrite string_app_nil_l. reflexivity.
  - rewrite string_app_cons. cbn [contains startswith newline] in Hline.
    apply orb_false_iff in Hline as [Hc Hline]. rewrite andb_true_r in Hc.
    cbn [split_go startswith newline]. rewrite Hc. cbn [andb].
    fold newline. by rewrite IH.
Qed.

Lemma split_one_line line :
  contains newline line = false → split newline line = [line].
Proof.
  unfold split. induction line as [|c line IH]; intros Hline; [done|].
  cbn [contains startswith newline] in Hline.
  apply orb_false_iff in Hline as [Hc Hline]. rewrite andb_true_r in Hc.
  cbn [split_go startswith newline]. rewrite Hc. cbn [andb].
  fold newline. by rewrite IH.
Qed.

(** A text is split into the lines it was joined from. *)
Lemma split_join_lines lines :
  lines ≠ [] → Forall (λ line, contains newline line = false) lines →
  split newline (join newline lines) = lines.
Proof.
  induction lines as [|line lines IH]; [done|]. intros _ Hall.
  apply Forall_cons in Hall as [Hline Hall]. destruct lines as [|line' lines].
  - by apply split_one_line.
  - change (join newline (line :: line' :: lines))
      with (line +:+ newline +:+ join newline (line' :: lines)).
    rewrite split_line by done. f_equal. by apply IH.
Qed.

Lemma rstrip_spaces s : all_chars is_space s = true → rstrip s = "".
Proof.
  induction s as [|c s IH]; [done|]. rewrite all_chars_cons.
  intros [Hc Hs]%andb_true_iff. cbn [rstrip]. by rewrite IH, Hc.
Qed.

Lemma lstrip_spaces s : all_chars is_space s = true → lstrip s = "".
Proof.
  induction s as [|c s IH]; [done|]. rewrite all_chars_cons.
  intros [Hc Hs]%andb_true_iff. cbn [lstrip]. rewrite Hc. by apply IH.
Qed.

(** *** [int] on ASCII text *)

Lemma stops_ascii_stops p s : stops_ascii p s = true → stops p s = true.
Proof. destruct s as [|c s]; [done|]. simpl. by intros [_ ?]%andb_true_iff. Qed.

Lemma digit_ascii c : is_digit c = true → is_ascii c = true.
Proof.
  unfold is_digit, is_ascii. intros [H1 H2]%andb_true_iff.
  apply Nat.leb_le in H1, H2. apply Nat.ltb_lt. lia.
Qed.

Lemma ascii_text_app a b : ascii_text (a +:+ b) = ascii_text a && ascii_text b.
Proof.
  induction a as [|c a IH]; [done|]. rewrite string_app_cons. cbn [ascii_text].
  by rewrite IH, andb_assoc.
Qed.

Lemma digits_ascii_text s : all_chars is_digit s = true → ascii_text s = true.
Proof.
  induction s as [|c s IH]; [done|]. rewrite all_chars_cons.
  intros [Hc Hs]%andb_true_iff. cbn [ascii_text]. by rewrite digit_ascii, IH.
Qed.

Lemma count_digits_all s : all_chars is_digit s = true → count_digits s = String.length s.
Proof.
  induction s as [|c s IH]; [done|]. rewrite all_chars_cons.
  intros [Hc Hs]%andb_true_iff. cbn [count_digits String.length]. by rewrite Hc, IH.
Qed.

Lemma digit_not_int_space c : is_digit c = true → is_int_space c = false.
Proof.
  unfold is_digit, is_int_space. intros [H1 H2]%andb_true_iff.
  apply Nat.leb_le in H1, H2. apply orb_false_iff. split.
  - apply andb_false_iff. right. apply Nat.leb_gt. lia.
  - apply Nat.eqb_neq. lia.
Qed.

Lemma lstrip_by_digits s : all_chars is_digit s = true → lstrip_by is_int_space s = s.
Proof.
  destruct s as [|c s]; [done|]. rewrite all_chars_cons. intros [Hc _]%andb_true_iff.
  simpl. by rewrite digit_not_int_space.
Qed.

Lemma rstrip_by_digits s : all_chars is_digit s = true → rstrip_by is_int_space s = s.
Proof.
  induction s as [|c s IH]; [done|]. rewrite all_chars_cons.
  intros [Hc Hs]%andb_true_iff. simpl. rewrite IH by done.
  destruct s; [by rewrite digit_not_int_space|done].
Qed.

(** A text of at most [max_str_digits] digits is read as the natural number
    it denotes, and a longer one is refused. *)
Lemma int_ascii_digits s :
  s ≠ "" → all_chars is_digit s = true →
  int_ascii s = if (max_str_digits <? String.length s)%nat then None
                else int_digits 0 false s.
Proof.
  intros Hne Hs. unfold int_ascii. rewrite lstrip_by_digits, rstrip_by_digits by done.
  destruct (int_digits_total s 0 false Hne Hs) as [n Hn].
  destruct s as [|c s]; [done|]. pose proof Hs as Hs'. rewrite all_chars_cons in Hs'.
  apply andb_true_iff in Hs' as [Hc _].
  assert (c ≠ "+"%char ∧ c ≠ "-"%char) as [H1 H2] by (split; intros ->; done).
  assert (match String c s with
          | String "+" r => (false, r)
          | String "-" r => (true, r)
          | _ => (false, String c s)
          end = (false, String c s)) as ->.
  { destruct c as [[] [] [] [] [] [] [] []]; done. }
  rewrite Hn, count_digits_all by done. by destruct (_ <? _)%nat.
Qed.

Lemma int_ascii_total s :
  s ≠ "" → all_chars is_digit s = true → (String.length s ≤ max_str_digits)%nat →
  ∃ n, int_ascii s = Some n.
Proof.
  intros Hne Hs Hlen. rewrite int_ascii_digits by done.
  destruct (Nat.ltb_spec max_str_digits (String.length s)); [lia|].
  by apply int_digits_total.
Qed.

Lemma int_ascii_long s :
  s ≠ "" → all_chars is_digit s = true → (max_str_digits < String.length s)%nat →
  int_ascii s = None.
Proof.
  intros Hne Hs Hlen. rewrite int_ascii_digits by done.
  by destruct (Nat.ltb_spec max_str_digits (String.length s)); [|lia].
Qed.

(** The round trip [int(str(n)) = n] *)
Lemma int_ascii_str_Z n :
  0 ≤ n → (String.length (str_Z n) ≤ max_str_digits)%nat → int_ascii (str_Z n) = Some n.
Proof.
  intros Hn Hlen. destruct (str_Z_digits n Hn) as [Hne Hd].
  rewrite int_ascii_digits by done.
  destruct (Nat.ltb_spec max_str_digits (String.length (str_Z n))); [lia|].
  rewrite <- py_int_digits by done. by apply py_int_str_Z.
Qed.

Lemma int_str_ascii lib s : ascii_text s = true → int_str lib s = int_ascii s.
Proof. unfold int_str. by intros ->. Qed.

End PyTheory.

Module DimakidsSpec.
Import Py Eff Dimakids EffFacts PyFacts PyTheory.

Lemma elem_of_add_in_range total sel i x :
  x ∈ add_in_range total sel i ↔ x ∈ sel ∨ (x = i ∧ 1 ≤ x ≤ total).
Proof.
  unfold add_in_range.
  destruct (1 <=? i) eqn:H1; destruct (i <=? total) eqn:H2; simpl;
    rewrite ?elem_of_union, ?elem_of_singleton; split;
    try (intros [->|?]; [right; lia | by left]);
    try (intros [?|[-> ?]]; [by right | left; lia]);
    try (intros ?; by left);
    intros [?|[-> ?]]; try done; lia.
Qed.

Lemma elem_of_foldl_add_in_range total l sel x :
  x ∈ foldl (add_in_range total) sel l ↔ x ∈ sel ∨ (x ∈ l ∧ 1 ≤ x ≤ total).
Proof.
  revert sel. induction l as [|i l IH]; intros sel; simpl.
  - split; [by left|]. intros [?|[?%elem_of_nil _]]; done.
  - rewrite IH, elem_of_add_in_range, elem_of_cons. tauto.
Qed.

Lemma elem_of_py_range a b x : x ∈ py_range a b ↔ a ≤ x < b.
Proof. unfold py_range. rewrite elem_of_seqZ. lia. Qed.

Lemma select_part_Some lib total part sel sel' :
  select_part lib total part sel = Some sel' →
  malformed lib part = false ∧
  ∀ x, x ∈ sel' ↔ x ∈ sel ∨ (1 ≤ x ≤ total ∧ part_denotes lib part x).
Proof.
  unfold select_part, malformed, part_denotes.
  destruct (contains "-" part).
  - destruct (int_str lib <$> split "-" part) as [|[a|] [|[b|] [|? ?]]]; try discriminate.
    intros [= <-]. split; [done|]. intros x.
    rewrite elem_of_foldl_add_in_range, elem_of_py_range. split.
    + intros [?|[? ?]]; [by left|]. right. split; [done|].
      exists a, b. split; [done|lia].
    + intros [?|[? (a' & b' & [= -> ->] & ?)]]; [by left|]. right. lia.
  - destruct (int_str lib part) as [n|]; [|discriminate].
    intros [= <-]. split; [done|]. intros x. rewrite elem_of_add_in_range.
    split; (intros [?|[? ?]]; [by left|right]); [by subst|].
    split; [congruence|done].
Qed.

Lemma select_part_None lib total part sel :
  select_part lib total part sel = None →
  malformed lib part = true ∧ ∀ x, ¬ part_denotes lib part x.
Proof.
  unfold select_part, malformed, part_denotes.
  destruct (contains "-" part).
  - destruct (int_str lib <$> split "-" part) as [|[a|] [|[b|] [|? ?]]];
      try discriminate; intros _; (split; [done|]); intros x (? & ? & ? & ?);
      discriminate.
  - destruct (int_str lib part); [discriminate|]. intros _. split; [done|].
    intros x ?; discriminate.
Qed.

(** The loop when every warning can be printed: the parts that are
    malformed are warned about, in order, and the others select what they
    name. *)
Lemma select_loop_ok lib total parts : ∀ sel warns,
  Forall (λ p, markup_ok lib (warning p) = true)
         (filter (λ p, malformed lib p = true) parts) →
  ∃ sel',
    select_loop lib total (sel, warns) parts
    = Ok (sel', warns ++ filter (λ p, malformed lib p = true) parts) ∧
    ∀ x, x ∈ sel' ↔
         x ∈ sel ∨ (1 ≤ x ≤ total ∧ ∃ p, p ∈ parts ∧ part_denotes lib p x).
Proof.
  induction parts as [|p parts IH]; intros sel warns Hprint.
  - exists sel. cbn [select_loop]. split; [by rewrite filter_nil, app_nil_r|].
    intros x. split; [by left|].
    intros [?|[_ (? & ?%elem_of_nil & _)]]; done.
  - cbn [select_loop]. unfold select_step. cbn [fst snd].
    destruct (select_part lib total p sel) as [sel1|] eqn:Hp.
    + apply select_part_Some in Hp as [Hm Hsel].
      rewrite filter_cons_False in Hprint |- * by (by rewrite Hm).
      destruct (IH sel1 warns Hprint) as (sel' & Hrun & Hmem).
      exists sel'. split; [done|]. intros x. rewrite Hmem, Hsel. split.
      * intros [[?|[? ?]]|[? (q & ? & ?)]]; [by left| |];
          right; (split; [done|]); [exists p|exists q];
          rewrite elem_of_cons; auto.
      * intros [?|[? (q & [->|?]%elem_of_cons & ?)]]; [by do 2 left| |].
        -- left. by right.
        -- right. split; [done|]. by exists q.
    + apply select_part_None in Hp as [Hm Hno].
      rewrite filter_cons_True in Hprint |- * by done.
      apply Forall_cons in Hprint as [Hp Hprint]. rewrite Hp.
      destruct (IH sel (warns ++ [p]) Hprint) as (sel' & Hrun & Hmem).
      exists sel'. split; [by rewrite Hrun, <- app_assoc|].
      intros x. rewrite Hmem. split.
      * intros [?|[? (q & ? & ?)]]; [by left|]. right. split; [done|].
        exists q. rewrite elem_of_cons. auto.
      * intros [?|[? (q & [->|?]%elem_of_cons & ?)]]; [by left| |].
        -- by destruct (Hno x).
        -- right. split; [done|]. by exists q.
Qed.

(** The loop when some warning cannot be printed: the console raises. *)
Lemma select_loop_raise lib total parts : ∀ st,
  Exists (λ p, markup_ok lib (warning p) = false)
         (filter (λ p, malformed lib p = true) parts) →
  select_loop lib total st parts = Raise MarkupError.
Proof.
  induction parts as [|p parts IH]; intros st Hbad.
  - rewrite filter_nil in Hbad. by apply Exists_nil in Hbad.
  - cbn [select_loop]. unfold select_step.
    destruct (select_part lib total p st.1) as [sel1|] eqn:Hp.
    + apply select_part_Some in Hp as [Hm _].
      rewrite filter_cons_False in Hbad by (by rewrite Hm). by apply IH.
    + apply select_part_None in Hp as [Hm _].
      rewrite filter_cons_True in Hbad by done.
      apply Exists_cons in Hbad as [->|Hbad]; [done|].
      destruct (markup_ok lib (warning p)); [by apply IH|done].
Qed.

Lemma StronglySorted_le_NoDup_lt (l : list Z) :
  StronglySorted Z.le l → NoDup l → StronglySorted Z.lt l.
Proof.
  induction 1 as [|x l Hs IH Hall]; intros Hnd; [constructor|].
  apply NoDup_cons in Hnd as [Hx Hnd]. constructor; [auto|].
  rewrite Forall_forall in Hall |- *. intros y Hy.
  assert (x ≠ y) by (intros ->; by apply Hx).
  specialize (Hall y Hy). lia.
Qed.

Lemma sorted_elements (s : gset Z) :
  StronglySorted Z.lt (sorted (elements s)) ∧ ∀ x, x ∈ sorted (elements s) ↔ x ∈ s.
Proof.
  unfold sorted. split.
  - apply StronglySorted_le_NoDup_lt.
    + apply StronglySorted_merge_sort; apply _.
    + rewrite merge_sort_Permutation. apply NoDup_elements.
  - intros x. rewrite merge_sort_Permutation. apply elem_of_elements.
Qed.

Lemma contains_dash_digits s : all_chars is_digit s = true → contains "-" s = false.
Proof.
  induction s as [|c s IH]; [done|]. rewrite all_chars_cons.
  intros [Hc Hs]%andb_true_iff. cbn [contains startswith]. rewrite (IH Hs), orb_false_r.
  apply andb_false_iff. left. apply Ascii.eqb_neq. intros <-. done.
Qed.

(** The claim of C8 fails on its own example: with 6 episodes the part
    [10] of [1, 3-5, 10] is well formed and out of range, it is dropped,
    and no warning at all is printed. *)
Lemma parse_episode_selection_out_of_range_silent :
  "10" ∈ split "," (replace " " "" "1, 3-5, 10") ∧
  malformed Demo.lib "10" = false ∧ part_denotes Demo.lib "10" 10 ∧ (¬ (1 ≤ 10 ≤ 6)) ∧
  parse_episode_selection Demo.lib "1, 3-5, 10" 6 = Ok ([1; 3; 4; 5], []).
Proof.
  repeat split.
  - vm_compute. do 2 right. left.
  - lia.
Qed.

(** A part that spoils the markup of its own warning ends the function
    with the exception of the console. *)
Lemma parse_episode_selection_markup_error (lib : PyLib) (user_input : string) (N : Z) :
  String.eqb (lower user_input) "all" = false →
  Exists (λ p, markup_ok lib (warning p) = false)
         (filter (λ p, malformed lib p = true) (split "," (replace " " "" user_input))) →
  parse_episode_selection lib user_input N = Raise MarkupError.
Proof.
  intros Hall Hbad. unfold parse_episode_selection. rewrite Hall.
  by rewrite select_loop_raise.
Qed.

Example parse_closing_tag :
  parse_episode_selection Demo.lib "2,[/]" 6 = Raise MarkupError.
Proof. vm_compute. reflexivity. Qed.

(** C8 (amended). On [all] in any letter case [parse_episode_selection]
    returns [1..N] and prints nothing. Otherwise the input without its
    spaces is cut at the commas, and when the console accepts the warning
    of every malformed part the function returns: the result is the
    strictly increasing list of the integers between 1 and N named by some
    part, and the warnings are exactly those of the malformed parts, in
    order, so that a well-formed part that is out of range is dropped
    silently. A part is malformed when [int] refuses it, or one side of its
    range; [int] reads a numeral of at most 4300 digits. *)
Theorem parse_episode_selection_spec (lib : PyLib) (user_input : string) (N : Z) :
  (if String.eqb (lower user_input) "all"
   then parse_episode_selection lib user_input N = Ok (seqZ 1 N, [])
   else
     let parts := split "," (replace " " "" user_input) in
     let warned := filter (λ p, malformed lib p = true) parts in
     Forall (λ p, markup_ok lib (warning p) = true) warned →
     ∃ selected,
       parse_episode_selection lib user_input N = Ok (selected, warned) ∧
       StronglySorted Z.lt selected ∧
       (∀ x, x ∈ selected ↔ 1 ≤ x ≤ N ∧ ∃ p, p ∈ parts ∧ part_denotes lib p x)) ∧
  (∀ n, 0 ≤ n → (String.length (str_Z n) ≤ max_str_digits)%nat →
     malformed lib (str_Z n) = false ∧ part_denotes lib (str_Z n) n) ∧
  parse_episode_selection lib "all" 6 = Ok ([1; 2; 3; 4; 5; 6], []) ∧
  parse_episode_selection lib "1, 3-5, 10" 6 = Ok ([1; 3; 4; 5], []) ∧
  malformed lib "abc" = true ∧
  (markup_ok lib (warning "abc") = true →
   parse_episode_selection lib "abc" 6 = Ok ([], ["abc"])).
Proof.
  split; [|split; [|split; [|split; [|split]]]].
  - unfold parse_episode_selection.
    destruct (String.eqb (lower user_input) "all").
    + unfold py_range. do 3 f_equal. lia.
    + cbn zeta. intros Hprint.
      destruct (select_loop_ok lib N (split "," (replace " " "" user_input)) ∅ [] Hprint)
        as (sel & -> & Hmem).
      destruct (sorted_elements sel) as [Hsorted Helem].
      eexists. split; [done|]. split; [done|].
      intros x. rewrite Helem, Hmem. split.
      * intros [?%elem_of_empty|?]; done.
      * by right.
  - intros n Hn Hlen. destruct (str_Z_digits n Hn) as [Hne Hd].
    unfold malformed, part_denotes. rewrite contains_dash_digits by done.
    rewrite int_str_ascii by (by apply digits_ascii_text).
    by rewrite int_ascii_str_Z.
  - by vm_compute.
  - by vm_compute.
  - by vm_compute.
  - intros Hok. unfold parse_episode_selection.
    change (String.eqb (lower "abc") "all") with false. cbv iota.
    change (split "," (replace " " "" "abc")) with ["abc"].
    cbn [select_loop]. unfold select_step.
    change (select_part lib 6 "abc" (∅, []).1) with (@None (gset Z)). cbv iota.
    rewrite Hok. by vm_compute.
Qed.

(** *** The obfuscation decoder *)

Lemma find_Some_before sub s : ∀ n,
  find sub s = Some n → ∀ i, (i < n)%nat → startswith sub (drop_chars i s) = false.
Proof.
  induction s as [|c s IH]; intros n; simpl.
  - destruct (startswith sub ""); [intros [= <-] i; lia|done].
  - destruct (startswith sub (String c s)) eqn:E; [intros [= <-] i; lia|].
    destruct (find sub s) as [m|] eqn:F; [|done]. intros [= <-] i Hi.
    destruct i as [|i]; [done|]. simpl. apply (IH m); [done|lia].
Qed.

Lemma find_cons_Some sub c s n :
  find sub (String c s) = Some (S n) →
  startswith sub (String c s) = false ∧ find sub s = Some n.
Proof.
  cbn [find]. destruct (startswith sub (String c s)); [done|].
  destruct (find sub s); [|done]. intros [= ->]. done.
Qed.

(** A lazy run over any character stops at the first place from which
    what follows can be matched. *)
Lemma rmatch_lazy_any {R} lit body rest caps (k : string → captures → option R) x :
  find lit (body +:+ rest) = Some (String.length body) →
  (∀ s caps', startswith lit s = false → k s caps' = None) →
  k rest caps = Some x →
  rmatch (Star false (Cls any_char)) (body +:+ rest) caps k = Some x.
Proof.
  intros Hfind Hfail Hk. cbn [rmatch].
  match goal with
  | |- ?loop _ _ _ = _ =>
      assert (∀ body fuel, find lit (body +:+ rest) = Some (String.length body) →
                           (String.length body ≤ fuel)%nat →
                           loop fuel (body +:+ rest) caps = Some x) as Hloop
  end.
  { clear body Hfind. induction body as [|c body IH]; intros fuel Hfind Hfuel.
    - rewrite string_app_nil_l. destruct fuel; [done|]. by rewrite Hk.
    - destruct fuel as [|fuel]; [simpl in Hfuel; lia|].
      rewrite string_app_cons in Hfind |- *. cbn [String.length] in Hfind.
      apply find_cons_Some in Hfind as [Hno Hfind].
      rewrite (Hfail _ _ Hno). cbn [rmatch any_char].
      assert ((String.length (body +:+ rest) <? String.length (String c (body +:+ rest)))%nat
              = true) as -> by (apply Nat.ltb_lt; simpl; lia).
      apply IH; [done|]. simpl in Hfuel. lia. }
  apply Hloop; [done|]. rewrite string_app_length. lia.
Qed.

Lemma stops_lit p (lit rest : string) c :
  p c = false → stops p (String c lit +:+ rest) = true.
Proof. intros H. rewrite string_app_cons. simpl. by rewrite H. Qed.

Lemma search_field obj name val :
  field_of obj name val → search_group1 (field_re name) obj = Some val.
Proof.
  intros (pre & ws & post & Hobj & Hfind & Hws & Hne & Hval).
  unfold search_group1, field_re, seqs. cbn [foldr].
  rewrite (re_search_find_Some _ _ _ _ Hfind).
  rewrite Hobj at 1. rewrite drop_chars_app.
  rewrite (re_search_here _ _ ([(1%nat, val)], post)); [done|].
  unfold re_match. rewrite <- string_app_assoc, rmatch_seq, rmatch_lit, rmatch_seq.
  apply (rmatch_star_cls is_space ws); [done|done|].
  rewrite rmatch_seq, rmatch_lit, rmatch_seq.
  apply (rmatch_grp_plus_cls 1 (none_of dquote) val); [done|done|done|].
  rewrite rmatch_seq, rmatch_lit. done.
Qed.

Lemma word_not_space c : is_word c = true → is_space c = false.
Proof. destruct c as [[] [] [] [] [] [] [] []]; done. Qed.

Lemma stops_app p (a b : string) : a ≠ "" → stops p a = true → stops p (a +:+ b) = true.
Proof. destruct a; [done|]. by rewrite string_app_cons. Qed.

Lemma stops_first p q (a : string) :
  a ≠ "" → all_chars q a = true → (∀ c, q c = true → p c = false) → stops p a = true.
Proof.
  destruct a as [|c a]; [done|]. rewrite all_chars_cons.
  intros _ [Hc _]%andb_true_iff Hq. simpl. by rewrite (Hq c Hc).
Qed.

Lemma stops_spaces_then p (ws : string) c rest :
  all_chars is_space ws = true → (∀ c, is_space c = true → p c = false) → p c = false →
  stops p (ws +:+ String c rest) = true.
Proof.
  intros Hws Hq Hc. destruct ws as [|d ws]; [simpl; by rewrite Hc|].
  rewrite all_chars_cons in Hws. apply andb_true_iff in Hws as [Hd _].
  rewrite string_app_cons. simpl. by rewrite (Hq d Hd).
Qed.

Lemma rmatch_grp {R} n a s caps (k : string → captures → option R) :
  rmatch (Grp n a) s caps k
  = rmatch a s caps
      (λ s' caps', k s' (dict_set Nat.eqb caps' n
                           (take_chars (String.length s - String.length s') s))).
Proof. reflexivity. Qed.

Lemma search_object script obj :
  object_of script obj → search_group1 object_re script = Some obj.
Proof.
  intros (pre & ws1 & ident & ws2 & ws3 & body & post & Hscript & -> & Hfind &
          Hne1 & Hws1 & Hne & Hident & Hws2 & Hws3 & Hend).
  unfold search_group1, object_re, seqs. cbn [foldr].
  rewrite (re_search_find_Some _ _ _ _ Hfind).
  rewrite Hscript at 1. rewrite drop_chars_app.
  rewrite (re_search_here _ _ ([(1%nat, "{" +:+ body +:+ "}")], post)); [done|].
  unfold re_match. rewrite rmatch_seq, rmatch_lit, rmatch_seq.
  apply (rmatch_plus_cls is_space ws1); [done|done| |].
  { apply stops_app; [done|]. apply (stops_first _ is_word); [done|done|].
    intros c Hc. destruct (is_space c) eqn:E; [|done].
    by rewrite (word_not_space c Hc) in E. }
  rewrite rmatch_seq. apply (rmatch_plus_cls is_word ident); [done|done| |].
  { apply (stops_spaces_then is_word ws2 "="); [done| |done].
    intros c Hc. destruct (is_word c) eqn:E; [|done].
    by rewrite (word_not_space c E) in Hc. }
  rewrite rmatch_seq. apply (rmatch_star_cls is_space ws2); [done|done|].
  rewrite rmatch_seq, rmatch_lit, rmatch_seq.
  apply (rmatch_star_cls is_space ws3); [done|done|].
  rewrite rmatch_seq, rmatch_grp, rmatch_seq, rmatch_lit, rmatch_seq.
  apply (rmatch_lazy_any "};" body); [done| |].
  - intros s caps' Hs. rewrite rmatch_seq. cbn [rmatch].
    destruct (startswith "}" s) eqn:E; [|done].
    apply startswith_spec in E as [t ->]. rewrite drop_chars_app.
    cbn [startswith drop_chars String.length].
    destruct t as [|d t]; [done|].
    destruct (Ascii.eqb_spec ";" d) as [<-|]; [|done].
    change ("}" +:+ String ";" t) with ("};" +:+ t) in Hs.
    by rewrite (startswith_app "};" t) in Hs.
  - rewrite rmatch_seq. change ("};" +:+ post) with ("}" +:+ ";" +:+ post).
    rewrite rmatch_lit. cbn [rmatch startswith drop_chars String.length].
    change (";" +:+ post) with (String ";" post). cbv iota. cbn [Ascii.eqb Bool.eqb andb].
    do 3 f_equal. cbn [dict_set]. do 2 f_equal.
    assert ("{" +:+ body +:+ "}" +:+ String ";" post
            = ("{" +:+ body +:+ "}") +:+ String ";" post) as ->
      by (by rewrite !string_app_assoc).
    apply take_chars_app.
Qed.

Lemma space_blank_or_wide ws : all_chars is_space ws = true → all_chars blank_or_wide ws = true.
Proof. apply all_chars_impl. intros c Hc. unfold blank_or_wide. by rewrite Hc. Qed.

Lemma search_field_sound name obj val :
  search_group1 (field_re name) obj = Some val → quoted_after obj name val.
Proof.
  unfold search_group1.
  destruct (re_search (field_re name) obj) as [[caps rest]|] eqn:E; [|done].
  apply re_search_sound in E as (pre & m & -> & Hm).
  unfold field_re, seqs in Hm. cbn [foldr] in Hm. inv_matches. subst.
  unfold group. cbn [dict_set dict_get Nat.eqb]. intros [= <-].
  match goal with H : all_chars is_space ?ws = true |- _ => exists ws end.
  split; [by apply space_blank_or_wide|]. split; [|done].
  apply contains_spec. exists pre, rest.
  by rewrite ?string_app_assoc, ?string_app_empty_r.
Qed.

Lemma search_object_sound script obj :
  search_group1 object_re script = Some obj →
  contains "const" script = true ∧ contains (obj +:+ ";") script = true.
Proof.
  unfold search_group1.
  destruct (re_search object_re script) as [[caps rest]|] eqn:E; [|done].
  apply re_search_sound in E as (pre & m & -> & Hm).
  unfold object_re, seqs in Hm. cbn [foldr] in Hm. inv_matches. subst.
  unfold group. cbn [dict_set dict_get Nat.eqb]. intros [= <-]. split.
  - apply contains_spec. eexists pre, _. by rewrite ?string_app_assoc.
  - apply contains_spec.
    match goal with
    | |- context [pre +:+ (_ +:+ ?a +:+ ?i +:+ ?b +:+ _ +:+ ?c +:+ _) +:+ _] =>
        exists (pre +:+ "const" +:+ a +:+ i +:+ b +:+ "=" +:+ c), rest
    end.
    by rewrite ?string_app_assoc, ?string_app_empty_r.
Qed.

Lemma link_of_script_complete script obj p d pa q :
  object_of script obj →
  field_of obj "jC1kO" p → field_of obj "hF3nV" d →
  field_of obj "iA5pX" pa → field_of obj "tN4qY" q →
  link_of_script script = Some (stream_url p d pa q).
Proof.
  intros Hobj Hp Hd Hpa Hq. unfold link_of_script.
  rewrite (search_object _ _ Hobj).
  by rewrite (search_field _ _ _ Hp), (search_field _ _ _ Hd),
             (search_field _ _ _ Hpa), (search_field _ _ _ Hq).
Qed.

Lemma link_of_script_sound script url :
  link_of_script script = Some url →
  ∃ obj p d pa q,
    contains "const" script = true ∧ contains (obj +:+ ";") script = true ∧
    quoted_after obj "jC1kO" p ∧ quoted_after obj "hF3nV" d ∧
    quoted_after obj "iA5pX" pa ∧ quoted_after obj "tN4qY" q ∧
    url = stream_url p d pa q.
Proof.
  unfold link_of_script.
  destruct (search_group1 object_re script) as [obj|] eqn:Hobj; [|discriminate].
  destruct (search_group1 (field_re "jC1kO") obj) as [p|] eqn:Hp; [|discriminate].
  destruct (search_group1 (field_re "hF3nV") obj) as [d|] eqn:Hd; [|discriminate].
  destruct (search_group1 (field_re "iA5pX") obj) as [pa|] eqn:Hpa; [|discriminate].
  destruct (search_group1 (field_re "tN4qY") obj) as [q|] eqn:Hq; [|discriminate].
  intros [= <-]. apply search_object_sound in Hobj as [Hc Ho].
  exists obj, p, d, pa, q. split; [done|]. split; [done|].
  split; [by apply search_field_sound|]. split; [by apply search_field_sound|].
  split; [by apply search_field_sound|]. split; [by apply search_field_sound|]. done.
Qed.

Lemma field_re_contains name s v :
  search_group1 (field_re name) s = Some v → contains (name +:+ ":") s = true.
Proof.
  unfold search_group1.
  destruct (re_search (field_re name) s) as [m|] eqn:E; [|done]. intros _.
  by apply search_literal in E.
Qed.

(** A script that lacks the text [name:] for one of the four field names
    yields no link. *)
Lemma link_of_script_names script name url :
  name ∈ field_names → link_of_script script = Some url →
  contains (name +:+ ":") script = true.
Proof.
  intros Hn. unfold link_of_script.
  destruct (search_group1 object_re script) as [obj|] eqn:Hobj; [|discriminate].
  destruct (search_group1 (field_re "jC1kO") obj) as [p|] eqn:Hp; [|discriminate].
  destruct (search_group1 (field_re "hF3nV") obj) as [d|] eqn:Hd; [|discriminate].
  destruct (search_group1 (field_re "iA5pX") obj) as [pa|] eqn:Hpa; [|discriminate].
  destruct (search_group1 (field_re "tN4qY") obj) as [q|] eqn:Hq; [|discriminate].
  intros _. apply search_group1_contains in Hobj.
  apply (contains_trans _ obj); [|done].
  repeat (apply elem_of_cons in Hn as [->|Hn]; [by eapply field_re_contains|]).
  by apply elem_of_nil in Hn.
Qed.

Lemma link_of_scripts_sound scripts url :
  link_of_scripts scripts = Some url →
  ∃ script, Some script ∈ scripts ∧ contains marker script = true ∧
            link_of_script script = Some url.
Proof.
  unfold marker. induction scripts as [|script scripts IH]; [discriminate|].
  cbn [link_of_scripts].
  assert (link_of_scripts scripts = Some url →
          ∃ s, Some s ∈ script :: scripts ∧ contains "stream.foupix.com" s = true ∧
               link_of_script s = Some url) as Hrest.
  { intros (s & Hin & Hm & Hl)%IH. exists s. split; [by right|done]. }
  destruct script as [str|]; [|done].
  destruct (contains "stream.foupix.com" str) eqn:Hm; [|done].
  destruct (link_of_script str) as [l|] eqn:Hl; [|done].
  intros [= <-]. exists str. split; [by left|done].
Qed.

Lemma link_of_scripts_first before script after :
  (∀ s, Some s ∈ before → contains marker s = false) →
  contains marker script = true →
  link_of_scripts (before ++ Some script :: after)
  = match link_of_script script with
    | Some url => Some url
    | None => link_of_scripts after
    end.
Proof.
  unfold marker. intros Hbefore Hm. induction before as [|x before IH].
  - cbn [app link_of_scripts]. by rewrite Hm.
  - cbn [app link_of_scripts]. destruct x as [xs|].
    + rewrite (Hbefore xs) by (by left). apply IH. intros s Hs. apply Hbefore. by right.
    + apply IH. intros s Hs. apply Hbefore. by right.
Qed.

(** C5. On every input [get_m3u8_link_from_js] returns normally and leaves
    the world as it was. The result is [None] for a missing page, when no
    script carries the marker, and when one of the four names [jC1kO],
    [hF3nV], [iA5pX], [tN4qY], followed by a colon, occurs in no script
    that carries the marker. A URL that is returned is
    [protocol://domain/path?query] for four non-empty values that stand
    between double quotes after the four names in the object literal of a
    script that carries the marker. And the URL is returned: when the
    first script that carries the marker has the shape [const name = {...};]
    and each of the four names is first followed, in its object literal, by
    a value between double quotes, the result is the URL made of the four
    values. *)
Theorem get_m3u8_link_from_js_spec (lib : PyLib) (soup : option string) (w : World) :
  ∃ r : option string,
    get_m3u8_link_from_js lib soup w = (Ok r, w) ∧
    (soup = None → r = None) ∧
    (∀ page,
       soup = Some page →
       (∀ s, Some s ∈ soup_scripts lib page → contains marker s = false) →
       r = None) ∧
    (∀ page name,
       soup = Some page → name ∈ field_names →
       (∀ s, Some s ∈ soup_scripts lib page → contains marker s = true →
             contains (name +:+ ":") s = false) →
       r = None) ∧
    (∀ url,
       r = Some url →
       ∃ page script obj p d pa q,
         soup = Some page ∧ Some script ∈ soup_scripts lib page ∧
         contains marker script = true ∧
         contains "const" script = true ∧ contains (obj +:+ ";") script = true ∧
         quoted_after obj "jC1kO" p ∧ quoted_after obj "hF3nV" d ∧
         quoted_after obj "iA5pX" pa ∧ quoted_after obj "tN4qY" q ∧
         url = stream_url p d pa q) ∧
    (∀ page before script after obj p d pa q,
       soup = Some page →
       soup_scripts lib page = before ++ Some script :: after →
       (∀ s, Some s ∈ before → contains marker s = false) →
       contains marker script = true →
       object_of script obj →
       field_of obj "jC1kO" p → field_of obj "hF3nV" d →
       field_of obj "iA5pX" pa → field_of obj "tN4qY" q →
       r = Some (stream_url p d pa q)).
Proof.
  unfold get_m3u8_link_from_js, try_except, ret.
  destruct soup as [page|].
  - exists (link_of_scripts (soup_scripts lib page)).
    split; [done|]. split; [done|]. split; [|split; [|split]].
    + intros ? [= <-] Hno.
      destruct (link_of_scripts (soup_scripts lib page)) as [url|] eqn:E; [|done].
      apply link_of_scripts_sound in E as (s & Hin & Hm & _).
      rewrite (Hno s Hin) in Hm. discriminate.
    + intros ? name [= <-] Hname Hlack.
      destruct (link_of_scripts (soup_scripts lib page)) as [url|] eqn:E; [|done].
      apply link_of_scripts_sound in E as (s & Hin & Hm & Hl).
      apply (link_of_script_names s name) in Hl; [|done].
      rewrite (Hlack s Hin Hm) in Hl. discriminate.
    + intros url (s & Hin & Hm & Hl)%link_of_scripts_sound.
      apply link_of_script_sound in Hl
        as (obj & p & d & pa & q & Hc & Ho & Hp & Hd & Hpa & Hq & ->).
      exists page, s, obj, p, d, pa, q. do 9 (split; [done|]). done.
    + intros ? before script after obj p d pa q [= <-] -> Hbefore Hm Hobj Hp Hd Hpa Hq.
      rewrite link_of_scripts_first by done.
      by rewrite (link_of_script_complete _ _ _ _ _ _ Hobj Hp Hd Hpa Hq).
  - exists None. split; [done|]. split; [done|]. split; [done|]. split; [done|].
    split; [done|]. intros ? ? ? ? ? ? ? ? ? [=].
Qed.

(** The page of the demo: its only script with text has the shape above,
    and the decoder returns the URL made of its four values. *)
Lemma get_m3u8_link_from_js_spec_witness :
  get_m3u8_link_from_js Demo.lib (Some Demo.page_html) (Demo.offline ∅)
  = (Ok (Some "https://stream.foupix.com/hls/ep1.m3u8?t=1"), Demo.offline ∅).
Proof.
  destruct (get_m3u8_link_from_js_spec Demo.lib (Some Demo.page_html) (Demo.offline ∅))
    as (r & -> & _ & _ & _ & _ & Hurl).
  do 2 f_equal.
  set (body := " jC1kO: " +:+ Demo.quoted "https" +:+ ", hF3nV: "
               +:+ Demo.quoted "stream.foupix.com" +:+ ", iA5pX: "
               +:+ Demo.quoted "hls/ep1.m3u8" +:+ ", tN4qY: " +:+ Demo.quoted "t=1" +:+ " ").
  apply (Hurl Demo.page_html [None] Demo.page_html [] ("{" +:+ body +:+ "}")
              "https" "stream.foupix.com" "hls/ep1.m3u8" "t=1").
  - reflexivity.
  - reflexivity.
  - intros s [[=]|[]%elem_of_nil]%elem_of_cons.
  - vm_compute. reflexivity.
  - exists "", " ", "cfg", " ", " ", body, "". vm_compute. repeat split; discriminate.
  - exists "{ ", " ", (", hF3nV: " +:+ Demo.quoted "stream.foupix.com" +:+ ", iA5pX: "
               +:+ Demo.quoted "hls/ep1.m3u8" +:+ ", tN4qY: " +:+ Demo.quoted "t=1" +:+ " }").
    vm_compute. repeat split; discriminate.
  - exists ("{ jC1kO: " +:+ Demo.quoted "https" +:+ ", "), " ",
           (", iA5pX: " +:+ Demo.quoted "hls/ep1.m3u8" +:+ ", tN4qY: "
            +:+ Demo.quoted "t=1" +:+ " }").
    vm_compute. repeat split; discriminate.
  - exists ("{ jC1kO: " +:+ Demo.quoted "https" +:+ ", hF3nV: "
            +:+ Demo.quoted "stream.foupix.com" +:+ ", "), " ",
           (", tN4qY: " +:+ Demo.quoted "t=1" +:+ " }").
    vm_compute. repeat split; discriminate.
  - exists ("{ jC1kO: " +:+ Demo.quoted "https" +:+ ", hF3nV: "
            +:+ Demo.quoted "stream.foupix.com" +:+ ", iA5pX: "
            +:+ Demo.quoted "hls/ep1.m3u8" +:+ ", "), " ", " }".
    vm_compute. repeat split; discriminate.
Defined.

(** *** The segmented-stream transport *)

Lemma cleanup_and_reraise_run {A} filepath tmpo e w :
  @cleanup_and_reraise A filepath tmpo e w =
  (Raise e, {| net := net w; ydl := ydl w; fs := cleaned filepath tmpo (fs w);
               trace := trace w ++ cleanup_events filepath tmpo (fs w) |}).
Proof.
  unfold cleanup_and_reraise, cleanup_events, cleaned, bind, exists_, remove, raise, ret, log, set_fs.
  destruct w as [n y f t]; simpl.
  destruct (bool_decide (is_Some (f !! filepath))) eqn:Hf; simpl.
  - destruct tmpo as [tmp|]; simpl.
    + destruct (bool_decide (is_Some (delete filepath f !! tmp))) eqn:Ht; simpl.
      * by rewrite <- app_assoc.
      * apply bool_decide_eq_false in Ht. rewrite <- eq_None_not_Some in Ht.
        rewrite (delete_id _ tmp) by done. done.
    + done.
  - apply bool_decide_eq_false in Hf. rewrite <- eq_None_not_Some in Hf.
    rewrite (delete_id f filepath) by done.
    destruct tmpo as [tmp|]; simpl.
    + destruct (bool_decide (is_Some (f !! tmp))) eqn:Ht; simpl.
      * done.
      * apply bool_decide_eq_false in Ht. rewrite <- eq_None_not_Some in Ht.
        rewrite (delete_id _ tmp) by done. by rewrite app_nil_r.
    + by rewrite app_nil_r.
Qed.

Lemma fetch_segments_run referer tmp segs : ∀ w acc,
  fs w !! tmp = Some acc →
  wp (fetch_segments [("Referer", referer)] tmp segs) (segments_post referer tmp segs w acc) w.
Proof.
  induction segs as [|u segs IH]; intros w acc Hacc.
  - apply wp_ret. do 2 (split; [done|]). exists []. simpl.
    split; [done|]. split; [constructor|]. split; [by rewrite app_nil_r|].
    rewrite string_app_empty_r. by rewrite insert_id.
  - cbn [fetch_segments]. apply wp_bind, wp_request. intros [resp|] Hnet.
    + apply wp_bind, wp_raise_for_status. destruct (status_ok resp) eqn:Hst.
      * apply wp_bind. unfold wp at 1, write. cbn [fst snd]. rewrite fs_log. 
        cbn [fs log set_fs]. rewrite Hacc. cbn [default].
        set (w2 := log (EWrite tmp (text resp)) _).
        eapply wp_mono; [apply (IH w2 (acc +:+ text resp))|].
        { subst w2. simpl. apply lookup_insert_eq. }
        intros r w3 (Hn & Hy & Hres). split; [by rewrite Hn|]. split; [by rewrite Hy|].
        destruct r as [[]|e].
        -- destruct Hres as (resps & Hlen & Hok & Htr & Hfs).
           exists (resp :: resps). split; [simpl; by rewrite Hlen|].
           split; [by constructor|]. split.
           ++ rewrite Htr. subst w2. simpl. by rewrite <- !app_assoc.
           ++ rewrite Hfs. subst w2. simpl. rewrite insert_insert_eq.
              by rewrite string_app_assoc.
        -- destruct Hres as (evs & acc' & Htr & Hmv & Hfs).
           eexists (_ :: _ :: evs), acc'. split; [|split].
           ++ rewrite Htr. subst w2. simpl. by rewrite <- !app_assoc.
           ++ by repeat constructor.
           ++ rewrite Hfs. subst w2. simpl. by rewrite insert_insert_eq.
      * do 2 (split; [done|]). eexists [_], acc. simpl.
        split; [done|]. split; [by repeat constructor|]. by rewrite insert_id.
    + do 2 (split; [done|]). eexists [_], acc. simpl.
      split; [done|]. split; [by repeat constructor|]. by rewrite insert_id.
Qed.

Lemma temp_path_ne filepath : temp_path filepath ≠ filepath.
Proof. by apply string_app_ne_self. Qed.

Lemma delete_delete_insert (m : gmap string string) tmp fp x :
  delete tmp (delete fp (<[tmp := x]> m)) = delete tmp (delete fp m).
Proof.
  apply map_eq. intros k. rewrite !lookup_delete, lookup_insert.
  repeat case_decide; congruence.
Qed.

Lemma cleanup_events_no_move fp tmpo f :
  Forall (λ ev, is_move ev = false) (cleanup_events fp tmpo f).
Proof.
  unfold cleanup_events. apply Forall_app. split.
  - case_bool_decide; by repeat constructor.
  - destruct tmpo; [case_bool_decide|]; by repeat constructor.
Qed.

Lemma cleanup_events_remove fp tmpo f :
  is_Some (f !! fp) → ERemove fp ∈ cleanup_events fp tmpo f.
Proof.
  intros H. unfold cleanup_events. rewrite bool_decide_eq_true_2 by done.
  apply elem_of_app. left. by left.
Qed.

Lemma early_failure lib url filepath referer w reply e :
  reply = net w (length (trace w)) (GET url [] (referer_headers referer)) →
  ∃ w', @cleanup_and_reraise (list string) filepath None e
          (log (EHttp (GET url [] (referer_headers referer)) reply) w) = (Raise e, w') ∧
        download_post lib url filepath referer w (Raise e) w'.
Proof.
  intros Hr. rewrite cleanup_and_reraise_run. eexists. split; [done|].
  eexists (_ :: cleanup_events filepath None (fs w)). cbn [trace net ydl fs log].
  split; [by rewrite <- app_assoc|]. do 2 (split; [done|]).
  split; [constructor; [done|apply cleanup_events_no_move]|].
  split; [intros ?; right; by apply cleanup_events_remove|].
  left. split; [done|]. constructor; [done|]. unfold cleanup_events.
  rewrite app_nil_r. case_bool_decide; by repeat constructor.
Qed.

Lemma download_run lib url filepath name referer w :
  wp (download_with_custom_progress lib url filepath name referer)
     (download_post lib url filepath referer w) w.
Proof.
  unfold download_with_custom_progress. apply wp_bind, wp_try_except, wp_bind.
  unfold session_get. apply wp_request. fold (referer_headers referer).
  intros [playlist|] Hnet.
  - apply wp_bind, wp_raise_for_status. destruct (status_ok playlist) eqn:Hst.
    + destruct (segment_urls_error lib url (text playlist)) as [msg|] eqn:Hjoin.
      { apply wp_raise. unfold wp.
        by destruct (early_failure lib url filepath referer w _ (ValueError msg) Hnet)
          as (w' & -> & Hpost). }
      destruct (segment_urls_of lib url (text playlist)) as [|u segs] eqn:Hsegs.
      * apply wp_raise. unfold wp.
        by destruct (early_failure lib url filepath referer w _
                       (ValueError "No video segments found in the M3U8 playlist.") Hnet)
          as (w' & -> & Hpost).
      * apply wp_ret. fold (temp_path filepath).
        apply wp_try_except, wp_bind. unfold wp at 1, open_wb. cbn [fst snd].
        set (w1 := log (EOpen _) _).
        apply wp_bind.
        eapply wp_mono; [apply (fetch_segments_run referer (temp_path filepath) (u :: segs) w1 "")|].
        { subst w1. simpl. apply lookup_insert_eq. }
        intros r w3 (Hn & Hy & Hres). destruct r as [[]|e].
        -- destruct Hres as (resps & Hlen & Hok & Htr & Hfs).
           apply wp_bind. unfold wp at 1, move. rewrite Hfs, lookup_insert_eq. cbn [fst snd].
           apply wp_ret. eexists.
           split; [|split; [cbn [net log set_fs]; rewrite Hn; by subst w1|
                    split; [cbn [ydl log set_fs]; rewrite Hy; by subst w1|]]].
           { cbn [trace log set_fs]. rewrite Htr. subst w1. cbn [trace log set_fs].
             rewrite <- !app_assoc. reflexivity. }
           split; [done|]. exists playlist, resps. rewrite Hsegs.
           split; [done|]. split; [done|]. split; [done|]. split; [done|]. split; [done|].
           split; [done|]. cbn [fs log set_fs]. subst w1. cbn [fs log set_fs].
           by rewrite !delete_insert_eq.
        -- destruct Hres as (evs & acc' & Htr & Hmv & Hfs).
           unfold wp. rewrite cleanup_and_reraise_run. cbn [fst snd].
           eexists. cbn [trace net ydl fs].
           split; [|split; [rewrite Hn; by subst w1|split; [rewrite Hy; by subst w1|]]].
           { rewrite Htr. subst w1. cbn [trace log set_fs]. rewrite <- !app_assoc. reflexivity. }
           split.
           { repeat (apply Forall_cons; split; [done|]). apply Forall_app. split; [done|].
             apply cleanup_events_no_move. }
           split.
           { intros Hsome. do 2 right. apply elem_of_app. right.
             apply cleanup_events_remove. rewrite Hfs. subst w1. cbn [fs log set_fs].
             rewrite !lookup_insert_ne by apply temp_path_ne. done. }
           right. split; [|right; left].
           unfold cleaned. rewrite Hfs. subst w1. cbn [fs log set_fs].
           by rewrite insert_insert_eq, delete_delete_insert.
    + unfold wp.
      by destruct (early_failure lib url filepath referer w _
                     (HTTPError (status_code playlist)) Hnet) as (w' & -> & Hpost).
  - unfold wp.
    by destruct (early_failure lib url filepath referer w _ ConnectionError Hnet)
      as (w' & -> & Hpost).
Qed.

Lemma fetch_segments_good referer tmp : ∀ segs resps w acc,
  fs w !! tmp = Some acc →
  segment_replies (net w) referer (length (trace w)) segs = Some <$> resps →
  Forall (λ r, status_ok r = true) resps →
  fetch_segments [("Referer", referer)] tmp segs w
  = (Ok tt, {| net := net w; ydl := ydl w;
               fs := <[tmp := acc +:+ segment_data resps]> (fs w);
               trace := trace w ++ segment_events referer tmp (zip segs resps) |}).
Proof.
  induction segs as [|u segs IH]; intros resps w acc Hacc Hrep Hok.
  - destruct resps; [|done]. cbn [fetch_segments segment_data foldr zip zip_with segment_events flat_map].
    rewrite string_app_empty_r, app_nil_r, insert_id by done. by destruct w.
  - destruct resps as [|r resps]; [done|]. cbn [segment_replies fmap list_fmap] in Hrep.
    injection Hrep as Hr Hrep. apply Forall_cons in Hok as [Hst Hok].
    cbn [fetch_segments]. unfold bind at 1, session_get, request.
    fold (referer_headers referer). rewrite Hr.
    unfold bind at 1, raise_for_status. rewrite Hst. unfold ret at 1.
    unfold bind at 1, write. cbn [fs log set_fs]. rewrite Hacc. cbn [default].
    rewrite (IH resps _ (acc +:+ text r)).
    + cbn [net ydl fs trace log set_fs segment_data foldr zip zip_with segment_events
           flat_map fst snd app].
      rewrite insert_insert_eq, string_app_assoc, <- !app_assoc. reflexivity.
    + cbn [fs log set_fs]. apply lookup_insert_eq.
    + cbn [trace net log set_fs]. rewrite !length_app. cbn [length].
      replace (length (trace w) + 1 + 1)%nat with (S (S (length (trace w)))) by lia. done.
    + done.
Qed.

Lemma download_success lib url filepath name referer w playlist resps :
  let tmp := filepath +:+ ".tmp" in
  let rq := GET url [] (referer_headers referer) in
  let segs := segment_urls_of lib url (text playlist) in
  net w (length (trace w)) rq = Some playlist →
  status_ok playlist = true →
  segment_urls_error lib url (text playlist) = None →
  segs ≠ [] →
  segment_replies (net w) referer (length (trace w) + 2) segs = Some <$> resps →
  Forall (λ r, status_ok r = true) resps →
  download_with_custom_progress lib url filepath name referer w
  = (Ok true,
     {| net := net w; ydl := ydl w;
        fs := <[filepath := segment_data resps]> (delete tmp (fs w));
        trace := trace w ++ EHttp rq (Some playlist) :: EOpen tmp ::
                 segment_events referer tmp (zip segs resps) ++ [EMove tmp filepath] |}).
Proof.
  intros tmp rq segs Hnet Hst Hjoin Hsegs Hrep Hok.
  unfold download_with_custom_progress, bind at 1, try_except at 1, bind at 1.
  unfold session_get, request. fold (referer_headers referer). fold rq. rewrite Hnet.
  unfold bind at 1, raise_for_status. rewrite Hst. unfold ret at 1. rewrite Hjoin.
  fold segs. destruct segs as [|u0 segs0] eqn:E; [done|]. rewrite <- E in *.
  unfold ret at 1. fold tmp. unfold try_except, bind at 1, open_wb.
  unfold bind at 1.
  rewrite (fetch_segments_good referer tmp segs resps _ "").
  - cbn [fs trace net ydl log set_fs]. unfold bind at 1, move.
    cbn [fs trace net ydl log set_fs]. rewrite lookup_insert_eq.
    unfold bind, ret. cbn [fs trace net ydl log set_fs].
    rewrite insert_insert_eq, delete_insert_eq, string_app_nil_l.
    unfold log, set_fs. cbn [fs trace net ydl]. by rewrite <- !app_assoc.
  - cbn [fs log set_fs]. apply lookup_insert_eq.
  - cbn [trace net log set_fs]. rewrite !length_app. cbn [length].
    replace (length (trace w) + 1 + 1)%nat with (length (trace w) + 2)%nat by lia. done.
  - done.
Qed.

(** The claim of C7 fails for an attempt that fails before it opens its
    temporary file: a file left at the temporary path by an earlier run is
    still there afterwards. *)
Lemma download_leaves_stale_temp :
  let w := Demo.offline {[ "Show/01.mp4.tmp" := "half" ]} in
  let out := download_with_custom_progress Demo.lib "http://h/p.m3u8" "Show/01.mp4"
               "01.mp4" "http://h/ep1" w in
  out.1 = Raise ConnectionError ∧
  fs out.2 !! "Show/01.mp4.tmp" = Some "half".
Proof. split; vm_compute; reflexivity. Qed.

(** C7 (amended). A download attempt writes to [filepath + ".tmp"], which
    differs from [filepath]. When it returns, the playlist and every
    segment were fetched with a good status, each segment was written to
    the temporary file right after its fetch, the move to [filepath] is the
    last effect, and afterwards the temporary path holds no file and
    [filepath] holds the segments in order. When it raises, no move took
    place; if the attempt had opened the temporary file, the temporary path
    holds no file afterwards, and if it had not, it never touched that
    path, which holds what it held before. And the attempt does return:
    when the playlist and each of its segments get a reply with a good
    status, the result is [True] after exactly these effects. *)
Theorem download_temp_file_discipline (lib : PyLib)
    (url filepath filename_for_display referer_url : string) (w : World) :
  let out := download_with_custom_progress lib url filepath filename_for_display
               referer_url w in
  let tmp := filepath +:+ ".tmp" in
  let rq := GET url [] (referer_headers referer_url) in
  tmp ≠ filepath ∧
  (∃ evs, trace out.2 = trace w ++ evs ∧
     match out.1 with
     | Ok _ =>
         ∃ playlist resps,
           let segs := segment_urls_of lib url (text playlist) in
           status_ok playlist = true ∧
           length resps = length segs ∧
           Forall (λ r, status_ok r = true) resps ∧
           evs = EHttp rq (Some playlist) :: EOpen tmp ::
                 segment_events referer_url tmp (zip segs resps) ++ [EMove tmp filepath] ∧
           fs out.2 !! tmp = None ∧
           fs out.2 !! filepath = Some (segment_data resps)
     | Raise _ =>
         Forall (λ ev, is_move ev = false) evs ∧
         (EOpen tmp ∈ evs → fs out.2 !! tmp = None) ∧
         (EOpen tmp ∉ evs →
          fs out.2 !! tmp = fs w !! tmp ∧ Forall (λ ev, touches tmp ev = false) evs)
     end) ∧
  (∀ playlist resps,
     let segs := segment_urls_of lib url (text playlist) in
     net w (length (trace w)) rq = Some playlist →
     status_ok playlist = true →
     segment_urls_error lib url (text playlist) = None →
     segs ≠ [] →
     segment_replies (net w) referer_url (length (trace w) + 2) segs = Some <$> resps →
     Forall (λ r, status_ok r = true) resps →
     out = (Ok true,
            {| net := net w; ydl := ydl w;
               fs := <[filepath := segment_data resps]> (delete tmp (fs w));
               trace := trace w ++ EHttp rq (Some playlist) :: EOpen tmp ::
                        segment_events referer_url tmp (zip segs resps)
                        ++ [EMove tmp filepath] |})).
Proof.
  intros out tmp rq. split; [apply temp_path_ne|]. split.
  - pose proof (download_run lib url filepath filename_for_display referer_url w) as H.
    unfold wp, download_post in H. fold out in H. cbn zeta in H.
    fold (temp_path filepath) in tmp.
    destruct H as (evs & Htr & _ & _ & H). exists evs. split; [done|].
    destruct (out.1) as [b|e].
    + destruct H as (_ & playlist & resps & _ & Hst & _ & Hlen & Hok & Hevs & Hfs).
      exists playlist, resps. cbn zeta. do 4 (split; [done|]).
      rewrite Hfs. split.
      * rewrite lookup_insert_ne by (intros E; symmetry in E; by apply temp_path_ne in E).
        apply lookup_delete_eq.
      * apply lookup_insert_eq.
    + destruct H as (Hmv & _ & [[Hfs Hno]|[Hfs Hopen]]).
      * split; [done|]. split.
        -- intros Hin. rewrite Forall_forall in Hno. specialize (Hno _ Hin).
           cbn [touches] in Hno. by rewrite String.eqb_refl in Hno.
        -- intros _. split; [|done]. rewrite Hfs.
           apply lookup_delete_ne. intros E. symmetry in E. by apply temp_path_ne in E.
      * split; [done|]. split; [|done]. intros _. rewrite Hfs. apply lookup_delete_eq.
  - intros playlist resps segs Hnet Hst Hjoin Hsegs Hrep Hok.
    by apply download_success.
Qed.

(** The playlist of the demo names two segments, and both can be fetched:
    the file is complete at the final path and nothing is left at the
    temporary path. *)
Lemma download_temp_file_discipline_witness :
  let out := download_with_custom_progress Demo.lib Demo.stream "Show/01.mp4" "01.mp4"
               "http://dk/ep1" Demo.steady in
  out.1 = Ok true ∧
  fs out.2 !! "Show/01.mp4" = Some "AAAABBBB" ∧
  fs out.2 !! "Show/01.mp4.tmp" = None.
Proof.
  destruct (download_temp_file_discipline Demo.lib Demo.stream "Show/01.mp4" "01.mp4"
              "http://dk/ep1" Demo.steady) as (_ & _ & Hgood).
  intros out. subst out.
  rewrite (Hgood
             {| status_code := 200;
                text := "#EXTM3U" +:+ newline +:+ "http://cdn/s1.ts" +:+ newline
                        +:+ "http://cdn/s2.ts" +:+ newline;
                json_body := None |}
             [{| status_code := 200; text := "AAAA"; json_body := None |};
              {| status_code := 200; text := "BBBB"; json_body := None |}]);
    [ | vm_compute; reflexivity | reflexivity | vm_compute; reflexivity
      | vm_compute; discriminate | vm_compute; reflexivity | repeat constructor ].
  split; [reflexivity|]. split; vm_compute; reflexivity.
Defined.

(** C10. When a download attempt raises, no file is left at [filepath]:
    a file that was there before the attempt started has been removed by
    the handler, whatever the reason of the failure. *)
Theorem failed_download_removes_final_file (lib : PyLib)
    (url filepath filename_for_display referer_url : string) (w : World) (e : exn) :
  (download_with_custom_progress lib url filepath filename_for_display referer_url w).1
  = Raise e →
  let out := download_with_custom_progress lib url filepath filename_for_display
               referer_url w in
  fs out.2 !! filepath = None ∧
  ∃ evs, trace out.2 = trace w ++ evs ∧
         (is_Some (fs w !! filepath) → ERemove filepath ∈ evs).
Proof.
  intros He out.
  pose proof (download_run lib url filepath filename_for_display referer_url w) as H.
  unfold wp, download_post in H. fold out in H, He. cbn zeta in H.
  destruct H as (evs & Htr & _ & _ & H). rewrite He in H.
  destruct H as (_ & Hrm & Hfs). split; [|by exists evs].
  destruct Hfs as [[-> _]|[-> _]].
  - apply lookup_delete_eq.
  - rewrite lookup_delete_ne by apply temp_path_ne. apply lookup_delete_eq.
Qed.

(** An episode that was already complete at [Show/01.mp4] is deleted by an
    attempt that fails at its first request. *)
Lemma failed_download_removes_final_file_witness :
  let w := Demo.offline {[ "Show/01.mp4" := "complete" ]} in
  let out := download_with_custom_progress Demo.lib "http://h/p.m3u8" "Show/01.mp4"
               "01.mp4" "http://h/ep1" w in
  out.1 = Raise ConnectionError ∧
  fs w !! "Show/01.mp4" = Some "complete" ∧
  fs out.2 !! "Show/01.mp4" = None.
Proof.
  intros w out. split; [by vm_compute|]. split; [by vm_compute|].
  apply (failed_download_removes_final_file Demo.lib "http://h/p.m3u8" "Show/01.mp4"
           "01.mp4" "http://h/ep1" w ConnectionError).
  by vm_compute.
Defined.

(** *** The retry loop *)

Lemma get_soup_run url w :
  get_soup url w =
  (Ok (match net w (length (trace w)) (GET url [] session_headers) with
       | Some r => if status_ok r then Some (text r) else None
       | None => None
       end),
   log (EHttp (GET url [] session_headers) (net w (length (trace w)) (GET url [] session_headers))) w).
Proof.
  unfold get_soup, try_except, bind, session_get, request, raise_for_status.
  change (session_headers ++ []) with session_headers.
  destruct (net w (length (trace w)) (GET url [] session_headers)) as [r|]; [|done].
  by destruct (status_ok r).
Qed.















End DimakidsSpec.

Module StardimaSpec.
Import Py Eff Stardima EffFacts PyFacts.

(** *** The wrapper unwrapper *)

Lemma resolve_server_run api_url iframe_url csrf_token results server w :
  resolve_server api_url iframe_url csrf_token results server w =
  (Ok (add_link results server
         (net w (length (trace w)) (link_request api_url iframe_url csrf_token server.1))),
   log (EHttp (link_request api_url iframe_url csrf_token server.1)
          (net w (length (trace w)) (link_request api_url iframe_url csrf_token server.1))) w).
Proof.
  unfold resolve_server, try_except, bind, request, add_link, link_of_reply.
  destruct (net w (length (trace w)) _) as [r|]; [|done].
  unfold json. destruct (json_body r) as [link_data|]; [|done].
  unfold ret at 1. unfold get_default, obj_get.
  destruct link_data as [| | | | |d]; try done.
  unfold get_or_none.
  destruct (dict_get String.eqb d "success") as [s|]; simpl.
  - destruct (truthy s); [|done]. simpl.
    destruct (dict_get String.eqb d "watch_url") as [u|]; simpl; [|done].
    by destruct (truthy u).
  - done.
Qed.

Lemma foldl_add_link servers replies : ∀ results,
  foldl (λ s xr, add_link s xr.1 xr.2) results (zip servers replies)
  = foldl (λ d kv, dict_set String.eqb d kv.1 kv.2) results (resolved_pairs servers replies).
Proof.
  unfold resolved_pairs. generalize (zip servers replies). intros l.
  induction l as [|[srv r] l IH]; intros results; simpl; [done|].
  rewrite IH. unfold add_link. simpl. by destruct (link_of_reply r).
Qed.

Lemma resolve_hyperwatching_run iframe_url w :
  let page_rq := GET iframe_url [] [] in
  let t := length (trace w) in
  resolve_hyperwatching iframe_url w =
  match net w t page_rq with
  | None => (Ok (fallback iframe_url), logs [EHttp page_rq None] w)
  | Some page =>
      match search_group1 servers_re (text page) with
      | None => (Ok (fallback iframe_url), logs [EHttp page_rq (Some page)] w)
      | Some servers_text =>
          let rqs := link_requests iframe_url (text page) servers_text in
          let replies := replies_from (net w) (S t) rqs in
          (Ok (match dict_of String.eqb (resolved_pairs (servers_of servers_text) replies) with
               | [] => fallback iframe_url
               | results => results
               end),
           logs (EHttp page_rq (Some page) :: http_events rqs replies) w)
      end
  end.
Proof.
  cbn zeta. unfold resolve_hyperwatching, try_except. unfold bind at 1, request.
  destruct (net w (length (trace w)) (GET iframe_url [] [])) as [page|] eqn:Hpage; [|done].
  destruct (search_group1 servers_re (text page)) as [servers_text|]; [|done].
  unfold bind.
  rewrite (for_each_requests _
             (λ srv, link_request (api_url_of iframe_url) iframe_url
                       (default EmptyString (search_group1 csrf_re (text page))) srv.1)
             add_link)
    by (intros; apply resolve_server_run).
  cbn zeta. rewrite foldl_add_link. fold (servers_of servers_text).
  fold (link_requests iframe_url (text page) servers_text).
  rewrite log_logs, logs_logs. cbn [trace log logs net].
  rewrite length_app. simpl.
  replace (length (trace w) + 1)%nat with (S (length (trace w))) by lia.
  unfold ret, dict_of.
  by destruct (foldl _ _ _).
Qed.

Lemma elem_of_resolved_pairs servers replies name url :
  (name, url) ∈ resolved_pairs servers replies ↔
  ∃ i sid sname reply,
    servers !! i = Some (sid, sname) ∧ replies !! i = Some reply ∧
    link_of_reply reply = Some url ∧ name = lower sname.
Proof.
  unfold resolved_pairs. rewrite list_elem_of_omap. split.
  - intros ([[sid sname] reply] & Hin & Heq). simpl in Heq.
    destruct (link_of_reply reply) as [u|] eqn:Hl; [|done]. injection Heq as <- <-.
    apply list_elem_of_lookup in Hin as [i Hi].
    apply lookup_zip_with_Some in Hi as (x & y & [= <- <-] & ? & ?).
    by exists i, sid, sname, reply.
  - intros (i & sid & sname & reply & Hs & Hr & Hl & ->).
    exists ((sid, sname), reply). split.
    + apply list_elem_of_lookup. exists i. apply lookup_zip_with_Some. eauto.
    + simpl. by rewrite Hl.
Qed.

(** C6. [resolve_hyperwatching] always returns, and never an empty
    mapping. It requests the wrapper page and then one link per listed
    server. Each pair of the result that is not the fallback pair comes from
    a server whose request succeeded and returned a URL, under the
    lower-cased name of that server; a server whose request failed or
    returned none adds nothing. When no server resolves, which includes a
    page that cannot be fetched and a page without a server list, the
    result is the one pair from [hyperwatching] to the iframe URL. *)
Theorem resolve_hyperwatching_spec (iframe_url : string) (w : World) :
  let page := net w (length (trace w)) (GET iframe_url [] []) in
  let servers := listed_servers page in
  let rqs := (λ server, link_request (api_url_of iframe_url) iframe_url (csrf_of page)
                          server.1) <$> servers in
  let replies := replies_from (net w) (S (length (trace w))) rqs in
  ∃ results w',
    resolve_hyperwatching iframe_url w = (Ok results, w') ∧
    results ≠ [] ∧
    trace w' = trace w ++ EHttp (GET iframe_url [] []) page :: http_events rqs replies ∧
    (∀ name url,
       (name, url) ∈ results →
       results = fallback iframe_url ∨
       ∃ i sid sname reply,
         servers !! i = Some (sid, sname) ∧ replies !! i = Some reply ∧
         link_of_reply reply = Some url ∧ name = lower sname) ∧
    (resolved_pairs servers replies = [] → results = fallback iframe_url) ∧
    (resolved_pairs servers replies ≠ [] →
     results = dict_of String.eqb (resolved_pairs servers replies)).
Proof.
  rewrite resolve_hyperwatching_run. cbn zeta.
  destruct (net w (length (trace w)) (GET iframe_url [] [])) as [page|].
  2: { exists (fallback iframe_url). eexists. split; [done|]. simpl.
       repeat split; try done. intros; by left. }
  unfold listed_servers, csrf_of.
  destruct (search_group1 servers_re (text page)) as [servers_text|].
  2: { exists (fallback iframe_url). eexists. split; [done|]. simpl.
       repeat split; try done. intros; by left. }
  fold (link_requests iframe_url (text page) servers_text).
  set (servers := servers_of servers_text).
  set (rqs := link_requests iframe_url (text page) servers_text).
  set (replies := replies_from (net w) (S (length (trace w))) rqs).
  eexists _, _. split; [done|].
  destruct (resolved_pairs servers replies) as [|p ps] eqn:Hres.
  - simpl. split; [done|]. split; [done|]. split; [intros; by left|]. by split.
  - assert (dict_of String.eqb (p :: ps) ≠ []) as Hne.
    { apply foldl_dict_set_ne_nil. by right. }
    destruct (dict_of String.eqb (p :: ps)) as [|q qs] eqn:Hd; [done|].
    split; [done|]. split; [done|]. split; [|by split].
    intros name url Hin. right. apply elem_of_resolved_pairs. rewrite Hres.
    rewrite <- Hd in Hin. unfold dict_of in Hin.
    apply elem_of_foldl_dict_set in Hin as [?%elem_of_nil|?]; done.
Qed.

(** *** The server slots of the legacy catalog *)

Lemma slot_run lib ep_id st server_num w :
  slot lib ep_id st server_num w =
  (Ok (slot_step lib st (net w (length (trace w)) (ajax_request ep_id server_num))),
   log (EHttp (ajax_request ep_id server_num)
          (net w (length (trace w)) (ajax_request ep_id server_num))) w).
Proof.
  unfold slot, try_except, bind, request, slot_step, slot_entry, slot_wrapper, decoded_of,
    embed_of.
  destruct (net w (length (trace w)) _) as [r|]; [|done].
  unfold json. destruct (json_body r) as [data|]; [|done].
  unfold ret at 1. unfold get_default, obj_get.
  destruct data as [| | | | |d]; try done.
  destruct (dict_get String.eqb d "embed_url") as [e|]; simpl; [|done].
  destruct e as [|[]|z|e|[]|[]]; simpl; try done.
  - by destruct (z =? 0).
  - destruct (String.eqb e "") eqn:He; simpl; [done|].
    destruct (b64decode_utf8 lib e) as [decoded|]; simpl; [|done].
    by destruct (contains wrapper_marker (actual_url_of decoded)).
Qed.

Lemma foldl_slot_step lib (replies : list (option Response)) : ∀ (xs : list Z) acc hw,
  length xs = length replies →
  foldl (λ st xr, slot_step lib st xr.2) (acc, hw) (zip xs replies)
  = (acc ++ (slot_entry lib <$> replies),
     match wrapper_seen lib replies with Some u => Some u | None => hw end).
Proof.
  unfold wrapper_seen.
  induction replies as [|r replies IH]; intros xs acc hw Hlen.
  - destruct xs; [|done]. simpl. by rewrite app_nil_r.
  - destruct xs as [|x xs]; [done|]. simpl in Hlen. injection Hlen as Hlen.
    cbn [zip zip_with foldl]. unfold slot_step at 2. cbn [fst snd].
    rewrite IH by done. cbn [fmap list_fmap omap list_omap].
    rewrite <- app_assoc. f_equal.
    destruct (slot_wrapper lib r) as [u|]; [|done].
    rewrite last_cons. by destruct (last (omap (slot_wrapper lib) replies)).
Qed.

Lemma all_none_spec (l : list value) : all_none l = true ↔ Forall (λ v, v = VNone) l.
Proof.
  unfold all_none. rewrite forallb_forall, Forall_forall.
  split; intros H x Hx.
  - apply list_elem_of_In in Hx. specialize (H x Hx). by destruct x.
  - apply list_elem_of_In in Hx. by rewrite (H x Hx).
Qed.

Lemma slot_wrapper_marker lib r u :
  slot_wrapper lib r = Some u → contains wrapper_marker u = true.
Proof.
  unfold slot_wrapper. destruct (decoded_of lib r) as [a|]; [|done].
  destruct (contains wrapper_marker a) eqn:E; [|done]. by intros [= <-].
Qed.

Lemma contains_ne_empty sub s : sub ≠ "" → contains sub s = true → s ≠ "".
Proof. intros Hs H ->. by destruct sub. Qed.


Lemma get_video_urls_run (lib : PyLib) (ep_id : value) (w : World) :
  let rqs := ajax_request ep_id <$> py_range 1 6 in
  let replies := replies_from (net w) (length (trace w)) rqs in
  let w5 := logs (http_events rqs replies) w in
  let direct := slot_entry lib <$> replies in
  length replies = 5%nat ∧
  get_video_urls lib ep_id w =
  match wrapper_seen lib replies with
  | Some hyperwatching_url =>
      if all_none direct
      then bind (resolve_hyperwatching hyperwatching_url)
                (λ resolved, ret (remap resolved, true)) w5
      else (Ok (direct, false), w5)
  | None => (Ok (direct, false), w5)
  end.
Proof.
  intros rqs replies w5 direct.
  assert (length replies = 5%nat) as Hlen.
  { subst replies rqs. rewrite replies_from_length, length_fmap.
    unfold py_range. by rewrite length_seqZ. }
  split; [done|].
  unfold get_video_urls. unfold bind at 1.
  rewrite (for_each_requests _ (ajax_request ep_id) (λ st _ r, slot_step lib st r))
    by (intros; apply slot_run).
  cbn zeta. fold rqs replies w5.
  rewrite foldl_slot_step by (rewrite Hlen; unfold py_range; by rewrite length_seqZ).
  cbn [fst snd app]. fold direct.
  destruct (wrapper_seen lib replies) as [u|] eqn:Hw; [|done].
  assert (u ≠ "") as Hne.
  { unfold wrapper_seen in Hw. apply last_Some_elem_of in Hw.
    apply list_elem_of_omap in Hw as (r & _ & Hr).
    apply slot_wrapper_marker in Hr.
    by apply (contains_ne_empty wrapper_marker). }
  apply String.eqb_neq in Hne. rewrite Hne. cbn [negb andb].
  by destruct (all_none direct).
Qed.




(** *** The server names of a resolved episode *)

Lemma resolve_hyperwatching_total iframe_url w :
  ∃ results w', resolve_hyperwatching iframe_url w = (Ok results, w') ∧ results ≠ [].
Proof.
  rewrite resolve_hyperwatching_run. cbn zeta.
  destruct (net w (length (trace w)) (GET iframe_url [] [])) as [page|]; [|by eauto].
  destruct (search_group1 servers_re (text page)) as [servers_text|]; [|by eauto].
  destruct (dict_of String.eqb _) as [|q qs]; by eauto.
Qed.

Lemma get_video_urls_total lib ep_id w :
  ∃ servers flag w',
    get_video_urls lib ep_id w = (Ok (servers, flag), w') ∧ length servers = 5%nat.
Proof.
  destruct (get_video_urls_run lib ep_id w) as [Hlen ->].
  assert (length (slot_entry lib <$>
            replies_from (net w) (length (trace w)) (ajax_request ep_id <$> py_range 1 6))
          = 5%nat) as Hd by (by rewrite length_fmap).
  destruct (wrapper_seen lib _) as [u|]; [|by eauto].
  destruct (all_none _); [|by eauto].
  unfold bind.
  destruct (resolve_hyperwatching_total u
              (logs (http_events (ajax_request ep_id <$> py_range 1 6)
                 (replies_from (net w) (length (trace w))
                    (ajax_request ep_id <$> py_range 1 6))) w))
    as (results & w' & -> & _).
  by eauto.
Qed.

Lemma keys_zip_server_names (names : list string) (vs : list value) :
  names = SERVER_NAMES_STANDARD ∨ names = SERVER_NAMES_HYPERWATCHING →
  length vs = 5%nat →
  keys (dict_of String.eqb (zip names vs)) = names.
Proof.
  intros Hn Hlen.
  destruct vs as [|a [|b [|c [|d [|e [|? ?]]]]]]; try done.
  by destruct Hn as [->| ->].
Qed.

(** The claim of C1 fails for the new site: a standard resolution exposes
    the single key [direct], which is none of the standard names. *)
Lemma fetch_new_episode_direct_key :
  ∃ ep, (fetch_new_episode Demo.lib "show" (VInt 7) Demo.new_site).1 = Ok (Some ep) ∧
        is_hyperwatching ep = false ∧
        keys (servers ep) = ["direct"] ∧
        keys (servers ep) ≠ SERVER_NAMES_STANDARD.
Proof. eexists. split; [by vm_compute|]. by vm_compute. Qed.

Lemma marker_test_truthy v : marker_test v = Some true → truthy v = true.
Proof.
  destruct v as [| | |s|l|d]; try done; cbn [marker_test truthy]; intros [= H].
  - apply negb_true_iff, String.eqb_neq. by apply (contains_ne_empty wrapper_marker).
  - by destruct l.
  - by destruct d.
Qed.

Lemma resolve_hyperwatching_value_total v w :
  ∃ results w', resolve_hyperwatching_value v w = (Ok results, w') ∧ results ≠ [].
Proof.
  destruct v; try (by eexists _, _); cbn [resolve_hyperwatching_value].
  apply resolve_hyperwatching_total.
Qed.

(** What [fetch_new_episode] returns. *)
Lemma fetch_new_episode_cases (lib : PyLib) (show_id : string) (ep_id : value) (w : World) :
  ∃ r w',
    fetch_new_episode lib show_id ep_id w = (Ok r, w') ∧
    ∀ ep, r = Some ep →
      ∃ watch_url, raw_url ep = Some watch_url ∧ truthy watch_url = true ∧
        if is_hyperwatching ep
        then marker_test watch_url = Some true ∧ servers ep ≠ [] ∧
             ∃ w1, resolve_hyperwatching_value watch_url w1 = (Ok (servers ep), w')
        else marker_test watch_url = Some false ∧
             servers ep = [("direct", watch_url)] ∧ keys (servers ep) = ["direct"].
Proof.
  revert show_id ep_id.
  intros show_id ep_id. unfold fetch_new_episode, try_except.
  unfold bind at 1, request.
  destruct (net w (length (trace w)) (episode_request lib ep_id)) as [resp|];
    [|by eexists None, _].
  destruct (status_code resp =? 200); [|by eexists None, _].
  unfold bind at 1, json. destruct (json_body resp) as [data|]; [|by eexists None, _].
  unfold ret at 1. unfold bind at 1.
  destruct (get_default data "episode" data _) as [[ep_data|e] w1] eqn:H1;
    [|by eexists None, _].
  assert (w1 = log (EHttp (episode_request lib ep_id) (Some resp)) w) as ->.
  { unfold get_default in H1. destruct (obj_get data "episode") as [[?|]|];
      by injection H1. }
  clear H1. unfold get_default at 1. unfold bind at 1.
  destruct (obj_get ep_data "watch_url") as [o|] eqn:Hobj; [|by eexists None, _].
  assert (∀ k dflt, ∃ v, get_default ep_data k dflt
                           (log (EHttp (episode_request lib ep_id) (Some resp)) w)
                         = (Ok v, log (EHttp (episode_request lib ep_id) (Some resp)) w))
    as Hget.
  { intros k dflt. unfold get_default. destruct ep_data; try done. simpl.
    destruct (dict_get String.eqb d k); by eauto. }
  assert (∀ W, (match o with Some x => ret x | None => ret (VStr "") end) W
            = (Ok (default (VStr "") o), W)) as Ho by (by destruct o).
  rewrite Ho. clear Ho.
  destruct (Hget "season" (VInt 1)) as (sd & Hsd). unfold bind at 1. rewrite Hsd.
  destruct (Hget "season_number" sd) as (season & Hs). unfold bind at 1. rewrite Hs.
  destruct (Hget "number" (VInt 1)) as (nd & Hnd). unfold bind at 1. rewrite Hnd.
  destruct (Hget "episode_number" nd) as (number & Hn). unfold bind at 1. rewrite Hn.
  set (watch := default (VStr "") o).
  unfold bind at 1, marker_in.
  destruct (marker_test watch) as [[|]|] eqn:Hm; [| |by eexists None, _].
  + unfold ret at 1. unfold bind.
    destruct (resolve_hyperwatching_value_total watch
                (log (EHttp (episode_request lib ep_id) (Some resp)) w))
      as (results & w' & Hr & Hne).
    rewrite Hr. eexists (Some _), w'. split; [done|]. intros ep [= <-].
    exists watch. cbn [raw_url is_hyperwatching servers].
    split; [done|]. split; [by apply marker_test_truthy|].
    split; [done|]. split; [done|]. by eexists.
  + unfold ret at 1. destruct (truthy watch) eqn:Ht; [|by eexists None, _].
    eexists (Some _), _. split; [done|]. intros ep [= <-].
    exists watch. cbn [raw_url is_hyperwatching servers]. by repeat split.
Qed.

(** C1 (amended). [fetch_episode] always returns an episode whose server
    keys are exactly the five wrapped names when it is flagged as
    wrapper-sourced and exactly the five standard names otherwise.
    [fetch_new_episode] never raises; an episode it returns carries the
    value of [watch_url] it was resolved from, which is not empty. When the
    marker test holds of that value the episode is flagged as
    wrapper-sourced and its servers are the non-empty mapping that the
    unwrapper returned for the value; otherwise it is flagged as standard
    and its only key is [direct], with that value. *)
Theorem server_name_keys (lib : PyLib) (w : World) :
  (∀ ep_id slug, ∃ ep w',
     fetch_episode lib ep_id slug w = (Ok ep, w') ∧
     keys (servers ep)
     = (if is_hyperwatching ep then SERVER_NAMES_HYPERWATCHING else SERVER_NAMES_STANDARD)) ∧
  (∀ show_id ep_id, ∃ r w',
     fetch_new_episode lib show_id ep_id w = (Ok r, w') ∧
     ∀ ep, r = Some ep →
       ∃ watch_url, raw_url ep = Some watch_url ∧ truthy watch_url = true ∧
         if is_hyperwatching ep
         then marker_test watch_url = Some true ∧ servers ep ≠ [] ∧
              ∃ w1, resolve_hyperwatching_value watch_url w1 = (Ok (servers ep), w')
         else marker_test watch_url = Some false ∧
              servers ep = [("direct", watch_url)] ∧ keys (servers ep) = ["direct"]).
Proof.
  split.
  - intros ep_id slug. unfold fetch_episode, bind.
    destruct (get_video_urls_total lib ep_id w) as (vs & flag & w' & -> & Hlen).
    eexists _, w'. split; [done|]. cbn [servers is_hyperwatching fst snd].
    apply keys_zip_server_names; [|done]. destruct flag; auto.
  - intros show_id ep_id. apply fetch_new_episode_cases.
Qed.

(** A [watch_url] that is a list of addresses: the test for the marker
    does not raise, and the list is the value of the single key
    [direct]. *)
Example fetch_new_episode_list :
  let w := {| net := λ _ _, Demo.reply_json
                (VDict [("watch_url", VList [VStr "https://cdn.example/v.mp4"])]);
              ydl := λ _ _, false; fs := ∅; trace := [] |} in
  servers <$> (match (fetch_new_episode Demo.lib "show" (VInt 7) w).1 with
               | Ok r => r
               | Raise _ => None
               end)
  = Some [("direct", VList [VStr "https://cdn.example/v.mp4"])].
Proof. vm_compute. reflexivity. Qed.

(** *** Brute-force enumeration *)

Lemma probe_run slug season ep_num episodes m w :
  let reply := net w (length (trace w)) (probe_request slug season ep_num) in
  probe slug season ep_num episodes m w =
  (Ok (match probe_hit reply with
       | Some (id, ep_slug) => (dict_set key_eqb episodes id ep_slug, 0, false)
       | None => (episodes, m + 1, 3 <=? m + 1)
       end),
   log (EHttp (probe_request slug season ep_num) reply) w).
Proof.
  cbn zeta. unfold probe, try_except, bind, request, probe_hit.
  destruct (net w (length (trace w)) _) as [r|]; [|done].
  unfold json. destruct (json_body r) as [data|]; [|done].
  unfold ret at 1.
  destruct data as [|[]|z|s|[|first rest]|[|? ?]]; simpl; try done.
  - by destruct (z =? 0).
  - by destruct s.
  - destruct first as [| | | | |d]; simpl; try done.
    destruct (dict_get String.eqb d "slug") as [sl|]; simpl; [|done].
    destruct (dict_get String.eqb d "id") as [id|]; simpl; [|done].
    unfold store. by destruct (hashable id).
Qed.

Lemma probe_season_run slug season : ∀ ep_nums episodes m w,
  0 ≤ m < 3 →
  ∃ k : nat,
    let rqs := probe_request slug season <$> take k ep_nums in
    let replies := replies_from (net w) (length (trace w)) rqs in
    (k ≤ length ep_nums)%nat ∧
    probe_season slug season ep_nums episodes m w
    = (Ok (foldl add_hit episodes replies), logs (http_events rqs replies) w) ∧
    (∀ j, (j < k)%nat → miss_count m (take j (is_miss <$> replies)) < 3) ∧
    ((k < length ep_nums)%nat → 3 ≤ miss_count m (is_miss <$> replies)).
Proof.
  induction ep_nums as [|e ep_nums IH]; intros episodes m w Hm.
  - exists 0%nat. cbn zeta. simpl. rewrite logs_nil. repeat split; try done; lia.
  - cbn [probe_season]. unfold bind. rewrite probe_run. cbn zeta.
    set (reply := net w (length (trace w)) (probe_request slug season e)).
    destruct (probe_hit reply) as [[id sl]|] eqn:Hhit; cbn [fst snd].
    + destruct (IH (dict_set key_eqb episodes id sl) 0
                  (log (EHttp (probe_request slug season e) reply) w)) as (k & Hk & Hrun & Hlt & Hge);
        [lia|].
      exists (S k). cbn zeta.
      cbn [take fmap list_fmap replies_from foldl]. fold reply.
      cbn zeta in Hrun, Hlt, Hge. cbn [trace log] in Hrun, Hlt, Hge.
      rewrite length_app in Hrun, Hlt, Hge. simpl in Hrun, Hlt, Hge.
      replace (length (trace w) + 1)%nat with (S (length (trace w))) in Hrun, Hlt, Hge by lia.
      split; [simpl; lia|]. split; [|split].
      * rewrite Hrun. rewrite log_logs, logs_logs. unfold add_hit at 3. by rewrite Hhit.
      * intros [|j] Hj; simpl; [lia|]. unfold is_miss at 1. rewrite Hhit.
        unfold miss_count. simpl. apply Hlt. lia.
      * intros Hk'. simpl in Hk'. unfold is_miss at 1. rewrite Hhit.
        unfold miss_count. simpl. apply Hge. lia.
    + destruct (3 <=? m + 1) eqn:Hstop.
      * apply Z.leb_le in Hstop. exists 1%nat. cbn zeta.
        cbn [take fmap list_fmap replies_from foldl]. fold reply.
        split; [simpl; lia|]. split; [|split].
        -- unfold ret, add_hit. rewrite Hhit. done.
        -- intros [|j] Hj; simpl; [unfold miss_count; simpl; lia|lia].
        -- intros _. unfold is_miss. rewrite Hhit. unfold miss_count. simpl. lia.
      * apply Z.leb_gt in Hstop.
        destruct (IH episodes (m + 1)
                    (log (EHttp (probe_request slug season e) reply) w)) as (k & Hk & Hrun & Hlt & Hge);
          [lia|].
        exists (S k). cbn zeta.
        cbn [take fmap list_fmap replies_from foldl]. fold reply.
        cbn zeta in Hrun, Hlt, Hge. cbn [trace log] in Hrun, Hlt, Hge.
        rewrite length_app in Hrun, Hlt, Hge. simpl in Hrun, Hlt, Hge.
        replace (length (trace w) + 1)%nat with (S (length (trace w))) in Hrun, Hlt, Hge by lia.
        split; [simpl; lia|]. split; [|split].
        -- rewrite Hrun. rewrite log_logs, logs_logs. unfold add_hit at 3. by rewrite Hhit.
        -- intros [|j] Hj; simpl; [unfold miss_count; simpl; lia|]. unfold is_miss at 1.
           rewrite Hhit. unfold miss_count. simpl. apply Hlt. lia.
        -- intros Hk'. simpl in Hk'. unfold is_miss at 1. rewrite Hhit.
           unfold miss_count. simpl. apply Hge. lia.
Qed.

Lemma miss_count_snoc m flags b :
  miss_count m (flags ++ [b]) = if b then miss_count m flags + 1 else 0.
Proof. unfold miss_count. by rewrite foldl_app. Qed.

Lemma miss_count_nonneg m flags : 0 ≤ m → 0 ≤ miss_count m flags.
Proof.
  intros Hm. induction flags as [|b flags IH] using rev_ind; [done|].
  rewrite miss_count_snoc. destruct b; lia.
Qed.

Lemma miss_count_three flags :
  3 ≤ miss_count 0 flags ↔ ∃ before, flags = before ++ [true; true; true].
Proof.
  split.
  - intros H.
    destruct flags as [|b1 l1 _] using rev_ind; [unfold miss_count in H; simpl in H; lia|].
    rewrite miss_count_snoc in H. destruct b1; [|lia].
    destruct l1 as [|b2 l2 _] using rev_ind; [unfold miss_count in H; simpl in H; lia|].
    rewrite miss_count_snoc in H. destruct b2; [|lia].
    destruct l2 as [|b3 l3 _] using rev_ind; [unfold miss_count in H; simpl in H; lia|].
    rewrite miss_count_snoc in H. destruct b3; [|lia].
    exists l3. by rewrite <- !app_assoc.
  - intros (before & ->).
    replace (before ++ [true; true; true]) with (((before ++ [true]) ++ [true]) ++ [true])
      by (by rewrite <- !app_assoc).
    rewrite !miss_count_snoc. pose proof (miss_count_nonneg 0 before). lia.
Qed.

Lemma counter_stops bound flags :
  (length flags ≤ bound)%nat →
  (∀ j, (j < length flags)%nat → miss_count 0 (take j flags) < 3) →
  ((length flags < bound)%nat → 3 ≤ miss_count 0 flags) →
  stops_after_three_misses bound flags.
Proof.
  intros Hlen Hlt Hge. split; [done|]. split.
  - intros i H0 H1 H2.
    destruct (decide ((i + 3)%nat = length flags)) as [|Hne]; [done|].
    pose proof (lookup_lt_Some _ _ _ H2) as Hi.
    assert (take (i + 3) flags = take i flags ++ [true; true; true]) as Htake.
    { replace (i + 3)%nat with (S (S (S i))) by lia.
      rewrite (take_S_r _ (S (S i)) true) by (by replace (S (S i)) with (i + 2)%nat by lia).
      rewrite (take_S_r _ (S i) true) by (by replace (S i) with (i + 1)%nat by lia).
      rewrite (take_S_r _ i true) by done. by rewrite <- !app_assoc. }
    assert (3 ≤ miss_count 0 (take (i + 3) flags)) as H3.
    { apply miss_count_three. eauto. }
    specialize (Hlt (i + 3)%nat). lia.
  - intros H. apply miss_count_three. auto.
Qed.

Lemma take_seqZ (k : nat) m n :
  Z.of_nat k ≤ n → take k (seqZ m n) = seqZ m (Z.of_nat k).
Proof.
  intros H. unfold seqZ. rewrite <- fmap_take, take_seq. f_equal. f_equal. lia.
Qed.

Lemma season_run slug season episodes w :
  ∃ replies,
    replies = replies_from (net w) (length (trace w))
                (probe_request slug season <$> seqZ 1 (Z.of_nat (length replies))) ∧
    probe_season slug season (py_range 1 100) episodes 0 w
    = (Ok (foldl add_hit episodes replies), logs (season_events slug season replies) w) ∧
    stops_after_three_misses 99 (is_miss <$> replies).
Proof.
  destruct (probe_season_run slug season (py_range 1 100) episodes 0 w)
    as (k & Hk & Hrun & Hlt & Hge); [lia|].
  cbn zeta in Hrun, Hlt, Hge.
  assert (length (py_range 1 100) = 99%nat) as H99
    by (unfold py_range; by rewrite length_seqZ).
  rewrite H99 in Hk, Hge.
  assert (take k (py_range 1 100) = seqZ 1 (Z.of_nat k)) as Htake
    by (unfold py_range; apply take_seqZ; lia).
  rewrite Htake in Hrun, Hlt, Hge.
  set (replies := replies_from (net w) (length (trace w))
                    (probe_request slug season <$> seqZ 1 (Z.of_nat k))) in *.
  assert (length replies = k) as Hlen.
  { subst replies. rewrite replies_from_length, length_fmap, length_seqZ. lia. }
  exists replies. unfold season_events. rewrite Hlen. split; [done|]. split; [done|].
  apply counter_stops; rewrite length_fmap, Hlen; auto.
Qed.

Lemma elem_of_season_events slug season replies ev :
  (length replies ≤ 99)%nat →
  ev ∈ season_events slug season replies →
  ∃ ep_num reply, ev = EHttp (probe_request slug season ep_num) reply ∧ 1 ≤ ep_num ≤ 99.
Proof.
  intros Hlen Hin. unfold season_events, http_events in Hin.
  apply list_elem_of_lookup in Hin as [i Hi].
  apply lookup_zip_with_Some in Hi as (rq & reply & -> & Hrq & _).
  rewrite list_lookup_fmap in Hrq.
  destruct (seqZ 1 (Z.of_nat (length replies)) !! i) as [e|] eqn:He; [|done].
  injection Hrq as <-. apply lookup_seqZ in He as [-> ?].
  exists (1 + Z.of_nat i), reply. split; [done|]. lia.
Qed.

Lemma seasons_run slug : ∀ seasons episodes w,
  ∃ runs episodes' w',
    length runs = length seasons ∧
    for_each (λ episodes season, probe_season slug season (py_range 1 100) episodes 0)
             episodes seasons w = (Ok episodes', w') ∧
    trace w' = trace w ++ concat (zip_with (season_events slug) seasons runs) ∧
    Forall (λ replies, stops_after_three_misses 99 (is_miss <$> replies)) runs ∧
    episodes' = foldl add_hit episodes (concat runs).
Proof.
  induction seasons as [|s seasons IH]; intros episodes w.
  - exists [], episodes, w. simpl. by rewrite app_nil_r.
  - destruct (season_run slug s episodes w) as (replies & _ & Hrun & Hstop).
    destruct (IH (foldl add_hit episodes replies) (logs (season_events slug s replies) w))
      as (runs & episodes' & w' & Hlen & Hrest & Htr & Hall & Heps).
    exists (replies :: runs), episodes', w'. split; [simpl; by rewrite Hlen|].
    split; [cbn [for_each]; unfold bind; by rewrite Hrun|].
    split; [rewrite Htr; simpl; by rewrite app_assoc|].
    split; [by constructor|]. simpl. by rewrite foldl_app.
Qed.

Lemma probe_season_hits slug season (ids slugs : Z → value) : ∀ found rest episodes w,
  (∀ t e, e ∈ found →
          probe_hit (net w t (probe_request slug season e)) = Some (ids e, slugs e)) →
  let rqs := probe_request slug season <$> found in
  probe_season slug season (found ++ rest) episodes 0 w
  = probe_season slug season rest
      (foldl (λ d e, dict_set key_eqb d (ids e) (slugs e)) episodes found) 0
      (logs (http_events rqs (replies_from (net w) (length (trace w)) rqs)) w).
Proof.
  induction found as [|e found IH]; intros rest episodes w Hhit; cbn zeta.
  - simpl. by rewrite logs_nil.
  - cbn [app probe_season]. unfold bind at 1. rewrite probe_run. cbn zeta.
    rewrite (Hhit _ e) by left. cbn [fst snd].
    rewrite IH by (intros t e' He'; apply Hhit; by right). cbn zeta.
    rewrite log_logs, logs_logs. cbn [trace logs net fmap list_fmap replies_from foldl].
    rewrite length_app. simpl.
    by replace (length (trace w) + 1)%nat with (S (length (trace w))) by lia.
Qed.

Lemma probe_season_three_misses slug season e1 e2 e3 rest episodes w :
  (∀ t e, e ∈ [e1; e2; e3] → probe_hit (net w t (probe_request slug season e)) = None) →
  let rqs := probe_request slug season <$> [e1; e2; e3] in
  probe_season slug season (e1 :: e2 :: e3 :: rest) episodes 0 w
  = (Ok episodes, logs (http_events rqs (replies_from (net w) (length (trace w)) rqs)) w).
Proof.
  intros Hmiss. cbn zeta. cbn [probe_season].
  unfold bind at 1. rewrite probe_run. cbn zeta.
  rewrite (Hmiss _ e1) by set_solver. cbn [fst snd]. change (3 <=? 0 + 1) with false. cbn iota.
  unfold bind at 1. rewrite probe_run. cbn zeta. cbn [net log].
  rewrite (Hmiss _ e2) by set_solver. cbn [fst snd]. change (3 <=? 0 + 1 + 1) with false.
  cbn iota.
  unfold bind at 1. rewrite probe_run. cbn zeta. cbn [net log].
  rewrite (Hmiss _ e3) by set_solver. cbn [fst snd]. change (3 <=? 0 + 1 + 1 + 1) with true.
  cbn iota. unfold ret. rewrite !log_logs, !logs_logs. cbn [trace logs app].
  rewrite !length_app. simpl.
  replace (length (trace w) + 1)%nat with (S (length (trace w))) by lia.
  by replace (length (trace w) + 2)%nat with (S (S (length (trace w)))) by lia.
Qed.

Lemma dict_set_fresh (d : Episodes) k v :
  (∀ k' v', (k', v') ∈ d → key_eqb k' k = false) →
  dict_set key_eqb d k v = d ++ [(k, v)].
Proof.
  induction d as [|[k0 v0] d IH]; intros H; simpl; [done|].
  rewrite (H k0 v0) by left. f_equal. apply IH. intros k' v' ?. apply (H k' v'). by right.
Qed.

Lemma foldl_dict_set_fresh (ids slugs : Z → value) : ∀ (es : list Z) (d : Episodes),
  (∀ e k v, e ∈ es → (k, v) ∈ d → key_eqb k (ids e) = false) →
  (∀ i j e e', es !! i = Some e → es !! j = Some e' → i ≠ j →
               key_eqb (ids e) (ids e') = false) →
  foldl (λ d e, dict_set key_eqb d (ids e) (slugs e)) d es
  = d ++ ((λ e, (ids e, slugs e)) <$> es).
Proof.
  induction es as [|e es IH]; intros d Hd Hes; simpl; [by rewrite app_nil_r|].
  rewrite dict_set_fresh by (intros k' v' ?; apply (Hd e k' v'); [by left|done]).
  rewrite IH.
  - by rewrite <- app_assoc.
  - intros e' k v He' [Hin|Hin%list_elem_of_singleton]%elem_of_app.
    + apply (Hd e' k v); [by right|done].
    + injection Hin as -> ->. apply list_elem_of_lookup in He' as [j Hj].
      by apply (Hes 0%nat (S j)).
  - intros i j a b Ha Hb Hij. by apply (Hes (S i) (S j)); [..|lia].
Qed.

(** C3. Probing a season asks for the slugs [slug-SxE] with E = 1, 2, ...
    in order, at most up to 99; it stops right after three misses in a row
    and goes on otherwise; each hit is stored under its id. Strategy 2 does
    so for the seasons 1 to 5 in order, so that every probe it makes is
    for a season from 1 to 5 and an episode from 1 to 99. For a season in
    which the probes for 1 to 12 hit and those for 13 to 15 miss, exactly
    the probes for 1 to 15 are made and the twelve hits are stored: twelve
    new entries when their ids are new and differ from each other. *)
Theorem brute_force_enumeration (slug : string) :
  (∀ season episodes w, ∃ replies,
     replies = replies_from (net w) (length (trace w))
                 (probe_request slug season <$> seqZ 1 (Z.of_nat (length replies))) ∧
     probe_season slug season (py_range 1 100) episodes 0 w
     = (Ok (foldl add_hit episodes replies), logs (season_events slug season replies) w) ∧
     stops_after_three_misses 99 (is_miss <$> replies)) ∧
  (∀ episodes w, ∃ runs episodes' w',
     length runs = 5%nat ∧
     probe_seasons slug episodes w = (Ok episodes', w') ∧
     trace w' = trace w ++ concat (zip_with (season_events slug) [1; 2; 3; 4; 5] runs) ∧
     Forall (λ replies, stops_after_three_misses 99 (is_miss <$> replies)) runs ∧
     episodes' = foldl add_hit episodes (concat runs) ∧
     ∀ ev, ev ∈ concat (zip_with (season_events slug) [1; 2; 3; 4; 5] runs) →
           ∃ season ep_num reply,
             ev = EHttp (probe_request slug season ep_num) reply ∧
             1 ≤ season ≤ 5 ∧ 1 ≤ ep_num ≤ 99) ∧
  (∀ season episodes w (ids slugs : Z → value),
     (∀ t e, 1 ≤ e ≤ 12 →
             probe_hit (net w t (probe_request slug season e)) = Some (ids e, slugs e)) →
     (∀ t e, 13 ≤ e ≤ 15 → probe_hit (net w t (probe_request slug season e)) = None) →
     let rqs := probe_request slug season <$> seqZ 1 15 in
     let replies := replies_from (net w) (length (trace w)) rqs in
     let found := foldl (λ d e, dict_set key_eqb d (ids e) (slugs e)) episodes (seqZ 1 12) in
     probe_season slug season (py_range 1 100) episodes 0 w
     = (Ok found, logs (http_events rqs replies) w) ∧
     ((∀ e k v, 1 ≤ e ≤ 12 → (k, v) ∈ episodes → key_eqb k (ids e) = false) →
      (∀ e e', 1 ≤ e ≤ 12 → 1 ≤ e' ≤ 12 → e ≠ e' → key_eqb (ids e) (ids e') = false) →
      found = episodes ++ ((λ e, (ids e, slugs e)) <$> seqZ 1 12) ∧
      length found = (length episodes + 12)%nat)).
Proof.
  split; [intros; apply season_run|]. split.
  - intros episodes w. unfold probe_seasons.
    change (py_range 1 6) with [1; 2; 3; 4; 5].
    destruct (seasons_run slug [1; 2; 3; 4; 5] episodes w)
      as (runs & episodes' & w' & Hlen & Hrun & Htr & Hall & Heps).
    exists runs, episodes', w'. do 5 (split; [done|]).
    intros ev Hin. apply list_elem_of_In, in_concat in Hin as (evs & Hevs & Hev).
    apply list_elem_of_In in Hevs, Hev.
    apply list_elem_of_lookup in Hevs as [i Hi].
    apply lookup_zip_with_Some in Hi as (s & replies & -> & Hs & Hr).
    rewrite Forall_forall in Hall.
    destruct (Hall replies) as (Hle & _); [by eapply list_elem_of_lookup_2|].
    rewrite length_fmap in Hle.
    destruct (elem_of_season_events slug s replies ev Hle Hev) as (e & reply & -> & He).
    exists s, e, reply. split; [done|]. split; [|done].
    apply list_elem_of_lookup_2 in Hs.
    repeat (apply elem_of_cons in Hs as [->|Hs]; [lia|]). by apply elem_of_nil in Hs.
  - intros season episodes w ids slugs Hhit Hmiss. cbn zeta.
    assert (py_range 1 100 = seqZ 1 12 ++ 13 :: 14 :: 15 :: seqZ 16 84) as ->
      by (by vm_compute).
    assert (seqZ 1 15 = seqZ 1 12 ++ [13; 14; 15]) as -> by (by vm_compute).
    split.
    + rewrite (probe_season_hits slug season ids slugs).
      2: { intros t e He. apply Hhit. apply elem_of_seqZ in He. lia. }
      cbn zeta. rewrite probe_season_three_misses.
      2: { intros t e He. cbn [net logs]. apply Hmiss.
           repeat (apply elem_of_cons in He as [->|He]; [lia|]). by apply elem_of_nil in He. }
      cbn zeta. rewrite logs_logs. cbn [trace logs net].
      rewrite fmap_app, replies_from_app. unfold http_events.
      rewrite zip_with_app by (by rewrite replies_from_length).
      by rewrite length_app, length_zip_with, replies_from_length, Nat.min_id.
    + intros Hfresh Hdistinct.
      assert (foldl (λ d e, dict_set key_eqb d (ids e) (slugs e)) episodes (seqZ 1 12)
              = episodes ++ ((λ e, (ids e, slugs e)) <$> seqZ 1 12)) as ->.
      { apply foldl_dict_set_fresh.
        - intros e k v He. apply Hfresh. apply elem_of_seqZ in He. lia.
        - intros i j e e' Hi Hj Hij. apply lookup_seqZ in Hi as [-> ?].
          apply lookup_seqZ in Hj as [-> ?]. apply Hdistinct; lia. }
      split; [done|]. by rewrite length_app, length_fmap, length_seqZ.
Qed.

(** A season with the episodes 1 to 12 and nothing else *)
Lemma brute_force_enumeration_witness :
  let out := probe_season "show" 1 (py_range 1 100) [] 0 Demo.season12 in
  (∃ found, out.1 = Ok found ∧ length found = 12%nat) ∧
  length (trace out.2) = 15%nat.
Proof.
  destruct (brute_force_enumeration "show") as (_ & _ & Hseason).
  specialize (Hseason 1 [] Demo.season12
                (λ e, VStr (Demo.season12_slug e)) (λ e, VStr (Demo.season12_slug e))).
  assert (∀ (t : nat) e, 1 ≤ e ≤ 12 →
            probe_hit (net Demo.season12 t (probe_request "show" 1 e))
            = Some (VStr (Demo.season12_slug e), VStr (Demo.season12_slug e))) as Hhits.
  { clear. intros t e He.
    assert (e = 1 ∨ e = 2 ∨ e = 3 ∨ e = 4 ∨ e = 5 ∨ e = 6 ∨ e = 7 ∨ e = 8 ∨ e = 9 ∨
            e = 10 ∨ e = 11 ∨ e = 12) as Hcases by lia.
    clear He.
    repeat (destruct Hcases as [->|Hcases]; [vm_compute; reflexivity|]).
    subst e. vm_compute. reflexivity. }
  assert (∀ (t : nat) e, 13 ≤ e ≤ 15 →
            probe_hit (net Demo.season12 t (probe_request "show" 1 e)) = None) as Hmisses.
  { clear. intros t e He.
    assert (e = 13 ∨ e = 14 ∨ e = 15) as Hcases by lia.
    clear He.
    repeat (destruct Hcases as [->|Hcases]; [vm_compute; reflexivity|]).
    subst e. vm_compute. reflexivity. }
  destruct (Hseason Hhits Hmisses) as [Hrun Hnew]. clear Hseason Hhits Hmisses.
  assert (∀ e e', 1 ≤ e ≤ 12 → 1 ≤ e' ≤ 12 → e ≠ e' →
            key_eqb (VStr (Demo.season12_slug e)) (VStr (Demo.season12_slug e')) = false)
    as Hdistinct.
  { clear. intros e e' He He' Hne.
    assert (e = 1 ∨ e = 2 ∨ e = 3 ∨ e = 4 ∨ e = 5 ∨ e = 6 ∨ e = 7 ∨ e = 8 ∨ e = 9 ∨
            e = 10 ∨ e = 11 ∨ e = 12) as Hcases by lia.
    assert (e' = 1 ∨ e' = 2 ∨ e' = 3 ∨ e' = 4 ∨ e' = 5 ∨ e' = 6 ∨ e' = 7 ∨ e' = 8 ∨
            e' = 9 ∨ e' = 10 ∨ e' = 11 ∨ e' = 12) as Hcases' by lia.
    clear He He'.
    destruct Hcases as [->|[->|[->|[->|[->|[->|[->|[->|[->|[->|[->| ->]]]]]]]]]]];
      destruct Hcases' as [->|[->|[->|[->|[->|[->|[->|[->|[->|[->|[->| ->]]]]]]]]]]];
      first [ exfalso; apply Hne; reflexivity | vm_compute; reflexivity ]. }
  destruct Hnew as [_ Hlen]; [clear; intros e k v _ Hin; inversion Hin|exact Hdistinct|].
  clear Hdistinct. intros out. subst out. rewrite Hrun. clear Hrun. cbn [fst snd]. split.
  - eexists. split; [reflexivity|exact Hlen].
  - clear Hlen. cbn [trace logs Demo.season12 app]. unfold http_events.
    rewrite length_zip_with, replies_from_length, length_fmap, length_seqZ. reflexivity.
Defined.

(** The same season, run: the twelve slugs in order, from fifteen probes. *)
Example probe_season12 :
  let out := probe_season "show" 1 (py_range 1 100) [] 0 Demo.season12 in
  out.1 = Ok ((λ e, (VStr (Demo.season12_slug e), VStr (Demo.season12_slug e))) <$> seqZ 1 12) ∧
  trace out.2
  = http_events (probe_request "show" 1 <$> seqZ 1 15)
      ((λ e, net Demo.season12 0 (probe_request "show" 1 e)) <$> seqZ 1 15).
Proof. by vm_compute. Qed.

Lemma dict_get_dict_set {V} (d : list (string * V)) k v k' :
  dict_get String.eqb (dict_set String.eqb d k v) k'
  = if String.eqb k k' then Some v else dict_get String.eqb d k'.
Proof.
  induction d as [|[k0 v0] d IH]; simpl.
  - done.
  - destruct (String.eqb_spec k0 k) as [->|Hne]; simpl.
    + by destruct (String.eqb k k').
    + rewrite IH. destruct (String.eqb_spec k0 k') as [->|Hne']; [|done].
      destruct (String.eqb_spec k k') as [->|]; done.
Qed.

Lemma dict_get_foldl_set {V} (pairs : list (string * V)) : ∀ d k,
  dict_get String.eqb (foldl (λ d kv, dict_set String.eqb d kv.1 kv.2) d pairs) k
  = match last_value pairs k with
    | Some v => Some v
    | None => dict_get String.eqb d k
    end.
Proof.
  induction pairs as [|[k0 v0] pairs IH]; intros d k; simpl; [done|].
  rewrite IH. destruct (last_value pairs k); [done|].
  rewrite dict_get_dict_set. by destruct (String.eqb k0 k).
Qed.

Lemma mem_spec x l : mem x l = true ↔ x ∈ l.
Proof.
  unfold mem. rewrite existsb_exists. split.
  - intros (y & Hy & ->%String.eqb_eq). by apply list_elem_of_In.
  - intros H. exists x. split; [by apply list_elem_of_In|apply String.eqb_refl].
Qed.


Lemma rank_pairs_cons start p rest :
  rank_pairs start (p :: rest) = (lower p, start) :: rank_pairs (start + 1) rest.
Proof. reflexivity. Qed.

Lemma last_value_cons {V} k0 (v0 : V) rest k :
  last_value ((k0, v0) :: rest) k
  = match last_value rest k with
    | Some v' => Some v'
    | None => if String.eqb k0 k then Some v0 else None
    end.
Proof. reflexivity. Qed.

Lemma last_value_rank_None start preferred n :
  n ∉ lower <$> preferred → last_value (rank_pairs start preferred) n = None.
Proof.
  revert start. induction preferred as [|p rest IH]; intros start Hn; [done|].
  rewrite fmap_cons, not_elem_of_cons in Hn. destruct Hn as [Hne Hn].
  rewrite rank_pairs_cons, last_value_cons, IH by done.
  destruct (String.eqb_spec (lower p) n); [by subst|done].
Qed.

Lemma last_value_rank_Some start preferred n :
  n ∈ lower <$> preferred →
  ∃ r, last_value (rank_pairs start preferred) n = Some r ∧
       start ≤ r < start + Z.of_nat (length preferred).
Proof.
  revert start. induction preferred as [|p rest IH]; intros start Hn.
  - by apply elem_of_nil in Hn.
  - rewrite rank_pairs_cons, last_value_cons. cbn [length].
    destruct (decide (n ∈ lower <$> rest)) as [Hin|Hnin].
    + destruct (IH (start + 1) Hin) as (r & -> & Hb). exists r. split; [done|lia].
    + rewrite fmap_cons in Hn. apply elem_of_cons in Hn as [->|?]; [|done].
      rewrite last_value_rank_None, String.eqb_refl by done.
      exists start. split; [done|lia].
Qed.


Lemma rank_cons_later start p rest n :
  n ∈ lower <$> rest → rank start (p :: rest) n = rank (start + 1) rest n.
Proof.
  intros Hin. unfold rank. rewrite rank_pairs_cons, last_value_cons.
  by destruct (last_value_rank_Some (start + 1) rest n Hin) as (r & -> & _).
Qed.

Lemma rank_cons_here start p rest :
  lower p ∉ lower <$> rest → rank start (p :: rest) (lower p) = start.
Proof.
  intros Hnin. unfold rank.
  by rewrite rank_pairs_cons, last_value_cons, last_value_rank_None, String.eqb_refl.
Qed.

Lemma elem_of_keep_last preferred q :
  q ∈ keep_last preferred → q ∈ preferred.
Proof.
  induction preferred as [|p rest IH]; simpl; [done|].
  destruct (mem (lower p) (lower <$> rest)).
  - intros ?. right. auto.
  - intros [->|?]%elem_of_cons; [by left|right; auto].
Qed.

Lemma keep_last_complete preferred n :
  n ∈ lower <$> preferred → n ∈ lower <$> keep_last preferred.
Proof.
  induction preferred as [|p rest IH]; [done|].
  rewrite fmap_cons. intros Hn. cbn [keep_last].
  destruct (mem (lower p) (lower <$> rest)) eqn:Hm.
  - apply mem_spec in Hm. apply IH. apply elem_of_cons in Hn as [->|?]; done.
  - rewrite fmap_cons. apply elem_of_cons in Hn as [->|?]; [by left|right; auto].
Qed.

Lemma keep_last_sorted start preferred :
  StronglySorted Z.lt ((λ q, rank start preferred (lower q)) <$> keep_last preferred).
Proof.
  revert start. induction preferred as [|p rest IH]; intros start; [constructor|].
  assert (((λ q, rank start (p :: rest) (lower q)) <$> keep_last rest)
          = ((λ q, rank (start + 1) rest (lower q)) <$> keep_last rest)) as Heq.
  { apply list_fmap_ext. intros i q Hq. apply rank_cons_later.
    apply list_elem_of_fmap. exists q. split; [done|].
    apply elem_of_keep_last. by eapply list_elem_of_lookup_2. }
  cbn [keep_last].
  destruct (mem (lower p) (lower <$> rest)) eqn:Hm.
  - rewrite Heq. apply IH.
  - rewrite fmap_cons, Heq. constructor; [apply IH|].
    rewrite rank_cons_here.
    2:{ intros Hin. apply mem_spec in Hin. congruence. }
    apply Forall_fmap, Forall_forall. intros q Hq. simpl. unfold rank.
    destruct (last_value_rank_Some (start + 1) rest (lower q)) as (r & -> & ?).
    { apply list_elem_of_fmap. exists q. split; [done|]. by apply elem_of_keep_last. }
    simpl. lia.
Qed.

Lemma keep_last_NoDup preferred : NoDup (lower <$> keep_last preferred).
Proof.
  induction preferred as [|p rest IH]; [constructor|]. cbn [keep_last].
  destruct (mem (lower p) (lower <$> rest)) eqn:Hm; [done|].
  rewrite fmap_cons. constructor; [|done].
  intros Hin. apply list_elem_of_fmap in Hin as (q & Hq & Hin).
  apply elem_of_keep_last in Hin.
  assert (mem (lower p) (lower <$> rest) = true); [|congruence].
  apply mem_spec, list_elem_of_fmap. eauto.
Qed.

Lemma preference_rank preferred nu :
  preference (pref_order preferred) nu = rank 0 preferred (lower nu.1).
Proof.
  unfold preference, pref_order, dict_of, rank.
  rewrite dict_get_foldl_set. fold (rank_pairs 0 preferred).
  by destruct (last_value (rank_pairs 0 preferred) (lower nu.1)).
Qed.

(** *** The order of the candidates *)

Lemma insert_by_front {A} (key : A → Z) x l :
  Forall (λ y, key x ≤ key y) l → insert_by key x l = x :: l.
Proof.
  destruct 1 as [|y l Hy _]; [done|]. simpl.
  by destruct (Z.leb_spec (key x) (key y)); [|lia].
Qed.

Lemma insert_by_app_lt {A} (key : A → Z) x l1 l2 :
  Forall (λ y, key y < key x) l1 →
  insert_by key x (l1 ++ l2) = l1 ++ insert_by key x l2.
Proof.
  induction 1 as [|y l1 Hy _ IH]; [done|]. simpl.
  destruct (Z.leb_spec (key x) (key y)); [lia|]. by rewrite IH.
Qed.


Lemma bucket_cons {A} (key : A → Z) x l r :
  bucket key (x :: l) r = if key x =? r then x :: bucket key l r else bucket key l r.
Proof. reflexivity. Qed.

Lemma Forall_bucket {A} (key : A → Z) l r : Forall (λ y, key y = r) (bucket key l r).
Proof.
  apply Forall_forall. intros y Hy. apply list_elem_of_In, filter_In in Hy as [_ Hy]. lia.
Qed.

Lemma flat_map_ext_Forall {B C} (f g : B → list C) l :
  Forall (λ x, f x = g x) l → flat_map f l = flat_map g l.
Proof. induction 1 as [|x l Hx _ IH]; [done|]. simpl. by rewrite Hx, IH. Qed.

Lemma insert_by_buckets {A} (key : A → Z) x l rs :
  StronglySorted Z.lt rs → key x ∈ rs →
  insert_by key x (flat_map (bucket key l) rs) = flat_map (bucket key (x :: l)) rs.
Proof.
  induction 1 as [|r rs Hs IH Hr]; intros Hx; [by apply elem_of_nil in Hx|].
  cbn [flat_map]. rewrite bucket_cons.
  destruct (Z.eqb_spec (key x) r) as [Hk|Hk].
  - assert (flat_map (bucket key (x :: l)) rs = flat_map (bucket key l) rs) as ->.
    { apply flat_map_ext_Forall. eapply Forall_impl; [exact Hr|].
      intros r' Hr'. rewrite bucket_cons.
      by destruct (Z.eqb_spec (key x) r'); [lia|]. }
    apply insert_by_front, Forall_app. split.
    + eapply Forall_impl; [apply (Forall_bucket key)|]. simpl. lia.
    + apply Forall_forall. intros y Hy.
      apply list_elem_of_In, in_flat_map in Hy as (r' & Hr' & Hy).
      rewrite Forall_forall in Hr. apply list_elem_of_In, Hr in Hr'.
      pose proof (Forall_bucket key l r') as Hb. rewrite Forall_forall in Hb.
      apply list_elem_of_In, Hb in Hy. lia.
  - apply elem_of_cons in Hx as [?|Hx]; [done|].
    assert (r < key x) as Hlt by (rewrite Forall_forall in Hr; by apply Hr).
    rewrite insert_by_app_lt, IH; [done..|].
    eapply Forall_impl; [apply (Forall_bucket key)|]. simpl. lia.
Qed.

(** A stable sort puts the elements in buckets by key, the buckets in the
    order of the keys and each bucket in the order of the input. *)
Lemma sort_by_buckets {A} (key : A → Z) l rs :
  StronglySorted Z.lt rs → Forall (λ y, key y ∈ rs) l →
  sort_by key l = flat_map (bucket key l) rs.
Proof.
  intros Hs. induction 1 as [|x l Hx _ IH].
  - simpl. induction rs; [done|]. simpl. inversion Hs; auto.
  - cbn [sort_by foldr]. fold (sort_by key l). rewrite IH. by apply insert_by_buckets.
Qed.


Lemma last_value_rank_lookup start preferred n r :
  last_value (rank_pairs start preferred) n = Some r →
  start ≤ r ∧ ∃ q, preferred !! Z.to_nat (r - start) = Some q ∧ lower q = n.
Proof.
  revert start. induction preferred as [|p rest IH]; intros start; [done|].
  rewrite rank_pairs_cons, last_value_cons.
  destruct (last_value (rank_pairs (start + 1) rest) n) as [r'|] eqn:Hr.
  - intros [= ->]. apply IH in Hr as (Hle & q & Hq & Hn). split; [lia|].
    exists q. split; [|done].
    replace (Z.to_nat (r - start)) with (S (Z.to_nat (r - (start + 1)))) by lia. done.
  - destruct (String.eqb_spec (lower p) n) as [Hn|]; [|done]. intros [= ->].
    split; [lia|]. exists p. by rewrite Z.sub_diag.
Qed.

Lemma rank_inj start preferred n1 n2 :
  n1 ∈ lower <$> preferred → n2 ∈ lower <$> preferred →
  rank start preferred n1 = rank start preferred n2 → n1 = n2.
Proof.
  intros H1 H2. unfold rank.
  destruct (last_value_rank_Some start preferred n1 H1) as (r1 & Hr1 & _).
  destruct (last_value_rank_Some start preferred n2 H2) as (r2 & Hr2 & _).
  rewrite Hr1, Hr2. simpl. intros ->.
  apply last_value_rank_lookup in Hr1 as (_ & q1 & Hq1 & <-).
  apply last_value_rank_lookup in Hr2 as (_ & q2 & Hq2 & <-). congruence.
Qed.

Lemma rank_named preferred n :
  n ∈ lower <$> preferred → 0 ≤ rank 0 preferred n < Z.of_nat (length preferred).
Proof.
  intros Hn. unfold rank.
  destruct (last_value_rank_Some 0 preferred n Hn) as (r & -> & ?). simpl. lia.
Qed.

Lemma rank_unnamed preferred n :
  n ∉ lower <$> preferred → rank 0 preferred n = 999.
Proof. intros Hn. unfold rank. by rewrite last_value_rank_None. Qed.

Lemma preference_named preferred q nu :
  (length preferred ≤ 999)%nat → q ∈ preferred →
  (preference (pref_order preferred) nu =? rank 0 preferred (lower q)) = named q nu.
Proof.
  intros Hlen Hq. rewrite preference_rank. unfold named.
  assert (lower q ∈ lower <$> preferred) as Hq'.
  { apply list_elem_of_fmap. eauto. }
  pose proof (rank_named preferred _ Hq') as Hr.
  destruct (String.eqb_spec (lower nu.1) (lower q)) as [->|Hne].
  - apply Z.eqb_refl.
  - apply Z.eqb_neq. intros Heq.
    destruct (decide (lower nu.1 ∈ lower <$> preferred)) as [Hin|Hnin].
    + by apply rank_inj in Heq.
    + rewrite rank_unnamed in Heq by done. lia.
Qed.

Lemma preference_unnamed preferred nu :
  (length preferred ≤ 999)%nat →
  (preference (pref_order preferred) nu =? 999) = negb (preferred_by preferred nu).
Proof.
  intros Hlen. rewrite preference_rank. unfold preferred_by.
  destruct (mem (lower nu.1) (lower <$> preferred)) eqn:Hm; simpl.
  - apply mem_spec, rank_named in Hm. apply Z.eqb_neq. lia.
  - rewrite rank_unnamed; [done|]. intros Hin%mem_spec. congruence.
Qed.

Lemma filter_ext_Forall {B} (f g : B → bool) l :
  Forall (λ x, f x = g x) l → List.filter f l = List.filter g l.
Proof. induction 1 as [|x l Hx _ IH]; [done|]. simpl. by rewrite Hx, IH. Qed.

Lemma sort_by_preference preferred valid_urls :
  (length preferred ≤ 999)%nat →
  sort_by (preference (pref_order preferred)) valid_urls
  = preferred_first preferred valid_urls.
Proof.
  intros Hlen.
  rewrite (sort_by_buckets _ valid_urls
             (((λ q, rank 0 preferred (lower q)) <$> keep_last preferred) ++ [999])).
  - rewrite flat_map_app. unfold preferred_first. f_equal.
    + rewrite flat_map_concat_map, map_map, <- flat_map_concat_map.
      apply flat_map_ext_Forall, Forall_forall. intros q Hq%elem_of_keep_last.
      apply filter_ext_Forall, Forall_forall. intros nu _. by apply preference_named.
    + simpl. rewrite app_nil_r.
      apply filter_ext_Forall, Forall_forall. intros nu _. by apply preference_unnamed.
  - (* the ranks of the kept entries grow and stay under the sentinel *)
    assert (∀ l : list Z, StronglySorted Z.lt l → Forall (λ r, r < 999) l →
            StronglySorted Z.lt (l ++ [999])) as Hsnoc.
    { induction 1 as [|r l Hs IH Hr]; intros Hb.
      - repeat constructor.
      - inversion Hb; subst. simpl. constructor; [auto|].
        apply Forall_app. split; [done|]. by constructor. }
    apply Hsnoc; [apply keep_last_sorted|].
    apply Forall_fmap, Forall_forall. intros q Hq%elem_of_keep_last. simpl.
    assert (lower q ∈ lower <$> preferred) as Hq' by (apply list_elem_of_fmap; eauto).
    apply rank_named in Hq'. lia.
  - apply Forall_forall. intros nu _. rewrite preference_rank.
    destruct (decide (lower nu.1 ∈ lower <$> preferred)) as [Hin|Hnin].
    + apply elem_of_app. left. apply keep_last_complete in Hin.
      apply list_elem_of_fmap in Hin as (q & Hq & Hin).
      apply list_elem_of_fmap. exists q. by rewrite Hq.
    + rewrite rank_unnamed by done. apply elem_of_app. right. by left.
Qed.


Lemma filter_true {B} (f : B → bool) l :
  Forall (λ x, f x = true) l → List.filter f l = l.
Proof. induction 1 as [|x l Hx _ IH]; [done|]. simpl. by rewrite Hx, IH. Qed.

Lemma preferred_first_nil valid_urls : preferred_first [] valid_urls = valid_urls.
Proof. unfold preferred_first. simpl. apply filter_true, Forall_forall. done. Qed.

Lemma candidates_order servers preferred_servers skip_servers :
  (length (default [] preferred_servers) ≤ 999)%nat →
  candidates servers preferred_servers skip_servers
  = preferred_first (default [] preferred_servers)
      (remaining (default [] skip_servers) servers).
Proof.
  intros Hlen. unfold candidates.
  assert ((match skip_servers with
           | Some ((_ :: _) as skip) =>
               List.filter (λ nu, negb (mem (lower nu.1) (lower <$> skip)))
                 (List.filter (λ nu : string * value, truthy nu.2) servers)
           | _ => List.filter (λ nu : string * value, truthy nu.2) servers
           end) = remaining (default [] skip_servers) servers) as ->.
  { unfold remaining. destruct skip_servers as [[|s skip]|]; simpl; try done.
    all: symmetry; apply filter_true, Forall_forall; done. }
  destruct preferred_servers as [[|p preferred]|]; simpl default.
  - by rewrite preferred_first_nil.
  - by apply sort_by_preference.
  - by rewrite preferred_first_nil.
Qed.

Lemma try_servers_run lib output_template valid_urls : ∀ w,
  Forall (λ nu, ∃ s, nu.2 = VStr s) valid_urls →
  ∃ (b : bool) tried,
    try_servers lib output_template valid_urls w = (Ok b, logs tried w) ∧
    if b
    then ∃ failed nu rest,
           valid_urls = failed ++ nu :: rest ∧
           tried = (attempt lib output_template false <$> failed)
                   ++ [attempt lib output_template true nu]
    else tried = attempt lib output_template false <$> valid_urls.
Proof.
  induction valid_urls as [|[server_name url] rest IH]; intros w Hurls.
  - exists false, []. by rewrite logs_nil.
  - inversion Hurls as [|? ? [s Hs] Hrest]; subst. simpl in Hs. subst url.
    cbn [try_servers as_str].
    set (rq := ydl_request lib output_template s).
    destruct (ydl w (length (trace w)) rq) eqn:Hok.
    + exists true, [attempt lib output_template true (server_name, VStr s)].
      split.
      * unfold bind at 1, ret at 1. unfold bind at 1, try_except, bind, ydl_download.
        fold rq. by rewrite Hok.
      * by exists [], (server_name, VStr s), rest.
    + destruct (IH (log (EYdl rq false) w) Hrest) as (b & tried & Hrun & Htried).
      exists b, (attempt lib output_template false (server_name, VStr s) :: tried).
      split.
      * unfold bind at 1, ret at 1. unfold bind at 1, try_except, bind, ydl_download.
        fold rq. rewrite Hok. unfold ret at 1. cbn zeta. rewrite Hrun, log_logs, logs_logs. done.
      * destruct b.
        -- destruct Htried as (failed & nu & rest' & -> & ->).
           by exists ((server_name, VStr s) :: failed), nu, rest'.
        -- by rewrite Htried.
Qed.

Lemma remaining_urls skip servers :
  Forall (λ nu, url_or_none nu.2 = true) servers →
  Forall (λ nu, ∃ s, nu.2 = VStr s) (remaining skip servers).
Proof.
  intros Hs. unfold remaining. apply Forall_forall. intros nu Hnu.
  apply list_elem_of_In, filter_In in Hnu as [Hnu _].
  apply filter_In in Hnu as [Hnu Ht].
  rewrite Forall_forall in Hs. apply list_elem_of_In, Hs in Hnu.
  destruct nu.2; try done. by eexists.
Qed.

Lemma preferred_first_Forall (Q : string * value → Prop) preferred valid_urls :
  Forall Q valid_urls → Forall Q (preferred_first preferred valid_urls).
Proof.
  intros HQ. rewrite Forall_forall in HQ. apply Forall_forall. intros nu Hnu.
  apply HQ. unfold preferred_first in Hnu.
  apply elem_of_app in Hnu as [Hnu|Hnu].
  - apply list_elem_of_In, in_flat_map in Hnu as (p & _ & Hnu).
    apply filter_In in Hnu as [Hnu _]. by apply list_elem_of_In.
  - apply list_elem_of_In, filter_In in Hnu as [Hnu _]. by apply list_elem_of_In.
Qed.

(** C9. The order of the claim is not the order of the code. The list
    [vk, uqload, vk] names [vk] first, and [uqload] is tried first: the
    dictionary of ranks keeps the last place of a repeated name. And in a
    list of a thousand different names whose last entry names [vk], no
    entry names [vudeo], and still [vudeo] is tried before [vk]: a server
    that no entry names has the rank 999. *)
Lemma preference_order_not_followed :
  let vudeo := ("vudeo", VStr "https://vudeo.net/e1") in
  let vk := ("vk", VStr "https://vk.com/e1") in
  let uqload := ("uqload", VStr "https://uqload.io/e1") in
  candidates [vk; uqload] (Some ["vk"; "uqload"; "vk"]) None = [uqload; vk] ∧
  (NoDup Demo.thousand ∧
   preferred_by Demo.thousand vk = true ∧
   preferred_by Demo.thousand vudeo = false ∧
   candidates [vudeo; vk] (Some Demo.thousand) None = [vudeo; vk]).
Proof.
  intros vudeo vk uqload. split; [|split].
  - vm_compute. reflexivity.
  - apply (bool_decide_unpack _). vm_compute. exact I.
  - split; [vm_compute; reflexivity|]. split; vm_compute; reflexivity.
Qed.

Lemma makedirs_run path w :
  makedirs path w = match makedirs_error path (fs w) with
                    | Some e => (Raise e, w)
                    | None => (Ok tt, logs [EMakedirs path] w)
                    end.
Proof. unfold makedirs. destruct (makedirs_error path (fs w)); [done|]. by rewrite log_logs. Qed.

(** X29. The order in which [download_episode] tries the servers. Let P be
    the preference list and S the skip list, an absent list counting as
    empty, P of at most 999 entries, and every server of the episode
    holding a text or [None] as its URL. The candidates are the servers
    with a non-empty URL that S does not name, letter case aside; those
    that P names come first, by the place where P names them last, then the
    others, servers of equal standing in discovery order. Without
    candidates the function does nothing and reports failure. Otherwise it
    creates the output directory, and raises when that fails; then it
    attempts the candidates in that order: it reports success right after
    the first attempt that goes through, all attempts before it having
    failed, and reports failure once every candidate has failed. *)
Theorem download_episode_order lib episode_data show_title output_dir
    preferred_servers skip_servers w :
  let P := default [] preferred_servers in
  let S := default [] skip_servers in
  let valid_urls := preferred_first P (remaining S (servers episode_data)) in
  let tmpl := output_template output_dir show_title (episode episode_data) in
  let out := download_episode lib episode_data show_title output_dir preferred_servers
               skip_servers w in
  (length P ≤ 999)%nat →
  Forall (λ nu, url_or_none nu.2 = true) (servers episode_data) →
  candidates (servers episode_data) preferred_servers skip_servers = valid_urls ∧
  match valid_urls with
  | [] => out = (Ok false, w)
  | _ =>
      match makedirs_error (output_path output_dir show_title) (fs w) with
      | Some e => out = (Raise e, w)
      | None =>
          ∃ (b : bool) tried,
            out = (Ok b, logs (EMakedirs (output_path output_dir show_title) :: tried) w) ∧
            if b
            then ∃ failed nu rest,
                   valid_urls = failed ++ nu :: rest ∧
                   tried = (attempt lib tmpl false <$> failed)
                           ++ [attempt lib tmpl true nu]
            else tried = attempt lib tmpl false <$> valid_urls
      end
  end.
Proof.
  intros P S valid_urls tmpl out Hlen Hurls.
  assert (candidates (servers episode_data) preferred_servers skip_servers = valid_urls)
    as Hc by by apply candidates_order.
  split; [done|]. subst out. unfold download_episode. rewrite Hc.
  assert (Forall (λ nu, ∃ s, nu.2 = VStr s) valid_urls) as Hstr
    by by apply preferred_first_Forall, remaining_urls.
  destruct valid_urls as [|nu0 rest0] eqn:Hv; [done|].
  destruct (makedirs_error (output_path output_dir show_title) (fs w)) as [e|] eqn:Hmk.
  - unfold bind. by rewrite makedirs_run, Hmk.
  - destruct (try_servers_run lib tmpl (nu0 :: rest0)
                (logs [EMakedirs (output_path output_dir show_title)] w) Hstr)
      as (b & tried & Hrun & Htried).
    exists b, tried. split; [|done]. unfold bind. rewrite makedirs_run, Hmk.
    cbv beta iota zeta. fold tmpl. by rewrite Hrun, logs_logs.
Qed.

(** With the preference [VK, uqload] and [Goodstream] skipped, [vk] is
    tried first and fails, [uqload] second and goes through, [vudeo] is not
    tried. *)
Lemma download_episode_order_witness :
  let P := ["VK"; "uqload"] in
  let S := ["Goodstream"] in
  let out := download_episode Demo.lib Demo.ep1 "Show: one" "out" (Some P) (Some S) Demo.picky in
  let tmpl := output_template "out" "Show: one" "show-1x1" in
  candidates (servers Demo.ep1) (Some P) (Some S)
  = [("vk", VStr "https://vk.com/e1"); ("uqload", VStr "https://uqload.io/e1");
     ("vudeo", VStr "https://vudeo.net/e1")] ∧
  out.1 = Ok true ∧
  trace out.2 = [EMakedirs "out/Show_ one";
                 attempt Demo.lib tmpl false ("vk", VStr "https://vk.com/e1");
                 attempt Demo.lib tmpl true ("uqload", VStr "https://uqload.io/e1")].
Proof.
  intros P S out tmpl.
  assert ((length (default [] (Some P)) ≤ 999)%nat) as Hlen by (vm_compute; lia).
  assert (Forall (λ nu, url_or_none nu.2 = true) (servers Demo.ep1)) as Hurls
    by (repeat constructor).
  destruct (download_episode_order Demo.lib Demo.ep1 "Show: one" "out" (Some P) (Some S)
              Demo.picky Hlen Hurls) as (Hc & _).
  split; [rewrite Hc; vm_compute; reflexivity|].
  split; vm_compute; reflexivity.
Defined.

End StardimaSpec.

(** * More on the catalog client *)
Module StardimaTheory.
Import Py Eff Dimakids Stardima EffFacts PyFacts DimakidsSpec StardimaSpec PyTheory.

(** *** [extract_slug] *)

Lemma search_at_find l r pre after :
  find l (pre +:+ l +:+ after) = Some (String.length pre) →
  re_search (Seq (Lit l) r) (pre +:+ l +:+ after)
  = re_search (Seq (Lit l) r) (l +:+ after).
Proof. intros Hfind. by rewrite (re_search_find_Some _ _ _ _ Hfind), drop_chars_app. Qed.

Lemma search_absent l r s :
  contains l s = false → re_search (Seq (Lit l) r) s = None.
Proof. intros H. by apply re_search_find_None, find_None_contains. Qed.

(** X1. A URL that contains none of the texts [www.stardima.com/tvshow/],
    [/tvshows/] and [/episodes/] is not recognised: [extract_slug] returns
    [(None, None, None)]. *)
Theorem extract_slug_unrecognised (url : string) :
  contains "www.stardima.com/tvshow/" url = false →
  contains "/tvshows/" url = false →
  contains "/episodes/" url = false →
  extract_slug url = (None, None, None).
Proof.
  intros H1 H2 H3. unfold extract_slug, new_url_re, tvshows_re, episodes_re, seqs.
  cbn [foldr]. by rewrite !search_absent.
Qed.

Lemma extract_slug_unrecognised_witness :
  extract_slug "https://example.org/shows/witch" = (None, None, None).
Proof. apply extract_slug_unrecognised; vm_compute; reflexivity. Defined.

(** X2. In a URL of the old site whose first [/tvshows/] is followed by a
    slug, that is a non-empty text without [/], [#] and [?] that ends
    where the URL ends or one of these characters stands, [extract_slug]
    finds this slug and the kind [tvshow], provided the URL is not one of
    the new site. *)
Theorem extract_slug_tvshow (pre slug rest : string) :
  let url := pre +:+ "/tvshows/" +:+ slug +:+ rest in
  contains "www.stardima.com/tvshow/" url = false →
  find "/tvshows/" url = Some (String.length pre) →
  slug ≠ "" →
  all_chars (none_of "/#?") slug = true →
  stops (none_of "/#?") rest = true →
  extract_slug url = (Some slug, Some "tvshow", None).
Proof.
  intros url Hnew Hfind Hne Hslug Hrest. unfold extract_slug.
  assert (re_search new_url_re url = None) as ->.
  { unfold new_url_re, seqs. cbn [foldr]. by apply search_absent. }
  assert (re_search tvshows_re url = Some ([(1%nat, slug)], rest)) as ->.
  { unfold tvshows_re at 1. unfold seqs at 1. cbn [foldr]. subst url.
    rewrite search_at_find by done. apply re_search_here.
    by apply (re_match_lit_run "/tvshows/"). }
  done.
Qed.

Lemma extract_slug_tvshow_witness :
  extract_slug "https://watch.stardima.com/watch/tvshows/witch/"
  = (Some "witch", Some "tvshow", None).
Proof.
  apply (extract_slug_tvshow "https://watch.stardima.com/watch" "witch" "/");
    vm_compute; (reflexivity || discriminate).
Defined.

(** X3. A URL of the new site is recognised first, whatever else it
    contains: after the first [www.stardima.com/tvshow/] the show id runs
    to the next [/]; a following [/play/] with digits gives the episode
    id, which ends where the URL ends or a character of ASCII that is no
    digit stands, and without [/play/] the episode id is [None]. *)
Theorem extract_slug_new_site (pre id ep rest : string) :
  let lit := "www.stardima.com/tvshow/" in
  id ≠ "" →
  all_chars (none_of "/") id = true →
  (find lit (pre +:+ lit +:+ id +:+ "/play/" +:+ ep +:+ rest) = Some (String.length pre) →
   ep ≠ "" → all_chars is_digit ep = true → stops_ascii is_digit rest = true →
   extract_slug (pre +:+ lit +:+ id +:+ "/play/" +:+ ep +:+ rest)
   = (Some id, Some "new_stardima", Some ep)) ∧
  (find lit (pre +:+ lit +:+ id +:+ rest) = Some (String.length pre) →
   stops (none_of "/") rest = true → startswith "/play/" rest = false →
   extract_slug (pre +:+ lit +:+ id +:+ rest) = (Some id, Some "new_stardima", None)).
Proof.
  intros lit Hne Hid. split.
  - intros Hfind Hep Hdigits Hrest%stops_ascii_stops. unfold extract_slug.
    assert (re_search new_url_re (pre +:+ lit +:+ id +:+ "/play/" +:+ ep +:+ rest)
            = Some ([(1%nat, id); (2%nat, ep)], rest)) as ->; [|done].
    unfold new_url_re, seqs. cbn [foldr]. rewrite search_at_find by done.
    apply re_search_here. unfold re_match.
    rewrite rmatch_seq, rmatch_lit, rmatch_seq.
    apply rmatch_grp_plus_cls; [done..|].
    rewrite rmatch_seq. unfold Opt. cbn [rmatch].
    change (startswith "/play/" ("/play/" +:+ ep +:+ rest)) with true. cbn match.
    change (drop_chars (String.length "/play/") ("/play/" +:+ ep +:+ rest))
      with (ep +:+ rest).
    fold (Plus (Cls is_digit)).
    rewrite (rmatch_plus_cls is_digit ep rest _ _
               ([(1%nat, id); (2%nat, ep)], rest)); [done..|].
    by rewrite take_chars_app.
  - intros Hfind Hrest Hplay. unfold extract_slug.
    assert (re_search new_url_re (pre +:+ lit +:+ id +:+ rest)
            = Some ([(1%nat, id)], rest)) as ->; [|done].
    unfold new_url_re, seqs. cbn [foldr]. rewrite search_at_find by done.
    apply re_search_here. unfold re_match.
    rewrite rmatch_seq, rmatch_lit, rmatch_seq.
    apply rmatch_grp_plus_cls; [done..|].
    rewrite rmatch_seq. unfold Opt. cbn [rmatch]. by rewrite Hplay.
Qed.

Lemma extract_slug_new_site_witness :
  extract_slug "https://www.stardima.com/tvshow/693fcadf20e3a/play/56876"
  = (Some "693fcadf20e3a", Some "new_stardima", Some "56876") ∧
  extract_slug "https://www.stardima.com/tvshow/693fcadf20e3a"
  = (Some "693fcadf20e3a", Some "new_stardima", None).
Proof.
  assert ("693fcadf20e3a" ≠ "") as Hne by discriminate.
  assert (all_chars (none_of "/") "693fcadf20e3a" = true) as Hid by reflexivity.
  destruct (extract_slug_new_site "https://" "693fcadf20e3a" "56876" "" Hne Hid)
    as [Hplay _].
  destruct (extract_slug_new_site "https://" "693fcadf20e3a" "" "" Hne Hid)
    as [_ Hshow].
  split.
  - apply Hplay; vm_compute; (reflexivity || discriminate).
  - apply Hshow; vm_compute; reflexivity.
Defined.

(** The suffix [-SxE] is found only at the end of the slug of a probe. *)
Lemma sxe_suffix_not_before c t tail :
  all_chars (λ x, is_digit x || Ascii.eqb x "x") tail = true →
  re_match sxe_suffix_re (String c t +:+ "-" +:+ tail) = None.
Proof.
  intros Htail. destruct (re_match _ _) as [[caps rest]|] eqn:E; [exfalso|done].
  apply re_match_sound in E as (m & E & Hm).
  unfold sxe_suffix_re, seqs in Hm. cbn [foldr] in Hm. inv_matches. subst.
  rewrite !string_app_assoc, !string_app_cons, !string_app_nil_l in E.
  injection E as -> E.
  set (q := λ x, is_digit x || Ascii.eqb x "x" || Ascii.eqb x "010").
  assert (all_chars q (t +:+ String "-" tail) = true) as Hall.
  { rewrite E. rewrite all_chars_app, all_chars_cons, all_chars_app.
    repeat (apply andb_true_iff; split); try done.
    - eapply all_chars_impl; [|eassumption]. intros c Hc. subst q. simpl. by rewrite Hc.
    - eapply all_chars_impl; [|eassumption]. intros c Hc. subst q. simpl. by rewrite Hc.
    - match goal with H : _ ∨ _ |- _ => rewrite !string_app_nil_l in H; destruct H as [->| ->] end;
        done. }
  rewrite all_chars_app, all_chars_cons in Hall. apply andb_true_iff in Hall as [_ Hall].
  apply andb_true_iff in Hall as [Hall _]. done.
Qed.

Lemma sxe_suffix_at_end s e :
  s ≠ "" → all_chars is_digit s = true → e ≠ "" → all_chars is_digit e = true →
  ∃ caps, re_match sxe_suffix_re ("-" +:+ s +:+ "x" +:+ e) = Some (caps, "").
Proof.
  intros Hs Hds He Hde. eexists. unfold re_match, sxe_suffix_re, seqs. cbn [foldr].
  rewrite rmatch_seq, rmatch_lit, rmatch_seq.
  apply rmatch_plus_cls; [done..|].
  rewrite rmatch_seq, rmatch_lit, rmatch_seq.
  rewrite <- (string_app_empty_r e) at 1.
  apply rmatch_plus_cls; [done..|]. reflexivity.
Qed.

Lemma re_sub_probe_slug show s e :
  s ≠ "" → all_chars is_digit s = true → e ≠ "" → all_chars is_digit e = true →
  re_sub sxe_suffix_re "" (show +:+ "-" +:+ s +:+ "x" +:+ e) = show.
Proof.
  intros Hs Hds He Hde. unfold re_sub.
  assert (∀ fuel, (String.length show < fuel)%nat →
          re_sub_go fuel sxe_suffix_re "" (show +:+ "-" +:+ s +:+ "x" +:+ e) = show) as H.
  { induction show as [|c show IH]; intros fuel Hfuel.
    - destruct fuel as [|fuel]; [simpl in Hfuel; lia|].
      destruct (sxe_suffix_at_end s e) as [caps Hm]; [done..|].
      cbn [re_sub_go]. rewrite string_app_nil_l, Hm.
      assert ((String.length "" <? String.length ("-" +:+ s +:+ "x" +:+ e))%nat = true)
        as -> by done.
      rewrite string_app_nil_l. destruct fuel; [done|]. reflexivity.
    - destruct fuel as [|fuel]; [simpl in Hfuel; lia|].
      cbn [re_sub_go]. rewrite sxe_suffix_not_before.
      + rewrite string_app_cons. f_equal. apply IH. simpl in Hfuel. lia.
      + rewrite !all_chars_app. repeat (apply andb_true_iff; split); try done.
        * eapply all_chars_impl; [|exact Hds]. intros x Hx. by rewrite Hx.
        * eapply all_chars_impl; [|exact Hde]. intros x Hx. by rewrite Hx. }
  apply H. rewrite !string_app_length. lia.
Qed.

(** X4. The slug of a probe leads back to the show: in a URL of the old
    site whose first [/episodes/] is followed by [show-SxE], for a show
    slug without [/], [#] and [?] and natural numbers S and E,
    [extract_slug] returns the show slug and the kind [episode]. *)
Theorem extract_slug_episode (pre show rest : string) (season ep_num : Z) :
  let episode_slug := show +:+ "-" +:+ str_Z season +:+ "x" +:+ str_Z ep_num in
  let url := pre +:+ "/episodes/" +:+ episode_slug +:+ rest in
  contains "www.stardima.com/tvshow/" url = false →
  contains "/tvshows/" url = false →
  find "/episodes/" url = Some (String.length pre) →
  all_chars (none_of "/#?") show = true →
  stops (none_of "/#?") rest = true →
  0 ≤ season → 0 ≤ ep_num →
  extract_slug url = (Some show, Some "episode", None).
Proof.
  intros episode_slug url Hnew Htv Hfind Hshow Hrest Hs He. unfold extract_slug.
  destruct (str_Z_digits season Hs) as [Hs1 Hs2].
  destruct (str_Z_digits ep_num He) as [He1 He2].
  assert (re_search new_url_re url = None) as ->.
  { unfold new_url_re, seqs. cbn [foldr]. by apply search_absent. }
  assert (re_search tvshows_re url = None) as ->.
  { unfold tvshows_re, seqs. cbn [foldr]. by apply search_absent. }
  assert (re_search episodes_re url = Some ([(1%nat, episode_slug)], rest)) as ->.
  { unfold episodes_re at 1. unfold seqs at 1. cbn [foldr]. subst url.
    rewrite search_at_find by done. apply re_search_here.
    apply (re_match_lit_run "/episodes/"); [by destruct show| |done].
    subst episode_slug. rewrite !all_chars_app.
    repeat (apply andb_true_iff; split); try done.
    all: eapply all_chars_impl; [|eassumption]; intros c Hc; by apply digit_none_of. }
  cbn [group dict_get Nat.eqb default]. subst episode_slug. unfold id.
  by rewrite re_sub_probe_slug.
Qed.

Lemma extract_slug_episode_witness :
  extract_slug "https://watch.stardima.com/watch/episodes/witch-2x15/"
  = (Some "witch", Some "episode", None).
Proof.
  apply (extract_slug_episode "https://watch.stardima.com/watch" "witch" "/" 2 15);
    vm_compute; (reflexivity || discriminate).
Defined.

(** *** [parse_episode_key] and [sort_key] *)

Lemma starts_sxe_run d rest :
  d ≠ "" → all_chars is_digit d = true → x_digit rest = true →
  starts_sxe (d +:+ rest) = true.
Proof.
  induction d as [|a d IH]; [done|]. intros _ Hd Hrest.
  rewrite all_chars_cons in Hd. apply andb_true_iff in Hd as [Ha Hd].
  rewrite string_app_cons. cbn [starts_sxe]. rewrite Ha. cbn [andb].
  destruct d as [|b d]; [by rewrite string_app_nil_l, Hrest, orb_true_r|].
  by rewrite IH.
Qed.

Lemma re_match_sxe_starts t m :
  re_match sxe_re t = Some m → starts_sxe t = true.
Proof.
  destruct m as [caps rest]. intros (m & -> & Hm)%re_match_sound.
  unfold sxe_re, seqs in Hm. cbn [foldr] in Hm. inv_matches. subst.
  rewrite !string_app_assoc. apply starts_sxe_run; [done..|].
  match goal with H : all_chars is_digit ?d = true, Hne : ?d ≠ "" |- x_digit (_ +:+ ?d +:+ _) = true =>
    destruct d as [|c d]; [done|]; rewrite all_chars_cons in H;
    apply andb_true_iff in H as [H _]; simpl; by rewrite H
  end.
Qed.

Lemma starts_sxe_dash t r : starts_sxe (t +:+ "-" +:+ r) = true → has_sxe t = true.
Proof.
  induction t as [|a t IH]; [done|]. rewrite string_app_cons. cbn [starts_sxe has_sxe].
  intros [Ha [H|H]%orb_true_iff]%andb_true_iff.
  - rewrite IH by done. apply orb_true_r.
  - rewrite Ha. change ("-" +:+ r) with (String "-" r) in H.
    destruct t as [|b [|c t]];
      rewrite ?string_app_cons, ?string_app_nil_l in H; cbn [x_digit] in H.
    + by destruct r.
    + by rewrite andb_false_r in H.
    + cbn [andb x_digit]. by rewrite H.
Qed.

Lemma has_sxe_tail a t : has_sxe (String a t) = false → has_sxe t = false.
Proof. simpl. by intros [_ ?]%orb_false_iff. Qed.

(** No key pattern is found before the dash that ends a slug without one. *)
Lemma re_search_sxe_skip slug r :
  has_sxe slug = false →
  re_search sxe_re (slug +:+ "-" +:+ r) = re_search sxe_re r.
Proof.
  induction slug as [|a slug IH]; intros Hs.
  - rewrite string_app_nil_l. change ("-" +:+ r) with (String "-" r).
    apply re_search_skip. reflexivity.
  - rewrite string_app_cons, re_search_skip; [apply IH; by eapply has_sxe_tail|].
    destruct (re_match _ _) as [m|] eqn:E; [|done].
    apply re_match_sxe_starts in E. rewrite <- string_app_cons in E.
    apply starts_sxe_dash in E. congruence.
Qed.

Lemma re_match_sxe s e rest :
  s ≠ "" → all_chars is_digit s = true → e ≠ "" → all_chars is_digit e = true →
  stops is_digit rest = true →
  re_match sxe_re (s +:+ "x" +:+ e +:+ rest) = Some ([(1%nat, s); (2%nat, e)], rest).
Proof.
  intros Hs Hds He Hde Hrest. unfold re_match, sxe_re, seqs. cbn [foldr].
  rewrite rmatch_seq. apply rmatch_grp_plus_cls; [done..|].
  rewrite rmatch_seq, rmatch_lit, rmatch_seq.
  by apply rmatch_grp_plus_cls.
Qed.

(** X5. The key of a probed episode: for a show slug of ASCII characters
    in which no [x] stands between two digits and natural numbers S and E,
    the slug [show-SxE], also when text follows it that starts with a
    character of ASCII that is no digit, is given the key [S<S>E<E>],
    whatever the episode id. *)
Theorem parse_episode_key_probe (lib : PyLib) (ep_id : value) (show rest : string)
    (season ep_num : Z) :
  ascii_text show = true →
  has_sxe show = false →
  0 ≤ season → 0 ≤ ep_num →
  stops_ascii is_digit rest = true →
  parse_episode_key lib ep_id
    (show +:+ "-" +:+ str_Z season +:+ "x" +:+ str_Z ep_num +:+ rest)
  = "S" +:+ str_Z season +:+ "E" +:+ str_Z ep_num.
Proof.
  intros _ Hshow Hs He Hrest%stops_ascii_stops. unfold parse_episode_key.
  destruct (str_Z_digits season Hs) as [Hs1 Hs2].
  destruct (str_Z_digits ep_num He) as [He1 He2].
  rewrite re_search_sxe_skip by done.
  rewrite (re_search_here _ _ _ (re_match_sxe _ _ _ Hs1 Hs2 He1 He2 Hrest)).
  reflexivity.
Qed.

Lemma parse_episode_key_probe_witness :
  parse_episode_key Demo.lib (VInt 7) "ben-10-2x15-arabic" = "S2E15".
Proof.
  apply (parse_episode_key_probe Demo.lib (VInt 7) "ben-10" "-arabic" 2 15);
    (reflexivity || lia).
Defined.

Lemma re_match_key s e rest :
  s ≠ "" → all_chars is_digit s = true → e ≠ "" → all_chars is_digit e = true →
  stops is_digit rest = true →
  re_match key_re ("S" +:+ s +:+ "E" +:+ e +:+ rest)
  = Some ([(1%nat, s); (2%nat, e)], rest).
Proof.
  intros Hs Hds He Hde Hrest. unfold re_match, key_re, seqs. cbn [foldr].
  rewrite rmatch_seq, rmatch_lit, rmatch_seq. apply rmatch_grp_plus_cls; [done..|].
  rewrite rmatch_seq, rmatch_lit, rmatch_seq.
  by apply rmatch_grp_plus_cls.
Qed.

Lemma count_digits_le s : (count_digits s ≤ String.length s)%nat.
Proof.
  induction s as [|c s IH]; [done|]. cbn [count_digits String.length].
  destruct (is_digit c); lia.
Qed.

(** X6. The sort key of an episode. For an episode named [S<S>E<E>] with
    natural numbers S and E of at most 4300 digits each it is the pair of S
    and E, so that the names that [parse_episode_key] gives to probed
    episodes sort by season and episode; for a name that does not start
    with [S] it is the pair of 999 and the post id; and every name of at
    most 4300 characters of ASCII has a key. The key is missing, [int]
    raising, for a name that starts with [S] and more than 4300 digits
    before the [E] and the digits of the episode. *)
Theorem sort_key_spec (x : Episode) :
  (ascii_text (episode x) = true →
   (String.length (episode x) ≤ max_str_digits)%nat →
   ∃ k, sort_key x = Some k) ∧
  (∀ season number,
     0 ≤ season → 0 ≤ number →
     (String.length (str_Z season) ≤ max_str_digits)%nat →
     (String.length (str_Z number) ≤ max_str_digits)%nat →
     episode x = "S" +:+ str_Z season +:+ "E" +:+ str_Z number →
     sort_key x = Some (season, VInt number)) ∧
  (startswith "S" (episode x) = false → sort_key x = Some (999, post_id x)) ∧
  (∀ s e rest,
     all_chars is_digit s = true → (max_str_digits < String.length s)%nat →
     e ≠ "" → all_chars is_digit e = true → stops_ascii is_digit rest = true →
     episode x = "S" +:+ s +:+ "E" +:+ e +:+ rest →
     sort_key x = None).
Proof.
  split; [|split; [|split]].
  - intros _ Hlen. unfold sort_key.
    destruct (re_match key_re (episode x)) as [[caps rest]|] eqn:E; [|by eexists].
    apply re_match_sound in E as (m & Heq & Hm).
    unfold key_re, seqs in Hm. cbn [foldr] in Hm. inv_matches. subst.
    rewrite Heq in Hlen. rewrite !string_app_length in Hlen.
    unfold group. cbn [dict_get dict_set Nat.eqb default]. unfold id.
    repeat match goal with
    | H : all_chars is_digit ?a = true, N : ?a ≠ "" |- context [int_ascii ?a] =>
        let Hn := fresh in
        destruct (int_ascii_total a N H) as [? Hn]; [lia|rewrite Hn]
    end.
    by eexists.
  - intros season number Hs Hn Hls Hln Hname. unfold sort_key. rewrite Hname.
    destruct (str_Z_digits season Hs) as [Hs1 Hs2].
    destruct (str_Z_digits number Hn) as [Hn1 Hn2].
    rewrite <- (string_app_empty_r (str_Z number)) at 1.
    rewrite (re_match_key _ _ "" Hs1 Hs2 Hn1 Hn2 eq_refl).
    unfold group. cbn [dict_get Nat.eqb default]. unfold id.
    by rewrite !int_ascii_str_Z.
  - intros Hs. unfold sort_key.
    destruct (re_match key_re (episode x)) as [[caps rest]|] eqn:E; [|done].
    apply re_match_sound in E as (m & E & Hm).
    unfold key_re, seqs in Hm. cbn [foldr] in Hm. inv_matches. subst.
    rewrite E in Hs. done.
  - intros s e rest Hs Hlong He Hde Hrest%stops_ascii_stops Hname.
    assert (s ≠ "") as Hne by (intros ->; simpl in Hlong; lia).
    unfold sort_key. rewrite Hname, (re_match_key _ _ _ Hne Hs He Hde Hrest).
    unfold group. cbn [dict_get Nat.eqb default]. unfold id.
    by rewrite (int_ascii_long s).
Qed.

Lemma sort_key_spec_witness :
  sort_key {| episode := "S2E15"; post_id := VInt 7; slug := "ben-10-2x15";
              servers := []; is_hyperwatching := false; raw_url := None |}
  = Some (2, VInt 15).
Proof.
  refine (proj1 (proj2 (sort_key_spec _)) 2 15 _ _ _ _ _);
    [vm_compute; discriminate|vm_compute; discriminate|
     vm_compute; lia|vm_compute; lia|reflexivity].
Defined.

(** X7. What [extract_slug] can return. The result is [(None, None,
    None)] or a slug with one of the three kinds. For the new site the
    slug is a non-empty piece of the URL without [/] that follows
    [www.stardima.com/tvshow/], and the episode id, when there is one, is a
    non-empty text that follows [/play/]; in a URL of ASCII characters it
    is a text of digits, which [int] reads when they are at most 4300. For
    the kind [tvshow] the slug is a non-empty piece of the URL without
    [/], [#] and [?] that follows [/tvshows/]. For the kind [episode] the
    slug has none of these characters. Only the new site gives an episode
    id. *)
Theorem extract_slug_sound (url : string) :
  match extract_slug url with
  | (None, None, None) => True
  | (Some slug, Some kind, ep_id) =>
      (kind = "new_stardima" ∧ slug ≠ "" ∧ all_chars (none_of "/") slug = true ∧
       contains ("www.stardima.com/tvshow/" +:+ slug) url = true ∧
       match ep_id with
       | Some ep =>
           contains ("www.stardima.com/tvshow/" +:+ slug +:+ "/play/" +:+ ep) url = true ∧
           ep ≠ "" ∧
           (ascii_text url = true →
            all_chars is_digit ep = true ∧
            ((String.length ep ≤ max_str_digits)%nat → ∃ n, int_ascii ep = Some n))
       | None => True
       end) ∨
      (kind = "tvshow" ∧ ep_id = None ∧ slug ≠ "" ∧
       all_chars (none_of "/#?") slug = true ∧
       contains ("/tvshows/" +:+ slug) url = true) ∨
      (kind = "episode" ∧ ep_id = None ∧ all_chars (none_of "/#?") slug = true)
  | _ => False
  end.
Proof.
  unfold extract_slug.
  destruct (re_search new_url_re url) as [[caps rest]|] eqn:E1.
  { apply re_search_sound in E1 as (pre & m & -> & Hm).
    unfold new_url_re, seqs in Hm. cbn [foldr] in Hm. inv_matches; subst.
    - unfold group. cbn [dict_get dict_set Nat.eqb]. left.
      split; [done|]. split; [done|]. split; [done|]. split; [|split].
      + apply contains_spec. exists pre, ("/play/" +:+ x11 +:+ rest).
        by rewrite ?string_app_assoc, ?string_app_empty_r, ?string_app_nil_l.
      + apply contains_spec. exists pre, rest.
        by rewrite ?string_app_assoc, ?string_app_empty_r, ?string_app_nil_l.
      + split; [done|]. intros _. split; [done|]. intros Hlen. by apply int_ascii_total.
    - unfold group. cbn [dict_get dict_set Nat.eqb]. left.
      split; [done|]. split; [done|]. split; [done|]. split; [|done].
      apply contains_spec. exists pre, rest.
      by rewrite ?string_app_assoc, ?string_app_empty_r, ?string_app_nil_l. }
  destruct (re_search tvshows_re url) as [[caps rest]|] eqn:E2.
  { apply re_search_sound in E2 as (pre & m & -> & Hm).
    unfold tvshows_re, seqs in Hm. cbn [foldr] in Hm. inv_matches; subst.
    unfold group. cbn [dict_get dict_set Nat.eqb]. right. left.
    split; [done|]. split; [done|]. split; [done|]. split; [done|].
    apply contains_spec. exists pre, rest.
    by rewrite ?string_app_assoc, ?string_app_empty_r, ?string_app_nil_l. }
  destruct (re_search episodes_re url) as [[caps rest]|] eqn:E3; [|done].
  apply re_search_sound in E3 as (pre & m & -> & Hm).
  unfold episodes_re, seqs in Hm. cbn [foldr] in Hm. inv_matches; subst.
  unfold group. cbn [dict_get dict_set Nat.eqb default]. unfold id.
  right. right. split; [done|]. split; [done|]. by apply re_sub_chars.
Qed.

(** X8. [unwrap_video_url] returns either the URL it was given or the
    unquoted value of an [id] parameter of it: a non-empty piece of the URL
    without [&] that follows [?id=] or [&id=]. For a URL of the wrapper
    with [?id=] as its first [?] or [&], it returns the unquoted text
    between [?id=] and the next [&] or the end. *)
Theorem unwrap_video_url_spec (lib : PyLib) :
  (∀ url,
     unwrap_video_url lib url = url ∨
     ∃ pre c enc rest,
       url = pre +:+ String c "id=" +:+ enc +:+ rest ∧
       one_of "?&" c = true ∧ enc ≠ "" ∧ all_chars (none_of "&") enc = true ∧
       unwrap_video_url lib url = unquote lib enc) ∧
  (∀ pre enc rest,
     let url := pre +:+ "?id=" +:+ enc +:+ rest in
     contains "strema.top/embed" url = true →
     all_chars (none_of "?&") pre = true →
     enc ≠ "" → all_chars (none_of "&") enc = true → stops (none_of "&") rest = true →
     unwrap_video_url lib url = unquote lib enc).
Proof.
  split.
  - intros url. unfold unwrap_video_url, search_group1.
    destruct (_ && _); [|by left].
    destruct (re_search id_param_re url) as [[caps rest]|] eqn:E; [|by left].
    apply re_search_sound in E as (pre & m & -> & Hm).
    unfold id_param_re, seqs in Hm. cbn [foldr] in Hm. inv_matches. subst.
    unfold group. cbn [dict_get dict_set Nat.eqb]. right.
    eexists pre, _, _, rest. split; [|by eauto].
    by rewrite !string_app_assoc, !string_app_cons, !string_app_nil_l,
      ?string_app_empty_r.
  - intros pre enc rest url Hmark Hpre Henc1 Henc2 Hrest. unfold unwrap_video_url.
    rewrite Hmark.
    assert (contains "id=" url = true) as ->.
    { apply contains_spec. exists (pre +:+ "?"), (enc +:+ rest). subst url.
      by rewrite !string_app_assoc. }
    cbn [andb]. unfold search_group1.
    assert (re_search id_param_re url = Some ([(1%nat, enc)], rest)) as ->; [|done].
    unfold id_param_re, seqs. cbn [foldr]. subst url.
    rewrite re_search_cls_skip by
      (eapply all_chars_impl; [|exact Hpre]; intros c; unfold none_of; done).
    apply re_search_here. unfold re_match.
    change ("?id=" +:+ enc +:+ rest) with (String "?" ("id=" +:+ enc +:+ rest)).
    rewrite rmatch_seq, rmatch_cls by done.
    rewrite rmatch_seq, rmatch_lit, rmatch_seq.
    by apply rmatch_grp_plus_cls.
Qed.

Lemma unwrap_video_url_spec_witness :
  unwrap_video_url Demo.lib
    ("https://strema.top/embed2/" +:+ "?id=" +:+ "https://vudeo.net/e1" +:+ "&t=1")
  = unquote Demo.lib "https://vudeo.net/e1".
Proof.
  refine (proj2 (unwrap_video_url_spec Demo.lib) "https://strema.top/embed2/"
            "https://vudeo.net/e1" "&t=1" _ _ _ _ _);
    [reflexivity|reflexivity|discriminate|reflexivity|reflexivity].
Defined.

Lemma re_match_origin (secure : bool) host path :
  host ≠ "" → all_chars (none_of "/") host = true → stops (none_of "/") path = true →
  let scheme := if secure then "https://" else "http://" in
  re_match origin_re (scheme +:+ host +:+ path) = Some ([(1%nat, scheme +:+ host)], path).
Proof.
  intros Hne Hhost Hpath scheme. unfold re_match, origin_re, seqs. cbn [foldr rmatch].
  fold (Plus (Cls (none_of "/"))). subst scheme.
  destruct secure.
  - change (startswith "http" ("https://" +:+ host +:+ path)) with true. cbn match.
    change (drop_chars (String.length "http") ("https://" +:+ host +:+ path))
      with ("s" +:+ "://" +:+ host +:+ path).
    unfold Opt. cbn [rmatch].
    change (startswith "s" ("s" +:+ "://" +:+ host +:+ path)) with true. cbn match.
    change (drop_chars (String.length "s") ("s" +:+ "://" +:+ host +:+ path))
      with ("://" +:+ host +:+ path).
    change (startswith "://" ("://" +:+ host +:+ path)) with true. cbn match.
    change (drop_chars (String.length "://") ("://" +:+ host +:+ path))
      with (host +:+ path).
    rewrite (rmatch_plus_cls _ host path _ _ ([(1%nat, "https://" +:+ host)], path));
      [done..|].
    cbn [rmatch startswith drop_chars String.length].
    by rewrite <- (string_app_assoc "https://" host path), take_chars_app.
  - change (startswith "http" ("http://" +:+ host +:+ path)) with true. cbn match.
    change (drop_chars (String.length "http") ("http://" +:+ host +:+ path))
      with ("://" +:+ host +:+ path).
    unfold Opt. cbn [rmatch].
    change (startswith "s" ("://" +:+ host +:+ path)) with false. cbn match.
    change (startswith "" ("://" +:+ host +:+ path)) with true. cbn match.
    change (drop_chars (String.length "") ("://" +:+ host +:+ path))
      with ("://" +:+ host +:+ path).
    change (startswith "://" ("://" +:+ host +:+ path)) with true. cbn match.
    change (drop_chars (String.length "://") ("://" +:+ host +:+ path))
      with (host +:+ path).
    rewrite (rmatch_plus_cls _ host path _ _ ([(1%nat, "http://" +:+ host)], path));
      [done..|].
    cbn [rmatch startswith drop_chars String.length].
    by rewrite <- (string_app_assoc "http://" host path), take_chars_app.
Qed.

(** X9. The headers of a download. When the URL to download, unwrapped,
    is [http://host...] or [https://host...] with a non-empty host that
    ends at the first [/] or at the end, the [Referer] is the scheme and the
    host with a [/] after them and the [Origin] the same without the [/].
    When it starts with neither [http://] nor [https://], both are empty. *)
Theorem ydl_request_headers (lib : PyLib) (output_template url : string) :
  let rq := ydl_request lib output_template url in
  ydl_url rq = unwrap_video_url lib url ∧
  ydl_outtmpl rq = output_template ∧
  (∀ (secure : bool) host path,
     let scheme := if secure then "https://" else "http://" in
     unwrap_video_url lib url = scheme +:+ host +:+ path →
     host ≠ "" → all_chars (none_of "/") host = true → stops (none_of "/") path = true →
     ydl_referer rq = scheme +:+ host +:+ "/" ∧ ydl_origin rq = scheme +:+ host) ∧
  (startswith "http://" (unwrap_video_url lib url) = false →
   startswith "https://" (unwrap_video_url lib url) = false →
   ydl_referer rq = "" ∧ ydl_origin rq = "").
Proof.
  intros rq. split; [done|]. split; [done|]. split.
  - intros secure host path scheme Hurl Hne Hhost Hpath.
    subst rq. unfold ydl_request. cbn [ydl_referer ydl_origin]. rewrite Hurl.
    pose proof (re_match_origin secure host path Hne Hhost Hpath) as Hm.
    cbn zeta in Hm. fold scheme in Hm. rewrite Hm.
    unfold group. cbn [dict_get Nat.eqb default]. unfold id.
    split; [by rewrite string_app_assoc|].
    assert (rstrip_char "/" (host +:+ "/") = host) as Hstrip.
    { apply rstrip_char_run; [done|]. eapply all_chars_impl; [|exact Hhost].
      intros c. unfold none_of, one_of. simpl. by rewrite orb_false_r. }
    rewrite string_app_assoc, rstrip_char_app; by rewrite Hstrip.
  - intros H1 H2. subst rq. unfold ydl_request. cbn [ydl_referer ydl_origin].
    destruct (re_match origin_re _) as [[caps rest]|] eqn:E; [exfalso|done].
    apply re_match_sound in E as (m & E & Hm).
    unfold origin_re, seqs in Hm. cbn [foldr] in Hm. inv_matches; subst.
    + rewrite E in H2. by rewrite !string_app_assoc in H2.
    + rewrite E in H1. by rewrite !string_app_assoc in H1.
Qed.

Lemma ydl_request_headers_witness :
  let rq := ydl_request Demo.lib "out/%(ext)s" "https://vudeo.net/embed-1.html" in
  ydl_referer rq = "https://" +:+ "vudeo.net" +:+ "/" ∧
  ydl_origin rq = "https://" +:+ "vudeo.net".
Proof.
  refine (proj1 (proj2 (proj2 (ydl_request_headers Demo.lib "out/%(ext)s"
                                 "https://vudeo.net/embed-1.html")))
            true "vudeo.net" "/embed-1.html" _ _ _ _);
    [reflexivity|discriminate|reflexivity|reflexivity].
Defined.

(** X10. The show title is made safe character by character: the safe
    title has the length of the title and none of the characters
    [<>:Q/\|?*], Q the double quote, and a title without them is kept as it
    is. So the title cannot make the download leave the output directory
    by being an absolute path: the output path extends the output
    directory, and the output template extends the output path when the
    name of the episode does not start with [/]. *)
Theorem output_path_safe (output_dir show_title ep_name : string) :
  let forbidden := "<>:" +:+ dquote +:+ "/\|?*" in
  String.length (safe_title show_title) = String.length show_title ∧
  all_chars (none_of forbidden) (safe_title show_title) = true ∧
  (all_chars (none_of forbidden) show_title = true → safe_title show_title = show_title) ∧
  startswith output_dir (output_path output_dir show_title) = true ∧
  (startswith "/" ep_name = false →
   startswith (output_path output_dir show_title)
     (output_template output_dir show_title ep_name) = true).
Proof.
  intros forbidden. unfold safe_title. fold forbidden.
  split; [apply sub_chars_length|].
  assert (all_chars (none_of forbidden) (sub_chars forbidden "_" show_title) = true)
    as Hclean by by apply sub_chars_clean.
  split; [done|]. split; [apply sub_chars_id|]. split.
  - unfold output_path, safe_title. fold forbidden.
    apply path_join_relative. eapply not_absolute; [|exact Hclean]. reflexivity.
  - intros Hep. unfold output_template. apply path_join_relative.
    destruct ep_name as [|c ep_name]; [reflexivity|].
    rewrite string_app_cons. cbn [startswith] in Hep |- *.
    destruct (Ascii.eqb "/" c); [discriminate Hep|reflexivity].
Qed.

Lemma output_path_safe_witness :
  safe_title "Ben 10" = "Ben 10" ∧
  startswith (output_path "out" "Ben 10") (output_template "out" "Ben 10" "S1E1") = true.
Proof.
  pose proof (output_path_safe "out" "Ben 10" "S1E1") as H. cbn zeta in H.
  destruct H as (_ & _ & Hkeep & _ & Hext). split.
  - apply Hkeep. reflexivity.
  - apply Hext. reflexivity.
Defined.

(** *** What [fetch_episode] hands to the download and to the table *)

Lemma fetch_episode_run lib ep_id slug w :
  ∃ vs flag w',
    get_video_urls lib ep_id w = (Ok (vs, flag), w') ∧ length vs = 5%nat ∧
    fetch_episode lib ep_id slug w
    = (Ok {| episode := parse_episode_key lib ep_id slug; post_id := ep_id; slug := slug;
             servers := zip (if flag then SERVER_NAMES_HYPERWATCHING
                             else SERVER_NAMES_STANDARD) vs;
             is_hyperwatching := flag; raw_url := None |}, w').
Proof.
  destruct (get_video_urls_total lib ep_id w) as (vs & flag & w' & Hrun & Hlen).
  exists vs, flag, w'. split; [done|]. split; [done|].
  unfold fetch_episode, bind. rewrite Hrun. cbn [fst snd ret].
  destruct vs as [|a [|b [|c [|d [|e [|? ?]]]]]]; try done.
  by destruct flag.
Qed.







(** X12. In a wrapper-sourced episode of the legacy catalog the five
    servers hold what the unwrapper returned for the wrapper URL under
    fixed names: [uqload], [earnvids] or else [streamhg], [darkibox],
    [goodstream], and under [other] the entry [hyperwatching]. A server
    that the unwrapper resolved under any other name is dropped. *)
Theorem fetch_episode_wrapped (lib : PyLib) (ep_id : value) (slug : string)
    (w w' : World) (ep : Episode) :
  fetch_episode lib ep_id slug w = (Ok ep, w') →
  is_hyperwatching ep = true →
  ∃ hyperwatching_url w5 resolved,
    contains wrapper_marker hyperwatching_url = true ∧
    resolve_hyperwatching hyperwatching_url w5 = (Ok resolved, w') ∧
    servers ep =
      [("uqload", get_or_none resolved "uqload");
       ("streamhg", py_or (get_or_none resolved "earnvids") (get_or_none resolved "streamhg"));
       ("darkibox", get_or_none resolved "darkibox");
       ("goodstream", get_or_none resolved "goodstream");
       ("other", get_or_none resolved "hyperwatching")].
Proof.
  intros Hrun Hflag.
  destruct (fetch_episode_run lib ep_id slug w) as (vs & flag & w1 & Hg & Hlen & Hf).
  rewrite Hf in Hrun. injection Hrun as <- <-. cbn [is_hyperwatching] in Hflag.
  subst flag. cbn [servers].
  destruct (get_video_urls_run lib ep_id w) as [_ Hv]. rewrite Hv in Hg. clear Hv.
  destruct (wrapper_seen lib _) as [u|] eqn:Hseen; [|by injection Hg].
  destruct (all_none _); [|by injection Hg].
  unfold bind in Hg.
  destruct (resolve_hyperwatching u _) as [[resolved|e] w5] eqn:Hr; [|done].
  injection Hg as <- <-. eexists u, _, resolved. split; [|split; [exact Hr|done]].
  unfold wrapper_seen in Hseen. apply last_Some_elem_of in Hseen.
  apply list_elem_of_omap in Hseen as (r & _ & Hw). by apply slot_wrapper_marker in Hw.
Qed.

Lemma fetch_episode_wrapped_witness :
  ∃ ep w',
    fetch_episode Demo.lib (VInt 7) "witch-1x1" Demo.wrapped = (Ok ep, w') ∧
    is_hyperwatching ep = true ∧
    servers ep = [("uqload", VNone); ("streamhg", VStr "https://earnvids.example/v1");
                  ("darkibox", VNone); ("goodstream", VNone); ("other", VNone)] ∧
    ∃ hyperwatching_url w5 resolved,
      contains wrapper_marker hyperwatching_url = true ∧
      resolve_hyperwatching hyperwatching_url w5 = (Ok resolved, w') ∧
      get_or_none resolved "uqload" = VNone.
Proof.
  eexists _, _. split; [vm_compute; reflexivity|]. split; [reflexivity|].
  split; [reflexivity|].
  edestruct (fetch_episode_wrapped Demo.lib (VInt 7) "witch-1x1" Demo.wrapped)
    as (u & w5 & resolved & Hu & Hr & Hs); [vm_compute; reflexivity|reflexivity|].
  exists u, w5, resolved. split; [done|]. split; [exact Hr|].
  cbn [servers] in Hs. by injection Hs as <- _.
Defined.

(** *** The table *)

(** X13. For an episode of the legacy catalog the table shows exactly the
    servers that hold a URL, in the order of the slots and numbered by
    slot from 1: looking each server up by its name gives what the slot
    holds. *)
Theorem table_lines_legacy (lib : PyLib) (ep_id : value) (slug : string)
    (w w' : World) (ep : Episode) :
  fetch_episode lib ep_id slug w = (Ok ep, w') →
  length (servers ep) = 5%nat ∧
  table_lines lib ep =
  flat_map (λ inu : Z * (string * value),
              if truthy inu.2.2
              then ["  [" +:+ str_Z (inu.1 + 1) +:+ "] " +:+ ljust 12 (capitalize inu.2.1)
                    +:+ " " +:+ py_str lib inu.2.2]
              else [])
           (enumerate_from 0 (servers ep)).
Proof.
  intros Hrun.
  destruct (fetch_episode_run lib ep_id slug w) as (vs & flag & w1 & _ & Hlen & Hf).
  rewrite Hf in Hrun. injection Hrun as <- <-.
  destruct vs as [|a [|b [|c [|d [|e [|? ?]]]]]]; try done.
  destruct flag; split; reflexivity.
Qed.

Lemma table_lines_legacy_witness :
  ∃ ep w',
    fetch_episode Demo.lib (VInt 7) "witch-1x1" Demo.mixed = (Ok ep, w') ∧
    table_lines Demo.lib ep = ["  [1] Vudeo        https://vudeo.net/e1"].
Proof.
  eexists _, _. split; [vm_compute; reflexivity|].
  edestruct (table_lines_legacy Demo.lib (VInt 7) "witch-1x1" Demo.mixed) as [_ ->];
    [vm_compute; reflexivity|].
  vm_compute. reflexivity.
Defined.

(** X14. For an episode of the new site that is not wrapper-sourced the
    table shows no server at all, although the episode holds the value of
    its [watch_url], which is not empty, under the name [direct], and this
    server is the one candidate of the download. *)
Theorem table_lines_new_site (lib : PyLib) (show_id : string) (ep_id : value)
    (w w' : World) (ep : Episode) :
  fetch_new_episode lib show_id ep_id w = (Ok (Some ep), w') →
  is_hyperwatching ep = false →
  table_lines lib ep = [] ∧
  ∃ watch_url,
    truthy watch_url = true ∧ raw_url ep = Some watch_url ∧
    servers ep = [("direct", watch_url)] ∧
    candidates (servers ep) None None = [("direct", watch_url)].
Proof.
  intros Hrun Hflag.
  destruct (fetch_new_episode_cases lib show_id ep_id w) as (r & w1 & Hr & Hep).
  rewrite Hr in Hrun. injection Hrun as -> ->.
  destruct (Hep ep eq_refl) as (u & Hraw & Hu & Hcase). rewrite Hflag in Hcase.
  destruct Hcase as (_ & Hs & _).
  split.
  - destruct ep as [name pid sl srv flag raw]. cbn [servers is_hyperwatching] in *.
    subst. reflexivity.
  - exists u. do 3 (split; [done|]). rewrite Hs. unfold candidates. simpl. by rewrite Hu.
Qed.

Lemma table_lines_new_site_witness :
  ∃ ep w',
    fetch_new_episode Demo.lib "show" (VInt 7) Demo.new_site = (Ok (Some ep), w') ∧
    table_lines Demo.lib ep = [] ∧
    servers ep = [("direct", VStr "https://cdn.example/v.mp4")].
Proof.
  eexists _, _. split; [vm_compute; reflexivity|]. split; [|reflexivity].
  eapply proj1, (table_lines_new_site Demo.lib "show" (VInt 7) Demo.new_site);
    [vm_compute; reflexivity|reflexivity].
Defined.

(** *** The CSV output *)

Lemma fetch_episode_standard lib ep_id slug w w' ep :
  fetch_episode lib ep_id slug w = (Ok ep, w') →
  is_hyperwatching ep = false →
  ∃ a b c d e,
    Forall (λ v, url_or_none v = true) [a; b; c; d; e] ∧
    ep = {| episode := parse_episode_key lib ep_id slug; post_id := ep_id; slug := slug;
            servers := [("vudeo", a); ("uqload", b); ("mailru", c);
                        ("goodstream", d); ("vk", e)];
            is_hyperwatching := false; raw_url := None |}.
Proof.
  intros Hrun Hflag.
  destruct (fetch_episode_run lib ep_id slug w) as (vs & flag & w1 & Hg & Hlen & Hf).
  rewrite Hf in Hrun. injection Hrun as <- <-. cbn [is_hyperwatching] in Hflag.
  subst flag.
  destruct (get_video_urls_run lib ep_id w) as [_ Hv]. rewrite Hv in Hg. clear Hv.
  assert (Forall (λ v, url_or_none v = true)
            (slot_entry lib <$> replies_from (net w) (length (trace w))
                                  (ajax_request ep_id <$> py_range 1 6))) as Hd.
  { apply Forall_fmap, Forall_forall. intros r _. simpl. unfold slot_entry.
    destruct (decoded_of lib r); [|done]. by destruct (contains _ _). }
  assert (vs = slot_entry lib <$> replies_from (net w) (length (trace w))
                                     (ajax_request ep_id <$> py_range 1 6)) as Hvs.
  { destruct (wrapper_seen lib _) as [u|]; [|by injection Hg].
    destruct (all_none _); [|by injection Hg].
    unfold bind in Hg.
    destruct (resolve_hyperwatching_total u
                (logs (http_events (ajax_request ep_id <$> py_range 1 6)
                   (replies_from (net w) (length (trace w))
                      (ajax_request ep_id <$> py_range 1 6))) w))
      as (results & w5 & Hr & _).
    rewrite Hr in Hg. done. }
  rewrite <- Hvs in Hd. clear Hvs Hg.
  destruct vs as [|a [|b [|c [|d [|e [|? ?]]]]]]; try done.
  by exists a, b, c, d, e.
Qed.

(** X15. The CSV output of an episode of the legacy catalog that is not
    wrapper-sourced. Its row holds the episode key, the post id and one
    cell for each of the five slots, in the order of the slots. As every
    slot is stored in the episode, with [None] when it holds no URL, the
    default of the lookup is never used: the cell of a slot without URL
    is the text [None], not the empty text. *)
Theorem csv_row_legacy (lib : PyLib) (ep_id : value) (slug : string)
    (w w' : World) (ep : Episode) :
  fetch_episode lib ep_id slug w = (Ok ep, w') →
  is_hyperwatching ep = false →
  ∃ slots,
    servers ep = zip SERVER_NAMES_STANDARD slots ∧ length slots = 5%nat ∧
    csv_row_standard lib ep
    = join "," (parse_episode_key lib ep_id slug :: py_str lib ep_id :: (shown <$> slots)) ∧
    csv_lines lib [ep] = ["Episode,PostID,Vudeo,Uqload,MailRu,Goodstream,VK";
                          csv_row_standard lib ep] ∧
    ∀ name, name ∈ SERVER_NAMES_STANDARD →
      get_or_none (servers ep) name = VNone → csv_cell lib (servers ep) name = "None".
Proof.
  intros Hrun Hflag.
  destruct (fetch_episode_standard lib ep_id slug w w' ep Hrun Hflag)
    as (a & b & c & d & e & Hslots & ->).
  exists [a; b; c; d; e]. split; [done|]. split; [done|].
  assert (∀ v, url_or_none v = true → py_str lib v = shown v) as Hshown
    by (by intros []).
  split; [|split; [done|]].
  - unfold csv_row_standard, csv_cell. cbn [episode post_id servers].
    cbn [dict_get String.eqb Ascii.eqb Bool.eqb default fmap list_fmap join].
    repeat match goal with
    | H : Forall _ (_ :: _) |- _ => apply Forall_cons in H as [? H]
    end.
    unfold id.
    by rewrite (Hshown a), (Hshown b), (Hshown c), (Hshown d), (Hshown e).
  - intros name Hin Hnone. unfold csv_cell. unfold get_or_none in Hnone.
    cbn [servers] in *.
    repeat match goal with
    | H : Forall _ (_ :: _) |- _ => apply Forall_cons in H as [? H]
    end.
    repeat (apply elem_of_cons in Hin as [->|Hin]);
      [..|by apply elem_of_nil in Hin];
      cbn [dict_get String.eqb Ascii.eqb Bool.eqb default] in Hnone |- *;
      unfold id in *; by rewrite Hnone.
Qed.

Lemma csv_row_legacy_witness :
  ∃ ep w',
    fetch_episode Demo.lib (VInt 7) "witch-1x1" Demo.mixed = (Ok ep, w') ∧
    csv_row_standard Demo.lib ep = "S1E1,7,https://vudeo.net/e1,None,None,None,None".
Proof.
  eexists _, _. split; [vm_compute; reflexivity|].
  edestruct (csv_row_legacy Demo.lib (VInt 7) "witch-1x1" Demo.mixed)
    as (slots & _ & _ & -> & _); [vm_compute; reflexivity|reflexivity|].
  vm_compute. reflexivity.
Defined.

(** X16. The first episode decides for all. When the first episode of
    the results is wrapper-sourced, every row is read by the Demo.wrapped
    names. The row of an episode of the legacy catalog that is not
    wrapper-sourced then shows its second and fourth slot, [uqload] and
    [goodstream], in the first and the fourth cell, and leaves the other
    cells empty: what its slots [vudeo], [mailru] and [vk] hold is not
    printed. *)
Theorem csv_rows_mixed (lib : PyLib) (ep_id : value) (slug : string)
    (w w' : World) (ep first : Episode) (results : list Episode) :
  fetch_episode lib ep_id slug w = (Ok ep, w') →
  is_hyperwatching ep = false →
  is_hyperwatching first = true →
  ep ∈ results →
  ∃ vudeo uqload mailru goodstream vk,
    servers ep = zip SERVER_NAMES_STANDARD [vudeo; uqload; mailru; goodstream; vk] ∧
    csv_lines lib (first :: results)
    = "Episode,PostID,Uqload,Streamhg,Darkibox,Goodstream,Other"
      :: (csv_row_hyperwatching lib <$> first :: results) ∧
    csv_row_hyperwatching lib ep ∈ csv_lines lib (first :: results) ∧
    csv_row_hyperwatching lib ep
    = join "," [parse_episode_key lib ep_id slug; py_str lib ep_id;
                shown uqload; ""; ""; shown goodstream; ""].
Proof.
  intros Hrun Hflag Hfirst Hin.
  destruct (fetch_episode_standard lib ep_id slug w w' ep Hrun Hflag)
    as (a & b & c & d & e & Hslots & ->).
  exists a, b, c, d, e. split; [done|].
  assert (csv_lines lib (first :: results)
          = "Episode,PostID,Uqload,Streamhg,Darkibox,Goodstream,Other"
            :: (csv_row_hyperwatching lib <$> first :: results)) as Hlines.
  { unfold csv_lines. by rewrite Hfirst. }
  split; [done|]. split.
  - rewrite Hlines. cbn [fmap list_fmap]. do 2 apply list_elem_of_further.
    apply list_elem_of_fmap. by eexists.
  - assert (∀ v, url_or_none v = true → py_str lib v = shown v) as Hshown
      by (by intros []).
    unfold csv_row_hyperwatching, csv_cell. cbn [episode post_id servers].
    cbn [dict_get String.eqb Ascii.eqb Bool.eqb default fmap list_fmap join].
    repeat match goal with
    | H : Forall _ (_ :: _) |- _ => apply Forall_cons in H as [? H]
    end.
    unfold id. cbn [py_str]. by rewrite (Hshown b), (Hshown d).
Qed.

Lemma csv_rows_mixed_witness :
  let first := {| episode := "S1E1"; post_id := VInt 1; slug := "witch-1x1";
                  servers := []; is_hyperwatching := true; raw_url := None |} in
  ∃ ep w',
    fetch_episode Demo.lib (VInt 7) "witch-1x2" Demo.mixed = (Ok ep, w') ∧
    get_or_none (servers ep) "vudeo" = VStr "https://vudeo.net/e1" ∧
    csv_lines Demo.lib [first; ep]
    = ["Episode,PostID,Uqload,Streamhg,Darkibox,Goodstream,Other";
       "S1E1,1,,,,,"; "S1E2,7,None,,,None,"].
Proof.
  intros first.
  destruct (fetch_episode Demo.lib (VInt 7) "witch-1x2" Demo.mixed) as [[ep|e] w']
    eqn:E; [|vm_compute in E; discriminate E].
  exists ep, w'. split; [reflexivity|].
  assert (is_hyperwatching ep = false ∧
          get_or_none (servers ep) "vudeo" = VStr "https://vudeo.net/e1" ∧
          episode ep = "S1E2" ∧ post_id ep = VInt 7) as (Hflag & Hvudeo & Hkey & Hid).
  { pose proof E as E'. vm_compute in E'. injection E' as <- _.
    repeat split; vm_compute; reflexivity. }
  split; [exact Hvudeo|].
  destruct (csv_rows_mixed Demo.lib (VInt 7) "witch-1x2" Demo.mixed w' ep first [ep]
              E Hflag eq_refl (list_elem_of_here _ _))
    as (a & b & c & d & e & Hs & -> & _ & Hrow).
  cbn [fmap list_fmap]. rewrite Hrow.
  pose proof E as E'. vm_compute in E'. injection E' as <- _.
  injection Hs as <- <- <- <- <-. vm_compute. reflexivity.
Defined.

(** *** Strategy 1 of [search_episodes] *)

Lemma dict_set_Forall {K V} (eqb : K → K → bool) (Q : K * V → Prop) (d : list (K * V)) k v :
  Forall Q d → (∀ k', k' = k ∨ eqb k' k = true → Q (k', v)) →
  Forall Q (dict_set eqb d k v).
Proof.
  intros Hd Hv. induction Hd as [|[k0 v0] d H0 Hd IH]; simpl.
  - constructor; [|constructor]. apply Hv. by left.
  - destruct (eqb k0 k) eqn:E; constructor; try done. apply Hv. by right.
Qed.

Lemma key_eqb_refl id : hashable id = true → key_eqb id id = true.
Proof.
  destruct id as [|b|z|s| |]; try done; simpl; intros _.
  - by destruct b.
  - apply Z.eqb_refl.
  - apply String.eqb_refl.
Qed.

Lemma has_key_dict_set episodes id k v :
  has_key episodes id → has_key (dict_set key_eqb episodes k v) id.
Proof.
  intros ([k0 v0] & Hin & Hk). cbn [fst] in Hk.
  induction episodes as [|[k1 v1] episodes IH]; [by apply elem_of_nil in Hin|].
  cbn [dict_set]. apply elem_of_cons in Hin as [[= <- <-]|Hin].
  - destruct (key_eqb k0 k); eexists (k0, _); (split; [by left|done]).
  - destruct (key_eqb k1 k).
    + exists (k0, v0). split; [by right|done].
    + destruct (IH Hin) as (kv & Hkv & Hk'). exists kv. split; [by right|done].
Qed.

Lemma has_key_stored episodes id v :
  hashable id = true → has_key (dict_set key_eqb episodes id v) id.
Proof.
  intros Hh. induction episodes as [|[k1 v1] episodes IH]; cbn [dict_set].
  - exists (id, v). split; [by left|]. by apply key_eqb_refl.
  - destruct (key_eqb k1 id) eqn:E.
    + exists (k1, v). split; [by left|done].
    + destruct IH as (kv & Hkv & Hk'). exists kv. split; [by right|done].
Qed.

Lemma startswith_contains sub s : startswith sub s = true → contains sub s = true.
Proof. intros H. destruct s; simpl; by rewrite H. Qed.

Lemma belongs_spec slug x :
  belongs slug x = true →
  contains slug x = true ∨ (slug = "witch" ∧ contains "w-i-t-c-h" x = true).
Proof.
  unfold belongs. intros [[H|H]%orb_true_iff|[H1 H2]%andb_true_iff]%orb_true_iff.
  - by left.
  - left. by apply startswith_contains.
  - right. by apply String.eqb_eq in H1.
Qed.

(** One search hit leaves the dictionary and the world as they are, or
    stores the unquoted slug under the id of the hit, and then the slug
    belongs to the show; or it raises, also without any effect. *)
Lemma search_entry_run lib slug episodes ep w :
  (∃ e, search_entry lib slug episodes ep w = (Raise e, w)) ∨
  search_entry lib slug episodes ep w = (Ok episodes, w) ∨
  ∃ d raw id,
    ep = VDict d ∧
    default (VStr "") (dict_get String.eqb d "slug") = VStr raw ∧
    dict_get String.eqb d "id" = Some id ∧
    hashable id = true ∧
    belongs slug (lower (unquote lib raw)) = true ∧
    search_entry lib slug episodes ep w
    = (Ok (dict_set key_eqb episodes id (VStr (unquote lib raw))), w).
Proof.
  unfold search_entry, bind, get_default, obj_get.
  destruct ep as [| | | | |d]; try (left; by eexists).
  destruct (dict_get String.eqb d "slug") as [raw|] eqn:Hraw; unfold ret at 1.
  - destruct raw as [| | |raw_slug| |]; try (left; by eexists). cbn [as_str ret].
    destruct (belongs slug (lower (unquote lib raw_slug))) eqn:Hb; [|right; by left].
    unfold get_item. destruct (dict_get String.eqb d "id") as [id|] eqn:Hid;
      [|left; by eexists].
    unfold ret, store. destruct (hashable id) eqn:Hh; [|left; by eexists].
    right. right. exists d, raw_slug, id. by rewrite Hraw, Hid.
  - cbn [as_str ret].
    destruct (belongs slug (lower (unquote lib ""))) eqn:Hb; [|right; by left].
    unfold get_item. destruct (dict_get String.eqb d "id") as [id|] eqn:Hid;
      [|left; by eexists].
    unfold ret, store. destruct (hashable id) eqn:Hh; [|left; by eexists].
    right. right. exists d, "", id. by rewrite Hraw, Hid.
Qed.

Lemma stored_for_impl lib slug (P Q : value → Prop) episodes :
  (∀ hit, P hit → Q hit) → stored_for lib slug P episodes → stored_for lib slug Q episodes.
Proof.
  intros HPQ H. unfold stored_for in *. eapply Forall_impl; [exact H|].
  intros kv (hit & HP & He). exists hit. auto.
Qed.

Lemma search_entries_run lib slug items : ∀ episodes w,
  ∃ episodes',
    search_entries lib slug episodes items w = (Ok episodes', w) ∧
    (∀ P : value → Prop, (∀ hit, hit ∈ items → P hit) →
       stored_for lib slug P episodes → stored_for lib slug P episodes') ∧
    ((∀ s, belongs slug (lower s) = false) → episodes' = episodes) ∧
    (∀ id, has_key episodes id → has_key episodes' id).
Proof.
  induction items as [|ep items IH]; intros episodes w; [by exists episodes|].
  cbn [search_entries]. unfold bind at 1, try_except. unfold bind at 1.
  destruct (search_entry_run lib slug episodes ep w)
    as [[e ->]|[->|(d & raw & id & -> & Hraw & Hid & Hh & Hb & ->)]].
  - by exists episodes.
  - unfold ret at 1. destruct (IH episodes w) as (eps' & -> & Hk & Hn & Hkey).
    exists eps'. split; [done|]. split; [|done].
    intros P HP. apply Hk. intros hit Hin. apply HP. by right.
  - unfold ret at 1.
    destruct (IH (dict_set key_eqb episodes id (VStr (unquote lib raw))) w)
      as (eps' & -> & Hk & Hn & Hkey).
    exists eps'. split; [done|]. split; [|split].
    + intros P HP Hst. apply Hk; [intros hit Hin; apply HP; by right|].
      apply dict_set_Forall; [exact Hst|].
      intros k' Hk'. exists (VDict d). split; [apply HP; by left|].
      exists d, raw, id. do 3 (split; [done|]). split.
      { destruct Hk' as [->|Hk']; [by apply key_eqb_refl|done]. }
      split; [done|]. intros _. by apply belongs_spec.
    + intros Hno. by rewrite Hno in Hb.
    + intros id' Hin. by apply Hkey, has_key_dict_set.
Qed.

Lemma search_term_run lib slug episodes term w :
  let reply := net w (length (trace w)) (search_request term) in
  ∃ episodes',
    search_term lib slug episodes term w
    = (Ok episodes', log (EHttp (search_request term) reply) w) ∧
    (∀ P : value → Prop, (∀ hit, hit ∈ hits_of reply → P hit) →
       stored_for lib slug P episodes → stored_for lib slug P episodes') ∧
    ((∀ s, belongs slug (lower s) = false) → episodes' = episodes) ∧
    (∀ id, has_key episodes id → has_key episodes' id).
Proof.
  cbn zeta. unfold search_term. unfold bind at 1, try_except. unfold bind at 1, request.
  fold (search_request term). unfold hits_of.
  destruct (net w (length (trace w)) (search_request term)) as [resp|];
    [|by exists episodes].
  unfold bind, json. destruct (json_body resp) as [data|]; [|by exists episodes].
  unfold ret. destruct (iter_value data) as [items|]; [|by exists episodes].
  apply search_entries_run.
Qed.

Lemma search_terms_run lib slug terms : ∀ episodes w,
  let rqs := search_request <$> terms in
  let replies := replies_from (net w) (length (trace w)) rqs in
  ∃ episodes',
    for_each (search_term lib slug) episodes terms w
    = (Ok episodes', logs (http_events rqs replies) w) ∧
    (∀ P : value → Prop,
       (∀ hit, hit ∈ search_hits (net w) (length (trace w)) terms → P hit) →
       stored_for lib slug P episodes → stored_for lib slug P episodes') ∧
    ((∀ s, belongs slug (lower s) = false) → episodes' = episodes) ∧
    (∀ id, has_key episodes id → has_key episodes' id).
Proof.
  induction terms as [|term terms IH]; intros episodes w; cbn zeta.
  - exists episodes. simpl. by rewrite logs_nil.
  - destruct (search_term_run lib slug episodes term w) as (eps1 & Hrun & Hk1 & Hn1 & Hkey1).
    destruct (IH eps1 (log (EHttp (search_request term)
                              (net w (length (trace w)) (search_request term))) w))
      as (eps2 & Hrest & Hk2 & Hn2 & Hkey2).
    assert (length (trace (log (EHttp (search_request term)
                                  (net w (length (trace w)) (search_request term))) w))
            = S (length (trace w))) as Hlen.
    { cbn [trace log]. rewrite length_app. simpl. lia. }
    rewrite Hlen in Hrest, Hk2. cbn [net log] in Hrest, Hk2.
    exists eps2. split; [|split; [|split; [|auto]]].
    + cbn [for_each]. unfold bind. rewrite Hrun, Hrest.
      rewrite log_logs, logs_logs. by cbn [trace logs fmap list_fmap replies_from net].
    + intros P HP Hst. unfold search_hits in HP.
      cbn [fmap list_fmap replies_from concat] in HP.
      apply Hk2; [intros hit Hin; apply HP, elem_of_app; by right|].
      apply Hk1; [intros hit Hin; apply HP, elem_of_app; by left|done].
    + intros Hno. rewrite Hn2, Hn1; done.
Qed.

Lemma has_upper_app a b : has_upper (a +:+ b) = has_upper a || has_upper b.
Proof.
  induction a as [|c a IH]; [done|]. rewrite string_app_cons. unfold has_upper in *.
  simpl. by rewrite IH, orb_assoc.
Qed.

Lemma lower_char_not_upper c : is_upper (lower_char c) = false.
Proof.
  unfold lower_char. destruct (_ && _) eqn:E; [|exact E].
  apply andb_true_iff in E as [H1 H2]. apply Nat.leb_le in H1, H2.
  unfold is_upper, code. rewrite nat_ascii_embedding by (unfold code in *; lia).
  apply andb_false_iff. right. apply Nat.leb_gt. unfold code in *. lia.
Qed.

Lemma lower_not_upper s : has_upper (lower s) = false.
Proof.
  induction s as [|c s IH]; [done|]. unfold has_upper in *. simpl.
  by rewrite lower_char_not_upper, IH.
Qed.

(** A slug with an upper-case letter belongs to no lower-cased slug. *)
Lemma belongs_upper slug s : has_upper slug = true → belongs slug (lower s) = false.
Proof.
  intros Hup. destruct (belongs slug (lower s)) eqn:Hb; [exfalso|done].
  apply belongs_spec in Hb as [Hc|[-> _]]; [|done].
  apply contains_spec in Hc as (pre & post & E).
  pose proof (lower_not_upper s) as Hl. rewrite E, !has_upper_app, Hup in Hl.
  by rewrite orb_true_r in Hl.
Qed.

Lemma season_events_probes slug season replies :
  Forall (is_probe slug) (season_events slug season replies).
Proof.
  unfold season_events, http_events. apply Forall_forall. intros ev Hin.
  apply list_elem_of_lookup in Hin as [i Hi].
  apply lookup_zip_with_Some in Hi as (rq & reply & -> & Hrq & _).
  rewrite list_lookup_fmap in Hrq.
  destruct (seqZ 1 (Z.of_nat (length replies)) !! i) as [e|]; [|done].
  injection Hrq as <-. by exists season, e, reply.
Qed.

(** X17. [search_episodes] never raises, whatever the network answers. It
    first sends one full-text search for each search term, in order, and
    every request after these is a probe of strategy 2. *)
Theorem search_episodes_runs (lib : PyLib) (slug : string) (w : World) :
  let rqs := search_request <$> search_terms slug in
  let replies := replies_from (net w) (length (trace w)) rqs in
  ∃ episodes w' probes,
    search_episodes lib slug w = (Ok episodes, w') ∧
    trace w' = trace w ++ http_events rqs replies ++ probes ∧
    Forall (is_probe slug) probes.
Proof.
  intros rqs replies. unfold search_episodes, bind.
  destruct (search_terms_run lib slug (search_terms slug) [] w) as (eps1 & -> & _).
  fold rqs replies. unfold probe_seasons.
  destruct (seasons_run slug (py_range 1 6) eps1 (logs (http_events rqs replies) w))
    as (runs & eps2 & w' & _ & -> & Htr & _).
  exists eps2, w', (concat (zip_with (season_events slug) (py_range 1 6) runs)).
  split; [done|]. split; [rewrite Htr; cbn [trace logs]; by rewrite <- app_assoc|].
  apply Forall_concat, Forall_forall. intros evs Hin.
  apply list_elem_of_lookup in Hin as [i Hi].
  apply lookup_zip_with_Some in Hi as (s & r & -> & _ & _).
  apply season_events_probes.
Qed.

Lemma search_term_first lib slug w resp d items raw id :
  net w (length (trace w)) (search_request slug) = Some resp →
  json_body resp = Some (VList (VDict d :: items)) →
  dict_get String.eqb d "slug" = Some (VStr raw) →
  dict_get String.eqb d "id" = Some id →
  hashable id = true →
  contains slug (lower (unquote lib raw)) = true →
  ∃ episodes,
    search_term lib slug [] slug w
    = (Ok episodes, log (EHttp (search_request slug) (Some resp)) w) ∧
    has_key episodes id.
Proof.
  intros Hnet Hjson Hraw Hid Hh Hc.
  unfold search_term. unfold bind at 1, try_except.
  unfold bind at 1, request. fold (search_request slug). rewrite Hnet.
  unfold bind at 1, json. rewrite Hjson. unfold ret at 1. unfold ret at 1.
  cbn [iter_value search_entries]. unfold bind at 1, try_except. unfold bind at 1.
  assert (search_entry lib slug [] (VDict d)
            (log (EHttp (search_request slug) (Some resp)) w)
          = (Ok [(id, VStr (unquote lib raw))],
             log (EHttp (search_request slug) (Some resp)) w)) as ->.
  { unfold search_entry, bind, get_default, obj_get. rewrite Hraw. cbn [ret as_str].
    unfold belongs. rewrite Hc. cbn [orb]. unfold get_item. rewrite Hid.
    unfold ret, store. by rewrite Hh. }
  unfold ret at 1.
  destruct (search_entries_run lib slug items [(id, VStr (unquote lib raw))]
              (log (EHttp (search_request slug) (Some resp)) w))
    as (eps1 & -> & _ & _ & Hkey1).
  exists eps1. split; [done|]. apply Hkey1.
  exists (id, VStr (unquote lib raw)). split; [by left|]. by apply key_eqb_refl.
Qed.

Lemma search_terms_first lib slug rest w resp d items raw id :
  net w (length (trace w)) (search_request slug) = Some resp →
  json_body resp = Some (VList (VDict d :: items)) →
  dict_get String.eqb d "slug" = Some (VStr raw) →
  dict_get String.eqb d "id" = Some id →
  hashable id = true →
  contains slug (lower (unquote lib raw)) = true →
  ∃ episodes w',
    for_each (search_term lib slug) [] (slug :: rest) w = (Ok episodes, w') ∧
    has_key episodes id.
Proof.
  intros Hnet Hjson Hraw Hid Hh Hc. cbn [for_each]. unfold bind.
  destruct (search_term_first lib slug w resp d items raw id Hnet Hjson Hraw Hid Hh Hc)
    as (eps1 & -> & Hkey1).
  destruct (search_terms_run lib slug rest eps1
              (log (EHttp (search_request slug) (Some resp)) w))
    as (eps2 & -> & _ & _ & Hkey2).
  eexists eps2, _. split; [done|]. by apply Hkey2.
Qed.

(** X18. What strategy 1 stores. Every entry that it stores comes from a
    hit of the reply to one of its searches: the value is the unquoted slug
    of the hit, the key equals the id of the hit, and the slug, when it is
    a text of ASCII characters, contains the show slug once lower-cased, or
    [w-i-t-c-h] when the show slug is [witch]. A hit is stored: when the
    reply to the first search is a list whose first item has an id that can
    be a key and a slug of ASCII characters that contains the show slug
    once lower-cased, the result has this id as a key. As the show slug
    itself is not lower-cased, strategy 1 stores nothing at all for a show
    slug with an upper-case letter. *)
Theorem strategy_1_entries (lib : PyLib) (slug : string) (w : World) :
  ∃ episodes w1,
    for_each (search_term lib slug) [] (search_terms slug) w = (Ok episodes, w1) ∧
    (∀ kv, kv ∈ episodes →
       ∃ hit, hit ∈ search_hits (net w) (length (trace w)) (search_terms slug) ∧
              stored_hit lib slug hit kv) ∧
    (∀ resp d items raw id,
       net w (length (trace w)) (search_request slug) = Some resp →
       json_body resp = Some (VList (VDict d :: items)) →
       dict_get String.eqb d "slug" = Some (VStr raw) →
       dict_get String.eqb d "id" = Some id →
       hashable id = true →
       ascii_text (unquote lib raw) = true →
       contains slug (lower (unquote lib raw)) = true →
       has_key episodes id) ∧
    (has_upper slug = true → episodes = []).
Proof.
  destruct (search_terms_run lib slug (search_terms slug) [] w)
    as (eps & Hrun & Hk & Hn & _).
  eexists eps, _. split; [exact Hrun|]. split; [|split].
  - intros kv Hin.
    assert (stored_for lib slug
              (λ hit, hit ∈ search_hits (net w) (length (trace w)) (search_terms slug)) eps)
      as H by (apply Hk; [done|constructor]).
    unfold stored_for in H. rewrite Forall_forall in H. by apply H.
  - intros resp d items raw id Hnet Hjson Hraw Hid Hh _ Hc.
    destruct (search_terms_first lib slug
                (replace "-" " " slug ::
                 (if contains "witch" (lower slug)
                  then ["w-i-t-c-h"; "w.i.t.c.h"; "الفتيات الخارقات"] else []))
                w resp d items raw id Hnet Hjson Hraw Hid Hh Hc)
      as (eps' & w' & Hrun' & Hkey).
    change (for_each (search_term lib slug) [] (search_terms slug) w = (Ok eps', w'))
      in Hrun'.
    rewrite Hrun in Hrun'. by injection Hrun' as -> _.
  - intros Hup. apply Hn. intros s. by apply belongs_upper.
Qed.

(** One hit for the show [ben-10]: it is stored under its id. *)
Example strategy_1_one_hit :
  let w := {| net := λ t _, if (t =? 0)%nat
                            then Demo.reply_json
                                   (VList [VDict [("id", VInt 41); ("slug", VStr "ben-10-1x1")]])
                            else None;
              ydl := λ _ _, false; fs := ∅; trace := [] |} in
  (for_each (search_term Demo.lib "ben-10") [] (search_terms "ben-10") w).1
  = Ok [(VInt 41, VStr "ben-10-1x1")].
Proof. vm_compute. reflexivity. Qed.

(** *** [get_show_info] *)

Lemma get_first_pure v w : ∃ r, get_first v w = (r, w).
Proof. destruct v as [| | |[|? ?]|[|? ?]|]; by eexists. Qed.

Lemma get_item_pure v k w : ∃ r, get_item v k w = (r, w).
Proof.
  destruct v as [| | | | |d]; try by eexists. simpl.
  destruct (dict_get String.eqb d k); by eexists.
Qed.

Lemma html_unescape_pure unescape v w : ∃ r, html_unescape unescape v w = (r, w).
Proof.
  destruct v as [| | | |l|d]; try by eexists.
  - simpl. destruct (existsb _ l); by eexists.
  - simpl. destruct (existsb _ d.*1); by eexists.
Qed.

Lemma sub_suffix_pure v w : ∃ r, sub_suffix v w = (r, w).
Proof. destruct v; by eexists. Qed.

Lemma bind_pure {A B} (c : M A) (k : A → M B) w :
  (∀ w, ∃ r, c w = (r, w)) → (∀ a w, ∃ r, k a w = (r, w)) →
  ∃ r, bind c k w = (r, w).
Proof.
  intros Hc Hk. unfold bind. destruct (Hc w) as [[a|e] ->]; [apply Hk|by eexists].
Qed.

Lemma rendered_title_pure data w : ∃ r, rendered_title data w = (r, w).
Proof.
  unfold rendered_title. apply bind_pure; [apply get_first_pure|].
  intros first w1. apply bind_pure; [apply get_item_pure|].
  intros title w2. apply get_item_pure.
Qed.

Lemma found_show_pure unescape slug data w :
  ∃ r, found_show unescape slug data w = (r, w).
Proof.
  apply bind_pure; [apply get_first_pure|]. intros first w1.
  apply bind_pure; [apply get_item_pure|]. intros id w2.
  apply bind_pure; [apply rendered_title_pure|]. intros rendered w3.
  apply bind_pure; [apply html_unescape_pure|]. intros title w4. by eexists.
Qed.

Lemma synthetic_show_pure unescape slug data w :
  ∃ r, synthetic_show unescape slug data w = (r, w).
Proof.
  apply bind_pure; [apply rendered_title_pure|]. intros rendered w3.
  apply bind_pure; [apply html_unescape_pure|]. intros title w4.
  apply bind_pure; [apply sub_suffix_pure|]. intros t w5. by eexists.
Qed.

Lemma get_show_info_run unescape slug url_type w :
  let reply := net w (length (trace w)) (tvshows_request slug) in
  let second := net w (S (length (trace w))) (first_episode_request slug) in
  let w1 := log (EHttp (tvshows_request slug) reply) w in
  let w2 := log (EHttp (first_episode_request slug) second) w1 in
  get_show_info unescape slug url_type w =
  match reply with
  | None => (Raise ConnectionError, w1)
  | Some resp =>
      match json_body resp with
      | None => (Raise JSONDecodeError, w1)
      | Some data =>
          if truthy data then ((found_show unescape slug data w1).1, w1)
          else if String.eqb url_type "episode" then
            match second with
            | None => (Raise ConnectionError, w2)
            | Some resp2 =>
                match json_body resp2 with
                | None => (Raise JSONDecodeError, w2)
                | Some data2 =>
                    if truthy data2 then ((synthetic_show unescape slug data2 w2).1, w2)
                    else (Ok None, w2)
                end
            end
          else (Ok None, w1)
      end
  end.
Proof.
  intros reply second w1 w2. unfold get_show_info, bind at 1, request. fold reply.
  destruct reply as [resp|] eqn:Hreply; [|done]. fold w1.
  unfold bind at 1, json. destruct (json_body resp) as [data|]; [|done].
  unfold ret at 1. destruct (truthy data).
  { destruct (found_show_pure unescape slug data w1) as [r ->]. done. }
  destruct (String.eqb url_type "episode"); [|done].
  unfold bind at 1, request.
  assert (net w1 (length (trace w1)) (first_episode_request slug) = second) as ->.
  { subst w1 second. cbn [net trace log]. rewrite length_app. cbn [length].
    f_equal. lia. }
  fold w2. destruct second as [resp2|]; [|done].
  unfold bind at 1, json. destruct (json_body resp2) as [data2|]; [|done].
  unfold ret at 1. destruct (truthy data2); [|done].
  destruct (synthetic_show_pure unescape slug data2 w2) as [r ->]. done.
Qed.

(** X19. The requests and the failures of [get_show_info]. The function
    asks for the show by its slug. Only when the answer decodes to an
    empty value and the URL was one of an episode does it ask a second
    time, for the episode [slug-1x1]; it never makes a third request.
    Nothing is caught: a request without reply raises a connection error
    and an answer that is not JSON a decoding error, and for a URL that is
    not one of an episode an empty answer gives [None]. A show that is
    found has the id and the unescaped title of the first entry. *)
Theorem get_show_info_spec (unescape : string → string) (slug url_type : string)
    (w : World) :
  let out := get_show_info unescape slug url_type w in
  let reply := net w (length (trace w)) (tvshows_request slug) in
  let second := net w (S (length (trace w))) (first_episode_request slug) in
  let asked_twice :=
    String.eqb url_type "episode" &&
    match decoded reply with Some data => negb (truthy data) | None => false end in
  trace out.2
  = trace w ++ EHttp (tvshows_request slug) reply ::
      (if asked_twice then [EHttp (first_episode_request slug) second] else []) ∧
  (reply = None → out.1 = Raise ConnectionError) ∧
  (∀ resp, reply = Some resp → json_body resp = None → out.1 = Raise JSONDecodeError) ∧
  (∀ data, decoded reply = Some data → truthy data = false →
     if String.eqb url_type "episode"
     then (second = None → out.1 = Raise ConnectionError) ∧
          (∀ data2, decoded second = Some data2 → truthy data2 = false → out.1 = Ok None)
     else out.1 = Ok None) ∧
  (∀ entry rest id title rendered,
     decoded reply = Some (VList (VDict entry :: rest)) →
     dict_get String.eqb entry "id" = Some id →
     dict_get String.eqb entry "title" = Some (VDict title) →
     dict_get String.eqb title "rendered" = Some (VStr rendered) →
     out.1 = Ok (Some {| show_id := id; show_title := VStr (unescape rendered);
                         show_slug := slug |})).
Proof.
  intros out reply second asked_twice.
  pose proof (get_show_info_run unescape slug url_type w) as Hrun. cbn zeta in Hrun.
  fold reply second out in Hrun. clearbody out. subst out asked_twice.
  destruct reply as [resp|] eqn:Hreply; cbn [decoded].
  2: { rewrite andb_false_r. cbn [fst snd trace log]. by repeat split. }
  destruct (json_body resp) as [data|] eqn:Hjson.
  2: { rewrite andb_false_r. cbn [fst snd trace log].
       split; [done|]. split; [done|]. split; [by intros ? [= <-]|]. by split. }
  destruct (truthy data) eqn:Htruthy.
  - cbn [negb]. rewrite andb_false_r. cbn [fst snd trace log].
    split; [done|]. split; [done|]. split; [by intros ? [= <-]; congruence|].
    split; [intros ? [= <-]; congruence|].
    intros entry rest id title rendered [= ->] Hid Htitle Hrendered.
    unfold found_show, rendered_title, bind, get_first, get_item, ret, html_unescape.
    by rewrite Hid, Htitle, Hrendered.
  - cbn [negb]. rewrite andb_true_r.
    destruct (String.eqb url_type "episode") eqn:Hkind.
    + destruct second as [resp2|] eqn:Hsecond;
        [destruct (json_body resp2) as [data2|] eqn:Hjson2;
           [destruct (truthy data2) eqn:Htruthy2|]|];
        cbn [fst snd trace log decoded]; rewrite <- app_assoc;
        (split; [done|]); (split; [done|]);
        (split; [by intros ? [= <-]; congruence|]);
        (split; [|intros ? ? ? ? ? [= ->]; done]);
        intros ? [= <-] _; (split; [done|]); intros ? Hd2 ?;
        first [done | congruence | injection Hd2 as <-; congruence].
    + cbn [fst snd trace log].
      split; [done|]. split; [done|]. split; [by intros ? [= <-]; congruence|].
      split; [|intros ? ? ? ? ? [= ->]; done].
      by intros ? [= <-] _.
Qed.

Lemma get_show_info_spec_witness :
  let w := {| net := λ _ rq,
                match rq with
                | GET _ _ _ =>
                    Demo.reply_json
                      (VList [VDict [("id", VInt 5);
                                     ("title", VDict [("rendered", VStr "W.I.T.C.H")])]])
                | _ => None
                end;
              ydl := λ _ _, false; fs := ∅; trace := [] |} in
  (get_show_info (λ s, s) "witch" "tvshow" w).1
  = Ok (Some {| show_id := VInt 5; show_title := VStr "W.I.T.C.H";
                show_slug := "witch" |}).
Proof.
  intros w.
  refine (proj2 (proj2 (proj2 (proj2 (get_show_info_spec (λ s, s) "witch" "tvshow" w))))
            [("id", VInt 5); ("title", VDict [("rendered", VStr "W.I.T.C.H")])] []
            (VInt 5) [("rendered", VStr "W.I.T.C.H")] "W.I.T.C.H" _ _ _ _);
    reflexivity.
Defined.

(** *** The seasons of the new site *)

Lemma new_episode_entry_run ep w :
  new_episode_entry ep w
  = (match entry_of ep with Some entry => Ok entry | None => Raise AttributeError end, w).
Proof.
  unfold new_episode_entry, entry_of, bind, get_default, obj_get, get_or_none, ret.
  destruct ep as [| | | | |d]; try done.
  by repeat match goal with
     | |- context [dict_get String.eqb d ?k] => destruct (dict_get String.eqb d k)
     end.
Qed.

Lemma season_entries_run items : ∀ episodes w,
  season_entries episodes items w = (Ok (episodes ++ entries_of items), w).
Proof.
  induction items as [|ep items IH]; intros episodes w.
  - simpl. by rewrite app_nil_r.
  - cbn [season_entries entries_of]. unfold bind at 1, try_except, bind at 1.
    rewrite new_episode_entry_run. destruct (entry_of ep) as [entry|].
    + unfold ret at 1. rewrite IH. by rewrite <- app_assoc.
    + unfold ret. by rewrite app_nil_r.
Qed.

Lemma season_step_run episodes season_id w :
  season_step episodes season_id w
  = (Ok (episodes ++ season_of (net w (length (trace w)) (season_request season_id))),
     log (EHttp (season_request season_id)
            (net w (length (trace w)) (season_request season_id))) w).
Proof.
  unfold season_step, season_of, bind at 1, try_except, bind at 1, request.
  destruct (net w (length (trace w)) (season_request season_id)) as [resp|];
    [|unfold ret; by rewrite app_nil_r].
  destruct (status_code resp =? 200).
  - unfold bind at 1, json. destruct (json_body resp) as [data|];
      [|unfold ret; by rewrite app_nil_r].
    unfold ret at 1. unfold bind at 1, get_default, obj_get.
    destruct data as [| | | | |d]; try (unfold ret; by rewrite app_nil_r).
    assert (∀ W, (match dict_get String.eqb d "episodes" with
                  | Some x => ret x
                  | None => ret (VList [])
                  end) W
                 = (Ok (default (VList []) (dict_get String.eqb d "episodes")), W)) as ->
      by (intros W; by destruct (dict_get String.eqb d "episodes")).
    unfold ret at 1.
    destruct (iter_value _) as [items|]; [|unfold ret; by rewrite app_nil_r].
    apply season_entries_run.
  - unfold ret at 1. rewrite season_entries_run. simpl. done.
Qed.

Lemma seasons_loop season_ids : ∀ episodes w,
  let rqs := season_request <$> season_ids in
  let replies := replies_from (net w) (length (trace w)) rqs in
  for_each season_step episodes season_ids w
  = (Ok (episodes ++ flat_map season_of replies), logs (http_events rqs replies) w).
Proof.
  intros episodes w rqs replies. subst rqs replies.
  rewrite (for_each_requests season_step season_request
             (λ episodes _ reply, episodes ++ season_of reply))
    by apply season_step_run.
  cbn zeta. f_equal. f_equal.
  pose proof (replies_from_length (net w) (length (trace w))
                (season_request <$> season_ids)) as Hlen.
  rewrite length_fmap in Hlen. revert Hlen.
  generalize (replies_from (net w) (length (trace w)) (season_request <$> season_ids)).
  intros replies. revert episodes replies.
  induction season_ids as [|x xs IH]; intros episodes [|r replies] Hlen; try done.
  - simpl. by rewrite app_nil_r.
  - simpl. rewrite IH by (simpl in Hlen; lia). by rewrite <- app_assoc.
Qed.

Lemma get_new_stardima_seasons_total set_order show_id page_html w :
  ∃ seasons w', get_new_stardima_seasons set_order show_id page_html w = (Ok seasons, w').
Proof.
  unfold get_new_stardima_seasons, try_except, bind at 1.
  destruct page_html as [html|].
  - destruct (negb (String.eqb html "")); [by eexists _, _|].
    unfold bind, request. destruct (net w _ _); by eexists _, _.
  - unfold bind, request. destruct (net w _ _); by eexists _, _.
Qed.

(** X20. The episodes of the seasons of the new site. When season ids
    are given, the function never raises: it makes exactly one request
    for each season, in order, and the list is made of what the seasons
    add, one after the other. A season adds nothing when its request has
    no reply, a status other than 200 or a body that is not a JSON object,
    and otherwise the entries of its list [episodes] up to the first that
    is no object. When no season id is given, the page of the show is
    asked first, and this request is not guarded: without a reply the
    function raises a connection error; with a reply it returns. *)
Theorem get_new_stardima_episodes_spec (set_order : list string → list string)
    (show_id : string) (w : World) :
  (∀ first others,
     let season_ids := first :: others in
     let rqs := season_request <$> season_ids in
     let replies := replies_from (net w) (length (trace w)) rqs in
     get_new_stardima_episodes set_order show_id (Some season_ids) w
     = (Ok (flat_map season_of replies), logs (http_events rqs replies) w)) ∧
  (∀ season_ids,
     season_ids = None ∨ season_ids = Some [] →
     let page := net w (length (trace w)) (show_page_request show_id) in
     match page with
     | None =>
         get_new_stardima_episodes set_order show_id season_ids w
         = (Raise ConnectionError, log (EHttp (show_page_request show_id) None) w)
     | Some _ =>
         ∃ episodes w', get_new_stardima_episodes set_order show_id season_ids w
                        = (Ok episodes, w')
     end) ∧
  (∀ resp, status_code resp ≠ 200 ∨ json_body resp = None → season_of (Some resp) = []) ∧
  (∀ resp d items,
     status_code resp = 200 → json_body resp = Some (VDict d) →
     dict_get String.eqb d "episodes" = Some (VList (VDict <$> items)) →
     length (season_of (Some resp)) = length items).
Proof.
  split; [|split; [|split]].
  - intros first others season_ids rqs replies.
    unfold get_new_stardima_episodes, bind at 1, ret at 1. subst season_ids.
    apply (seasons_loop (first :: others) [] w).
  - intros season_ids Hnone page.
    assert (get_new_stardima_episodes set_order show_id season_ids w
            = bind (let* resp := request (show_page_request show_id) in
                    get_new_stardima_seasons set_order show_id (Some (text resp)))
                   (for_each season_step []) w) as ->
      by (destruct Hnone as [->| ->]; reflexivity).
    subst page. unfold bind, request.
    destruct (net w (length (trace w)) (show_page_request show_id)) as [resp|] eqn:Hpage;
      [|done].
    destruct (get_new_stardima_seasons_total set_order show_id (Some (text resp))
                (log (EHttp (show_page_request show_id) (Some resp)) w))
      as (seasons & w1 & ->).
    rewrite (seasons_loop seasons [] w1). by eexists _, _.
  - intros resp [Hstatus|Hjson]; unfold season_of.
    + apply Z.eqb_neq in Hstatus. by rewrite Hstatus.
    + rewrite Hjson. by destruct (_ =? _).
  - intros resp d items Hstatus Hjson Hlist. unfold season_of.
    rewrite Hstatus, Hjson, Hlist. cbn [Z.eqb Pos.eqb default iter_value]. unfold id.
    clear. induction items as [|x items IH]; [done|]. simpl. f_equal. exact IH.
Qed.

Lemma findall_go_Forall r (P : string → Prop) :
  (∀ t caps rest g, re_search r t = Some (caps, rest) → group 1 caps = Some g → P g) →
  ∀ fuel s, Forall P (findall_go fuel r s).
Proof.
  intros Hr. induction fuel as [|fuel IH]; intros s; [constructor|]. cbn [findall_go].
  destruct (re_search r s) as [[caps rest]|] eqn:E; [|constructor].
  destruct (group 1 caps) as [g|] eqn:Hg; [|constructor].
  pose proof (Hr s caps rest g E Hg) as HP.
  destruct (_ <? _)%nat; constructor; auto.
Qed.

Lemma season_matches_digits html :
  Forall (λ id, id ≠ "" ∧ all_chars is_digit id = true)
    (findall season_attr_re html ++ findall season_path_re html
     ++ findall season_key_re html).
Proof.
  rewrite !Forall_app. repeat split; apply findall_go_Forall;
    intros t caps rest g (pre & m & -> & Hm)%re_search_sound Hg.
  - unfold season_attr_re, seqs in Hm. cbn [foldr] in Hm. inv_matches; subst.
    unfold group in Hg. cbn [dict_get dict_set Nat.eqb] in Hg. by injection Hg as <-.
  - unfold season_path_re, seqs in Hm. cbn [foldr] in Hm. inv_matches; subst.
    unfold group in Hg. cbn [dict_get dict_set Nat.eqb] in Hg. by injection Hg as <-.
  - unfold season_key_re, seqs in Hm. cbn [foldr] in Hm. inv_matches; subst;
      unfold group in Hg; cbn [dict_get dict_set Nat.eqb] in Hg; by injection Hg as <-.
Qed.

Lemma findall_go_contains r : ∀ fuel s,
  Forall (λ g, contains g s = true) (findall_go fuel r s).
Proof.
  induction fuel as [|fuel IH]; intros s; [constructor|]. cbn [findall_go].
  destruct (re_search r s) as [[caps rest]|] eqn:E; [|constructor].
  destruct (group 1 caps) as [g|] eqn:Hg; [|constructor].
  assert (contains g s = true) as Hc.
  { apply (search_group1_contains r). unfold search_group1. by rewrite E. }
  destruct (_ <? _)%nat; [|by repeat constructor]. constructor; [done|].
  apply re_search_sound in E as (pre & m & -> & _).
  eapply Forall_impl; [apply IH|]. intros g' Hg'. cbn beta in Hg' |- *.
  rewrite <- string_app_assoc. by apply contains_suffix.
Qed.

Lemma season_matches_contained html :
  Forall (λ id, contains id html = true)
    (findall season_attr_re html ++ findall season_path_re html
     ++ findall season_key_re html).
Proof. rewrite !Forall_app. repeat split; apply findall_go_contains. Qed.

(** X21. The season ids of a page. [get_new_stardima_seasons] never
    raises. Given a page text that is not empty it makes no request, and
    without one it asks for the page of the show once; a request without
    reply gives the empty list. When the order of the set keeps to the
    matches, every season id that is returned is a non-empty piece of the
    page text; in a page of ASCII characters it is a text of digits, so
    that the address of the season is well formed, and [int] reads it when
    the digits are at most 4300. *)
Theorem get_new_stardima_seasons_spec (set_order : list string → list string)
    (show_id : string) (w : World) :
  let well_formed := λ html id,
    id ≠ "" ∧ contains id html = true ∧
    (ascii_text html = true →
     all_chars is_digit id = true ∧
     ((String.length id ≤ max_str_digits)%nat → ∃ n, int_ascii id = Some n)) in
  (∀ l id, id ∈ set_order l → id ∈ l) →
  (∀ html, html ≠ "" →
     ∃ seasons,
       get_new_stardima_seasons set_order show_id (Some html) w = (Ok seasons, w) ∧
       Forall (well_formed html) seasons) ∧
  (∀ page_html, page_html = None ∨ page_html = Some "" →
     let reply := net w (length (trace w)) (show_page_request show_id) in
     ∃ seasons,
       get_new_stardima_seasons set_order show_id page_html w
       = (Ok seasons, log (EHttp (show_page_request show_id) reply) w) ∧
       (reply = None → seasons = []) ∧
       (∀ resp, reply = Some resp → Forall (well_formed (text resp)) seasons)).
Proof.
  intros well_formed Horder.
  assert (∀ html,
            Forall (well_formed html)
              (set_order (findall season_attr_re html ++ findall season_path_re html
                          ++ findall season_key_re html))) as Hids.
  { intros html. apply Forall_forall. intros id Hin%Horder.
    pose proof (season_matches_digits html) as Hd. rewrite Forall_forall in Hd.
    pose proof (season_matches_contained html) as Hc. rewrite Forall_forall in Hc.
    destruct (Hd id Hin) as [Hne Hdigits]. split; [done|]. split; [by apply Hc|].
    intros _. split; [done|]. intros Hlen. by apply int_ascii_total. }
  split.
  - intros html Hne. eexists. split; [|apply (Hids html)].
    unfold get_new_stardima_seasons, try_except, bind.
    apply String.eqb_neq in Hne. by rewrite Hne.
  - intros page_html Hnone reply.
    assert (get_new_stardima_seasons set_order show_id page_html w
            = try_except
                (let* page_html :=
                   (let* resp := request (show_page_request show_id) in
                    ret (text resp)) in
                 ret (set_order (findall season_attr_re page_html
                                 ++ findall season_path_re page_html
                                 ++ findall season_key_re page_html)))
                (λ _, ret []) w) as ->
      by (destruct Hnone as [->| ->]; reflexivity).
    subst reply. unfold try_except, bind, request.
    destruct (net w (length (trace w)) (show_page_request show_id)) as [resp|].
    + eexists. split; [reflexivity|]. split; [done|]. intros ? [= <-]. apply Hids.
    + exists []. split; [reflexivity|]. split; [done|]. intros ? [=].
Qed.

Lemma get_new_stardima_seasons_spec_witness :
  get_new_stardima_seasons remove_dups "witch"
    (Some ("<a data-season-id=" +:+ dquote +:+ "12" +:+ dquote
           +:+ " href=/series/season/12>"))
    (Demo.offline ∅)
  = (Ok ["12"], Demo.offline ∅).
Proof.
  destruct (get_new_stardima_seasons_spec remove_dups "witch" (Demo.offline ∅))
    as [Hgiven _]; [intros l id; by rewrite elem_of_remove_dups|].
  cbv zeta in Hgiven.
  destruct (Hgiven ("<a data-season-id=" +:+ dquote +:+ "12" +:+ dquote
                    +:+ " href=/series/season/12>")) as (seasons & Hrun & _);
    [vm_compute; discriminate|].
  rewrite Hrun. vm_compute in Hrun. by injection Hrun as <-.
Defined.

End StardimaTheory.

(** * More on the page downloader *)
Module DimakidsTheory.
Import Py Eff Dimakids EffFacts PyFacts PyTheory DimakidsSpec.

(** *** The resolution of the selected episodes *)

Lemma find_episode_Some episodes_list num ep_data :
  find_episode episodes_list num = Some ep_data →
  ep_data ∈ episodes_list ∧ ep_data.1 = num.
Proof.
  unfold find_episode. intros H. apply find_some in H as [Hin Heq].
  split; [by apply list_elem_of_In|lia].
Qed.

Lemma get_m3u8_link_run lib soup w :
  get_m3u8_link_from_js lib soup w
  = (Ok (match soup with
         | Some page => link_of_scripts (soup_scripts lib page)
         | None => None
         end), w).
Proof. unfold get_m3u8_link_from_js, try_except, ret. by destruct soup. Qed.

Lemma resolve_number_movie lib soup episodes_list final num w :
  resolve_number lib true soup episodes_list final num w
  = (Ok (final ++ match find_episode episodes_list num with
                  | Some ep_data =>
                      match link_of_soup lib soup with
                      | Some url => [{| num := num; link := url; page_link := ep_data.2 |}]
                      | None => []
                      end
                  | None => []
                  end), w).
Proof.
  unfold resolve_number. destruct (find_episode episodes_list num) as [ep|];
    [|by rewrite app_nil_r].
  unfold bind, ret. rewrite get_m3u8_link_run. unfold link_of_soup.
  destruct soup as [page|]; [|by rewrite app_nil_r].
  destruct (link_of_scripts _) as [u|]; [|by rewrite app_nil_r].
  destruct (String.eqb u ""); [by rewrite app_nil_r|done].
Qed.

Lemma resolve_number_series lib soup episodes_list final num w :
  resolve_number lib false soup episodes_list final num w
  = match find_episode episodes_list num with
    | Some ep_data =>
        let reply := net w (length (trace w)) (episode_page ep_data) in
        (Ok (final ++ match resolved_link lib reply with
                      | Some url => [{| num := num; link := url; page_link := ep_data.2 |}]
                      | None => []
                      end),
         log (EHttp (episode_page ep_data) reply) w)
    | None => (Ok final, w)
    end.
Proof.
  unfold resolve_number. destruct (find_episode episodes_list num) as [ep|]; [|done].
  unfold bind. rewrite get_soup_run. fold (episode_page ep). cbn zeta.
  rewrite get_m3u8_link_run. unfold resolved_link, ret.
  destruct (net w (length (trace w)) (episode_page ep)) as [r|]; [|by rewrite app_nil_r].
  destruct (status_ok r); [|by rewrite app_nil_r].
  destruct (link_of_scripts _) as [u|]; [|by rewrite app_nil_r].
  destruct (String.eqb u ""); [by rewrite app_nil_r|done].
Qed.

Lemma resolve_selected_movie lib soup episodes_list selected : ∀ final w,
  for_each (resolve_number lib true soup episodes_list) final selected w
  = (Ok (final ++ omap (λ ep_data, item_of ep_data <$> link_of_soup lib soup)
                       (looked_up episodes_list selected)), w).
Proof.
  induction selected as [|num selected IH]; intros final w.
  - simpl. by rewrite app_nil_r.
  - cbn [for_each]. unfold bind. rewrite resolve_number_movie, IH.
    rewrite <- app_assoc. do 3 f_equal. unfold looked_up. cbn [omap list_omap].
    destruct (find_episode episodes_list num) as [ep|] eqn:E; [|done].
    apply find_episode_Some in E as [_ <-].
    destruct (link_of_soup lib soup); done.
Qed.

Lemma resolve_selected_series lib soup episodes_list selected : ∀ final w,
  let found := looked_up episodes_list selected in
  let replies := replies_from (net w) (length (trace w)) (episode_page <$> found) in
  for_each (resolve_number lib false soup episodes_list) final selected w
  = (Ok (final ++ omap (λ er : (Z * string) * option Response,
                          item_of er.1 <$> resolved_link lib er.2)
                       (zip found replies)),
     logs (http_events (episode_page <$> found) replies) w).
Proof.
  induction selected as [|num selected IH]; intros final w; cbn zeta.
  - simpl. by rewrite app_nil_r, logs_nil.
  - cbn [for_each]. unfold bind. rewrite resolve_number_series.
    unfold looked_up. cbn [omap list_omap].
    destruct (find_episode episodes_list num) as [ep|] eqn:E.
    + cbn zeta. rewrite IH. cbn zeta. fold (looked_up episodes_list selected).
      apply find_episode_Some in E as [_ <-].
      cbn [fmap list_fmap replies_from zip zip_with omap list_omap http_events].
      rewrite log_logs, logs_logs. cbn [trace logs net]. rewrite length_app. cbn [length].
      replace (length (trace w) + 1)%nat with (S (length (trace w))) by lia.
      rewrite <- app_assoc. f_equal. f_equal. f_equal.
      unfold item_of. cbn [fst snd].
      by destruct (resolved_link lib _).
    + by rewrite IH.
Qed.

Lemma elem_of_looked_up episodes_list selected ep_data :
  ep_data ∈ looked_up episodes_list selected →
  ep_data ∈ episodes_list ∧ ep_data.1 ∈ selected.
Proof.
  intros (num & Hnum & Hf)%list_elem_of_omap.
  apply find_episode_Some in Hf as [Hin <-]. done.
Qed.

(** X22. The resolution of the selected numbers. The numbers are
    looked up among the episode numbers of the page, in the order of the
    selection; a number that no episode has causes no request and gives no
    item. For a series exactly one request is made for each of the
    others, for the page of the first episode with that number, and an
    item is added when that page answers with a good status and carries a
    non-empty link. For a movie no request is made: the link is read from
    the page that was scraped. The resolution never raises. *)
Theorem resolve_selected_spec (lib : PyLib) (soup : option string)
    (episodes_list : list (Z * string)) (selected_numbers : list Z) (w : World) :
  let found := looked_up episodes_list selected_numbers in
  let replies := replies_from (net w) (length (trace w)) (episode_page <$> found) in
  resolve_selected lib false soup episodes_list selected_numbers w
  = (Ok (omap (λ er : (Z * string) * option Response,
                 item_of er.1 <$> resolved_link lib er.2) (zip found replies)),
     logs (http_events (episode_page <$> found) replies) w) ∧
  resolve_selected lib true soup episodes_list selected_numbers w
  = (Ok (omap (λ ep_data, item_of ep_data <$> link_of_soup lib soup) found), w) ∧
  (∀ ep_data, ep_data ∈ found →
     ep_data ∈ episodes_list ∧ ep_data.1 ∈ selected_numbers) ∧
  (∀ num, (∀ ep_data, ep_data ∈ episodes_list → ep_data.1 ≠ num) →
     find_episode episodes_list num = None).
Proof.
  intros found replies. split; [|split; [|split]].
  - unfold resolve_selected. by rewrite resolve_selected_series.
  - unfold resolve_selected. by rewrite resolve_selected_movie.
  - apply elem_of_looked_up.
  - intros num Hno. destruct (find_episode episodes_list num) as [ep|] eqn:E; [|done].
    apply find_episode_Some in E as [Hin Heq]. by destruct (Hno ep).
Qed.

Lemma parse_episode_selection_range lib user_input total selected warned x :
  parse_episode_selection lib user_input total = Ok (selected, warned) →
  x ∈ selected → 1 ≤ x ≤ total.
Proof.
  unfold parse_episode_selection. destruct (String.eqb (lower user_input) "all").
  - intros [= <- _]. rewrite elem_of_py_range. lia.
  - destruct (select_loop lib total (∅, []) (split "," (replace " " "" user_input)))
      as [[sel warns]|e] eqn:Hloop; [|done].
    intros [= <- _]. cbn [fst]. rewrite (proj2 (sorted_elements _)). revert Hloop.
    generalize (split "," (replace " " "" user_input)). intros parts.
    assert (∀ st st' : gset Z * list string,
              (∀ y, y ∈ st.1 → 1 ≤ y ≤ total) →
              select_loop lib total st parts = Ok st' → ∀ y, y ∈ st'.1 → 1 ≤ y ≤ total)
      as Hinv.
    { induction parts as [|p parts IH]; intros st st' Hst; cbn [select_loop].
      - by intros [= <-].
      - unfold select_step.
        destruct (select_part lib total p st.1) as [sel1|] eqn:Hp.
        + apply IH. cbn [fst]. intros y Hy.
          apply select_part_Some in Hp as [_ Hsel]. apply Hsel in Hy as [Hy|[Hy _]]; auto.
        + destruct (markup_ok lib (warning p)); [|done]. by apply IH. }
    intros Hloop Hx. apply (Hinv (∅, []) (sel, warns)); [|done|done].
    intros y Hy. by apply elem_of_empty in Hy.
Qed.

(** X23. Which episodes of a series can be selected at all. The
    selection is checked against the number of episodes on the page and
    then looked up among their numbers: whatever the user types, every
    item that is resolved has a number between 1 and the number of
    episodes listed, and is one of them. An episode whose number is
    larger, as on a page that lists the episodes 101 to 112, cannot be
    downloaded. *)
Theorem selectable_numbers (lib : PyLib) (soup : option string)
    (episodes_list : list (Z * string)) (user_input : string) (w : World)
    (selected_numbers : list Z) (warned : list string) :
  let total := Z.of_nat (length episodes_list) in
  parse_episode_selection lib user_input total = Ok (selected_numbers, warned) →
  ∃ items w',
    resolve_selected lib false soup episodes_list selected_numbers w = (Ok items, w') ∧
    ∀ item, item ∈ items →
      1 ≤ num item ≤ total ∧ (num item, page_link item) ∈ episodes_list ∧
      link item ≠ "".
Proof.
  intros total Hparse.
  assert (∀ ep_data, ep_data ∈ looked_up episodes_list selected_numbers →
            1 ≤ ep_data.1 ≤ total ∧ ep_data ∈ episodes_list) as Hfound.
  { intros ep [Hin Hsel]%elem_of_looked_up. split; [|done].
    by apply (parse_episode_selection_range lib user_input total selected_numbers warned). }
  unfold resolve_selected. rewrite resolve_selected_series. eexists _, _. split; [done|].
  intros item ([ep reply] & Hep & Hit)%list_elem_of_omap. cbn [fst snd] in Hit.
  apply elem_of_zip_l in Hep.
  destruct (resolved_link lib reply) as [u|] eqn:Hu; [|done]. injection Hit as <-.
  destruct (Hfound ep Hep) as [? ?]. unfold item_of. cbn [num page_link link].
  split; [done|]. split; [by destruct ep|].
  unfold resolved_link in Hu. destruct reply as [r|]; [|done].
  destruct (status_ok r); [|done]. destruct (link_of_scripts _); [|done].
  destruct (String.eqb_spec s "" ); [done|]. by injection Hu as <-.
Qed.

(** A page that lists the episodes 101 and 102: [all] selects the numbers
    1 and 2, and no item is resolved. *)
Lemma selectable_numbers_witness :
  let episodes_list := [(101, "http://dk/ep101"); (102, "http://dk/ep102")] in
  parse_episode_selection Demo.lib "all" 2 = Ok ([1; 2], []) ∧
  ∃ items w',
    resolve_selected Demo.lib false None episodes_list [1; 2] (Demo.offline ∅)
    = (Ok items, w') ∧
    ∀ item, item ∈ items →
      1 ≤ num item ≤ 2 ∧ (num item, page_link item) ∈ episodes_list ∧ link item ≠ "".
Proof.
  intros episodes_list. split; [vm_compute; reflexivity|].
  apply (selectable_numbers Demo.lib None episodes_list "all" (Demo.offline ∅) [1; 2] []).
  vm_compute. reflexivity.
Defined.

Example selection_101_112 :
  parse_episode_selection Demo.lib "101-112" 12 = Ok ([], []) ∧
  parse_episode_selection Demo.lib "all" 12
  = Ok ([1; 2; 3; 4; 5; 6; 7; 8; 9; 10; 11; 12], []) ∧
  looked_up [(101, "http://dk/ep101"); (102, "http://dk/ep102")] [1; 2] = [].
Proof. split; [|split]; vm_compute; reflexivity. Qed.

(** X24. The files of a series. The name of the file of an episode is
    its number in decimal digits, padded with zeros to at least the width
    of the page and never shorter than two digits, followed by [.mp4]; the
    digits read back as the number. So two episodes with different
    numbers are never written to the same path. *)
Theorem episode_file_names (pg : Page) (item other : Item) :
  is_movie pg = false → 0 ≤ num item → 0 ≤ num other →
  (∃ digits,
     filename_of pg item = digits +:+ ".mp4" ∧
     all_chars is_digit digits = true ∧
     py_int digits = Some (num item) ∧
     (2 ≤ zfill_width pg ≤ String.length digits)%nat) ∧
  (filepath_of pg item = filepath_of pg other → num item = num other).
Proof.
  intros Hmovie Hitem Hother. split.
  - exists (zero_pad (zfill_width pg) (num item)).
    unfold filename_of. rewrite Hmovie.
    destruct (zero_pad_digits (zfill_width pg) (num item) Hitem) as [Hne Hd].
    split; [done|]. split; [done|]. split; [by apply py_int_zero_pad|].
    split; [|apply zero_pad_length].
    unfold zfill_width. destruct (9 <? episode_count pg) eqn:E; [|done].
    apply Z.ltb_lt in E. unfold str_Z.
    destruct (episode_count pg) as [|p|p]; [lia| |lia].
    cbn [Z.to_int NilZero.string_of_int].
    assert (9 < p)%positive as Hp by lia. clear E.
    assert (∀ d, (9 < Pos.of_uint d)%N →
              (2 ≤ String.length (NilEmpty.string_of_uint d))%nat) as Hlen.
    { intros d Hd9.
      assert (∀ d', (String.length (NilEmpty.string_of_uint d') = 0)%nat → d' = Decimal.Nil)
        as Hnil by by intros [].
      destruct d as [|d|d|d|d|d|d|d|d|d|d]; [by vm_compute in Hd9|..];
        cbn [NilEmpty.string_of_uint String.length];
        (destruct (String.length (NilEmpty.string_of_uint d)) eqn:El; [|lia]);
        apply Hnil in El; subst d; by vm_compute in Hd9. }
    assert (NilZero.string_of_uint (Pos.to_uint p)
            = NilEmpty.string_of_uint (Pos.to_uint p)) as ->.
    { pose proof (to_uint_ne p) as Hnil. unfold NilZero.string_of_uint.
      by destruct (Pos.to_uint p). }
    apply Hlen. rewrite DecimalPos.Unsigned.of_to. lia.
  - unfold filepath_of, filename_of. rewrite Hmovie.
    destruct (zero_pad_digits (zfill_width pg) (num item) Hitem) as [Hne Hd].
    destruct (zero_pad_digits (zfill_width pg) (num other) Hother) as [Hne' Hd'].
    rewrite !path_join_relative_eq by by apply digits_not_absolute.
    intros E. do 2 apply string_app_inv_head in E. apply string_app_inv_tail in E.
    apply (f_equal py_int) in E. rewrite !py_int_zero_pad in E by done. congruence.
Qed.

Lemma episode_file_names_witness :
  filename_of Demo.pg Demo.item = "01.mp4" ∧
  (filepath_of Demo.pg Demo.item
   = filepath_of Demo.pg {| num := 10; link := ""; page_link := "" |} → 1 = 10).
Proof.
  split; [vm_compute; reflexivity|].
  refine (proj2 (episode_file_names Demo.pg Demo.item
                   {| num := 10; link := ""; page_link := "" |} _ _ _));
    [reflexivity|vm_compute; discriminate|vm_compute; discriminate].
Defined.

(** X25. The folder of a page. The name of the folder is the title
    without the characters [\/*?:Q<>|], Q the double quote: it has none of
    them, a title without them is kept as it is, and a title made of them
    alone gives the empty name. When the name is not empty, every file of
    the page is written right below the folder. *)
Theorem safe_folder_name_spec (title : string) (pg : Page) (item : Item) :
  let forbidden := "\/*?:" +:+ dquote +:+ "<>|" in
  let folder := safe_folder_name_of title in
  all_chars (none_of forbidden) folder = true ∧
  (String.length folder ≤ String.length title)%nat ∧
  (all_chars (none_of forbidden) title = true → folder = title) ∧
  (all_chars (one_of forbidden) title = true → folder = "") ∧
  (safe_folder_name pg = folder → folder ≠ "" →
   filepath_of pg item = folder +:+ "/" +:+ filename_of pg item).
Proof.
  intros forbidden folder. unfold folder, safe_folder_name_of. fold forbidden.
  assert (all_chars (none_of forbidden) (sub_chars forbidden "" title) = true)
    as Hclean by by apply sub_chars_clean.
  split; [done|]. split; [apply sub_chars_shorter|]. split; [apply sub_chars_id|].
  split; [apply sub_chars_all|].
  intros Hpg Hne. unfold filepath_of. rewrite path_join_relative_eq.
  - rewrite Hpg. unfold separator.
    rewrite (not_endswith_slash forbidden) by done.
    by destruct (String.eqb_spec (sub_chars forbidden "" title) "").
  - unfold filename_of. destruct (is_movie pg).
    + rewrite Hpg. destruct (sub_chars forbidden "" title) as [|c s] eqn:E; [done|].
      rewrite string_app_cons. rewrite all_chars_cons in Hclean.
      apply andb_true_iff in Hclean as [Hc _]. cbn [startswith].
      destruct (Ascii.eqb_spec "/" c) as [<-|]; [|reflexivity].
      vm_compute in Hc. discriminate Hc.
    + apply zero_pad_not_absolute.
Qed.

Lemma safe_folder_name_spec_witness :
  safe_folder_name_of "Sh:ow?" = "Show" ∧
  filepath_of Demo.pg Demo.item
  = safe_folder_name_of "Sh:ow?" +:+ "/" +:+ filename_of Demo.pg Demo.item.
Proof.
  split; [reflexivity|].
  refine (proj2 (proj2 (proj2 (proj2 (safe_folder_name_spec "Sh:ow?" Demo.pg Demo.item))))
            _ _); [reflexivity|vm_compute; discriminate].
Defined.

(** *** The failures of a download attempt *)

(** A playlist without segment lines makes no call of [urljoin]. *)
Lemma segment_urls_error_nil lib url playlist :
  segment_urls_of lib url playlist = [] → segment_urls_error lib url playlist = None.
Proof.
  unfold segment_urls_of, segment_urls_error. intros H%fmap_nil_inv. by rewrite H.
Qed.

Lemma download_playlist_raise lib url filepath name referer w e :
  playlist_error lib url (net w (length (trace w)) (GET url [] (referer_headers referer)))
  = Some e →
  download_with_custom_progress lib url filepath name referer w
  = (Raise e,
     {| net := net w; ydl := ydl w; fs := delete filepath (fs w);
        trace := trace w ++
                 EHttp (GET url [] (referer_headers referer))
                       (net w (length (trace w)) (GET url [] (referer_headers referer)))
                 :: removal filepath w |}).
Proof.
  intros He. unfold download_with_custom_progress, bind at 1, try_except at 1, bind at 1.
  unfold session_get, request. fold (referer_headers referer).
  unfold playlist_error in He.
  destruct (net w (length (trace w)) (GET url [] (referer_headers referer)))
    as [playlist|] eqn:Hnet.
  - unfold bind at 1, raise_for_status. destruct (status_ok playlist).
    + unfold ret at 1.
      destruct (segment_urls_of lib url (text playlist)) as [|u segs] eqn:Hsegs; [|done].
      rewrite (segment_urls_error_nil _ _ _ Hsegs).
      injection He as <-. unfold raise at 1. rewrite cleanup_and_reraise_run.
      unfold cleaned, cleanup_events, removal. cbn [net ydl fs trace log].
      by rewrite app_nil_r, <- app_assoc.
    + injection He as <-. unfold raise at 1. rewrite cleanup_and_reraise_run.
      unfold cleaned, cleanup_events, removal. cbn [net ydl fs trace log].
      by rewrite app_nil_r, <- app_assoc.
  - injection He as <-. rewrite cleanup_and_reraise_run.
    unfold cleaned, cleanup_events, removal. cbn [net ydl fs trace log].
    by rewrite app_nil_r, <- app_assoc.
Qed.

(** X26. A playlist that cannot be used. When the request for the
    playlist gets no reply, the attempt raises a connection error; when
    the reply has a status from 400 to 599, an HTTP error with that
    status; when no line of the playlist names a segment, the value error
    of the function. In each case the request for the playlist is the only
    request, the temporary file is never opened, and the only other effect
    is the removal of a file that was at the final path. *)
Theorem download_unusable_playlist (lib : PyLib)
    (url filepath filename_for_display referer_url : string) (w : World) (e : exn) :
  let rq := GET url [] (referer_headers referer_url) in
  let reply := net w (length (trace w)) rq in
  playlist_error lib url reply = Some e →
  download_with_custom_progress lib url filepath filename_for_display referer_url w
  = (Raise e,
     {| net := net w; ydl := ydl w; fs := delete filepath (fs w);
        trace := trace w ++ EHttp rq reply :: removal filepath w |}) ∧
  (reply = None → e = ConnectionError) ∧
  (∀ playlist, reply = Some playlist →
     if status_ok playlist
     then segment_urls_of lib url (text playlist) = [] ∧
          e = ValueError "No video segments found in the M3U8 playlist."
     else e = HTTPError (status_code playlist)).
Proof.
  intros rq reply He. split; [by apply download_playlist_raise|].
  unfold playlist_error in He. split.
  - intros E. rewrite E in He. by injection He.
  - intros playlist E. rewrite E in He. destruct (status_ok playlist).
    + destruct (segment_urls_of lib url (text playlist)); [|done]. by injection He.
    + by injection He.
Qed.

Lemma download_unusable_playlist_witness :
  let w := Demo.offline {[ "Show/01.mp4" := "complete" ]} in
  download_with_custom_progress Demo.lib "http://h/p.m3u8" "Show/01.mp4" "01.mp4"
    "http://h/ep1" w
  = (Raise ConnectionError,
     {| net := net w; ydl := ydl w; fs := delete "Show/01.mp4" (fs w);
        trace := [EHttp (GET "http://h/p.m3u8" [] (referer_headers "http://h/ep1")) None;
                  ERemove "Show/01.mp4"] |}).
Proof.
  intros w.
  refine (proj1 (download_unusable_playlist Demo.lib "http://h/p.m3u8" "Show/01.mp4"
                   "01.mp4" "http://h/ep1" w ConnectionError _)).
  reflexivity.
Defined.

Lemma fetch_segments_bad referer tmp u post bad e : ∀ pre resps w acc,
  fs w !! tmp = Some acc →
  segment_replies (net w) referer (length (trace w)) pre = Some <$> resps →
  Forall (λ r, status_ok r = true) resps →
  net w (length (trace w) + 2 * length pre) (GET u [] (referer_headers referer)) = bad →
  reply_error bad = Some e →
  fetch_segments [("Referer", referer)] tmp (pre ++ u :: post) w
  = (Raise e,
     {| net := net w; ydl := ydl w;
        fs := <[tmp := acc +:+ segment_data resps]> (fs w);
        trace := trace w ++ segment_events referer tmp (zip pre resps)
                 ++ [EHttp (GET u [] (referer_headers referer)) bad] |}).
Proof.
  induction pre as [|p pre IH]; intros resps w acc Hacc Hrep Hok Hnet Hbad.
  - destruct resps; [|done]. cbn [app length] in *.
    replace (length (trace w) + 2 * 0)%nat with (length (trace w)) in Hnet by lia.
    cbn [fetch_segments segment_data foldr zip zip_with segment_events flat_map app].
    rewrite string_app_empty_r, insert_id by done.
    unfold bind at 1, session_get, request. fold (referer_headers referer).
    rewrite Hnet. destruct bad as [r|].
    + unfold reply_error in Hbad. unfold bind at 1, raise_for_status.
      destruct (status_ok r); [done|]. injection Hbad as <-. by destruct w.
    + injection Hbad as <-. by destruct w.
  - destruct resps as [|r resps]; [done|]. cbn [segment_replies fmap list_fmap] in Hrep.
    injection Hrep as Hr Hrep. apply Forall_cons in Hok as [Hst Hok].
    cbn [app fetch_segments]. unfold bind at 1, session_get, request.
    fold (referer_headers referer). rewrite Hr.
    unfold bind at 1, raise_for_status. rewrite Hst. unfold ret at 1.
    unfold bind at 1, write. cbn [fs log set_fs]. rewrite Hacc. cbn [default].
    rewrite (IH resps _ (acc +:+ text r)).
    + cbn [net ydl fs trace log set_fs segment_data foldr zip zip_with segment_events
           flat_map fst snd app].
      rewrite insert_insert_eq, string_app_assoc, <- !app_assoc. reflexivity.
    + cbn [fs log set_fs]. apply lookup_insert_eq.
    + cbn [trace net log set_fs]. rewrite !length_app. cbn [length].
      replace (length (trace w) + 1 + 1)%nat with (S (S (length (trace w)))) by lia. done.
    + done.
    + cbn [trace net log set_fs]. rewrite !length_app. cbn [length]. rewrite <- Hnet.
      f_equal. cbn [length]. lia.
    + done.
Qed.

Lemma download_segment_failure lib url filepath name referer w playlist pre u post resps
    bad e :
  let tmp := filepath +:+ ".tmp" in
  let rq := GET url [] (referer_headers referer) in
  net w (length (trace w)) rq = Some playlist →
  status_ok playlist = true →
  segment_urls_error lib url (text playlist) = None →
  segment_urls_of lib url (text playlist) = pre ++ u :: post →
  segment_replies (net w) referer (length (trace w) + 2) pre = Some <$> resps →
  Forall (λ r, status_ok r = true) resps →
  net w (length (trace w) + 2 + 2 * length pre) (GET u [] (referer_headers referer)) = bad →
  reply_error bad = Some e →
  download_with_custom_progress lib url filepath name referer w
  = (Raise e,
     {| net := net w; ydl := ydl w;
        fs := delete tmp (delete filepath (fs w));
        trace := trace w ++ EHttp rq (Some playlist) :: EOpen tmp ::
                 segment_events referer tmp (zip pre resps) ++
                 EHttp (GET u [] (referer_headers referer)) bad ::
                 removal filepath w ++ [ERemove tmp] |}).
Proof.
  intros tmp rq Hnet Hst Hjoin Hsegs Hrep Hok Hu Hbad.
  unfold download_with_custom_progress, bind at 1, try_except at 1, bind at 1.
  unfold session_get, request. fold (referer_headers referer). fold rq. rewrite Hnet.
  unfold bind at 1, raise_for_status. rewrite Hst. unfold ret at 1. rewrite Hjoin, Hsegs.
  assert (pre ++ u :: post ≠ []) as Hne by (by destruct pre).
  destruct (pre ++ u :: post) as [|u0 segs0] eqn:E; [done|]. rewrite <- E. clear E Hne.
  unfold ret at 1. fold tmp. unfold try_except, bind at 1, open_wb.
  unfold bind at 1.
  rewrite (fetch_segments_bad referer tmp u post bad e pre resps _ "").
  - rewrite cleanup_and_reraise_run. cbn [fs trace net ydl log set_fs].
    unfold cleaned, cleanup_events, removal. rewrite string_app_nil_l.
    rewrite !delete_delete_insert.
    assert (<[tmp:=segment_data resps]> (<[tmp:=""]> (fs w)) !! filepath = fs w !! filepath)
      as ->.
    { rewrite !lookup_insert_ne by apply temp_path_ne. done. }
    rewrite (bool_decide_eq_true_2
               (is_Some (delete filepath (<[tmp:=segment_data resps]> (<[tmp:=""]> (fs w)))
                           !! tmp))).
    + by rewrite <- !app_assoc.
    + rewrite lookup_delete_ne by (intros E; symmetry in E; by apply temp_path_ne in E).
      rewrite lookup_insert_eq. by eexists.
  - cbn [fs log set_fs]. apply lookup_insert_eq.
  - cbn [trace net log set_fs]. rewrite !length_app. cbn [length].
    replace (length (trace w) + 1 + 1)%nat with (length (trace w) + 2)%nat by lia. done.
  - done.
  - cbn [trace net log set_fs]. rewrite !length_app. cbn [length]. rewrite <- Hu.
    f_equal. lia.
  - done.
Qed.

Lemma download_urljoin_failure lib url filepath name referer w playlist msg :
  let rq := GET url [] (referer_headers referer) in
  net w (length (trace w)) rq = Some playlist →
  status_ok playlist = true →
  segment_urls_error lib url (text playlist) = Some msg →
  download_with_custom_progress lib url filepath name referer w
  = (Raise (ValueError msg),
     {| net := net w; ydl := ydl w; fs := delete filepath (fs w);
        trace := trace w ++ EHttp rq (Some playlist) :: removal filepath w |}).
Proof.
  intros rq Hnet Hst Hjoin.
  unfold download_with_custom_progress, bind at 1, try_except at 1, bind at 1.
  unfold session_get, request. fold (referer_headers referer). fold rq. rewrite Hnet.
  unfold bind at 1, raise_for_status. rewrite Hst. unfold ret at 1. rewrite Hjoin.
  unfold raise at 1. rewrite cleanup_and_reraise_run.
  unfold cleaned, cleanup_events, removal. cbn [net ydl fs trace log].
  by rewrite app_nil_r, <- app_assoc.
Qed.

(** X27. The failures of a download attempt whose playlist was fetched
    with a good status. When an address of a segment cannot be formed, the
    attempt raises the value error of [urljoin]: the request for the
    playlist is the only request, the temporary file is never opened, and
    a file at the final path is removed. When the fetch of a segment
    fails, the segments before it having been fetched, the attempt raises
    the exception of the failed request: the segments before it were
    written in the order of the playlist, the failed request is the last
    one, so the segments after it are never requested, and the handler
    removes a file at the final path and the temporary file. *)
Theorem download_failure (lib : PyLib)
    (url filepath filename_for_display referer_url : string) (w : World)
    (playlist : Response) :
  let out := download_with_custom_progress lib url filepath filename_for_display
               referer_url w in
  let tmp := filepath +:+ ".tmp" in
  let rq := GET url [] (referer_headers referer_url) in
  net w (length (trace w)) rq = Some playlist →
  status_ok playlist = true →
  (∀ msg,
     segment_urls_error lib url (text playlist) = Some msg →
     out = (Raise (ValueError msg),
            {| net := net w; ydl := ydl w; fs := delete filepath (fs w);
               trace := trace w ++ EHttp rq (Some playlist) :: removal filepath w |})) ∧
  (∀ pre u post resps bad e,
     segment_urls_error lib url (text playlist) = None →
     segment_urls_of lib url (text playlist) = pre ++ u :: post →
     segment_replies (net w) referer_url (length (trace w) + 2) pre = Some <$> resps →
     Forall (λ r, status_ok r = true) resps →
     net w (length (trace w) + 2 + 2 * length pre) (GET u [] (referer_headers referer_url))
     = bad →
     reply_error bad = Some e →
     out = (Raise e,
            {| net := net w; ydl := ydl w;
               fs := delete tmp (delete filepath (fs w));
               trace := trace w ++ EHttp rq (Some playlist) :: EOpen tmp ::
                        segment_events referer_url tmp (zip pre resps) ++
                        EHttp (GET u [] (referer_headers referer_url)) bad ::
                        removal filepath w ++ [ERemove tmp] |})).
Proof.
  intros out tmp rq Hnet Hst. split.
  - intros msg Hjoin. by apply download_urljoin_failure.
  - intros pre u post resps bad e Hjoin Hsegs Hrep Hok Hu Hbad.
    by apply (download_segment_failure lib url filepath filename_for_display referer_url
                w playlist pre u post resps bad e).
Qed.

(** The second segment of the demo cannot be fetched yet: the first one
    was written, and nothing is left at the temporary path. A playlist
    with a line that [urljoin] refuses makes no request for a segment. *)
Lemma download_failure_witness :
  let out := download_with_custom_progress Demo.lib Demo.stream "Show/01.mp4" "01.mp4"
               "http://dk/ep1" Demo.flaky in
  out.1 = Raise ConnectionError ∧
  fs out.2 !! "Show/01.mp4.tmp" = None ∧
  length (trace out.2) = 6%nat.
Proof.
  destruct (download_failure Demo.lib Demo.stream "Show/01.mp4" "01.mp4" "http://dk/ep1"
              Demo.flaky
              {| status_code := 200;
                 text := "#EXTM3U" +:+ newline +:+ "http://cdn/s1.ts" +:+ newline
                         +:+ "http://cdn/s2.ts" +:+ newline;
                 json_body := None |})
    as [_ Hseg]; [vm_compute; reflexivity|reflexivity|].
  intros out. subst out.
  rewrite (Hseg ["http://cdn/s1.ts"] "http://cdn/s2.ts" []
             [{| status_code := 200; text := "AAAA"; json_body := None |}]
             None ConnectionError);
    [ | vm_compute; reflexivity | vm_compute; reflexivity | vm_compute; reflexivity
      | repeat constructor | vm_compute; reflexivity | reflexivity ].
  split; [reflexivity|]. split; vm_compute; reflexivity.
Defined.

Example download_refused_line :
  let w := {| net := λ _ _, Demo.reply ("#EXTM3U" +:+ newline +:+ "//[" +:+ newline);
              ydl := λ _ _, false; fs := ∅; trace := [] |} in
  let out := download_with_custom_progress Demo.lib "http://h/p.m3u8" "Show/01.mp4"
               "01.mp4" "http://h/ep1" w in
  out.1 = Raise (ValueError "Invalid IPv6 URL") ∧ length (trace out.2) = 1%nat.
Proof. split; vm_compute; reflexivity. Qed.

Lemma space_not_hash line :
  line ≠ "" → all_chars is_space line = true → segment_line line = true.
Proof.
  destruct line as [|c line]; [done|]. intros _. rewrite all_chars_cons.
  intros [Hc _]%andb_true_iff. unfold segment_line. cbn [String.eqb negb andb startswith].
  destruct (Ascii.eqb_spec "#" c) as [<-|]; [|reflexivity].
  vm_compute in Hc. discriminate Hc.
Qed.

(** X28. The lines of a playlist. A playlist is read line by line: the
    lines that are not empty and do not start with [#] give the segments,
    in their order, each joined to the URL of the playlist after its white
    space has been stripped. The test comes before the stripping, so a
    line of white space alone, such as the carriage return that a blank
    line of a playlist with CRLF line ends leaves, counts as a segment: it
    gives the URL that the empty reference joins to. *)
Theorem segment_urls_of_lines (lib : PyLib) (url : string) (lines : list string) :
  lines ≠ [] → Forall (λ line, contains newline line = false) lines →
  let segment_urls := segment_urls_of lib url (join newline lines) in
  segment_urls
  = (λ line, urljoin lib url (strip line)) <$> List.filter segment_line lines ∧
  (length segment_urls ≤ length lines)%nat ∧
  (∀ line, line ∈ lines → line ≠ "" → all_chars is_space line = true →
     urljoin lib url "" ∈ segment_urls).
Proof.
  intros Hne Hlines segment_urls.
  assert (segment_urls
          = (λ line, urljoin lib url (strip line)) <$> List.filter segment_line lines)
    as Heq.
  { unfold segment_urls, segment_urls_of. by rewrite split_join_lines. }
  split; [done|]. rewrite Heq. split.
  - rewrite length_fmap. apply List.filter_length_le.
  - intros line Hin Hline Hspace.
    apply list_elem_of_fmap. exists line. split.
    + unfold strip. by rewrite lstrip_spaces.
    + apply list_elem_of_In, filter_In. split; [by apply list_elem_of_In|].
      by apply space_not_hash.
Qed.

Lemma segment_urls_of_lines_witness :
  let cr := String "013" "" in
  segment_urls_of Demo.lib "http://cdn/p.m3u8"
    (join newline ["#EXTM3U" +:+ cr; cr; "s1.ts" +:+ cr; ""])
  = (λ line, urljoin Demo.lib "http://cdn/p.m3u8" (strip line))
    <$> List.filter segment_line ["#EXTM3U" +:+ cr; cr; "s1.ts" +:+ cr; ""] ∧
  urljoin Demo.lib "http://cdn/p.m3u8" ""
  ∈ segment_urls_of Demo.lib "http://cdn/p.m3u8"
      (join newline ["#EXTM3U" +:+ cr; cr; "s1.ts" +:+ cr; ""]).
Proof.
  intros cr.
  assert (["#EXTM3U" +:+ cr; cr; "s1.ts" +:+ cr; ""] ≠ []) as Hne by discriminate.
  assert (Forall (λ line, contains newline line = false)
            ["#EXTM3U" +:+ cr; cr; "s1.ts" +:+ cr; ""]) as Hall
    by (repeat constructor).
  destruct (segment_urls_of_lines Demo.lib "http://cdn/p.m3u8" _ Hne Hall)
    as (Heq & _ & Hspace).
  split; [exact Heq|]. apply (Hspace cr).
  - apply list_elem_of_In. right. left. reflexivity.
  - discriminate.
  - reflexivity.
Defined.

End DimakidsTheory.
